(** * Launch-cost scripts: a shallow embedding and its checked properties

    The repository holds four independent batch scripts:
    - [elevator_ground_cost.py]  average cost per ton, elevator vs ground;
    - [fuel_calc.py]             propellant mass per fuel type (Tsiolkovsky);
    - [water_schedule_cost.py]   two-phase water supply cost of one year;
    - [plot_water_cost.py]       cumulative daily cost series of the same schedule.

    Every number the scripts compute is a Python [float], that is an IEEE 754
    binary64 value.  The arithmetic of each script is embedded once, over an
    interface [Arith] of the operations the source uses, and read at two
    instances:
    - [b64]: binary64, the kernel's primitive floats (what the interpreter
      computes, rounding and special values included);
    - [exact]: the real numbers (the formula the source text denotes, with no
      rounding).
    Exceptions are values of an error monad; a raised exception that nothing
    catches ends the process with a non-zero exit status. *)

From Stdlib Require Import ZArith Floats Reals Lra Lia List String Ascii Bool.
Import ListNotations.

Set Warnings "-inexact-float".

(** ** Exceptions and the error monad *)

Inductive pyerror : Type :=
| ValueError
| TypeError
| KeyError
| IndexError
| AttributeError
| OverflowError
| ZeroDivisionError
| StopIteration.

Inductive result (A : Type) : Type :=
| Ok (a : A)
| Raise (e : pyerror).

Arguments Ok {A} a.
Arguments Raise {A} e.

Definition bind {A B : Type} (c : result A) (k : A -> result B) : result B :=
  match c with
  | Ok a => k a
  | Raise e => Raise e
  end.

Declare Scope py_scope.
Delimit Scope py_scope with py.
Notation "x <- c ;; k" := (bind c (fun x => k))
  (at level 61, c at next level, right associativity) : py_scope.
Notation "' p <- c ;; k" := (bind c (fun x => let 'p := x in k))
  (at level 61, p pattern, c at next level, right associativity) : py_scope.

Definition raises {A : Type} (c : result A) : Prop :=
  exists e, c = Raise e.

(** [try: c except ValueError: d] *)
Definition except_ValueError {A : Type} (c : result A) (d : A) : result A :=
  match c with
  | Raise ValueError => Ok d
  | other => other
  end.

(** A [for] loop over [l] that threads a state and stops at the first
    exception. *)
Fixpoint foldM {S A : Type} (step : S -> A -> result S) (l : list A) (s : S) : result S :=
  match l with
  | [] => Ok s
  | a :: l' => (s' <- step s a ;; foldM step l' s')%py
  end.

Fixpoint mapM {A B : Type} (f : A -> result B) (l : list A) : result (list B) :=
  match l with
  | [] => Ok []
  | a :: l' => (b <- f a ;; bs <- mapM f l' ;; Ok (b :: bs))%py
  end.

(** ** The arithmetic the scripts use

    [lit m e] is the numeric literal [m * 10^e] of the source text.
    [div] is the quotient itself; Python's [/] first tests the divisor
    ([truediv] below).  [of_int] is the conversion Python applies to an [int]
    operand that meets a [float]. *)

Class Arith (F : Type) : Type := {
  lit : Z -> Z -> F;
  add : F -> F -> F;
  sub : F -> F -> F;
  mul : F -> F -> F;
  div : F -> F -> F;
  ltb : F -> F -> bool;
  leb : F -> F -> bool;
  eqb : F -> F -> bool;
  of_int : Z -> result F
}.

Declare Scope num_scope.
Delimit Scope num_scope with num.
Infix "+" := add : num_scope.
Infix "-" := sub : num_scope.
Infix "*" := mul : num_scope.
Infix "<?" := ltb : num_scope.
Infix "<=?" := leb : num_scope.
Infix "=?" := eqb : num_scope.

Section Operators.
Context {F : Type} {arith : Arith F}.

(** [a > b] and [a >= b] are [b < a] and [b <= a]. *)
Definition gtb (a b : F) : bool := ltb b a.
Definition geb (a b : F) : bool := leb b a.

(** [x / y]: float division raises on a zero divisor. *)
Definition truediv (x y : F) : result F :=
  if eqb y (lit 0 0) then Raise ZeroDivisionError else Ok (div x y).

(** [x * n] and [x / n] with [n] an [int]: the integer is converted first. *)
Definition mul_int (x : F) (n : Z) : result F :=
  (y <- of_int n ;; Ok (mul x y))%py.

Definition truediv_int (x : F) (n : Z) : result F :=
  (y <- of_int n ;; truediv x y)%py.

(** The builtin [max(a, b)] of two arguments: [b] replaces [a] only when
    [b > a] holds. *)
Definition max2 (a b : F) : F := if gtb b a then b else a.
End Operators.

Infix ">?" := gtb : num_scope.
Infix ">=?" := geb : num_scope.

(** [math.exp]. *)
Class MathExp (F : Type) : Type := { math_exp : F -> result F }.

(** The builtin [sum] over a list of floats. *)
Class Summation (F : Type) : Type := { py_sum : list F -> F }.

(** ** Binary64 *)

Module B64.
Open Scope Z_scope.

(** The decimal [m * 10^e] rounded to the nearest binary64 value, ties to
    even: one rounding of the exact integer, or of the exact quotient of two
    integers. *)
Definition sf_of_decimal (m e : Z) : spec_float :=
  match m with
  | Z0 => S754_zero false
  | Zpos p =>
      if 0 <=? e then binary_normalize prec emax (m * 10 ^ e) 0 false
      else SFdiv prec emax (S754_finite false p 0)
                           (S754_finite false (Z.to_pos (10 ^ (- e))) 0)
  | Zneg p =>
      if 0 <=? e then binary_normalize prec emax (m * 10 ^ e) 0 false
      else SFdiv prec emax (S754_finite true p 0)
                           (S754_finite false (Z.to_pos (10 ^ (- e))) 0)
  end.

Definition of_decimal (m e : Z) : float := SF2Prim (sf_of_decimal m e).

(** [float(n)] for an [int] [n]: nearest value, [OverflowError] beyond the
    largest finite one. *)
Definition of_int (n : Z) : result float :=
  match binary_normalize prec emax n 0 false with
  | S754_infinity _ => Raise OverflowError
  | sf => Ok (SF2Prim sf)
  end.

(** CPython's wrapper of the C library's [exp] ([math_1] with
    [can_overflow = 1]): a NaN from a non-NaN argument is a domain error, an
    infinity from a finite argument is a range error. *)
Definition math_exp (libm_exp : float -> float) (x : float) : result float :=
  let r := libm_exp x in
  if PrimFloat.is_nan r && negb (PrimFloat.is_nan x) then Raise ValueError
  else if PrimFloat.is_infinity r && PrimFloat.is_finite x then Raise OverflowError
  else Ok r.

(** Left-to-right summation from the integer start value [0]. *)
Definition fold_sum (l : list float) : float :=
  fold_left PrimFloat.add l PrimFloat.zero.
End B64.

#[export] Instance b64 : Arith float := {|
  lit := B64.of_decimal;
  add := PrimFloat.add;
  sub := PrimFloat.sub;
  mul := PrimFloat.mul;
  div := PrimFloat.div;
  ltb := PrimFloat.ltb;
  leb := PrimFloat.leb;
  eqb := PrimFloat.eqb;
  of_int := B64.of_int
|}.

Definition b64_exp (libm_exp : float -> float) : MathExp float :=
  {| math_exp := B64.math_exp libm_exp |}.

Definition b64_fold_sum : Summation float := {| py_sum := B64.fold_sum |}.

(** ** Exact arithmetic *)

Module Exact.
Open Scope R_scope.

Definition of_decimal (m e : Z) : R :=
  if (0 <=? e)%Z then IZR m * IZR (10 ^ e) else IZR m / IZR (10 ^ (- e)).

Definition ltb (a b : R) : bool := if Rlt_dec a b then true else false.
Definition leb (a b : R) : bool := if Rle_dec a b then true else false.
Definition eqb (a b : R) : bool := if Req_dec_T a b then true else false.
End Exact.

#[export] Instance exact : Arith R := {|
  lit := Exact.of_decimal;
  add := Rplus;
  sub := Rminus;
  mul := Rmult;
  div := Rdiv;
  ltb := Exact.ltb;
  leb := Exact.leb;
  eqb := Exact.eqb;
  of_int := fun n => Ok (IZR n)
|}.

#[export] Instance exact_exp : MathExp R := {| math_exp := fun x => Ok (exp x) |}.

#[export] Instance exact_sum : Summation R := {| py_sum := fun l => fold_left Rplus l 0%R |}.

(** ** Text

    A [str] is modelled by its UTF-8 bytes.  [str.strip] removes the blank
    characters of Unicode, whatever their length in bytes.  [str.lower] and
    [str.isalnum] are modelled on the ASCII range: a byte of a longer sequence
    is left as it is and counts as alphanumeric (the site names are CJK or
    Latin letters).  No character outside ASCII has a lower case among the
    letters of [space elevator], so the prefix test of [is_elevator] is exact. *)

Module Str.
Open Scope string_scope.

Definition code (c : ascii) : N := N_of_ascii c.

Definition is_upper (c : ascii) : bool := ((65 <=? code c) && (code c <=? 90))%N.
Definition is_lower (c : ascii) : bool := ((97 <=? code c) && (code c <=? 122))%N.
Definition is_digit (c : ascii) : bool := ((48 <=? code c) && (code c <=? 57))%N.

(** [str.isspace] on one character: TAB, LF, VT, FF, CR, FS, GS, RS, US, SPACE. *)
Definition is_space (c : ascii) : bool :=
  (((9 <=? code c) && (code c <=? 13)) || ((28 <=? code c) && (code c <=? 32)))%N.

Definition isalnum (c : ascii) : bool :=
  is_upper c || is_lower c || is_digit c || (128 <=? code c)%N.

Definition lower_char (c : ascii) : ascii :=
  if is_upper c then ascii_of_N (code c + 32) else c.

Fixpoint lower (s : string) : string :=
  match s with
  | EmptyString => EmptyString
  | String c s' => String (lower_char c) (lower s')
  end.

Definition startswith (s p : string) : bool := String.prefix p s.

Definition endswith (s suf : string) : bool :=
  let n := String.length s in
  let k := String.length suf in
  (k <=? n)%nat && String.eqb (substring (n - k) k s) suf.

(** [s[:-k]] for [0 < k]. *)
Definition drop_last (k : nat) (s : string) : string :=
  substring 0 (String.length s - k) s.

Fixpoint lstrip_by (p : ascii -> bool) (s : string) : string :=
  match s with
  | EmptyString => EmptyString
  | String c s' => if p c then lstrip_by p s' else s
  end.

Fixpoint rstrip_by (p : ascii -> bool) (s : string) : string :=
  match s with
  | EmptyString => EmptyString
  | String c s' =>
      match rstrip_by p s' with
      | EmptyString => if p c then EmptyString else String c EmptyString
      | r => String c r
      end
  end.

(** [s.strip(chars)] for a set [p] of one-byte characters. *)
Definition strip_by (p : ascii -> bool) (s : string) : string :=
  rstrip_by p (lstrip_by p s).

(** The blank characters of three bytes: U+1680, U+2000 to U+200A, U+2028,
    U+2029, U+202F, U+205F and U+3000. *)
Definition wide_blank (a b c : N) : bool :=
  ((a =? 225) && (b =? 154) && (c =? 128)
   || (a =? 226) && (b =? 128) &&
      ((128 <=? c) && (c <=? 138) || (c =? 168) || (c =? 169) || (c =? 175))
   || (a =? 226) && (b =? 129) && (c =? 159)
   || (a =? 227) && (b =? 128) && (c =? 128))%N.

(** The blank characters of two bytes: U+0085 and U+00A0. *)
Definition narrow_blank (a b : N) : bool :=
  ((a =? 194) && ((b =? 133) || (b =? 160)))%N.

(** What follows a blank character at the head of [s], if there is one;
    with [backwards], [s] is read from its end. *)
Definition after_blank (backwards : bool) (s : string) : option string :=
  match s with
  | String c r =>
      if is_space c then Some r
      else
        match r with
        | String d r' =>
            if (if backwards then narrow_blank (code d) (code c)
                else narrow_blank (code c) (code d))
            then Some r'
            else
              match r' with
              | String e r'' =>
                  if (if backwards then wide_blank (code e) (code d) (code c)
                      else wide_blank (code c) (code d) (code e))
                  then Some r''
                  else None
              | EmptyString => None
              end
        | EmptyString => None
        end
  | EmptyString => None
  end.

Fixpoint drop_blanks (backwards : bool) (turns : nat) (s : string) : string :=
  match turns with
  | O => s
  | S n =>
      match after_blank backwards s with
      | Some r => drop_blanks backwards n r
      | None => s
      end
  end.

Definition reverse (s : string) : string :=
  string_of_list_ascii (List.rev (list_ascii_of_string s)).

(** [s.strip()] *)
Definition strip (s : string) : string :=
  let s1 := drop_blanks false (String.length s) s in
  reverse (drop_blanks true (String.length s1) (reverse s1)).

(** The blanks of the C locale, which [float] skips around an ASCII text. *)
Definition is_c_space (c : ascii) : bool :=
  (((9 <=? code c) && (code c <=? 13)) || (code c =? 32))%N.

Fixpoint is_ascii (s : string) : bool :=
  match s with
  | EmptyString => true
  | String c s' => (code c <? 128)%N && is_ascii s'
  end.

Definition is_underscore (c : ascii) : bool := (code c =? 95)%N.

(** [s.replace("__", "_")]: one pass from the left, matches do not overlap. *)
Fixpoint replace_dunder (s : string) : string :=
  match s with
  | String a ((String b s'') as s') =>
      if is_underscore a && is_underscore b
      then String a (replace_dunder s'')
      else String a (replace_dunder s')
  | _ => s
  end.

(** ["__" in s] *)
Fixpoint has_dunder (s : string) : bool :=
  match s with
  | String a ((String b _) as s') =>
      (is_underscore a && is_underscore b) || has_dunder s'
  | _ => false
  end.
End Str.

(** ** Dictionaries

    A [dict] with [str] keys keeps its keys in insertion order; assigning to a
    key that is present replaces the value in place. *)

Module Dict.
Section Dict.
Context {V : Type}.

Definition t : Type := list (string * V).

Fixpoint get (d : t) (k : string) : option V :=
  match d with
  | [] => None
  | (k', v) :: d' => if String.eqb k' k then Some v else get d' k
  end.

(** [d[k] = v] *)
Fixpoint set (d : t) (k : string) (v : V) : t :=
  match d with
  | [] => [(k, v)]
  | (k', v') :: d' =>
      if String.eqb k' k then (k', v) :: d' else (k', v') :: set d' k v
  end.

(** [k in d] *)
Definition contains (d : t) (k : string) : bool :=
  match get d k with Some _ => true | None => false end.

(** [d[k]] *)
Definition getitem (d : t) (k : string) : result V :=
  match get d k with Some v => Ok v | None => Raise KeyError end.

(** [d.items()] *)
Definition items (d : t) : list (string * V) := d.
End Dict.
Arguments t V : clear implicits.
End Dict.

(** ** CSV input

    A file is the list of rows the [csv] reader yields, each a list of cells;
    a blank line is the empty row.  [csv.DictReader] takes the first row as
    the field names, skips empty rows, and maps each field name to the cell
    below it, or to [None] where the row is too short. *)

Module Csv.
Definition file : Type := list (list string).
Definition row : Type := Dict.t (option string).

Fixpoint zip_row (fieldnames cells : list string) (d : row) : row :=
  match fieldnames with
  | [] => d
  | k :: ks =>
      match cells with
      | [] => zip_row ks [] (Dict.set d k None)
      | c :: cs => zip_row ks cs (Dict.set d k (Some c))
      end
  end.

Definition nonempty (cells : list string) : bool :=
  match cells with [] => false | _ => true end.

Definition DictReader (f : file) : list row :=
  match f with
  | [] => []
  | fieldnames :: rest => map (fun cells => zip_row fieldnames cells []) (filter nonempty rest)
  end.

(** [next(it)] on what is left of an iterator. *)
Definition next {A : Type} (it : list A) : result (A * list A) :=
  match it with
  | [] => Raise StopIteration
  | a :: rest => Ok (a, rest)
  end.

(** [row[key]] *)
Definition field (r : row) (key : string) : result (option string) :=
  Dict.getitem r key.

(** [row[key].strip()]: [None] has no such method. *)
Definition field_strip (r : row) (key : string) : result string :=
  (v <- field r key ;;
   match v with
   | Some s => Ok (Str.strip s)
   | None => Raise AttributeError
   end)%py.
End Csv.

(** ** [float(s)] and [int(x)]

    [float] is modelled on ASCII text.  It accepts single underscores between
    digits, skips the blanks of the C locale at both ends, and reads a sign
    and then either [inf], [infinity] or [nan] in any case, or decimal digits
    with an optional point and an optional exponent; all of the text must be
    used.  Anything else is a [ValueError].  (Outside ASCII, [float] also
    reads the decimal digits and blanks of other scripts: [py_float] refuses
    every text that is not ASCII, and [Unicode.float_text] below is [float]
    on any text, over a table of those characters.) *)

Module Parse.
Open Scope string_scope.
Open Scope Z_scope.

Inductive numeral : Type :=
| NInf (neg : bool)
| NNan
| NDec (neg : bool) (m e : Z).

(** Underscores are dropped; each must stand between two digits. *)
Fixpoint drop_underscores (prev : option ascii) (s : string) : option string :=
  match s with
  | EmptyString =>
      match prev with
      | Some p => if Str.is_underscore p then None else Some EmptyString
      | None => Some EmptyString
      end
  | String c s' =>
      let prev_digit := match prev with Some p => Str.is_digit p | None => false end in
      let prev_under := match prev with Some p => Str.is_underscore p | None => false end in
      if Str.is_underscore c then
        if prev_digit then drop_underscores (Some c) s' else None
      else if prev_under && negb (Str.is_digit c) then None
      else option_map (String c) (drop_underscores (Some c) s')
  end.

Definition digit_value (c : ascii) : Z := Z.of_N (Str.code c) - 48.

(** The digits at the front of [s]: their value after [acc], how many, the rest. *)
Fixpoint take_digits (acc n : Z) (s : string) : Z * Z * string :=
  match s with
  | String c s' =>
      if Str.is_digit c then take_digits (10 * acc + digit_value c) (n + 1) s'
      else (acc, n, s)
  | EmptyString => (acc, n, s)
  end.

Definition take_sign (s : string) : bool * string :=
  match s with
  | String "-" s' => (true, s')
  | String "+" s' => (false, s')
  | _ => (false, s)
  end.

(** An exponent part; one without digits is not read at all. *)
Definition take_exponent (s : string) : Z * string :=
  match s with
  | String c s' =>
      if (Str.code (Str.lower_char c) =? 101)%N then
        let '(neg, s'') := take_sign s' in
        let '(v, n, rest) := take_digits 0 0 s'' in
        if n =? 0 then (0, s) else ((if neg then - v else v), rest)
      else (0, s)
  | EmptyString => (0, s)
  end.

Definition parse_decimal (neg : bool) (s : string) : option numeral :=
  let '(m1, n1, r1) := take_digits 0 0 s in
  let '(m2, n2, r2) :=
    match r1 with
    | String "." r => take_digits m1 0 r
    | _ => (m1, 0, r1)
    end in
  if n1 + n2 =? 0 then None
  else
    let '(ex, r3) := take_exponent r2 in
    match r3 with
    | EmptyString => Some (NDec neg m2 (ex - n2))
    | _ => None
    end.

Definition parse_numeral (s : string) : option numeral :=
  match drop_underscores None s with
  | None => None
  | Some s1 =>
      let '(neg, s2) := take_sign s1 in
      let w := Str.lower s2 in
      if String.eqb w "inf" || String.eqb w "infinity" then Some (NInf neg)
      else if String.eqb w "nan" then Some NNan
      else parse_decimal neg s2
  end.

Definition float_of_numeral (n : numeral) : float :=
  match n with
  | NInf false => PrimFloat.infinity
  | NInf true => PrimFloat.neg_infinity
  | NNan => PrimFloat.nan
  | NDec neg m e =>
      if m =? 0 then (if neg then PrimFloat.neg_zero else PrimFloat.zero)
      else B64.of_decimal (if neg then - m else m) e
  end.

(** [float(s)] for a [str] *)
Definition py_float (s : string) : result float :=
  match parse_numeral (Str.strip_by Str.is_c_space s) with
  | Some n => Ok (float_of_numeral n)
  | None => Raise ValueError
  end.

(** [float(v)] for a cell that may be [None] *)
Definition py_float_cell (v : option string) : result float :=
  match v with
  | Some s => py_float s
  | None => Raise TypeError
  end.

(** [int(x)] for a [float]: truncation toward zero. *)
Definition py_int (x : float) : result Z :=
  match Prim2SF x with
  | S754_nan => Raise ValueError
  | S754_infinity _ => Raise OverflowError
  | S754_zero _ => Ok 0
  | S754_finite s m e =>
      let v := if 0 <=? e then Z.pos m * 2 ^ e else Z.pos m / 2 ^ (- e) in
      Ok (if s then - v else v)
  end.
End Parse.

(** ** [f"{x:.pf}"]

    The text of a float with [p] digits after the point: the exact binary
    value rounded to [p] decimals, ties to even; [inf], [-inf] and [nan]
    for the values that are no numbers. *)

Module Fmt.
Open Scope string_scope.
Open Scope Z_scope.

Definition digit (d : Z) : ascii := ascii_of_N (Z.to_N (48 + d)).

(** The [w] low decimal digits of [n], the most significant first. *)
Fixpoint digits_fixed (w : nat) (n : Z) : string :=
  match w with
  | O => ""
  | S w' => String (digit (n / 10 ^ Z.of_nat w' mod 10)) (digits_fixed w' n)
  end.

(** The number of decimal digits of [n >= 0]; every turn drops one digit
    and at least one bit, so the bit length bounds the number of turns. *)
Fixpoint count_digits (turns : nat) (n : Z) : nat :=
  match turns with
  | O => 1
  | S t => if n <? 10 then 1%nat else S (count_digits t (n / 10))
  end.

Definition decimal (n : Z) : string :=
  digits_fixed (count_digits (Z.to_nat (Z.log2 n)) n) n.

(** The integer nearest to [num / den], a tie going to the even one. *)
Definition round_half_even (num den : Z) : Z :=
  let q := num / den in
  let r := num mod den in
  match 2 * r ?= den with
  | Lt => q
  | Gt => q + 1
  | Eq => if Z.even q then q else q + 1
  end.

(** [m * 2^e * 10^p] rounded to an integer. *)
Definition scaled (p : nat) (m : positive) (e : Z) : Z :=
  if 0 <=? e then Z.pos m * 2 ^ e * 10 ^ Z.of_nat p
  else round_half_even (Z.pos m * 10 ^ Z.of_nat p) (2 ^ (- e)).

(** [q / 10^p] written with [p] digits after the point. *)
Definition fixed (p : nat) (q : Z) : string :=
  match p with
  | O => decimal q
  | S _ => decimal (q / 10 ^ Z.of_nat p) ++ "." ++ digits_fixed p q
  end.

Definition sign (s : bool) : string := if s then "-" else "".

(** [f"{x:.pf}"]: the exact value of [x] rounded to [p] decimals, ties to
    even; a zero or a negative value that rounds to zero keeps its sign. *)
Definition format_fixed (p : nat) (x : float) : string :=
  match Prim2SF x with
  | S754_nan => "nan"
  | S754_infinity s => sign s ++ "inf"
  | S754_zero s => sign s ++ fixed p 0
  | S754_finite s m e => sign s ++ fixed p (scaled p m e)
  end.
End Fmt.

(** ** Text outside ASCII

    Before it parses a [str] that is not all ASCII, [float] rewrites it
    character by character: a character below U+007F stays, a blank becomes
    a space, a decimal digit of any script becomes its ASCII digit, and at
    the first other character a question mark is put and the rest dropped.
    Which characters are blanks and digits is the Unicode database of the
    interpreter; a [table] stands for it.  Text is UTF-8, as the scripts read
    it. *)

Module Unicode.
Open Scope N_scope.

Inductive digit : Type := D0 | D1 | D2 | D3 | D4 | D5 | D6 | D7 | D8 | D9.

Inductive kind : Type :=
| Blank
| Decimal (d : digit)
| Other.

(** The kind of each code point from U+007F on. *)
Definition table : Type := N -> kind.

Definition digit_char (d : digit) : ascii :=
  match d with
  | D0 => "0" | D1 => "1" | D2 => "2" | D3 => "3" | D4 => "4"
  | D5 => "5" | D6 => "6" | D7 => "7" | D8 => "8" | D9 => "9"
  end%char.

(** The six low bits of a continuation byte. *)
Definition low (c : ascii) : N := Str.code c mod 64.

(** The first character of a text and what follows it; [None] where the
    bytes are no character. *)
Definition next_char (s : string) : option (N * string) :=
  match s with
  | EmptyString => None
  | String a r =>
      let a := Str.code a in
      if a <? 128 then Some (a, r)
      else if a <? 192 then None
      else if a <? 224 then
        match r with
        | String b r1 => Some ((a - 192) * 64 + low b, r1)
        | _ => None
        end
      else if a <? 240 then
        match r with
        | String b (String c r2) => Some ((a - 224) * 4096 + low b * 64 + low c, r2)
        | _ => None
        end
      else if a <? 248 then
        match r with
        | String b (String c (String d r3)) =>
            Some ((a - 240) * 262144 + low b * 4096 + low c * 64 + low d, r3)
        | _ => None
        end
      else None
  end.

(** The ASCII text [float] parses in place of [s]; a character takes at
    least one byte, so the length of [s] bounds the number of turns. *)
Fixpoint to_ascii (chars : table) (turns : nat) (s : string) : string :=
  match turns with
  | O => EmptyString
  | S n =>
      match s with
      | EmptyString => EmptyString
      | _ =>
          match next_char s with
          | None => "?"%string
          | Some (cp, rest) =>
              if cp <? 127 then String (ascii_of_N cp) (to_ascii chars n rest)
              else
                match chars cp with
                | Blank => String " "%char (to_ascii chars n rest)
                | Decimal d => String (digit_char d) (to_ascii chars n rest)
                | Other => "?"%string
                end
          end
      end
  end.

(** The database of Unicode 14.0: the blanks from U+007F on, and the 650
    decimal digits, which come in 65 runs of ten. *)
Definition decimal_runs : list N :=
  [1632; 1776; 1984; 2406; 2534; 2662; 2790; 2918; 3046; 3174; 3302; 3430; 3558;
   3664; 3792; 3872; 4160; 4240; 6112; 6160; 6470; 6608; 6784; 6800; 6992; 7088;
   7232; 7248; 42528; 43216; 43264; 43472; 43504; 43600; 44016; 65296; 66720;
   68912; 69734; 69872; 69942; 70096; 70384; 70736; 70864; 71248; 71360; 71472;
   71904; 72016; 72784; 73040; 73120; 92768; 92864; 93008; 120782; 120792;
   120802; 120812; 120822; 123200; 123632; 125264; 130032].

Definition digit_of (k : N) : digit :=
  match k with
  | 0 => D0 | 1 => D1 | 2 => D2 | 3 => D3 | 4 => D4
  | 5 => D5 | 6 => D6 | 7 => D7 | 8 => D8 | _ => D9
  end.

Definition is_blank (cp : N) : bool :=
  (cp =? 133) || (cp =? 160) || (cp =? 5760) || ((8192 <=? cp) && (cp <=? 8202))
  || (cp =? 8232) || (cp =? 8233) || (cp =? 8239) || (cp =? 8287) || (cp =? 12288).

Definition unicode_14 : table := fun cp =>
  if is_blank cp then Blank
  else
    match find (fun start => (start <=? cp) && (cp <? start + 10)) decimal_runs with
    | Some start => Decimal (digit_of (cp - start))
    | None => Other
    end.

(** [float(s)] for any [str]: [Parse.py_float] on the text itself when it is
    ASCII, on its rewriting when it is not. *)
Definition float_text (chars : table) (s : string) : result float :=
  if Str.is_ascii s then Parse.py_float s
  else Parse.py_float (to_ascii chars (String.length s) s).
End Unicode.


(** * The scripts *)

(** ** elevator_ground_cost.py *)

Module elevator_ground_cost.

Definition is_elevator (name : string) : bool :=
  Str.startswith (Str.lower name) "space elevator".

Section Compute.
Context {F : Type} {arith : Arith F} {summation : Summation F}.
Local Open Scope num_scope.

Definition C : F := lit 713 (-5).
Definition M : F := lit 125 0.
Definition PAYLOAD_TONS : F := lit 125 0.

(** The two assignments at the head of the loop body. *)
Definition cost_per_ton (f_total : F) : result F :=
  let cost_launch := C * M * f_total in
  truediv cost_launch PAYLOAD_TONS.

(** One turn of [for name, f_total in rows]. *)
Definition classify_step (lists : list F * list F) (r : string * F)
  : result (list F * list F) :=
  let '(elevator_costs, ground_costs) := lists in
  let '(name, f_total) := r in
  (c <- cost_per_ton f_total ;;
   if is_elevator name then Ok (elevator_costs ++ [c], ground_costs)
   else Ok (elevator_costs, ground_costs ++ [c]))%py.

Definition classify (rows : list (string * F)) : result (list F * list F) :=
  foldM classify_step rows ([], []).

(** [sum(costs) / len(costs) if costs else 0.0] *)
Definition average (costs : list F) : result F :=
  match costs with
  | [] => Ok (lit 0 0)
  | _ :: _ => truediv_int (py_sum costs) (Z.of_nat (List.length costs))
  end.

(** The two averages [main] writes, elevator first. *)
Definition summary (rows : list (string * F)) : result (F * F) :=
  ('(elevator_costs, ground_costs) <- classify rows ;;
   elevator_avg <- average elevator_costs ;;
   ground_avg <- average ground_costs ;;
   Ok (elevator_avg, ground_avg))%py.
End Compute.

Definition load_row (row : Csv.row) : result (string * float) :=
  (name <- Csv.field_strip row "发射场" ;;
   cell <- Csv.field row "总f" ;;
   f_total <- Parse.py_float_cell cell ;;
   Ok (name, f_total))%py.

Definition load_rows (f : Csv.file) : result (list (string * float)) :=
  mapM load_row (Csv.DictReader f).

Definition main (builtin_sum : Summation float) (dv_f : Csv.file) : result (float * float) :=
  (rows <- load_rows dv_f ;; summary rows)%py.

(** The rows [main] writes to [elevator_ground_cost.csv].  No cell holds a
    comma, a quote or a line break, so the writer puts each cell down as it
    is and a reader of the file gets these rows back. *)
Definition output (elevator_avg ground_avg : float) : Csv.file :=
  [ ["类型"; "每吨价格(亿美元/吨)"];
    ["电梯平均"; Fmt.format_fixed 6 elevator_avg];
    ["地面平均"; Fmt.format_fixed 6 ground_avg] ]%string.

(** [main], as far as the file it writes. *)
Definition main_writes (builtin_sum : Summation float) (dv_f : Csv.file) : result Csv.file :=
  ('(elevator_avg, ground_avg) <- main builtin_sum dv_f ;;
   Ok (output elevator_avg ground_avg))%py.
End elevator_ground_cost.

(** ** fuel_calc.py *)

Module fuel_calc.

Fixpoint mark_non_alnum (s : string) : string :=
  match s with
  | EmptyString => EmptyString
  | String ch s' =>
      String (if Str.isalnum ch then ch else "_"%char) (mark_non_alnum s')
  end.

(** [while "__" in slug: slug = slug.replace("__", "_")]; every turn shortens
    [slug], so its length bounds the number of turns. *)
Fixpoint squeeze (turns : nat) (slug : string) : string :=
  match turns with
  | O => slug
  | S n => if Str.has_dunder slug then squeeze n (Str.replace_dunder slug) else slug
  end.

Definition slugify (name : string) : string :=
  let slug := Str.strip_by Str.is_underscore (mark_non_alnum (Str.lower name)) in
  let slug := squeeze (String.length slug) slug in
  match slug with
  | EmptyString => "site"
  | _ => slug
  end.

Definition LAUNCHES_PER_WORKSTATION_PER_YEAR : Z := 134.
Definition YEARS : Z := 65.

Section Compute.
Context {F : Type} {arith : Arith F} {mexp : MathExp F}.
Local Open Scope num_scope.

Definition G0 : F := lit 980665 (-5).
Definition PAYLOAD_TONS : F := lit 125 0.
Definition MASS_RATIO_CAP : option F := None.

Record engine : Type := { isp_sea : F; isp_vac : F }.

Definition ENGINE_TYPES : Dict.t engine :=
  [ ("液氧煤油"%string, {| isp_sea := lit 310 0; isp_vac := lit 368 0 |});
    ("液氧液氢"%string, {| isp_sea := lit 386 0; isp_vac := lit 472 0 |});
    ("液氧甲烷"%string, {| isp_sea := lit 370 0; isp_vac := lit 400 0 |}) ].

Definition CO2_FACTORS : Dict.t F :=
  [ ("液氧煤油"%string, lit 96 (-2) + lit 51 (-2));
    ("液氧甲烷"%string, lit 60 (-2) + lit 48 (-2));
    ("液氧液氢"%string, lit 0 0 + lit 166 (-2)) ].

(** [if cap is not None and ratio > cap: ratio = cap] *)
Definition apply_cap (cap : option F) (ratio : F) : F :=
  match cap with
  | Some c => if ratio >? c then c else ratio
  | None => ratio
  end.

Definition propellant_per_launch (dv isp : F) : result F :=
  (q <- truediv dv (isp * G0) ;;
   ratio <- math_exp q ;;
   let ratio := apply_cap MASS_RATIO_CAP ratio in
   Ok (PAYLOAD_TONS * (ratio - lit 1 0)))%py.

(** One turn of [for slug, ws in ws_map.items()], on the two running totals. *)
Definition site_step (isp : engine) (dv_map : Dict.t (F * F))
  (totals : F * F) (site : string * Z) : result (F * F) :=
  let '(total_atm, total_vac) := totals in
  let '(slug, ws) := site in
  if (ws <=? 0)%Z then Ok totals
  else if negb (Dict.contains dv_map slug) then Ok totals
  else
    ('(dv_atm, dv_vac) <- Dict.getitem dv_map slug ;;
     let launches := (ws * LAUNCHES_PER_WORKSTATION_PER_YEAR * YEARS)%Z in
     atm_per <- propellant_per_launch dv_atm (isp_sea isp) ;;
     vac_per <- propellant_per_launch dv_vac (isp_vac isp) ;;
     atm <- mul_int atm_per launches ;;
     let total_atm := total_atm + atm in
     vac <- mul_int vac_per launches ;;
     let total_vac := total_vac + vac in
     Ok (total_atm, total_vac))%py.

(** The inner loop, from [total_atm = total_vac = 0.0]. *)
Definition fuel_totals (isp : engine) (dv_map : Dict.t (F * F)) (ws_map : Dict.t Z)
  : result (F * F) :=
  foldM (site_step isp dv_map) (Dict.items ws_map) (lit 0 0, lit 0 0).

(** One turn of [for fuel, isp in ENGINE_TYPES.items()]: the tuple appended
    to [totals]. *)
Definition fuel_row (dv_map : Dict.t (F * F)) (ws_map : Dict.t Z)
  (entry : string * engine) : result (string * F * F * F) :=
  let '(fuel, isp) := entry in
  ('(total_atm, total_vac) <- fuel_totals isp dv_map ws_map ;;
   let total_propellant := total_atm + total_vac in
   factor <- Dict.getitem CO2_FACTORS fuel ;;
   let co2 := total_propellant * factor in
   Ok (fuel, total_atm, total_vac, co2))%py.

Definition totals (dv_map : Dict.t (F * F)) (ws_map : Dict.t Z)
  : result (list (string * F * F * F)) :=
  mapM (fuel_row dv_map ws_map) (Dict.items ENGINE_TYPES).
End Compute.

Definition load_dv_step (dv_map : Dict.t (float * float)) (row : Csv.row)
  : result (Dict.t (float * float)) :=
  (name <- Csv.field_strip row "发射场" ;;
   let slug := slugify name in
   cell_atm <- Csv.field row "大气dv(km/s)" ;;
   x_atm <- Parse.py_float_cell cell_atm ;;
   let dv_atm := (x_atm * 1000.0)%float in
   cell_vac <- Csv.field row "真空dv(km/s)" ;;
   x_vac <- Parse.py_float_cell cell_vac ;;
   let dv_vac := (x_vac * 1000.0)%float in
   Ok (Dict.set dv_map slug (dv_atm, dv_vac)))%py.

Definition load_dv (f : Csv.file) : result (Dict.t (float * float)) :=
  foldM load_dv_step (Csv.DictReader f) [].

Definition SUFFIX : string := "_workstations_in_use".

(** [row[idx]] *)
Definition cell_at (row : list string) (idx : nat) : result string :=
  match nth_error row idx with
  | Some c => Ok c
  | None => Raise IndexError
  end.

(** One turn of [for idx, col in enumerate(header)]. *)
Definition load_workstations_step (row : list string) (ws_map : Dict.t Z)
  (entry : nat * string) : result (Dict.t Z) :=
  let '(idx, col) := entry in
  if Str.endswith col SUFFIX then
    let slug := Str.drop_last (String.length SUFFIX) col in
    (ws <- except_ValueError
             (c <- cell_at row idx ;; x <- Parse.py_float c ;; Parse.py_int x) 0%Z ;;
     Ok (Dict.set ws_map slug ws))%py
  else Ok ws_map.

Definition enumerate {A : Type} (l : list A) : list (nat * A) :=
  combine (seq 0 (List.length l)) l.

Definition load_workstations (f : Csv.file) : result (Dict.t Z) :=
  ('(header, rest) <- Csv.next f ;;
   '(row, _) <- Csv.next rest ;;
   foldM (load_workstations_step row) (enumerate header) [])%py.

Definition main (libm_exp : float -> float) (dv_f optimal : Csv.file)
  : result (list (string * float * float * float)) :=
  (dv_map <- load_dv dv_f ;;
   ws_map <- load_workstations optimal ;;
   totals (mexp := b64_exp libm_exp) dv_map ws_map)%py.
End fuel_calc.

(** ** water_schedule_cost.py *)

Module water_schedule_cost.

Definition DAYS_FULL : Z := 102.
Definition DAYS_DEFICIT : Z := 263.
Definition DAYS_PER_YEAR : Z := 365.

Section Compute.
Context {F : Type} {arith : Arith F}.
Local Open Scope num_scope.

Definition ANNUAL_USE_TONS : F := lit 1387000 0.
Definition RECOVERY_RATE : F := lit 90 (-2).
Definition DEFICIT_RATE : F := lit 1 0 - RECOVERY_RATE.
Definition RESERVE_FRACTION : F := lit 50 (-2).

(** The quantities [main] computes and writes, by their names there. *)
Record schedule : Type := {
  deficit_per_year : F;
  reserve_target : F;
  delivered_full : F;
  delivered_deficit : F;
  total_delivered : F;
  reserve_filled : F;
  remaining_reserve : F;
  total_cost : F
}.

Definition compute (cost_per_ton capacity_per_year : F) : result schedule :=
  (capacity_per_day <- truediv_int capacity_per_year DAYS_PER_YEAR ;;
   let deficit_per_year := ANNUAL_USE_TONS * DEFICIT_RATE in
   deficit_per_day <- truediv_int deficit_per_year DAYS_PER_YEAR ;;
   delivered_full <- mul_int capacity_per_day DAYS_FULL ;;
   deficit_full <- mul_int deficit_per_day DAYS_FULL ;;
   let reserve_target := ANNUAL_USE_TONS * RESERVE_FRACTION in
   let reserve_filled := max2 (delivered_full - deficit_full) (lit 0 0) in
   let remaining_reserve := max2 (reserve_target - reserve_filled) (lit 0 0) in
   delivered_deficit <- mul_int deficit_per_day DAYS_DEFICIT ;;
   let total_delivered := delivered_full + delivered_deficit in
   let total_cost := total_delivered * cost_per_ton in
   Ok {| deficit_per_year := deficit_per_year;
         reserve_target := reserve_target;
         delivered_full := delivered_full;
         delivered_deficit := delivered_deficit;
         total_delivered := total_delivered;
         reserve_filled := reserve_filled;
         remaining_reserve := remaining_reserve;
         total_cost := total_cost |})%py.
End Compute.

Definition load_cost_and_capacity (f : Csv.file) : result (float * float) :=
  ('(row, _) <- Csv.next (Csv.DictReader f) ;;
   cell_cost <- Csv.field row "cost_per_ton_亿美元/吨" ;;
   cost_per_ton <- Parse.py_float_cell cell_cost ;;
   cell_capacity <- Csv.field row "capacity_per_year_吨/年" ;;
   capacity_per_year <- Parse.py_float_cell cell_capacity ;;
   Ok (cost_per_ton, capacity_per_year))%py.

Definition main (water_cost : Csv.file) : result (schedule (F := float)) :=
  ('(cost_per_ton, capacity_per_year) <- load_cost_and_capacity water_cost ;;
   compute cost_per_ton capacity_per_year)%py.
End water_schedule_cost.

(** ** plot_water_cost.py *)

Module plot_water_cost.

Definition DAYS_FULL : Z := 102.
Definition DAYS_PER_YEAR : Z := 365.

(** [range(a, b)] *)
Definition range (a b : Z) : list Z :=
  map (fun k => (a + Z.of_nat k)%Z) (seq 0 (Z.to_nat (b - a))).

(** [l[-1]] *)
Definition last_item {A : Type} (l : list A) : result A :=
  match rev l with
  | [] => Raise IndexError
  | x :: _ => Ok x
  end.

Section Compute.
Context {F : Type} {arith : Arith F}.
Local Open Scope num_scope.

Definition ANNUAL_USE_TONS : F := lit 1387000 0.
Definition RECOVERY_RATE : F := lit 90 (-2).
Definition DEFICIT_RATE : F := lit 1 0 - RECOVERY_RATE.

(** One turn of [for d in range(1, DAYS_PER_YEAR + 1)] on the two lists. *)
Definition day_step (capacity_per_day deficit_per_day cost_elev cost_ground : F)
  (series : list F * list F) (d : Z) : result (list F * list F) :=
  let '(elevator_recovery, ground_recovery) := series in
  if (d <=? DAYS_FULL)%Z then
    (e <- last_item elevator_recovery ;;
     let elevator_recovery := elevator_recovery ++ [e + capacity_per_day * cost_elev] in
     g <- last_item ground_recovery ;;
     let ground_recovery := ground_recovery ++ [g + capacity_per_day * cost_ground] in
     Ok (elevator_recovery, ground_recovery))%py
  else
    (e <- last_item elevator_recovery ;;
     let elevator_recovery := elevator_recovery ++ [e + deficit_per_day * cost_elev] in
     g <- last_item ground_recovery ;;
     let ground_recovery := ground_recovery ++ [g + deficit_per_day * cost_ground] in
     Ok (elevator_recovery, ground_recovery))%py.

(** The body of [cumulative_costs] after its two reads. *)
Definition series_of (capacity_per_year cost_elev cost_ground : F)
  : result (list Z * list F * list F) :=
  (capacity_per_day <- truediv_int capacity_per_year DAYS_PER_YEAR ;;
   deficit_per_day <- truediv_int (ANNUAL_USE_TONS * DEFICIT_RATE) DAYS_PER_YEAR ;;
   let days := range 0 (DAYS_PER_YEAR + 1) in
   '(elevator_recovery, ground_recovery) <-
      foldM (day_step capacity_per_day deficit_per_day cost_elev cost_ground)
            (range 1 (DAYS_PER_YEAR + 1)) ([lit 0 0], [lit 0 0]) ;;
   Ok (days, elevator_recovery, ground_recovery))%py.
End Compute.

Definition read_capacity (f : Csv.file) : result float :=
  ('(row, _) <- Csv.next (Csv.DictReader f) ;;
   cell <- Csv.field row "capacity_per_year_吨/年" ;;
   Parse.py_float_cell cell)%py.

(** [next(r for r in rows if r["类型"] == label)] *)
Fixpoint first_of_type (label : string) (rows : list Csv.row) : result Csv.row :=
  match rows with
  | [] => Raise StopIteration
  | r :: rest =>
      (v <- Csv.field r "类型" ;;
       match v with
       | Some s => if String.eqb s label then Ok r else first_of_type label rest
       | None => first_of_type label rest
       end)%py
  end.

Definition read_costs (f : Csv.file) : result (float * float) :=
  let rows := Csv.DictReader f in
  (elevator <- first_of_type "电梯平均" rows ;;
   ground <- first_of_type "地面平均" rows ;;
   cell_e <- Csv.field elevator "每吨价格(亿美元/吨)" ;;
   cost_e <- Parse.py_float_cell cell_e ;;
   cell_g <- Csv.field ground "每吨价格(亿美元/吨)" ;;
   cost_g <- Parse.py_float_cell cell_g ;;
   Ok (cost_e, cost_g))%py.

Definition cumulative_costs (water_cost elevator_ground_cost : Csv.file)
  : result (list Z * list float * list float) :=
  (capacity_per_year <- read_capacity water_cost ;;
   '(cost_elev, cost_ground) <- read_costs elevator_ground_cost ;;
   series_of capacity_per_year cost_elev cost_ground)%py.
End plot_water_cost.

(** * Notions the properties are stated with *)

(** ** Classes of binary64 values *)

Module SF.
Open Scope Z_scope.

(** The exponent of the last place of a binary64 value with [x] bits above
    the binary point. *)
Definition fexp64 (x : Z) : Z := Z.max (x - 53) (-1074).

Definition is_num (x : spec_float) : bool :=
  match x with S754_nan => false | _ => true end.

Definition is_fin (x : spec_float) : bool :=
  match x with S754_zero _ | S754_finite _ _ _ => true | _ => false end.

Definition is_nn (x : spec_float) : bool :=
  match x with
  | S754_zero _ | S754_finite false _ _ | S754_infinity false => true
  | _ => false
  end.

Definition is_pos (x : spec_float) : bool :=
  match x with
  | S754_finite false _ _ | S754_infinity false => true
  | _ => false
  end.

(** What a result becomes when its exponent goes up by one. *)
Definition lift (x : spec_float) : spec_float :=
  match x with
  | S754_finite s m e => if e + 1 <=? 971 then S754_finite s m (e + 1) else S754_infinity s
  | other => other
  end.

(** The value 2. *)
Definition two : spec_float := S754_finite false 4503599627370496 (-51).

(** Values of magnitude [2^-1021] and more: the infinities and the finite
    values above the lowest normal binade. *)
Definition is_big (x : spec_float) : bool :=
  match x with
  | S754_infinity _ => true
  | S754_finite _ _ e => -1073 <=? e
  | _ => false
  end.

(** The real number a binary64 value stands for (zero for the values that
    are not numbers); [B2R] reads it off a float of the interpreter. *)
Definition pow2 (e : Z) : R := powerRZ 2 e.

Definition SF2R (x : spec_float) : R :=
  match x with
  | S754_finite s m e => ((if s then -1 else 1) * IZR (Z.pos m) * pow2 e)%R
  | _ => 0%R
  end.

Definition B2R (x : float) : R := SF2R (Prim2SF x).

(** [a] is [b] up to a relative error of [u]. *)
Definition within (u a b : R) : Prop := ((1 - u) * b <= a <= (1 + u) * b)%R.

(** One unit in the last place of a 53-bit mantissa, [2^-52]. *)
Definition ulp53 : R := (/ 4503599627370496)%R.

End SF.

(** ** Located values

    The rounding of [SpecFloat] works on a mantissa, an exponent and the
    place of the exact value between that mantissa and the next. *)

(** Where a real number lies against the integers: in the cell that starts at
    [m], at the place [l] says. *)
Definition cell (u : R) (m : Z) (l : location) : Prop :=
  match l with
  | loc_Exact => u = IZR m
  | loc_Inexact Lt => (IZR m < u < IZR m + / 2)%R
  | loc_Inexact Eq => u = (IZR m + / 2)%R
  | loc_Inexact Gt => (IZR m + / 2 < u < IZR m + 1)%R
  end.

(** A positive mantissa at an exponent, or the infinity above the largest
    exponent. *)
Definition fin_or_inf (p : positive) (E : Z) : spec_float :=
  if (E <=? 971)%Z then S754_finite false p E else S754_infinity false.

(** The float of the mantissa [k], at most [2^53], at the exponent [E]. *)
Definition pack (k E : Z) : spec_float :=
  match k with
  | Z0 => S754_zero false
  | Z.pos p =>
      if (p =? 9007199254740992)%positive then fin_or_inf 4503599627370496 (E + 1)
      else fin_or_inf p E
  | Z.neg _ => S754_nan
  end.

(** The real value of a positive mantissa at an exponent. *)
Definition val (m : positive) (e : Z) : R := (IZR (Z.pos m) * SF.pow2 e)%R.

(** The real value of a float from zero on (zero for the others). *)
Definition nnval (x : spec_float) : R :=
  match x with
  | S754_finite false m e => val m e
  | _ => 0%R
  end.

(** ** The sum over qualifying sites

    The sum as the specification words it, to compare the loop of
    [fuel_calc.main] with: a site counts when its workstation count is
    positive and it has a delta-v record; it then adds its per-launch
    propellant times [workstations * 134 * 65] to each total. *)

Section SumOverSites.
Context {F : Type} {arith : Arith F} {mexp : MathExp F}.
Local Open Scope num_scope.

(** Launches of a site over the whole period. *)
Definition total_launches (ws : Z) : Z := (ws * 134 * 65)%Z.

(** The sites that count, in the order of the workstation table. *)
Definition qualifying_sites (dv_map : Dict.t (F * F)) (ws_map : Dict.t Z)
  : list (Z * (F * F)) :=
  flat_map
    (fun site : string * Z =>
       if (0 <? snd site)%Z then
         match Dict.get dv_map (fst site) with
         | Some dv => [(snd site, dv)]
         | None => []
         end
       else [])
    (Dict.items ws_map).

(** What one qualifying site adds to the two totals. *)
Definition add_site (isp : fuel_calc.engine) (totals : F * F) (site : Z * (F * F))
  : result (F * F) :=
  let '(ws, (dv_atm, dv_vac)) := site in
  (atm_per <- fuel_calc.propellant_per_launch dv_atm (fuel_calc.isp_sea isp) ;;
   vac_per <- fuel_calc.propellant_per_launch dv_vac (fuel_calc.isp_vac isp) ;;
   atm <- mul_int atm_per (total_launches ws) ;;
   vac <- mul_int vac_per (total_launches ws) ;;
   Ok (fst totals + atm, snd totals + vac))%py.

(** The two totals of one fuel type, from zero. *)
Definition sum_over_sites (isp : fuel_calc.engine) (dv_map : Dict.t (F * F))
  (ws_map : Dict.t Z) : result (F * F) :=
  foldM (add_site isp) (qualifying_sites dv_map ws_map) (lit 0 0, lit 0 0).

End SumOverSites.

(** ** The loaders and the cells they read as numbers *)

(** The six functions of the scripts that read a CSV file. *)
Inductive loader : Type :=
| Load_rows
| Load_dv
| Load_workstations
| Load_cost_and_capacity
| Read_capacity
| Read_costs.

(** Running a loader on a file, its result dropped. *)
Definition run (l : loader) (f : Csv.file) : result unit :=
  match l with
  | Load_rows => (_ <- elevator_ground_cost.load_rows f ;; Ok tt)%py
  | Load_dv => (_ <- fuel_calc.load_dv f ;; Ok tt)%py
  | Load_workstations => (_ <- fuel_calc.load_workstations f ;; Ok tt)%py
  | Load_cost_and_capacity => (_ <- water_schedule_cost.load_cost_and_capacity f ;; Ok tt)%py
  | Read_capacity => (_ <- plot_water_cost.read_capacity f ;; Ok tt)%py
  | Read_costs => (_ <- plot_water_cost.read_costs f ;; Ok tt)%py
  end.

(** The text of [row[col]], when the row has that column and a cell in it. *)
Definition cell_text (r : Csv.row) (col : string) : list string :=
  match Dict.get r col with
  | Some (Some s) => [s]
  | _ => []
  end.

(** The cells of a file that a loader passes to [float]. *)
Definition numeric_cells (l : loader) (f : Csv.file) : list string :=
  match l with
  | Load_rows => flat_map (fun r => cell_text r "总f") (Csv.DictReader f)
  | Load_dv =>
      flat_map (fun r => cell_text r "大气dv(km/s)" ++ cell_text r "真空dv(km/s)")
               (Csv.DictReader f)
  | Load_workstations =>
      match f with
      | header :: row :: _ =>
          flat_map (fun entry : nat * string =>
                      if Str.endswith (snd entry) fuel_calc.SUFFIX then
                        match nth_error row (fst entry) with
                        | Some c => [c]
                        | None => []
                        end
                      else [])
                   (fuel_calc.enumerate header)
      | _ => []
      end
  | Load_cost_and_capacity =>
      match Csv.DictReader f with
      | r :: _ => cell_text r "cost_per_ton_亿美元/吨" ++ cell_text r "capacity_per_year_吨/年"
      | [] => []
      end
  | Read_capacity =>
      match Csv.DictReader f with
      | r :: _ => cell_text r "capacity_per_year_吨/年"
      | [] => []
      end
  | Read_costs =>
      match plot_water_cost.first_of_type "电梯平均" (Csv.DictReader f),
            plot_water_cost.first_of_type "地面平均" (Csv.DictReader f) with
      | Ok e, Ok g => cell_text e "每吨价格(亿美元/吨)" ++ cell_text g "每吨价格(亿美元/吨)"
      | _, _ => []
      end
  end.

(** A cell that fails numeric parsing: [float] raises [ValueError] on it,
    whichever characters the interpreter takes for blanks and digits. *)
Definition malformed (chars : Unicode.table) (s : string) : Prop :=
  Unicode.float_text chars s = Raise ValueError.

(** ** Running totals *)

Section RunningTotals.
Context {F : Type} {arith : Arith F}.
Local Open Scope num_scope.

(** The running totals of a list of daily increments, from [start] on. *)
Fixpoint accumulate (start : F) (incs : list F) : list F :=
  match incs with
  | [] => [start]
  | i :: incs' => start :: accumulate (start + i) incs'
  end.

(** Tons delivered on day [d]: full capacity up to day 102, the deficit after. *)
Definition daily_tonnage (capacity_per_day deficit_per_day : F) (d : Z) : F :=
  if (d <=? plot_water_cost.DAYS_FULL)%Z then capacity_per_day else deficit_per_day.

End RunningTotals.

(** A finite float that is at least zero. *)
Definition finite_nonneg (x : float) : bool := (0 <=? x)%float && is_finite x.

(** Each value of the series is at least the one of the day before. *)
Definition non_decreasing (series : list float) : Prop :=
  forall d : nat, (S d < List.length series)%nat ->
    geb (nth (S d) series 0%float) (nth d series 0%float) = true.

(** ** Slugs *)

(** Every character of [s] satisfies [p]. *)
Fixpoint all_chars (p : ascii -> bool) (s : string) : bool :=
  match s with
  | EmptyString => true
  | String c s' => p c && all_chars p s'
  end.

(** The characters of a slug: lower-case letters, digits and the underscore. *)
Definition slug_char (c : ascii) : bool :=
  Str.is_lower c || Str.is_digit c || Str.is_underscore c.

(** No character of [p] at the head, at the end. *)
Definition head_ok (p : ascii -> bool) (s : string) : bool :=
  match s with
  | String c _ => negb (p c)
  | EmptyString => true
  end.

Fixpoint last_ok (p : ascii -> bool) (s : string) : bool :=
  match s with
  | EmptyString => true
  | String c EmptyString => negb (p c)
  | String _ s' => last_ok p s'
  end.

(** The shape of a slug. *)
Definition slug_shaped (t : string) : Prop :=
  t <> EmptyString /\ all_chars slug_char t = true /\ Str.has_dunder t = false /\
  head_ok Str.is_underscore t = true /\ last_ok Str.is_underscore t = true.

(** ** Cells of a table *)

(** A row of ASCII cells: on those the model of [float] is exact. *)
Definition ascii_cells (row : list string) : Prop :=
  Forall (fun c => Str.is_ascii c = true) row.

(** A cell that is there and is no infinity. *)
Definition countable (row : list string) (idx : nat) : Prop :=
  exists c, nth_error row idx = Some c /\
            forall x, Parse.py_float c = Ok x -> is_infinity x = false.

(** ** Averages, tonnage, rows of a type *)

(** What the average of a class is: 0.0 for an empty class, else the sum
    as the builtin [sum] returns it, divided by the float that is the number
    of costs. *)
Definition mean_of (builtin_sum : Summation float) (costs : list float) (a : float) : Prop :=
  match costs with
  | [] => a = 0%float
  | _ :: _ =>
      exists n : float,
        SF.B2R n = IZR (Z.of_nat (List.length costs)) /\
        a = (py_sum costs / n)%float
  end.

(** The exact average cost per ton of the rows [l] of one class: 0 for no
    row, else 0.00713 times the mean of their cost factors. *)
Definition scaled_mean (l : list (string * R)) : R :=
  match l with
  | [] => 0%R
  | _ :: _ => (0.00713 * (fold_right Rplus 0 (map snd l) / INR (List.length l)))%R
  end.

(** Tons delivered up to and including day [d]. *)
Definition cumulative_tonnage (capacity_per_day deficit_per_day : R) (d : nat) : R :=
  if (d <=? 102)%nat then INR d * capacity_per_day
  else 102 * capacity_per_day + INR (d - 102) * deficit_per_day.

(** The first row of a type: it has the type, and the rows before it have
    another one. *)
Definition first_with_type (label : string) (rows : list Csv.row) (r : Csv.row) : Prop :=
  exists before after,
    rows = before ++ r :: after /\
    Dict.get r "类型" = Some (Some label) /\
    forall p, In p before -> exists v, Dict.get p "类型" = Some v /\ v <> Some label.

(** ** Formatted numbers *)

(** What [float] reads in the text of [x] written with [p] decimals. *)
Definition read_back (p : nat) (x : float) : float :=
  match Prim2SF x with
  | S754_nan => nan
  | S754_infinity s => if s then neg_infinity else infinity
  | S754_zero s => if s then neg_zero else PrimFloat.zero
  | S754_finite s m e =>
      Parse.float_of_numeral (Parse.NDec s (Fmt.scaled p m e) (- Z.of_nat p))
  end.

(** The characters of a formatted number. *)
Definition plain (c : ascii) : bool :=
  Str.is_digit c || Ascii.eqb c "-"%char || Ascii.eqb c "."%char.

(** A text that does not go on with a digit. *)
Definition head_not_digit (s : string) : Prop :=
  match s with
  | String c _ => Str.is_digit c = false
  | EmptyString => True
  end.

(** ** Failures of the totals *)

(** The ways the computation of the totals can fail: an overflow, or the
    domain error of a C library whose [exp] returns NaN for a number. *)
Definition overflow_or_domain {A : Type} (libm_exp : float -> float) (r : result A) : Prop :=
  match r with
  | Ok _ => True
  | Raise e =>
      e = OverflowError \/
      (e = ValueError /\ exists x, is_nan (libm_exp x) = true /\ is_nan x = false)
  end.

(** ** Running the binary64 model *)

(** Replaces each literal of the source by the binary64 value it denotes. *)
Ltac eval_lits :=
  repeat match goal with
  | |- context [@lit float b64 ?m ?e] =>
      let v := eval vm_compute in (@lit float b64 m e) in
      replace (@lit float b64 m e) with v by (vm_compute; reflexivity)
  end.

(** A stand-in for the C library's [exp], to run the model on examples:
    the Taylor polynomial of degree 14 at [x / 1024], squared ten times. *)
Definition exp_stand_in (x : float) : float :=
  if (x <? -746)%float then 0%float
  else if (710 <? x)%float then infinity
  else
    let y := (x / 1024)%float in
    let t :=
      fold_right (fun k acc => (1 + y / k * acc)%float) 1%float
        [1; 2; 3; 4; 5; 6; 7; 8; 9; 10; 11; 12; 13; 14]%float in
    Nat.iter 10 (fun r => (r * r)%float) t.

(** An [exp] that does not decrease from zero on: a property the C library's
    function is expected to have, and that no text of the scripts fixes. *)
Definition monotone_from_zero (libm_exp : float -> float) : Prop :=
  forall x y : float,
    (0 <=? x)%float = true -> (x <=? y)%float = true ->
    (libm_exp x <=? libm_exp y)%float = true.

(** The polynomial of [exp_stand_in] at [y], by Horner's rule over the
    divisors [ks]. *)
Definition horner (y : float) (ks : list float) : float :=
  fold_right (fun k acc => (1 + y / k * acc)%float) 1%float ks.

(** Every partial result of [horner y ks] under the last sum is finite. *)
Fixpoint horner_finite (y : float) (ks : list float) : Prop :=
  match ks with
  | [] => True
  | _ :: ks' => is_finite (horner y ks') = true /\ horner_finite y ks'
  end.


(** * Properties *)

(** ** Rounding to binary64

    Facts about the specification of the binary64 operations
    ([SpecFloat]), as far as the properties below need them: which class of
    value an operation returns, that rounding is monotone, and that it
    commutes with doubling above the subnormal range. *)

Module SFFacts.
Import SF.
Open Scope Z_scope.

Lemma digits2_size (p : positive) : digits2_pos p = Pos.size p.
Proof. induction p; simpl; congruence. Qed.

Lemma digits_log2 (p : positive) : Z.pos (digits2_pos p) = Z.log2 (Z.pos p) + 1.
Proof.
  rewrite digits2_size. destruct p; simpl; try rewrite Pos2Z.inj_succ; try lia.
Qed.

Lemma digits_bounds (p : positive) :
  2 ^ (Z.pos (digits2_pos p) - 1) <= Z.pos p < 2 ^ Z.pos (digits2_pos p).
Proof.
  rewrite digits_log2. replace (Z.log2 (Z.pos p) + 1 - 1) with (Z.log2 (Z.pos p)) by lia.
  replace (Z.log2 (Z.pos p) + 1) with (Z.succ (Z.log2 (Z.pos p))) by lia.
  apply Z.log2_spec. lia.
Qed.

Lemma digits_ge (p : positive) (d : Z) :
  2 ^ d <= Z.pos p -> 0 <= d -> d + 1 <= Z.pos (digits2_pos p).
Proof.
  intros H Hd. rewrite digits_log2.
  assert (d <= Z.log2 (Z.pos p)); [|lia].
  apply Z.log2_le_pow2; lia.
Qed.

Lemma digits_le (p : positive) (d : Z) :
  Z.pos p < 2 ^ d -> 0 <= d -> Z.pos (digits2_pos p) <= d.
Proof.
  intros H Hd. rewrite digits_log2.
  assert (Z.log2 (Z.pos p) < d); [|lia].
  apply Z.log2_lt_pow2; lia.
Qed.

Lemma iter_pos_nat {A : Type} (f : A -> A) (p : positive) (x : A) :
  SpecFloat.iter_pos f p x = Nat.iter (Pos.to_nat p) f x.
Proof.
  revert x. induction p as [p IH|p IH|]; intros x; cbn [SpecFloat.iter_pos].
  - rewrite !IH, Pos2Nat.inj_xI.
    replace (S (2 * Pos.to_nat p)) with (Pos.to_nat p + S (Pos.to_nat p))%nat by lia.
    rewrite Nat.iter_add, Nat.iter_succ_r. reflexivity.
  - rewrite !IH, Pos2Nat.inj_xO.
    replace (2 * Pos.to_nat p)%nat with (Pos.to_nat p + Pos.to_nat p)%nat by lia.
    rewrite Nat.iter_add. reflexivity.
  - reflexivity.
Qed.

Lemma shr_1_m (mrs : shr_record) :
  0 <= shr_m mrs -> shr_m (shr_1 mrs) = shr_m mrs / 2.
Proof.
  destruct mrs as [m r s]. simpl. intros Hm.
  destruct m as [|p|p]; [reflexivity| |lia].
  destruct p as [p|p|]; simpl.
  - rewrite Pos2Z.inj_xI. apply Z.div_unique with (r := 1); lia.
  - rewrite Pos2Z.inj_xO. apply Z.div_unique with (r := 0); lia.
  - reflexivity.
Qed.

Lemma shr_iter_m (k : nat) (mrs : shr_record) :
  0 <= shr_m mrs ->
  shr_m (Nat.iter k shr_1 mrs) = shr_m mrs / 2 ^ Z.of_nat k.
Proof.
  intros Hm. induction k as [|k IH].
  - simpl. now rewrite Z.div_1_r.
  - rewrite Nat2Z.inj_succ, Z.pow_succ_r by lia.
    change (Nat.iter (S k) shr_1 mrs) with (shr_1 (Nat.iter k shr_1 mrs)).
    rewrite shr_1_m.
    + rewrite IH. rewrite Z.div_div by lia. f_equal. lia.
    + rewrite IH. apply Z.div_pos; lia.
Qed.

Lemma shr_m_spec (mrs : shr_record) (e n : Z) :
  0 <= shr_m mrs ->
  shr_m (fst (shr mrs e n)) = shr_m mrs / 2 ^ Z.max n 0 /\
  snd (shr mrs e n) = e + Z.max n 0.
Proof.
  intros Hm. destruct n as [|p|p]; simpl.
  - rewrite Z.div_1_r. split; lia.
  - rewrite iter_pos_nat, shr_iter_m by assumption.
    rewrite positive_nat_Z. split; [reflexivity|lia].
  - rewrite Z.div_1_r. split; lia.
Qed.

Lemma shr_record_of_loc_m (m : Z) (l : location) : shr_m (shr_record_of_loc m l) = m.
Proof. destruct l as [|[]]; reflexivity. Qed.

Lemma fexp_eq (x : Z) : fexp prec emax x = fexp64 x.
Proof. reflexivity. Qed.

Lemma shr_fexp_spec (m e : Z) (l : location) :
  0 <= m ->
  let n := Z.max (fexp64 (Zdigits2 m + e) - e) 0 in
  shr_m (fst (shr_fexp prec emax m e l)) = m / 2 ^ n /\
  snd (shr_fexp prec emax m e l) = e + n.
Proof.
  intros Hm n. unfold shr_fexp. rewrite fexp_eq.
  pose proof (shr_m_spec (shr_record_of_loc m l) e (fexp64 (Zdigits2 m + e) - e)) as H.
  rewrite shr_record_of_loc_m in H. apply H. assumption.
Qed.

Lemma round_nearest_even_bounds (m : Z) (l : location) :
  m <= round_nearest_even m l <= m + 1.
Proof.
  destruct l as [|[]]; simpl; try lia. destruct (Z.even m); lia.
Qed.

(** The result of [binary_round_aux] on a non-negative mantissa. *)
Lemma binary_round_aux_spec (s : bool) (m e : Z) (l : location) :
  0 <= m ->
  let n1 := Z.max (fexp64 (Zdigits2 m + e) - e) 0 in
  let m1 := m / 2 ^ n1 in
  let e1 := e + n1 in
  exists m2, m1 <= m2 <= m1 + 1 /\
    let n2 := Z.max (fexp64 (Zdigits2 m2 + e1) - e1) 0 in
    let m3 := m2 / 2 ^ n2 in
    let e3 := e1 + n2 in
    binary_round_aux prec emax s m e l =
      match m3 with
      | Z0 => S754_zero s
      | Z.pos p => if e3 <=? emax - prec then S754_finite s p e3 else S754_infinity s
      | Z.neg _ => S754_nan
      end.
Proof.
  intros Hm n1 m1 e1. unfold binary_round_aux.
  destruct (shr_fexp_spec m e l Hm) as [H1 H2]. fold n1 in H1, H2. fold m1 in H1. fold e1 in H2.
  destruct (shr_fexp prec emax m e l) as [mrs' e'] eqn:E1. simpl in H1, H2. subst e'.
  set (m2 := round_nearest_even (shr_m mrs') (loc_of_shr_record mrs')).
  assert (Hb : m1 <= m2 <= m1 + 1).
  { unfold m2. rewrite <- H1. apply round_nearest_even_bounds. }
  exists m2. split; [exact Hb|].
  assert (Hm1 : 0 <= m1) by (apply Z.div_pos; lia).
  assert (Hm2 : 0 <= m2) by lia.
  destruct (shr_fexp_spec m2 e1 loc_Exact Hm2) as [H3 H4].
  destruct (shr_fexp prec emax m2 e1 loc_Exact) as [mrs'' e''] eqn:E2. simpl in H3, H4.
  cbv zeta. rewrite H3, H4. reflexivity.
Qed.

Lemma valid_finite (s : bool) (m : positive) (e : Z) :
  valid_binary (S754_finite s m e) = true ->
  fexp64 (Z.pos (digits2_pos m) + e) = e /\ e <= 971.
Proof.
  unfold SpecFloat.valid_binary, SpecFloat.bounded, SpecFloat.canonical_mantissa. rewrite fexp_eq.
  intros H. apply andb_true_iff in H. destruct H as [H1 H2].
  apply Z.eqb_eq in H1. apply Z.leb_le in H2. split; [exact H1|exact H2].
Qed.

Lemma bra_cases (s : bool) (m e : Z) (l : location) :
  0 <= m ->
  binary_round_aux prec emax s m e l = S754_zero s \/
  (exists p e', binary_round_aux prec emax s m e l = S754_finite s p e') \/
  binary_round_aux prec emax s m e l = S754_infinity s.
Proof.
  intros Hm. destruct (binary_round_aux_spec s m e l Hm) as (m2 & Hb & ->).
  cbv zeta.
  set (m3 := m2 / _).
  assert (0 <= m3).
  { apply Z.div_pos; [|lia]. assert (0 <= m / 2 ^ Z.max (fexp64 (Zdigits2 m + e) - e) 0) by (apply Z.div_pos; lia). lia. }
  destruct m3 as [|p|p]; [now left| |lia].
  right. destruct (_ <=? _); [left; eauto|now right].
Qed.

Lemma div_pow2_ge1 (p : positive) (n : Z) :
  0 <= n -> n < Z.pos (digits2_pos p) -> 1 <= Z.pos p / 2 ^ n.
Proof.
  intros Hn Hd. apply Z.div_le_lower_bound; [lia|].
  pose proof (digits_bounds p) as [Hb _].
  rewrite Z.mul_1_r. etransitivity; [|exact Hb].
  apply Z.pow_le_mono_r; lia.
Qed.

(** A mantissa that keeps a bit after the first shift does not round to zero. *)
Lemma bra_pos (s : bool) (p : positive) (e : Z) (l : location) :
  fexp64 (Z.pos (digits2_pos p) + e) - e < Z.pos (digits2_pos p) ->
  (exists p3 e3, binary_round_aux prec emax s (Z.pos p) e l = S754_finite s p3 e3) \/
  binary_round_aux prec emax s (Z.pos p) e l = S754_infinity s.
Proof.
  intros Hn.
  destruct (binary_round_aux_spec s (Z.pos p) e l) as (m2 & Hb & ->); [lia|].
  cbv zeta. cbn [Zdigits2] in *.
  set (n1 := Z.max (fexp64 (Z.pos (digits2_pos p) + e) - e) 0) in *.
  assert (H1 : 1 <= Z.pos p / 2 ^ n1) by (apply div_pow2_ge1; lia).
  destruct m2 as [|p2|p2]; [lia| |lia].
  cbn [Zdigits2].
  set (n2 := Z.max _ 0).
  assert (H2 : 1 <= Z.pos p2 / 2 ^ n2).
  { apply div_pow2_ge1; [lia|]. unfold n2, fexp64, n1, fexp64. lia. }
  destruct (Z.pos p2 / 2 ^ n2) as [|p3|p3]; [lia| |lia].
  destruct (_ <=? _); [left; eauto|now right].
Qed.

Lemma Zdigits2_le (m d : Z) : 0 <= m -> m < 2 ^ d -> 0 <= d -> Zdigits2 m <= d.
Proof.
  intros Hm Hlt Hd. destruct m as [|p|p]; simpl; [lia| |lia].
  apply digits_le; assumption.
Qed.

Lemma Zdigits2_nonneg (m : Z) : 0 <= Zdigits2 m.
Proof. destruct m; simpl; lia. Qed.

Lemma Zdigits2_bound (m : Z) : 0 <= m -> m < 2 ^ Zdigits2 m.
Proof.
  destruct m as [|p|p]; simpl; intros; [lia| |lia]. apply digits_bounds.
Qed.

(** A value below [2^1023] given with a small enough exponent does not
    round to an infinity. *)
Lemma bra_fin (s : bool) (m e : Z) (l : location) :
  0 <= m -> e <= 971 -> Zdigits2 m + e <= 1023 ->
  is_fin (binary_round_aux prec emax s m e l) = true.
Proof.
  intros Hm He Hd.
  destruct (binary_round_aux_spec s m e l Hm) as (m2 & Hb & ->).
  cbv zeta.
  set (D := Zdigits2 m) in *.
  set (n1 := Z.max (fexp64 (D + e) - e) 0) in *.
  set (e1 := e + n1) in *.
  set (n2 := Z.max (fexp64 (Zdigits2 m2 + e1) - e1) 0).
  assert (HD : 0 <= D) by apply Zdigits2_nonneg.
  assert (Hm1 : 0 <= m / 2 ^ n1) by (apply Z.div_pos; lia).
  assert (He1 : e1 <= 971) by (unfold e1, n1, fexp64; lia).
  assert (Hd2 : Zdigits2 m2 + e1 <= 1024).
  { destruct (Z_le_gt_dec n1 D) as [Hle|Hgt].
    - assert (m / 2 ^ n1 < 2 ^ (D - n1)).
      { apply Z.div_lt_upper_bound; [lia|].
        rewrite <- Z.pow_add_r by lia. replace (n1 + (D - n1)) with D by lia.
        apply Zdigits2_bound; assumption. }
      assert (Zdigits2 m2 <= D - n1 + 1).
      { apply Zdigits2_le; [lia| |lia].
        rewrite Z.pow_add_r by lia. lia. }
      unfold e1. lia.
    - assert (m / 2 ^ n1 = 0).
      { apply Z.div_small. split; [lia|].
        eapply Z.lt_le_trans; [apply Zdigits2_bound; assumption|].
        apply Z.pow_le_mono_r; lia. }
      assert (Zdigits2 m2 <= 1) by (apply Zdigits2_le; lia).
      lia. }
  destruct (m2 / 2 ^ n2) as [|p|p] eqn:E; [reflexivity| |].
  - assert ((e1 + n2 <=? emax - prec) = true) as ->; [|reflexivity].
    apply Z.leb_le. change (emax - prec) with 971. unfold n2, fexp64. lia.
  - assert (0 <= m2 / 2 ^ n2) by (apply Z.div_pos; lia). lia.
Qed.

Lemma fexp64_mono (a b : Z) : a <= b -> fexp64 a <= fexp64 b.
Proof. unfold fexp64. lia. Qed.

Lemma pos_compare_cont_le (p q : positive) :
  Z.pos p <= Z.pos q ->
  Pos.compare_cont Eq p q = Lt \/ Pos.compare_cont Eq p q = Eq.
Proof.
  intros H. change (Pos.compare_cont Eq p q) with (Pos.compare p q).
  destruct (Pos.compare_spec p q); [now right|now left|lia].
Qed.

(** Rounding a value that is at least a representable one gives at least
    that one. *)
Lemma bra_ge (ms : positive) (es : Z) (pM : positive) (ez : Z) (l : location) :
  fexp64 (Z.pos (digits2_pos ms) + es) = es ->
  ez <= es ->
  Z.pos ms * 2 ^ (es - ez) <= Z.pos pM ->
  SFleb (S754_finite false ms es) (binary_round_aux prec emax false (Z.pos pM) ez l) = true.
Proof.
  intros Hv Hez Hle.
  destruct (binary_round_aux_spec false (Z.pos pM) ez l) as (m2 & Hb & ->); [lia|].
  cbv zeta. cbn [Zdigits2] in *.
  set (ds := Z.pos (digits2_pos ms)) in *.
  set (D := Z.pos (digits2_pos pM)) in *.
  assert (HA : ds + es <= D + ez).
  { assert (ds - 1 + (es - ez) + 1 <= D); [|lia].
    apply digits_ge; [|unfold ds; lia].
    rewrite Z.pow_add_r by (unfold ds; lia).
    pose proof (digits_bounds ms) as [Hlo _]. fold ds in Hlo.
    etransitivity; [|exact Hle].
    apply Z.mul_le_mono_nonneg_r; [lia|exact Hlo]. }
  assert (HE1 : es <= fexp64 (D + ez)).
  { rewrite <- Hv. apply fexp64_mono. lia. }
  assert (Hes : -1074 <= es) by (unfold fexp64 in Hv; lia).
  set (n1 := Z.max (fexp64 (D + ez) - ez) 0) in *.
  set (e1 := ez + n1) in *.
  assert (He1 : e1 = fexp64 (D + ez)) by (unfold e1, n1; lia).
  assert (Hm1 : 1 <= Z.pos pM / 2 ^ n1).
  { apply div_pow2_ge1; [lia|]. fold D. unfold n1, fexp64. unfold fexp64 in HE1. lia. }
  destruct m2 as [|p2|p2]; [lia| |lia].
  cbn [Zdigits2].
  set (d2 := Z.pos (digits2_pos p2)).
  set (n2 := Z.max (fexp64 (d2 + e1) - e1) 0).
  assert (H3 : 1 <= Z.pos p2 / 2 ^ n2).
  { apply div_pow2_ge1; [lia|]. fold d2. unfold n2, fexp64. lia. }
  destruct (Z.pos p2 / 2 ^ n2) as [|p3|p3] eqn:E3; [lia| |lia].
  destruct (e1 + n2 <=? emax - prec); [|reflexivity].
  unfold SFleb, SFcompare.
  destruct (Z.compare_spec es (e1 + n2)) as [Heq|Hlt|Hgt]; [|reflexivity|lia].
  assert (Hn2 : n2 = 0) by lia.
  assert (He : e1 = es) by lia.
  rewrite Hn2, Z.pow_0_r, Z.div_1_r in E3. injection E3 as <-.
  assert (Hn1 : n1 = es - ez) by lia.
  assert (Z.pos ms <= Z.pos pM / 2 ^ n1).
  { rewrite Hn1. apply Z.div_le_lower_bound; lia. }
  destruct (pos_compare_cont_le ms p2) as [-> | ->]; [lia|reflexivity|reflexivity].
Qed.

Lemma shl_align_fst (m : positive) (e ez : Z) :
  ez <= e -> Z.pos (fst (shl_align m e ez)) = Z.pos m * 2 ^ (e - ez).
Proof.
  intros H. unfold shl_align.
  destruct (ez - e) as [|d|d] eqn:E; [| lia |].
  - replace (e - ez) with 0 by lia. simpl. lia.
  - replace (e - ez) with (Z.pos d) by lia. cbn [fst].
    change (Pos.iter xO m d) with (shift_pos d m).
    rewrite shift_pos_correct, Z.pow_pos_fold. lia.
Qed.

Lemma binary_round_no_shift (s : bool) (p : positive) (e : Z) :
  e <= fexp64 (Z.pos (digits2_pos p) + e) ->
  binary_round prec emax s p e = binary_round_aux prec emax s (Z.pos p) e loc_Exact.
Proof.
  intros H. unfold binary_round, shl_align. rewrite fexp_eq.
  destruct (fexp64 (Z.pos (digits2_pos p) + e) - e) eqn:E; [reflexivity|reflexivity|lia].
Qed.

Lemma binary_round_cases (s : bool) (p : positive) (e : Z) :
  binary_round prec emax s p e = S754_zero s \/
  (exists p' e', binary_round prec emax s p e = S754_finite s p' e') \/
  binary_round prec emax s p e = S754_infinity s.
Proof.
  unfold binary_round. destruct (shl_align p e _) as [mz ez].
  apply bra_cases. lia.
Qed.

Lemma binary_normalize_num (m e : Z) (sz : bool) :
  is_num (binary_normalize prec emax m e sz) = true.
Proof.
  destruct m as [|p|p]; simpl; [reflexivity| |].
  - destruct (binary_round_cases false p e) as [-> | [(p' & e' & ->) | ->]]; reflexivity.
  - destruct (binary_round_cases true p e) as [-> | [(p' & e' & ->) | ->]]; reflexivity.
Qed.

Lemma SFmul_finite_cases (sx sy : bool) (mx my : positive) (ex ey : Z) :
  let r := SFmul prec emax (S754_finite sx mx ex) (S754_finite sy my ey) in
  r = S754_zero (xorb sx sy) \/
  (exists p e, r = S754_finite (xorb sx sy) p e) \/
  r = S754_infinity (xorb sx sy).
Proof. cbn [SFmul]. apply bra_cases. lia. Qed.

Lemma SFmul_num_finite (x : spec_float) (sy : bool) (my : positive) (ey : Z) :
  is_num x = true -> is_num (SFmul prec emax x (S754_finite sy my ey)) = true.
Proof.
  destruct x as [sx|sx| |sx mx ex]; try reflexivity; try discriminate. intros _.
  destruct (SFmul_finite_cases sx sy mx my ex ey) as [-> | [(p & e & ->) | ->]]; reflexivity.
Qed.

Lemma SFdiv_core_spec (m1 m2 : positive) (e1 e2 : Z) :
  let e' := Z.min (fexp64 (Z.pos (digits2_pos m1) + e1 - (Z.pos (digits2_pos m2) + e2))) (e1 - e2) in
  exists l, SFdiv_core_binary prec emax (Z.pos m1) e1 (Z.pos m2) e2 =
            (Z.pos m1 * 2 ^ (e1 - e2 - e') / Z.pos m2, e', l).
Proof.
  intros e'. unfold SFdiv_core_binary. cbn [Zdigits2]. rewrite fexp_eq. fold e'.
  set (s := e1 - e2 - e').
  assert (Hs : 0 <= s) by (unfold s, e'; lia).
  set (m' := match s with Z.pos _ => Z.shiftl (Z.pos m1) s | Z0 => Z.pos m1 | Z.neg _ => 0 end).
  assert (Hm' : m' = Z.pos m1 * 2 ^ s).
  { unfold m'. destruct s as [|p|p] eqn:E; [simpl; lia| |lia].
    rewrite Z.shiftl_mul_pow2 by lia. reflexivity. }
  rewrite <- Hm'.
  unfold Z.div. destruct (Z.div_eucl m' (Z.pos m2)) as [q r].
  eexists. reflexivity.
Qed.

Lemma SFdiv_finite_cases (sx sy : bool) (mx my : positive) (ex ey : Z) :
  let r := SFdiv prec emax (S754_finite sx mx ex) (S754_finite sy my ey) in
  r = S754_zero (xorb sx sy) \/
  (exists p e, r = S754_finite (xorb sx sy) p e) \/
  r = S754_infinity (xorb sx sy).
Proof.
  cbn [SFdiv]. destruct (SFdiv_core_spec mx my ex ey) as [l ->].
  apply bra_cases. apply Z.div_pos; lia.
Qed.

Lemma SFdiv_num_finite (x : spec_float) (sy : bool) (my : positive) (ey : Z) :
  is_num x = true -> is_num (SFdiv prec emax x (S754_finite sy my ey)) = true.
Proof.
  destruct x as [sx|sx| |sx mx ex]; try reflexivity; try discriminate. intros _.
  destruct (SFdiv_finite_cases sx sy mx my ex ey) as [-> | [(p & e & ->) | ->]]; reflexivity.
Qed.

Lemma SFdiv_nn_finite (x : spec_float) (my : positive) (ey : Z) :
  is_nn x = true -> is_nn (SFdiv prec emax x (S754_finite false my ey)) = true.
Proof.
  destruct x as [sx|[|]| |[|] mx ex]; try reflexivity; try discriminate. intros _.
  destruct (SFdiv_finite_cases false false mx my ex ey) as [-> | [(p & e & ->) | ->]]; reflexivity.
Qed.

(** A finite value divided by a finite one that is at least 2 stays finite. *)
Lemma SFdiv_fin_finite (x : spec_float) (sy : bool) (my : positive) (ey : Z) :
  valid_binary x = true -> is_fin x = true ->
  2 <= Z.pos (digits2_pos my) + ey ->
  is_fin (SFdiv prec emax x (S754_finite sy my ey)) = true.
Proof.
  intros Hv Hf Hy.
  destruct x as [sx|sx| |sx mx ex]; try reflexivity; try discriminate.
  apply valid_finite in Hv. destruct Hv as [Hc He].
  cbn [SFdiv]. destruct (SFdiv_core_spec mx my ex ey) as [l ->].
  set (d1 := Z.pos (digits2_pos mx)) in *.
  set (d2 := Z.pos (digits2_pos my)) in *.
  set (e' := Z.min (fexp64 (d1 + ex - (d2 + ey))) (ex - ey)).
  set (s := ex - ey - e').
  assert (Hd1 : d1 + ex <= 1024) by (unfold fexp64 in Hc; lia).
  assert (Hs : 0 <= s) by (unfold s, e'; lia).
  assert (He' : e' <= 970) by (unfold e', fexp64; lia).
  set (q := Z.pos mx * 2 ^ s / Z.pos my).
  assert (Hq : 0 <= q) by (apply Z.div_pos; lia).
  apply bra_fin; [exact Hq|lia|].
  assert (Hdq : Zdigits2 q <= Z.max (d1 + s - d2 + 1) 0).
  { apply Zdigits2_le; [exact Hq| |lia].
    apply Z.div_lt_upper_bound; [lia|].
    pose proof (digits_bounds mx) as [_ Hmx]. fold d1 in Hmx.
    pose proof (digits_bounds my) as [Hmy _]. fold d2 in Hmy.
    assert (Hd2 : 1 <= d2) by (unfold d2; lia).
    assert (Z.pos mx * 2 ^ s < 2 ^ (d1 + s)).
    { rewrite Z.pow_add_r by (unfold d1; lia). apply Z.mul_lt_mono_pos_r; lia. }
    assert (2 ^ (d1 + s) <= 2 ^ (d2 - 1) * 2 ^ Z.max (d1 + s - d2 + 1) 0).
    { rewrite <- Z.pow_add_r by lia. apply Z.pow_le_mono_r; lia. }
    assert (2 ^ (d2 - 1) * 2 ^ Z.max (d1 + s - d2 + 1) 0
            <= Z.pos my * 2 ^ Z.max (d1 + s - d2 + 1) 0).
    { apply Z.mul_le_mono_nonneg_r; [lia|exact Hmy]. }
    lia. }
  unfold s in Hdq. lia.
Qed.

Lemma SFmul_nn_fin (x y : spec_float) :
  is_nn x = true -> is_fin x = true -> is_nn y = true -> is_fin y = true ->
  is_nn (SFmul prec emax x y) = true.
Proof.
  destruct x as [sx|sx| |[|] mx ex]; try discriminate;
  destruct y as [sy|sy| |[|] my ey]; try discriminate; intros _ _ _ _; try reflexivity.
  destruct (SFmul_finite_cases false false mx my ex ey) as [-> | [(p & e & ->) | ->]]; reflexivity.
Qed.

(** A positive value times a finite one that is at least 1 is positive. *)
Lemma SFmul_pos_finite (x : spec_float) (my : positive) (ey : Z) :
  valid_binary x = true -> is_pos x = true ->
  1 <= Z.pos (digits2_pos my) + ey ->
  is_pos (SFmul prec emax x (S754_finite false my ey)) = true.
Proof.
  intros Hv Hp Hy.
  destruct x as [sx|[|]| |[|] mx ex]; try discriminate; [reflexivity|].
  apply valid_finite in Hv. destruct Hv as [Hc He].
  cbn [SFmul xorb].
  destruct (bra_pos false (mx * my) (ex + ey) loc_Exact) as [(p3 & e3 & ->) | ->];
    [|reflexivity|reflexivity].
  set (dm := Z.pos (digits2_pos mx)) in *.
  set (dy := Z.pos (digits2_pos my)) in *.
  assert (HD : dm + dy - 1 <= Z.pos (digits2_pos (mx * my))).
  { replace (dm + dy - 1) with (dm - 1 + (dy - 1) + 1) by lia.
    apply digits_ge; [|unfold dm, dy; lia].
    rewrite Z.pow_add_r by (unfold dm, dy; lia). rewrite Pos2Z.inj_mul.
    pose proof (digits_bounds mx) as [H1 _]. pose proof (digits_bounds my) as [H2 _].
    fold dm in H1. fold dy in H2.
    apply Z.mul_le_mono_nonneg; lia. }
  assert (1 <= dm) by (unfold dm; lia).
  unfold fexp64 in *. lia.
Qed.

Lemma SFcompare_refl_finite (s : bool) (m : positive) (e : Z) :
  SFcompare (S754_finite s m e) (S754_finite s m e) = Some Eq.
Proof.
  unfold SFcompare. rewrite Z.compare_refl.
  change (Pos.compare_cont Eq m m) with (Pos.compare m m). rewrite Pos.compare_refl.
  destruct s; reflexivity.
Qed.

(** Adding a non-negative value does not decrease a non-negative one. *)
Lemma SFadd_ge (x y : spec_float) :
  valid_binary x = true ->
  is_nn x = true -> is_nn y = true ->
  SFleb x (SFadd prec emax x y) = true.
Proof.
  intros Hvx Hx Hy.
  destruct x as [[|]|[|]| |[|] mx ex]; try discriminate;
  destruct y as [[|]|[|]| |[|] my ey]; try discriminate; try reflexivity.
  - cbn [SFadd]. unfold SFleb. now rewrite SFcompare_refl_finite.
  - cbn [SFadd]. unfold SFleb. now rewrite SFcompare_refl_finite.
  - apply valid_finite in Hvx. destruct Hvx as [Hc He].
    cbn [SFadd cond_Zopp].
    set (ez := Z.min ex ey).
    assert (Hx' := shl_align_fst mx ex ez ltac:(unfold ez; lia)).
    assert (Hy' := shl_align_fst my ey ez ltac:(unfold ez; lia)).
    set (a := fst (shl_align mx ex ez)) in *.
    set (b := fst (shl_align my ey ez)) in *.
    change (Z.pos a + Z.pos b) with (Z.pos (a + b)).
    cbn [binary_normalize].
    assert (Hle : Z.pos mx * 2 ^ (ex - ez) <= Z.pos (a + b)) by lia.
    assert (HA : Z.pos (digits2_pos mx) + ex <= Z.pos (digits2_pos (a + b)) + ez).
    { assert (Z.pos (digits2_pos mx) - 1 + (ex - ez) + 1 <= Z.pos (digits2_pos (a + b))); [|lia].
      apply digits_ge; [|unfold ez; lia].
      rewrite Z.pow_add_r by (unfold ez; lia).
      pose proof (digits_bounds mx) as [Hlo _].
      etransitivity; [|exact Hle].
      apply Z.mul_le_mono_nonneg_r; [lia|exact Hlo]. }
    rewrite binary_round_no_shift.
    + apply bra_ge; [exact Hc|unfold ez; lia|exact Hle].
    + apply fexp64_mono in HA. rewrite Hc in HA. unfold ez in *. lia.
Qed.

Lemma SFleb_nn (x r : spec_float) :
  is_nn x = true -> SFleb x r = true -> is_nn r = true.
Proof.
  destruct x as [sx|[|]| |[|] mx ex]; try discriminate;
  destruct r as [sr|[|]| |[|] mr er]; try reflexivity; try discriminate.
Qed.

Lemma SFsub_num_finite_r (x : spec_float) (sy : bool) (my : positive) (ey : Z) :
  is_num x = true -> is_num (SFsub prec emax x (S754_finite sy my ey)) = true.
Proof.
  destruct x as [sx|sx| |sx mx ex]; try reflexivity; try discriminate. intros _.
  cbn [SFsub]. apply binary_normalize_num.
Qed.

Lemma SFsub_num_finite_l (sx : bool) (mx : positive) (ex : Z) (y : spec_float) :
  is_num y = true -> is_num (SFsub prec emax (S754_finite sx mx ex) y) = true.
Proof.
  destruct y as [sy|sy| |sy my ey]; try reflexivity; try discriminate. intros _.
  cbn [SFsub]. apply binary_normalize_num.
Qed.

(** A number that is not below zero is at least zero. *)
Lemma SFleb_zero_of_not_lt (x : spec_float) (s : bool) :
  is_num x = true -> SFltb x (S754_zero s) = false -> SFleb (S754_zero s) x = true.
Proof.
  destruct x as [sx|[|]| |[|] mx ex]; try reflexivity; try discriminate.
Qed.
(** *** Doubling *)

Lemma shr_exp_succ (mrs : shr_record) (e n : Z) :
  shr mrs (e + 1) n = (fst (shr mrs e n), snd (shr mrs e n) + 1).
Proof. destruct n; cbn; f_equal; lia. Qed.

Lemma shr_1_double (m : Z) :
  0 <= m -> shr_1 {| shr_m := 2 * m; shr_r := false; shr_s := false |}
            = {| shr_m := m; shr_r := false; shr_s := false |}.
Proof. destruct m; cbn; intros; try reflexivity; lia. Qed.

Lemma binary_round_aux_unfold (s : bool) (m e : Z) (l : location) :
  binary_round_aux prec emax s m e l =
  let mrs' := fst (shr_fexp prec emax m e l) in
  let e' := snd (shr_fexp prec emax m e l) in
  let m2 := round_nearest_even (shr_m mrs') (loc_of_shr_record mrs') in
  let mrs'' := fst (shr_fexp prec emax m2 e' loc_Exact) in
  let e'' := snd (shr_fexp prec emax m2 e' loc_Exact) in
  match shr_m mrs'' with
  | Z0 => S754_zero s
  | Z.pos p => if e'' <=? emax - prec then S754_finite s p e'' else S754_infinity s
  | Z.neg _ => S754_nan
  end.
Proof.
  unfold binary_round_aux. destruct (shr_fexp prec emax m e l) as [mrs' e'].
  cbn [fst snd]. cbv zeta.
  destruct (shr_fexp prec emax _ e' loc_Exact) as [mrs'' e'']. reflexivity.
Qed.

(** A product in the normal range rounds the same way one binade up. *)
Lemma bra_exp_succ (s : bool) (p : positive) (e : Z) (l : location) :
  53 <= Z.pos (digits2_pos p) ->
  -1074 <= Z.pos (digits2_pos p) + e - 53 ->
  binary_round_aux prec emax s (Z.pos p) (e + 1) l
  = lift (binary_round_aux prec emax s (Z.pos p) e l).
Proof.
  intros HD HE. rewrite !binary_round_aux_unfold. cbv zeta.
  set (D := Z.pos (digits2_pos p)) in *.
  assert (Hs1 : shr_fexp prec emax (Z.pos p) (e + 1) l =
                (fst (shr_fexp prec emax (Z.pos p) e l),
                 snd (shr_fexp prec emax (Z.pos p) e l) + 1)).
  { unfold shr_fexp. rewrite !fexp_eq. cbn [Zdigits2]. fold D.
    replace (fexp64 (D + (e + 1)) - (e + 1)) with (fexp64 (D + e) - e)
      by (unfold fexp64; lia).
    apply shr_exp_succ. }
  rewrite Hs1. cbn [fst snd].
  destruct (shr_fexp_spec (Z.pos p) e l) as [Hm1 He1]; [lia|].
  cbn [Zdigits2] in Hm1, He1. fold D in Hm1, He1.
  set (mrs' := fst (shr_fexp prec emax (Z.pos p) e l)) in *.
  set (e1 := snd (shr_fexp prec emax (Z.pos p) e l)) in *.
  set (m2 := round_nearest_even (shr_m mrs') (loc_of_shr_record mrs')).
  assert (Hn1 : Z.max (fexp64 (D + e) - e) 0 = D - 53) by (unfold fexp64; lia).
  rewrite Hn1 in Hm1, He1.
  assert (Hm1' : 2 ^ 52 <= shr_m mrs').
  { rewrite Hm1. apply Z.div_le_lower_bound; [lia|].
    rewrite <- Z.pow_add_r by lia. replace (D - 53 + 52) with (D - 1) by lia.
    apply digits_bounds. }
  pose proof (round_nearest_even_bounds (shr_m mrs') (loc_of_shr_record mrs')) as Hb.
  fold m2 in Hb.
  destruct m2 as [|p2|p2] eqn:Em2; [lia| |lia].
  assert (Hd2 : 53 <= Z.pos (digits2_pos p2)).
  { replace 53 with (52 + 1) by lia. apply digits_ge; lia. }
  assert (Hs2 : shr_fexp prec emax (Z.pos p2) (e1 + 1) loc_Exact =
                (fst (shr_fexp prec emax (Z.pos p2) e1 loc_Exact),
                 snd (shr_fexp prec emax (Z.pos p2) e1 loc_Exact) + 1)).
  { unfold shr_fexp. rewrite !fexp_eq. cbn [Zdigits2].
    replace (fexp64 (Z.pos (digits2_pos p2) + (e1 + 1)) - (e1 + 1))
      with (fexp64 (Z.pos (digits2_pos p2) + e1) - e1)
      by (unfold fexp64; lia).
    apply shr_exp_succ. }
  rewrite Hs2. cbn [fst snd].
  destruct (shr_m (fst (shr_fexp prec emax (Z.pos p2) e1 loc_Exact))) as [|p3|p3];
    try reflexivity.
  set (e3 := snd (shr_fexp prec emax (Z.pos p2) e1 loc_Exact)).
  change (emax - prec) with 971.
  destruct (Z.leb_spec e3 971) as [H3|H3].
  - cbn [lift]. reflexivity.
  - cbn [lift]. destruct (Z.leb_spec (e3 + 1) 971); [lia|reflexivity].
Qed.

Lemma shr_iter_double (k : nat) (m : Z) :
  0 <= m ->
  Nat.iter k shr_1 {| shr_m := m * 2 ^ Z.of_nat k; shr_r := false; shr_s := false |}
  = {| shr_m := m; shr_r := false; shr_s := false |}.
Proof.
  intros Hm. induction k as [|k IH].
  - cbn. now rewrite Z.mul_1_r.
  - rewrite Nat.iter_succ_r. rewrite Nat2Z.inj_succ, Z.pow_succ_r by lia.
    replace (m * (2 * 2 ^ Z.of_nat k)) with (2 * (m * 2 ^ Z.of_nat k)) by lia.
    rewrite shr_1_double by (apply Z.mul_nonneg_nonneg; lia). exact IH.
Qed.

Lemma shr_add (mrs : shr_record) (e a b : Z) :
  0 <= a -> 0 <= b ->
  shr mrs e (a + b) = shr (fst (shr mrs e a)) (snd (shr mrs e a)) b.
Proof.
  intros Ha Hb.
  destruct a as [|a|a]; [reflexivity| |lia].
  destruct b as [|b|b]; [rewrite Z.add_0_r; reflexivity| |lia].
  cbn [shr Z.add fst snd]. rewrite !iter_pos_nat, Pos2Nat.inj_add, Nat.add_comm, Nat.iter_add.
  f_equal. lia.
Qed.

(** The same value with a mantissa shifted left rounds to the same result. *)
Lemma bra_shift (s : bool) (p : positive) (e k : Z) :
  0 <= k ->
  e + k <= fexp64 (Z.pos (digits2_pos p) + e + k) ->
  binary_round_aux prec emax s (Z.pos p * 2 ^ k) e loc_Exact
  = binary_round_aux prec emax s (Z.pos p) (e + k) loc_Exact.
Proof.
  intros Hk Hn. rewrite !binary_round_aux_unfold. cbv zeta.
  assert (Hs : shr_fexp prec emax (Z.pos p * 2 ^ k) e loc_Exact
               = shr_fexp prec emax (Z.pos p) (e + k) loc_Exact).
  { unfold shr_fexp. rewrite !fexp_eq.
    assert (Hp : exists q, Z.pos p * 2 ^ k = Z.pos q /\
                           Z.pos (digits2_pos q) = Z.pos (digits2_pos p) + k).
    { assert (0 < Z.pos p * 2 ^ k) by (apply Z.mul_pos_pos; lia).
      destruct (Z.pos p * 2 ^ k) as [|q|q] eqn:Eq; try lia.
      exists q. split; [reflexivity|].
      pose proof (digits_bounds p) as [Hlo Hhi].
      apply Z.le_antisymm.
      - apply digits_le; [|lia]. rewrite <- Eq, Z.pow_add_r by lia.
        apply Z.mul_lt_mono_pos_r; lia.
      - replace (Z.pos (digits2_pos p) + k) with (Z.pos (digits2_pos p) - 1 + k + 1) by lia.
        apply digits_ge; [|lia]. rewrite <- Eq, Z.pow_add_r by lia.
        apply Z.mul_le_mono_nonneg_r; lia. }
    destruct Hp as (q & Eq & Hdq). rewrite Eq. cbn [Zdigits2]. rewrite Hdq.
    replace (Z.pos (digits2_pos p) + k + e) with (Z.pos (digits2_pos p) + (e + k)) by lia.
    replace (Z.pos (digits2_pos p) + e + k) with (Z.pos (digits2_pos p) + (e + k)) in Hn by lia.
    set (E := fexp64 (Z.pos (digits2_pos p) + (e + k))) in *.
    replace (E - e) with (k + (E - (e + k))) by lia.
    rewrite shr_add by lia. rewrite <- Eq.
    cbn [shr_record_of_loc].
    assert (Hk' : shr {| shr_m := Z.pos p * 2 ^ k; shr_r := false; shr_s := false |} e k
                  = ({| shr_m := Z.pos p; shr_r := false; shr_s := false |}, e + k)).
    { destruct k as [|k|k]; [cbn; f_equal; [f_equal|]; lia| |lia].
      cbn [shr]. rewrite iter_pos_nat. f_equal.
      rewrite <- (positive_nat_Z k) at 1. apply shr_iter_double. lia. }
    rewrite Hk'. reflexivity. }
  rewrite Hs. reflexivity.
Qed.

(** A canonical mantissa is its own rounding. *)
Lemma bra_canonical (s : bool) (p : positive) (e : Z) :
  fexp64 (Z.pos (digits2_pos p) + e) = e ->
  binary_round_aux prec emax s (Z.pos p) e loc_Exact
  = if e <=? 971 then S754_finite s p e else S754_infinity s.
Proof.
  intros Hc. rewrite binary_round_aux_unfold. cbv zeta.
  assert (Hs : shr_fexp prec emax (Z.pos p) e loc_Exact
               = ({| shr_m := Z.pos p; shr_r := false; shr_s := false |}, e)).
  { unfold shr_fexp. rewrite fexp_eq. cbn [Zdigits2]. rewrite Hc, Z.sub_diag. reflexivity. }
  rewrite Hs. cbn [fst snd shr_m loc_of_shr_record round_nearest_even].
  rewrite Hs. reflexivity.
Qed.

(** Twice a finite value. *)
Lemma SFmul_two (s : bool) (m : positive) (e : Z) :
  valid_binary (S754_finite s m e) = true ->
  SFmul prec emax two (S754_finite s m e) =
    if Z.pos (digits2_pos m) =? 53 then lift (S754_finite s m e)
    else S754_finite s (m~0) e.
Proof.
  intros Hv. apply valid_finite in Hv. destruct Hv as [Hc He].
  cbn [SFmul two xorb]. rewrite Pos2Z.inj_mul, Z.mul_comm.
  change (Z.pos 4503599627370496) with (2 ^ 52).
  destruct (Z.eqb_spec (Z.pos (digits2_pos m)) 53) as [Hd|Hd].
  - replace (-51 + e) with (e + 1 - 52) by lia.
    replace (Z.pos m * 2 ^ 52) with (Z.pos m * 2 ^ 52) by reflexivity.
    rewrite (bra_shift s m (e + 1 - 52) 52) by (unfold fexp64 in *; lia).
    replace (e + 1 - 52 + 52) with (e + 1) by lia.
    rewrite bra_canonical by (unfold fexp64 in *; lia). reflexivity.
  - assert (Hsub : Z.pos (digits2_pos m) < 53 /\ e = -1074) by (unfold fexp64 in Hc; lia).
    destruct Hsub as [Hlt ->].
    replace (Z.pos m * 2 ^ 52) with (Z.pos m~0 * 2 ^ 51) by (rewrite Pos2Z.inj_xO; lia).
    replace (-51 + -1074) with (-1074 - 51) by lia.
    rewrite (bra_shift s (m~0) (-1074 - 51) 51).
    + replace (-1074 - 51 + 51) with (-1074) by lia.
      rewrite bra_canonical; [reflexivity|].
      cbn [digits2_pos]. rewrite Pos2Z.inj_succ. unfold fexp64. lia.
    + lia.
    + cbn [digits2_pos]. rewrite Pos2Z.inj_succ. unfold fexp64. lia.
Qed.

Lemma digits_mul (p q : positive) :
  Z.pos (digits2_pos p) + Z.pos (digits2_pos q) - 1 <= Z.pos (digits2_pos (p * q))
  /\ Z.pos (digits2_pos (p * q)) <= Z.pos (digits2_pos p) + Z.pos (digits2_pos q).
Proof.
  pose proof (digits_bounds p) as [Hp1 Hp2]. pose proof (digits_bounds q) as [Hq1 Hq2].
  set (dp := Z.pos (digits2_pos p)) in *. set (dq := Z.pos (digits2_pos q)) in *.
  assert (1 <= dp /\ 1 <= dq) as [Hdp Hdq] by (unfold dp, dq; lia).
  split.
  - replace (dp + dq - 1) with (dp - 1 + (dq - 1) + 1) by lia.
    apply digits_ge; [|lia].
    rewrite Pos2Z.inj_mul, Z.pow_add_r by lia. apply Z.mul_le_mono_nonneg; lia.
  - apply digits_le; [|lia].
    rewrite Pos2Z.inj_mul, Z.pow_add_r by lia. apply Z.mul_lt_mono_nonneg; lia.
Qed.

(** A product of two finite values that is big has a mantissa of 53 bits
    or more, rounded above the subnormal range. *)
Lemma big_product (s : bool) (ma mc : positive) (ea ec : Z) :
  valid_binary (S754_finite s ma ea) = true ->
  valid_binary (S754_finite s mc ec) = true ->
  is_big (binary_round_aux prec emax s (Z.pos (ma * mc)) (ea + ec) loc_Exact) = true ->
  53 <= Z.pos (digits2_pos (ma * mc)) /\
  -1074 <= Z.pos (digits2_pos (ma * mc)) + (ea + ec) - 53.
Proof.
  intros Hva Hvc Hbig.
  apply valid_finite in Hva, Hvc. destruct Hva as [Hca Hea], Hvc as [Hcc Hec].
  destruct (digits_mul ma mc) as [HD1 HD2].
  set (D := Z.pos (digits2_pos (ma * mc))) in *.
  set (da := Z.pos (digits2_pos ma)) in *. set (dc := Z.pos (digits2_pos mc)) in *.
  set (e := ea + ec) in *.
  assert (Hda : 1 <= da) by (unfold da; lia). assert (Hdc : 1 <= dc) by (unfold dc; lia).
  assert (Hii : -1074 <= D + e - 53).
  { destruct (Z_le_gt_dec (-1074) (D + e - 53)) as [H|H]; [exact H|exfalso].
    assert (Hele : e <= -1074) by (unfold fexp64, e in *; lia).
    destruct (binary_round_aux_spec s (Z.pos (ma * mc)) e loc_Exact) as (m2 & Hb & Heq); [lia|].
    cbv zeta in Heq. cbn [Zdigits2] in Heq, Hb. fold D in Heq, Hb.
    assert (Hn1 : Z.max (fexp64 (D + e) - e) 0 = -1074 - e) by (unfold fexp64; lia).
    rewrite Hn1 in Heq, Hb.
    replace (e + (-1074 - e)) with (-1074) in Heq by lia.
    assert (Hm1 : Z.pos (ma * mc) / 2 ^ (-1074 - e) < 2 ^ 52).
    { apply Z.div_lt_upper_bound; [lia|].
      rewrite <- Z.pow_add_r by lia.
      eapply Z.lt_le_trans; [apply (digits_bounds (ma * mc))|].
      fold D. apply Z.pow_le_mono_r; lia. }
    assert (H0 : 0 <= Z.pos (ma * mc) / 2 ^ (-1074 - e)) by (apply Z.div_pos; lia).
    assert (Hd2 : Zdigits2 m2 <= 53) by (apply Zdigits2_le; lia).
    pose proof (Zdigits2_nonneg m2) as Hd2'.
    assert (Hn2 : Z.max (fexp64 (Zdigits2 m2 + -1074) - -1074) 0 = 0) by (unfold fexp64; lia).
    rewrite Hn2, Z.pow_0_r, Z.div_1_r, Z.add_0_r in Heq.
    rewrite Heq in Hbig. destruct m2; cbn in Hbig; discriminate. }
  split; [|exact Hii].
  unfold fexp64, e in *. lia.
Qed.

(** Doubling one factor doubles a big product. *)
Lemma SFmul_double (a c : spec_float) :
  valid_binary a = true -> valid_binary c = true ->
  valid_binary (SFmul prec emax a c) = true ->
  is_fin (SFmul prec emax two c) = true ->
  is_big (SFmul prec emax a c) = true ->
  SFmul prec emax a (SFmul prec emax two c) = SFmul prec emax two (SFmul prec emax a c).
Proof.
  intros Hva Hvc HvP H2c Hbig.
  destruct c as [sc|sc| |sc mc ec];
    [destruct a as [sa|sa| |sa ma ea]; discriminate
    |discriminate
    |destruct a as [sa|sa| |sa ma ea]; discriminate|].
  rewrite (SFmul_two sc mc ec Hvc) in *.
  destruct a as [sa|sa| |sa ma ea]; try discriminate.
  - (* an infinity times a finite value *)
    destruct (Z.pos (digits2_pos mc) =? 53).
    + cbn [lift] in *. destruct (ec + 1 <=? 971); [|discriminate].
      cbn. now destruct sa, sc.
    + cbn. now destruct sa, sc.
  - (* two finite values *)
    assert (Hprod : 53 <= Z.pos (digits2_pos (ma * mc)) /\
                    -1074 <= Z.pos (digits2_pos (ma * mc)) + (ea + ec) - 53).
    { apply (big_product (xorb sa sc) ma mc ea ec); [exact Hva|exact Hvc|exact Hbig]. }
    destruct Hprod as [HD HE].
    assert (Hleft : SFmul prec emax (S754_finite sa ma ea)
                      (if Z.pos (digits2_pos mc) =? 53 then lift (S754_finite sc mc ec)
                       else S754_finite sc mc~0 ec)
                    = lift (SFmul prec emax (S754_finite sa ma ea) (S754_finite sc mc ec))).
    { cbn [SFmul]. rewrite <- (bra_exp_succ _ _ _ _ HD HE).
      destruct (Z.pos (digits2_pos mc) =? 53).
      - cbn [lift] in *. destruct (ec + 1 <=? 971); [|discriminate].
        cbn [SFmul]. now rewrite Z.add_assoc.
      - cbn [SFmul]. rewrite <- (bra_shift _ (ma * mc) (ea + ec) 1); [|lia|unfold fexp64; lia].
        f_equal. rewrite Pos.mul_xO_r, Pos2Z.inj_xO. lia. }
    rewrite Hleft.
    destruct (SFmul prec emax (S754_finite sa ma ea) (S754_finite sc mc ec))
      as [sp|sp| |sp mp ep] eqn:EP; try discriminate.
    + reflexivity.
    + rewrite (SFmul_two sp mp ep HvP).
      apply valid_finite in HvP. destruct HvP as [Hcp Hep].
      cbn [is_big] in Hbig. apply Z.leb_le in Hbig.
      assert (Z.pos (digits2_pos mp) = 53) as -> by (unfold fexp64 in Hcp; lia).
      reflexivity.
Qed.
End SFFacts.

(** ** The real value of a rounded result

    In the normal range and away from overflow, a product and a quotient of
    binary64 values are the real product and quotient up to one unit in
    the last place. *)

Module SFValue.
Import SF SFFacts.
Open Scope Z_scope.

Lemma pow2_pos (e : Z) : (0 < pow2 e)%R.
Proof. apply powerRZ_lt. lra. Qed.

Lemma pow2_add (a b : Z) : pow2 (a + b) = (pow2 a * pow2 b)%R.
Proof. apply powerRZ_add. lra. Qed.

Lemma pow2_IZR (k : Z) : 0 <= k -> IZR (2 ^ k) = pow2 k.
Proof.
  intros Hk. rewrite <- (Z2Nat.id k Hk). rewrite <- pow_IZR. unfold pow2.
  rewrite <- pow_powerRZ. reflexivity.
Qed.

(** The integer quotient is the floor of the real one. *)
Lemma floor_div (a b : Z) :
  0 < b -> (IZR (a / b) <= IZR a / IZR b < IZR (a / b) + 1)%R.
Proof.
  intros Hb.
  pose proof (Z.div_mod a b ltac:(lia)) as E.
  pose proof (Z.mod_pos_bound a b Hb) as [Hr1 Hr2].
  assert (HB : (0 < IZR b)%R) by (apply IZR_lt; assumption).
  assert (Ea : IZR a = (IZR b * IZR (a / b) + IZR (a mod b))%R).
  { rewrite <- mult_IZR, <- plus_IZR. f_equal. exact E. }
  apply IZR_le in Hr1. apply IZR_lt in Hr2.
  assert (Eq : (IZR a / IZR b = IZR (a / b) + IZR (a mod b) / IZR b)%R).
  { rewrite Ea. field. lra. }
  rewrite Eq.
  assert (0 <= IZR (a mod b) / IZR b < 1)%R.
  { split.
    - apply Rmult_le_pos; [assumption|]. left. apply Rinv_0_lt_compat. assumption.
    - apply Rmult_lt_reg_r with (r := IZR b); [assumption|].
      unfold Rdiv. rewrite Rmult_assoc, Rinv_l by lra. lra. }
  lra.
Qed.

(** A real number whose floor has 53 bits, replaced by its floor or the
    next integer, moves by one unit in the last place at most. *)
Lemma round_within (m1 m2 : Z) (q p : R) :
  4503599627370496 <= m1 -> m1 <= m2 <= m1 + 1 ->
  (IZR m1 <= q < IZR m1 + 1)%R -> (0 < p)%R ->
  within ulp53 (IZR m2 * p) (q * p).
Proof.
  intros H52 [Hlo Hhi] [Hq1 Hq2] Hp.
  apply IZR_le in H52, Hlo, Hhi. rewrite plus_IZR in Hhi.
  unfold within, ulp53.
  assert (Hu : (1 <= / 4503599627370496 * q)%R) by lra.
  split.
  - replace ((1 - / 4503599627370496) * (q * p))%R
      with ((q - / 4503599627370496 * q) * p)%R by ring.
    apply Rmult_le_compat_r; lra.
  - replace ((1 + / 4503599627370496) * (q * p))%R
      with ((q + / 4503599627370496 * q) * p)%R by ring.
    apply Rmult_le_compat_r; lra.
Qed.

(** Rounding a mantissa of 53 bits or more, in the normal range. *)
Lemma bra_normal (s : bool) (M : positive) (e : Z) (l : location) :
  let D := Z.pos (digits2_pos M) in
  53 <= D -> -1074 <= D + e - 53 -> D + e <= 1023 ->
  exists (m3 : positive) (e3 m2 : Z),
    binary_round_aux prec emax s (Z.pos M) e l = S754_finite s m3 e3 /\
    Z.pos (digits2_pos m3) = 53 /\
    D + e - 53 <= e3 <= D + e - 52 /\
    Z.pos M / 2 ^ (D - 53) <= m2 <= Z.pos M / 2 ^ (D - 53) + 1 /\
    Z.pos m3 * 2 ^ (e3 - (D + e - 53)) = m2.
Proof.
  intros D HD Hlo Hhi.
  destruct (binary_round_aux_spec s (Z.pos M) e l) as (m2 & Hb & ->); [lia|].
  cbv zeta. cbn [Zdigits2] in *. fold D in Hb |- *.
  assert (Hn1 : Z.max (fexp64 (D + e) - e) 0 = D - 53) by (unfold fexp64; lia).
  rewrite Hn1 in *.
  replace (e + (D - 53)) with (D + e - 53) by lia.
  set (e1 := D + e - 53) in *.
  set (m1 := Z.pos M / 2 ^ (D - 53)) in *.
  pose proof (digits_bounds M) as [HM1 HM2]. fold D in HM1, HM2.
  assert (Hm1 : 2 ^ 52 <= m1 < 2 ^ 53).
  { unfold m1. split.
    - apply Z.div_le_lower_bound; [lia|].
      rewrite <- Z.pow_add_r by lia. replace (D - 53 + 52) with (D - 1) by lia. exact HM1.
    - apply Z.div_lt_upper_bound; [lia|].
      rewrite <- Z.pow_add_r by lia. replace (D - 53 + 53) with D by lia. exact HM2. }
  change (2 ^ 52) with 4503599627370496 in Hm1.
  change (2 ^ 53) with 9007199254740992 in Hm1.
  destruct m2 as [|p2|p2]; [lia| |lia].
  cbn [Zdigits2].
  destruct (Z_lt_le_dec (Z.pos p2) 9007199254740992) as [Hlt|Hge].
  - assert (Hd2 : Z.pos (digits2_pos p2) = 53).
    { apply Z.le_antisymm.
      - apply digits_le; [exact Hlt|lia].
      - apply (digits_ge p2 52); lia. }
    rewrite Hd2.
    assert (Hn2 : Z.max (fexp64 (53 + e1) - e1) 0 = 0) by (unfold fexp64; lia).
    rewrite Hn2, Z.pow_0_r, Z.div_1_r, Z.add_0_r.
    assert ((e1 <=? emax - prec) = true) as ->.
    { apply Z.leb_le. change (emax - prec) with 971. unfold e1. lia. }
    exists p2, e1, (Z.pos p2). repeat split; try lia.
    replace (e1 - e1) with 0 by lia. lia.
  - assert (Hp2 : Z.pos p2 = 9007199254740992) by lia.
    assert (Ep : p2 = 9007199254740992%positive) by lia. subst p2.
    change (Z.pos (digits2_pos 9007199254740992)) with 54.
    assert (Hn2 : Z.max (fexp64 (54 + e1) - e1) 0 = 1) by (unfold fexp64; lia).
    rewrite Hn2.
    change (9007199254740992 / 2 ^ 1) with 4503599627370496.
    assert ((e1 + 1 <=? emax - prec) = true) as ->.
    { apply Z.leb_le. change (emax - prec) with 971. unfold e1. lia. }
    exists 4503599627370496%positive, (e1 + 1), 9007199254740992.
    repeat split; try lia.
    replace (e1 + 1 - e1) with 1 by lia. reflexivity.
Qed.

(** The value of the rounded result against the value it rounds. *)
Lemma bra_normal_value (M : positive) (e : Z) (l : location) (t : R) :
  let D := Z.pos (digits2_pos M) in
  53 <= D -> -1074 <= D + e - 53 -> D + e <= 1023 ->
  (IZR (Z.pos M) * pow2 e <= t < (IZR (Z.pos M) + 1) * pow2 e)%R ->
  exists (m3 : positive) (e3 : Z),
    binary_round_aux prec emax false (Z.pos M) e l = S754_finite false m3 e3 /\
    Z.pos (digits2_pos m3) = 53 /\
    D + e - 53 <= e3 <= D + e - 52 /\
    within ulp53 (IZR (Z.pos m3) * pow2 e3) t.
Proof.
  intros D HD Hlo Hhi Ht.
  destruct (bra_normal false M e l HD Hlo Hhi) as (m3 & e3 & m2 & E & Hd3 & He3 & Hm2 & Hval).
  fold D in He3, Hm2, Hval.
  exists m3, e3.
  split; [exact E|]. split; [exact Hd3|]. split; [exact He3|].
  set (e1 := D + e - 53) in *.
  set (n1 := D - 53) in *.
  assert (Hn1 : 0 <= n1) by (unfold n1; lia).
  (* the result is m2 * 2^e1 *)
  assert (Hres : (IZR (Z.pos m3) * pow2 e3 = IZR m2 * pow2 e1)%R).
  { rewrite <- Hval, mult_IZR, pow2_IZR by lia.
    rewrite Rmult_assoc, <- pow2_add. do 2 f_equal. lia. }
  rewrite Hres.
  (* t = q * 2^e1 with floor q = floor (M / 2^n1) *)
  set (q := (t / pow2 e1)%R).
  pose proof (pow2_pos e1) as Hp1. pose proof (pow2_pos e) as Hp.
  assert (Ht' : t = (q * pow2 e1)%R) by (unfold q; field; lra).
  rewrite Ht'.
  assert (He1 : pow2 e1 = (pow2 e * IZR (2 ^ n1))%R).
  { rewrite pow2_IZR, <- pow2_add by lia. f_equal. unfold e1, n1. lia. }
  assert (H2n : (0 < IZR (2 ^ n1))%R) by (apply IZR_lt; lia).
  pose proof (floor_div (Z.pos M) (2 ^ n1) ltac:(lia)) as [Hf1 Hf2].
  pose proof (digits_bounds M) as [HM1 _]. fold D in HM1.
  apply round_within with (m1 := Z.pos M / 2 ^ n1).
  - change 4503599627370496 with (2 ^ 52). apply Z.div_le_lower_bound; [lia|].
    rewrite <- Z.pow_add_r by lia. replace (n1 + 52) with (D - 1) by (unfold n1; lia). exact HM1.
  - exact Hm2.
  - (* IZR (M / 2^n1) <= q < IZR (M / 2^n1) + 1 *)
    destruct Ht as [Ht1 Ht2].
    assert (Hq : (IZR (Z.pos M) / IZR (2 ^ n1) <= q < (IZR (Z.pos M) + 1) / IZR (2 ^ n1))%R).
    { unfold q. rewrite He1. split.
      - apply Rmult_le_reg_r with (r := (pow2 e * IZR (2 ^ n1))%R); [nra|].
        unfold Rdiv at 2. rewrite Rmult_assoc, Rinv_l by nra.
        replace (IZR (Z.pos M) / IZR (2 ^ n1) * (pow2 e * IZR (2 ^ n1)))%R
          with (IZR (Z.pos M) * pow2 e)%R by (field; lra). lra.
      - apply Rmult_lt_reg_r with (r := (pow2 e * IZR (2 ^ n1))%R); [nra|].
        unfold Rdiv at 1. rewrite Rmult_assoc, Rinv_l by nra.
        replace ((IZR (Z.pos M) + 1) / IZR (2 ^ n1) * (pow2 e * IZR (2 ^ n1)))%R
          with ((IZR (Z.pos M) + 1) * pow2 e)%R by (field; lra). lra. }
    split; [lra|].
    (* (M + 1) / 2^n1 <= floor (M / 2^n1) + 1 *)
    assert (Hz : Z.pos M + 1 <= (Z.pos M / 2 ^ n1 + 1) * 2 ^ n1).
    { pose proof (Z.div_mod (Z.pos M) (2 ^ n1) ltac:(lia)).
      pose proof (Z.mod_pos_bound (Z.pos M) (2 ^ n1) ltac:(lia)). nia. }
    apply IZR_le in Hz. rewrite mult_IZR, !plus_IZR in Hz.
    assert ((IZR (Z.pos M) + 1) / IZR (2 ^ n1) <= IZR (Z.pos M / 2 ^ n1) + 1)%R.
    { apply Rmult_le_reg_r with (r := IZR (2 ^ n1)); [assumption|].
      unfold Rdiv. rewrite Rmult_assoc, Rinv_l by lra. lra. }
    lra.
  - exact Hp1.
Qed.

Lemma pow2_opp (a : Z) : (pow2 a * pow2 (- a))%R = 1%R.
Proof. rewrite <- pow2_add. replace (a + - a) with 0 by lia. reflexivity. Qed.

Lemma pow2_neg (k : Z) : (0 <= k)%Z -> pow2 (- k) = (/ IZR (2 ^ k))%R.
Proof.
  intros Hk. pose proof (pow2_opp k) as H. pose proof (pow2_pos k) as Hp.
  rewrite pow2_IZR by assumption.
  apply Rmult_eq_reg_l with (r := pow2 k); [|lra].
  rewrite H, Rinv_r by lra. reflexivity.
Qed.

(** The product of two normal positive values, away from overflow and
    underflow, is the real product up to one unit in the last place. *)
Lemma SFmul_value (mx my : positive) (ex ey : Z) :
  Z.pos (digits2_pos mx) = 53 -> Z.pos (digits2_pos my) = 53 ->
  -1126 <= ex + ey <= 917 ->
  exists (m3 : positive) (e3 : Z),
    SFmul prec emax (S754_finite false mx ex) (S754_finite false my ey)
      = S754_finite false m3 e3 /\
    Z.pos (digits2_pos m3) = 53 /\
    ex + ey + 52 <= e3 <= ex + ey + 54 /\
    within ulp53 (SF2R (S754_finite false m3 e3))
      (SF2R (S754_finite false mx ex) * SF2R (S754_finite false my ey)).
Proof.
  intros Hx Hy He. cbn [SFmul xorb SF2R].
  pose proof (digits_mul mx my) as [HD1 HD2]. rewrite Hx, Hy in HD1, HD2.
  set (t := (1 * IZR (Z.pos mx) * pow2 ex * (1 * IZR (Z.pos my) * pow2 ey))%R).
  pose proof (pow2_pos (ex + ey)) as Hp.
  destruct (bra_normal_value (mx * my) (ex + ey) loc_Exact t)
    as (m3 & e3 & E & Hd3 & He3 & Hw); try lia.
  { unfold t. rewrite Pos2Z.inj_mul, mult_IZR, pow2_add.
    split; [right; ring|].
    apply Rle_lt_trans with (r2 := (IZR (Z.pos mx) * IZR (Z.pos my) * (pow2 ex * pow2 ey))%R).
    - right. ring.
    - rewrite <- pow2_add. nra. }
  exists m3, e3. split; [exact E|]. split; [exact Hd3|]. split; [lia|].
  rewrite Rmult_1_l. exact Hw.
Qed.

(** The same for a quotient. *)
Lemma SFdiv_value (mx my : positive) (ex ey : Z) :
  Z.pos (digits2_pos mx) = 53 -> Z.pos (digits2_pos my) = 53 ->
  -1021 <= ex - ey <= 1022 ->
  exists (m3 : positive) (e3 : Z),
    SFdiv prec emax (S754_finite false mx ex) (S754_finite false my ey)
      = S754_finite false m3 e3 /\
    Z.pos (digits2_pos m3) = 53 /\
    ex - ey - 53 <= e3 <= ex - ey - 51 /\
    within ulp53 (SF2R (S754_finite false m3 e3))
      (SF2R (S754_finite false mx ex) / SF2R (S754_finite false my ey)).
Proof.
  intros Hx Hy He. cbn [SFdiv xorb SF2R].
  destruct (SFdiv_core_spec mx my ex ey) as [l ->]. rewrite Hx, Hy.
  assert (He' : Z.min (fexp64 (53 + ex - (53 + ey))) (ex - ey) = ex - ey - 53)
    by (unfold fexp64; lia).
  rewrite He'. replace (ex - ey - (ex - ey - 53)) with 53 by lia.
  set (e' := ex - ey - 53).
  pose proof (digits_bounds mx) as [Hx1 Hx2]. rewrite Hx in Hx1, Hx2.
  pose proof (digits_bounds my) as [Hy1 Hy2]. rewrite Hy in Hy1, Hy2.
  change (2 ^ (53 - 1)) with 4503599627370496 in Hx1, Hy1.
  change (2 ^ 53) with 9007199254740992 in *.
  set (q := Z.pos mx * 9007199254740992 / Z.pos my).
  assert (Hq : 2 ^ 52 <= q < 2 ^ 54).
  { unfold q. split.
    - apply Z.div_le_lower_bound; lia.
    - apply Z.div_lt_upper_bound; lia. }
  destruct q as [|pq|pq] eqn:Eq; [lia| |lia].
  assert (HD : 53 <= Z.pos (digits2_pos pq) <= 54).
  { split; [apply (digits_ge pq 52); lia|apply digits_le; lia]. }
  set (t := (1 * IZR (Z.pos mx) * pow2 ex / (1 * IZR (Z.pos my) * pow2 ey))%R).
  pose proof (pow2_pos ex) as Hpx. pose proof (pow2_pos ey) as Hpy.
  pose proof (pow2_pos e') as Hpe.
  assert (HY : (0 < IZR (Z.pos my))%R) by (apply IZR_lt; lia).
  assert (Ht : t = (IZR (Z.pos mx * 9007199254740992) / IZR (Z.pos my) * pow2 e')%R).
  { unfold t. rewrite mult_IZR.
    change 9007199254740992 with (2 ^ 53). rewrite pow2_IZR by lia.
    assert (Hex : pow2 ex = (pow2 e' * pow2 53 * pow2 ey)%R).
    { rewrite <- !pow2_add. f_equal. unfold e'. lia. }
    rewrite Hex. field. lra. }
  pose proof (floor_div (Z.pos mx * 9007199254740992) (Z.pos my) ltac:(lia)) as [Hf1 Hf2].
  fold q in Hf1, Hf2. rewrite Eq in Hf1, Hf2.
  destruct (bra_normal_value pq e' l t) as (m3 & e3 & E & Hd3 & He3 & Hw);
    try (unfold e'; lia).
  { rewrite Ht. split.
    - apply Rmult_le_compat_r; lra.
    - apply Rmult_lt_compat_r; lra. }
  exists m3, e3. split; [exact E|]. split; [exact Hd3|]. split; [unfold e' in He3; lia|].
  rewrite Rmult_1_l. exact Hw.
Qed.

(** Three factors within one unit each stay within four units together. *)
Lemma within_chain (a b c x y z : R) :
  within ulp53 x (a * c) -> within ulp53 y (x * b) -> within ulp53 (a * b) z ->
  (0 <= b)%R -> (0 <= c)%R -> (0 <= z)%R ->
  within (4 * ulp53) y (z * c).
Proof.
  unfold within, ulp53. set (u := (/ 4503599627370496)%R).
  assert (Hu : (0 < u < / 4)%R) by (unfold u; lra).
  intros [H1 H2] [H3 H4] [H5 H6] Hb Hc Hz.
  set (k := (1 - u)%R) in *. set (K := (1 + u)%R) in *.
  assert (Hk : (0 <= k)%R) by (unfold k; lra).
  assert (HK : (0 <= K)%R) by (unfold K; lra).
  assert (Hkk : (0 <= k * k)%R) by (apply Rmult_le_pos; assumption).
  assert (HKK : (0 <= K * K)%R) by (apply Rmult_le_pos; assumption).
  assert (Hzc : (0 <= z * c)%R) by (apply Rmult_le_pos; assumption).
  assert (Huu : (0 <= u * u <= u * / 4)%R) by nra.
  split.
  - assert (L1 : (k * (a * c) * b <= x * b)%R) by (apply Rmult_le_compat_r; assumption).
    assert (L2 : (k * (k * (a * c) * b) <= k * (x * b))%R)
      by (apply Rmult_le_compat_l; assumption).
    assert (L3 : (k * z * c <= a * b * c)%R) by (apply Rmult_le_compat_r; assumption).
    assert (L4 : (k * k * (k * z * c) <= k * k * (a * b * c))%R)
      by (apply Rmult_le_compat_l; assumption).
    assert (L5 : (1 - 4 * u <= k * k * k)%R).
    { unfold k. assert (u * u * u <= u * u * / 4)%R by nra. nra. }
    assert (L6 : ((1 - 4 * u) * (z * c) <= k * k * k * (z * c))%R)
      by (apply Rmult_le_compat_r; assumption).
    assert (E1 : (k * k * k * (z * c) = k * k * (k * z * c))%R) by ring.
    assert (E2 : (k * k * (a * b * c) = k * (k * (a * c) * b))%R) by ring.
    lra.
  - assert (L1 : (x * b <= K * (a * c) * b)%R) by (apply Rmult_le_compat_r; assumption).
    assert (L2 : (K * (x * b) <= K * (K * (a * c) * b))%R)
      by (apply Rmult_le_compat_l; assumption).
    assert (L3 : (a * b * c <= K * z * c)%R) by (apply Rmult_le_compat_r; assumption).
    assert (L4 : (K * K * (a * b * c) <= K * K * (K * z * c))%R)
      by (apply Rmult_le_compat_l; assumption).
    assert (L5 : (K * K * K <= 1 + 4 * u)%R).
    { unfold K. assert (0 <= u * u * u <= u * u * / 4)%R by nra. nra. }
    assert (L6 : (K * K * K * (z * c) <= (1 + 4 * u) * (z * c))%R)
      by (apply Rmult_le_compat_r; assumption).
    assert (E1 : (K * K * K * (z * c) = K * K * (K * z * c))%R) by ring.
    assert (E2 : (K * K * (a * b * c) = K * (K * (a * c) * b))%R) by ring.
    lra.
Qed.

End SFValue.

(** ** Binary64 values of the interpreter

    The same facts on the primitive floats, through the axioms that tie each
    primitive operation to its specification. *)

Module B64Facts.
Open Scope float_scope.

Lemma ltb_zero_pos (x : float) : (0 <? x) = true -> SF.is_pos (Prim2SF x) = true.
Proof.
  rewrite FloatAxioms.ltb_spec. replace (Prim2SF 0) with (S754_zero false) by reflexivity.
  destruct (Prim2SF x) as [s|[|]| |[|] m e]; try reflexivity; try discriminate.
Qed.

Lemma leb_zero_nn (x : float) : (0 <=? x) = true <-> SF.is_nn (Prim2SF x) = true.
Proof.
  rewrite FloatAxioms.leb_spec. replace (Prim2SF 0) with (S754_zero false) by reflexivity.
  destruct (Prim2SF x) as [s|[|]| |[|] m e]; split; try reflexivity; try discriminate.
Qed.

Lemma is_nan_num (x : float) : is_nan x = false <-> SF.is_num (Prim2SF x) = true.
Proof.
  unfold is_nan. rewrite FloatAxioms.eqb_spec.
  pose proof (Prim2SF_valid x) as Hv.
  destruct (Prim2SF x) as [[|]|[|]| |s m e]; split; try reflexivity; try discriminate.
  - intros _. unfold SFeqb. rewrite SFFacts.SFcompare_refl_finite. reflexivity.
Qed.

Lemma is_finite_fin (x : float) : is_finite x = true <-> SF.is_fin (Prim2SF x) = true.
Proof.
  unfold is_finite, is_nan, is_infinity. rewrite !FloatAxioms.eqb_spec, FloatAxioms.abs_spec.
  replace (Prim2SF infinity) with (S754_infinity false) by reflexivity.
  destruct (Prim2SF x) as [[|]|[|]| |s m e]; split; try reflexivity; try discriminate.
  - intros _. unfold SFeqb. rewrite SFFacts.SFcompare_refl_finite. reflexivity.
Qed.

Lemma eqb_zero_of_pos (x : float) : SF.is_pos (Prim2SF x) = true -> (x =? 0) = false.
Proof.
  rewrite FloatAxioms.eqb_spec. replace (Prim2SF 0) with (S754_zero false) by reflexivity.
  destruct (Prim2SF x) as [s|[|]| |[|] m e]; try reflexivity; try discriminate.
Qed.

(** [x * y] is positive when [x] is and [y] is a finite value from 1 on. *)
Lemma mul_pos (x y : float) (my : positive) (ey : Z) :
  (0 <? x) = true ->
  Prim2SF y = S754_finite false my ey ->
  (1 <= Z.pos (digits2_pos my) + ey)%Z ->
  SF.is_pos (Prim2SF (x * y)) = true.
Proof.
  intros Hx Hy Hd. rewrite FloatAxioms.mul_spec, Hy.
  apply SFFacts.SFmul_pos_finite; [apply Prim2SF_valid|now apply ltb_zero_pos|exact Hd].
Qed.

(** A zero divided by a positive value is that zero. *)
Lemma zero_div_pos (y : float) :
  SF.is_pos (Prim2SF y) = true -> 0 / y = 0 /\ neg_zero / y = neg_zero.
Proof.
  intros Hy. split; apply Prim2SF_inj; rewrite FloatAxioms.div_spec.
  - replace (Prim2SF 0) with (S754_zero false) by reflexivity.
    destruct (Prim2SF y) as [s|[|]| |[|] m e]; try discriminate; reflexivity.
  - replace (Prim2SF neg_zero) with (S754_zero true) by reflexivity.
    destruct (Prim2SF y) as [s|[|]| |[|] m e]; try discriminate; reflexivity.
Qed.

(** Adding a non-negative float does not decrease a non-negative one, and
    the sum is non-negative. *)
Lemma add_ge (x y : float) :
  (0 <=? x) = true -> (0 <=? y) = true ->
  (x <=? x + y) = true /\ (0 <=? x + y) = true.
Proof.
  intros Hx Hy. apply leb_zero_nn in Hx, Hy.
  assert (H : (x <=? x + y) = true).
  { rewrite FloatAxioms.leb_spec, FloatAxioms.add_spec.
    apply SFFacts.SFadd_ge; [apply Prim2SF_valid|exact Hx|exact Hy]. }
  split; [exact H|]. apply leb_zero_nn.
  rewrite FloatAxioms.leb_spec in H. exact (SFFacts.SFleb_nn _ _ Hx H).
Qed.

(** The product of two finite non-negative floats is non-negative (it may
    be an infinity, it is not NaN). *)
Lemma mul_nn (x y : float) :
  (0 <=? x) = true -> is_finite x = true ->
  (0 <=? y) = true -> is_finite y = true ->
  (0 <=? x * y) = true.
Proof.
  intros Hx Fx Hy Fy. apply leb_zero_nn. rewrite FloatAxioms.mul_spec.
  apply SFFacts.SFmul_nn_fin; (now apply leb_zero_nn) || (now apply is_finite_fin).
Qed.

(** A finite non-negative float divided by a finite positive one that is at
    least 2 is finite and non-negative. *)
Lemma div_nn_fin (x y : float) (my : positive) (ey : Z) :
  (0 <=? x) = true -> is_finite x = true ->
  Prim2SF y = S754_finite false my ey ->
  (2 <= Z.pos (digits2_pos my) + ey)%Z ->
  (0 <=? x / y) = true /\ is_finite (x / y) = true.
Proof.
  intros Hx Fx Hy Hd. split.
  - apply leb_zero_nn. rewrite FloatAxioms.div_spec, Hy.
    apply SFFacts.SFdiv_nn_finite. now apply leb_zero_nn.
  - apply is_finite_fin. rewrite FloatAxioms.div_spec, Hy.
    apply SFFacts.SFdiv_fin_finite; [apply Prim2SF_valid|now apply is_finite_fin|exact Hd].
Qed.

(** Doubling one factor doubles the product, when the doubled factor is
    finite and the product has magnitude [2^-1021] or more. *)
Lemma mul_double (a c : float) :
  is_finite (2 * c) = true ->
  (0x1p-1021 <=? abs (a * c)) = true ->
  a * (2 * c) = 2 * (a * c).
Proof.
  intros Hfin Hbig. apply Prim2SF_inj.
  rewrite (FloatAxioms.mul_spec a (2 * c)), (FloatAxioms.mul_spec 2 (a * c)).
  rewrite (FloatAxioms.mul_spec 2 c).
  apply is_finite_fin in Hfin. rewrite FloatAxioms.mul_spec in Hfin.
  rewrite FloatAxioms.leb_spec, FloatAxioms.abs_spec in Hbig.
  pose proof (Prim2SF_valid (a * c)) as HvP.
  rewrite FloatAxioms.mul_spec in HvP, Hbig |- *.
  replace (Prim2SF 2) with SF.two in * by reflexivity.
  replace (Prim2SF 0x1p-1021) with (S754_finite false 4503599627370496 (-1073)) in Hbig
    by reflexivity.
  assert (HB : SF.is_big (SF64mul (Prim2SF a) (Prim2SF c)) = true).
  { destruct (SF64mul (Prim2SF a) (Prim2SF c)) as [s|s| |s m e];
      try discriminate; try reflexivity.
    cbn [SFabs] in Hbig. unfold SFleb, SFcompare in Hbig. cbn [SF.is_big].
    apply Z.leb_le. destruct (Z.compare_spec (-1073) e); lia || discriminate. }
  apply SFFacts.SFmul_double; try apply Prim2SF_valid; assumption.
Qed.

(** A float between [2^-1000] and [2^1000] is a normal positive value. *)
Lemma normal_range (f : float) :
  (0x1p-1000 <=? f) = true -> (f <=? 0x1p1000) = true ->
  exists (mf : positive) (ef : Z),
    Prim2SF f = S754_finite false mf ef /\
    Z.pos (digits2_pos mf) = 53%Z /\ (-1052 <= ef <= 948)%Z.
Proof.
  intros Hlo Hhi. rewrite FloatAxioms.leb_spec in Hlo, Hhi.
  pose proof (Prim2SF_valid f) as Hv.
  replace (Prim2SF 0x1p-1000) with (S754_finite false 4503599627370496 (-1052)) in Hlo
    by reflexivity.
  replace (Prim2SF 0x1p1000) with (S754_finite false 4503599627370496 948) in Hhi
    by reflexivity.
  destruct (Prim2SF f) as [s|[|]| |[|] mf ef]; try discriminate.
  exists mf, ef. split; [reflexivity|].
  apply SFFacts.valid_finite in Hv. destruct Hv as [Hc _].
  unfold SFleb, SFcompare in Hlo, Hhi.
  assert (H1 : (-1052 <= ef)%Z).
  { destruct (Z.compare_spec (-1052) ef); lia || discriminate. }
  assert (H2 : (ef <= 948)%Z).
  { destruct (Z.compare_spec ef 948); lia || discriminate. }
  unfold SF.fexp64 in Hc. split; lia.
Qed.

(** Two floats with different bits are different. *)
Lemma neq_of_leibniz (x y : float) : PrimFloat.Leibniz.eqb x y = false -> x <> y.
Proof.
  intros H E. apply FloatAxioms.Leibniz.eqb_spec in E. congruence.
Qed.
End B64Facts.


(** ** Literals and sample runs *)

Lemma Ok_inj {A : Type} (a b : A) : Ok a = Ok b -> a = b.
Proof.
  intros H.
  exact (f_equal (fun r => match r with Ok x => x | Raise _ => a end) H).
Qed.

(** Replaces [Prim2SF c], for a float constant [c], by its value. *)
Ltac eval_sf c :=
  let v := eval vm_compute in (Prim2SF c) in
  replace (Prim2SF c) with v by (vm_compute; reflexivity).

(** A float with other bits than [y] is not [y]. *)
Ltac float_neq := apply B64Facts.neq_of_leibniz; vm_compute; reflexivity.

Example exp_stand_in_zero : exp_stand_in 0 = 1%float /\ exp_stand_in (-0) = 1%float.
Proof. split; reflexivity. Qed.

Example exp_stand_in_one : exp_stand_in 1 = 2.7182818284586969%float.
Proof. vm_compute. reflexivity. Qed.

Example lit_G0 : lit (F:=float) 980665 (-5) = 9.80665%float.
Proof. vm_compute. reflexivity. Qed.

Example lit_C : lit (F:=float) 713 (-5) = 0.00713%float.
Proof. vm_compute. reflexivity. Qed.

Example lit_max_float : lit (F:=float) 17976931348623157 292 = 1.7976931348623157e308%float.
Proof. vm_compute. reflexivity. Qed.

Example lit_min_subnormal : lit (F:=float) 5 (-324) = 5e-324%float.
Proof. vm_compute. reflexivity. Qed.

Example lit_long_mantissa :
  lit (F:=float) 123456789012345678901234567890 (-23) = 1234567.8901234567890%float.
Proof. vm_compute. reflexivity. Qed.

Example py_float_samples :
  map Parse.py_float
    [" 3.5 "; "1_000"; "-0.0"; "1e3"; ".5"; "5."; "INF"; "-Infinity"; "1e400"; "nan"]%string
  = map Ok [3.5; 1000; -0.0; 1000; 0.5; 5; infinity; neg_infinity; infinity; nan]%float.
Proof. vm_compute. reflexivity. Qed.

Example py_float_malformed :
  map Parse.py_float
    [EmptyString; "abc"; "1_"; "_1"; "1__0"; "1e"; "0x10"; "1.2.3"; "--1"; "3 4"; "infin"; "."; "7,5"]%string
  = map (fun _ => Raise ValueError) (seq 0 13).
Proof. vm_compute. reflexivity. Qed.

Example py_int_samples :
  map Parse.py_int [3.99; -3.99; 0.5; 1e20; nan; infinity; 134.0]%float
  = [Ok 3; Ok (-3); Ok 0; Ok 100000000000000000000; Raise ValueError;
     Raise OverflowError; Ok 134]%Z.
Proof. vm_compute. reflexivity. Qed.

Example strip_samples :
  map Str.strip ["  Kourou "; "　Space Elevator A　"; "酒泉"; " "; EmptyString]%string
  = ["Kourou"; "Space Elevator A"; "酒泉"; EmptyString; EmptyString]%string.
Proof. vm_compute. reflexivity. Qed.

Example is_elevator_samples :
  map elevator_ground_cost.is_elevator
    ["Space Elevator A"; "SPACE ELEVATOR"; "space elevators"; "Kourou"; "A space elevator"]%string
  = [true; true; true; false; false].
Proof. vm_compute. reflexivity. Qed.

Example slugify_samples :
  map fuel_calc.slugify ["Kourou (France)"; "Cape  Canaveral"; "--"; "酒泉"]%string
  = ["kourou_france"; "cape_canaveral"; "site"; "酒泉"]%string.
Proof. vm_compute. reflexivity. Qed.

Example load_workstations_sample :
  fuel_calc.load_workstations
    [["year"; "kourou_workstations_in_use"; "cape_canaveral_workstations_in_use"; "cost"];
     ["2050"; "3.0"; "2"; "1e9"];
     ["2051"; "4"; "2"; "2e9"]]%string
  = Ok [("kourou"%string, 3%Z); ("cape_canaveral"%string, 2%Z)].
Proof. vm_compute. reflexivity. Qed.

(** ** fuel_calc.py: propellant per launch *)

Lemma G0_finite :
  exists m e, Prim2SF (fuel_calc.G0 (F:=float)) = S754_finite false m e /\
              (1 <= Z.pos (digits2_pos m) + e)%Z.
Proof. do 2 eexists. split; [vm_compute; reflexivity|vm_compute; discriminate]. Qed.

(** The divisor [isp * G0] is positive, hence not zero, for every [isp > 0]. *)
Lemma isp_G0_pos (isp : float) :
  (0 <? isp)%float = true ->
  SF.is_pos (Prim2SF (isp * fuel_calc.G0)%float) = true.
Proof.
  intros H. destruct G0_finite as (m & e & HG & Hd).
  exact (B64Facts.mul_pos isp _ m e H HG Hd).
Qed.

Lemma truediv_isp_G0 (dv isp : float) :
  (0 <? isp)%float = true ->
  truediv dv (isp * fuel_calc.G0)%num = Ok (dv / (isp * 9.80665))%float.
Proof.
  intros H. unfold truediv. cbn [eqb mul div b64].
  replace (@lit float b64 0 0) with 0%float by reflexivity.
  rewrite (B64Facts.eqb_zero_of_pos _ (isp_G0_pos isp H)).
  replace (fuel_calc.G0 (F:=float)) with 9.80665%float by (vm_compute; reflexivity).
  reflexivity.
Qed.

(** C1. [propellant_per_launch(dv, isp)] is [125.0 * (exp(dv / (isp * 9.80665)) - 1.0)]
    for every [dv] and every [isp > 0], whatever the mass ratio: the cap is
    [None], so no ratio is ever replaced by it.  ([math.exp] raises for an
    argument whose exponential is not a finite float; the function then raises
    the same exception.) *)
Theorem propellant_per_launch_uncapped
  (libm_exp : float -> float) (dv isp : float) :
  (0 <? isp)%float = true ->
  fuel_calc.propellant_per_launch (mexp := b64_exp libm_exp) dv isp =
    (ratio <- B64.math_exp libm_exp (dv / (isp * 9.80665))%float ;;
     Ok (125.0 * (ratio - 1.0))%float)%py.
Proof.
  intros Hisp. unfold fuel_calc.propellant_per_launch.
  rewrite (truediv_isp_G0 dv isp Hisp). cbn [bind math_exp b64_exp].
  destruct (B64.math_exp libm_exp (dv / (isp * 9.80665))%float) as [ratio|err];
    [|reflexivity].
  cbn [bind fuel_calc.apply_cap fuel_calc.MASS_RATIO_CAP].
  unfold fuel_calc.PAYLOAD_TONS. cbn [mul sub b64].
  replace (@lit float b64 125 0) with 125.0%float by (vm_compute; reflexivity).
  replace (@lit float b64 1 0) with 1.0%float by (vm_compute; reflexivity).
  reflexivity.
Qed.

Lemma propellant_per_launch_uncapped_witness :
  fuel_calc.propellant_per_launch (mexp := b64_exp exp_stand_in) 9400%float 310%float =
    (ratio <- B64.math_exp exp_stand_in (9400 / (310 * 9.80665))%float ;;
     Ok (125.0 * (ratio - 1.0))%float)%py.
Proof. apply propellant_per_launch_uncapped. reflexivity. Defined.

(** The same in exact arithmetic. *)
Lemma propellant_per_launch_exact (dv isp : R) :
  (0 < isp)%R ->
  fuel_calc.propellant_per_launch dv isp =
    Ok (125 * (exp (dv / (isp * 9.80665)) - 1))%R.
Proof.
  intros Hisp. unfold fuel_calc.propellant_per_launch, truediv.
  cbn [eqb mul div sub lit exact math_exp exact_exp bind].
  unfold Exact.eqb, fuel_calc.G0, fuel_calc.PAYLOAD_TONS. cbn [lit exact].
  unfold Exact.of_decimal. cbn [Z.leb Z.compare Z.opp].
  change (10 ^ 5)%Z with 100000%Z. change (10 ^ 0)%Z with 1%Z.
  replace (980665 / 100000)%R with 9.80665%R by lra.
  destruct (Req_dec_T _ _) as [E|_]; [exfalso; nra|].
  cbn [bind fuel_calc.apply_cap fuel_calc.MASS_RATIO_CAP]. f_equal. lra.
Qed.

(** With the cap of the docstring in force the result would differ: a mass
    ratio of 54.6 (reached at [dv = 12160] m/s for [isp = 310] s) stays as it
    is, where a cap of 10 would replace it. *)
Example cap_is_not_applied :
  fuel_calc.apply_cap (F:=float) fuel_calc.MASS_RATIO_CAP 54.6%float = 54.6%float /\
  fuel_calc.apply_cap (Some 10%float) 54.6%float = 10%float.
Proof. split; reflexivity. Qed.

(** ** elevator_ground_cost.py: cost per ton *)

Lemma cost_per_ton_b64 (f : float) :
  elevator_ground_cost.cost_per_ton f = Ok (0.00713 * 125.0 * f / 125.0)%float.
Proof.
  unfold elevator_ground_cost.cost_per_ton, truediv,
    elevator_ground_cost.C, elevator_ground_cost.M, elevator_ground_cost.PAYLOAD_TONS.
  cbn [eqb mul div b64]. eval_lits. reflexivity.
Qed.

Lemma cost_per_ton_exact (f : R) :
  elevator_ground_cost.cost_per_ton f = Ok (0.00713 * f)%R.
Proof.
  unfold elevator_ground_cost.cost_per_ton, truediv,
    elevator_ground_cost.C, elevator_ground_cost.M, elevator_ground_cost.PAYLOAD_TONS.
  cbn [eqb mul div lit exact]. unfold Exact.eqb, Exact.of_decimal.
  cbn [Z.leb Z.compare Z.opp].
  change (10 ^ 5)%Z with 100000%Z. change (10 ^ 0)%Z with 1%Z.
  destruct (Req_dec_T _ _) as [E|_]; [exfalso; lra|].
  f_equal. lra.
Qed.

(** At [f = 7.0] the code returns 0.049909999999999996, the product
    [0.00713 * 7.0] is 0.049910000000000003. *)
Example cost_per_ton_at_7 :
  elevator_ground_cost.cost_per_ton 7%float = Ok 0.049909999999999996%float /\
  (0.00713 * 7)%float = 0.049910000000000003%float.
Proof. split; vm_compute; reflexivity. Qed.

(** C2 as stated does not hold: in binary64 the payload does not cancel
    exactly for every [f >= 0]. *)
Lemma cost_per_ton_not_exact :
  ~ (forall f : float, (0 <=? f)%float = true ->
       elevator_ground_cost.cost_per_ton f = Ok (0.00713 * f)%float).
Proof.
  intros H. specialize (H 7%float eq_refl). vm_compute in H.
  apply Ok_inj in H. revert H. float_neq.
Qed.

(** For a cost factor between [2^-1000] and [2^1000] the value returned is
    the real product [0.00713 * f] up to a relative error of [2^-50]: one
    rounding in the constant [0.00713 * 125.0], one in each of the product
    and the quotient. *)
Lemma cost_per_ton_close (f : float) :
  (0x1p-1000 <=? f)%float = true -> (f <=? 0x1p1000)%float = true ->
  exists r : float,
    elevator_ground_cost.cost_per_ton f = Ok r /\
    SF.within (4 * SF.ulp53) (SF.B2R r) (0.00713 * SF.B2R f).
Proof.
  intros Hlo Hhi.
  destruct (B64Facts.normal_range f Hlo Hhi) as (mf & ef & Ef & Hd & He).
  exists (0.00713 * 125.0 * f / 125.0)%float. split; [apply cost_per_ton_b64|].
  unfold SF.B2R. rewrite FloatAxioms.div_spec, FloatAxioms.mul_spec, Ef.
  eval_sf (0.00713 * 125.0)%float. eval_sf 125.0%float.
  unfold SF64div, SF64mul.
  match goal with
  | |- context [SFmul prec emax (S754_finite false ?mA ?eA) _] =>
      destruct (SFValue.SFmul_value mA mf eA ef) as (m3 & e3 & E1 & Hd3 & He3 & W1);
        [reflexivity|exact Hd|lia|]
  end.
  rewrite E1.
  match goal with
  | |- context [SFdiv prec emax _ (S754_finite false ?mB ?eB)] =>
      destruct (SFValue.SFdiv_value m3 mB e3 eB) as (m4 & e4 & E2 & _ & _ & W2);
        [exact Hd3|reflexivity|lia|]
  end.
  rewrite E2.
  assert (H125 : SF.SF2R (S754_finite false 8796093022208000 (-46)) = 125%R).
  { cbn [SF.SF2R]. change (-46)%Z with (- (46))%Z. rewrite (SFValue.pow2_neg 46) by lia.
    change (2 ^ 46)%Z with 70368744177664%Z. lra. }
  rewrite H125 in W2.
  eapply SFValue.within_chain with (b := (/ 125)%R); [exact W1|exact W2| | | |].
  - cbn [SF.SF2R]. change (-53)%Z with (- (53))%Z. rewrite (SFValue.pow2_neg 53) by lia.
    change (2 ^ 53)%Z with 9007199254740992%Z.
    unfold SF.within, SF.ulp53. lra.
  - lra.
  - cbn [SF.SF2R]. pose proof (SFValue.pow2_pos ef).
    assert (0 < IZR (Z.pos mf))%R by (apply IZR_lt; lia). nra.
  - lra.
Qed.

(** C2, amended. For every cost factor [f], [cost_per_ton] is
    [((0.00713 * 125.0) * f) / 125.0] with each operation rounded to binary64,
    and never raises; it is 0 at [f = 0], and for [f] between [2^-1000] and
    [2^1000] it is the real number [0.00713 * f] up to a relative error of
    [2^-50]. In exact arithmetic it is [0.00713 * f] for every [f]: the
    payload cancels there, not bit for bit in binary64. *)
Theorem cost_per_ton_cancels :
  (forall f : float,
     elevator_ground_cost.cost_per_ton f = Ok (0.00713 * 125.0 * f / 125.0)%float) /\
  elevator_ground_cost.cost_per_ton 0%float = Ok 0%float /\
  (forall f : float,
     (0x1p-1000 <=? f)%float = true -> (f <=? 0x1p1000)%float = true ->
     exists r : float,
       elevator_ground_cost.cost_per_ton f = Ok r /\
       SF.within (4 * SF.ulp53) (SF.B2R r) (0.00713 * SF.B2R f)) /\
  (forall f : R, elevator_ground_cost.cost_per_ton f = Ok (0.00713 * f)%R).
Proof.
  split; [exact cost_per_ton_b64|].
  split; [vm_compute; reflexivity|].
  split; [exact cost_per_ton_close|exact cost_per_ton_exact].
Qed.

(** The bound at [f = 7.0], where the result is not the binary64 product. *)
Lemma cost_per_ton_cancels_witness :
  exists r : float,
    elevator_ground_cost.cost_per_ton 7%float = Ok r /\
    SF.within (4 * SF.ulp53) (SF.B2R r) (0.00713 * SF.B2R 7%float).
Proof.
  destruct cost_per_ton_cancels as (_ & _ & H & _).
  apply (H 7%float); vm_compute; reflexivity.
Defined.

(** ** elevator_ground_cost.py: averages *)

Section Averages.
Variable builtin_sum : Summation float.

Lemma classify_from (rows : list (string * float)) (es gs : list float) :
  foldM elevator_ground_cost.classify_step rows (es, gs) =
  Ok (es ++ map (fun r => (0.00713 * 125.0 * snd r / 125.0)%float)
                (filter (fun r => elevator_ground_cost.is_elevator (fst r)) rows),
      gs ++ map (fun r => (0.00713 * 125.0 * snd r / 125.0)%float)
                (filter (fun r => negb (elevator_ground_cost.is_elevator (fst r))) rows)).
Proof.
  revert es gs. induction rows as [|[name f] rows IH]; intros es gs.
  - cbn. now rewrite !app_nil_r.
  - cbn [foldM elevator_ground_cost.classify_step]. rewrite cost_per_ton_b64.
    cbn [bind filter fst snd].
    destruct (elevator_ground_cost.is_elevator name); cbn [negb bind map];
      rewrite IH, <- !app_assoc; reflexivity.
Qed.

Lemma filter_none {A : Type} (p : A -> bool) (l : list A) :
  forallb (fun a => negb (p a)) l = true -> filter p l = [].
Proof.
  induction l as [|a l IH]; cbn; [reflexivity|].
  destruct (p a); cbn; [discriminate|exact IH].
Qed.

Lemma forallb_pointwise {A : Type} (p q : A -> bool) (l : list A) :
  (forall a, p a = q a) -> forallb p l = forallb q l.
Proof.
  intros E. induction l as [|a l IH]; cbn; [reflexivity|]. now rewrite E, IH.
Qed.

(** The division the guard avoids: [sum([]) / len([])] raises. *)
Lemma unguarded_empty_average_raises :
  truediv_int (py_sum (F := float) []) (Z.of_nat (List.length (@nil float)))
    = Raise ZeroDivisionError.
Proof. vm_compute. reflexivity. Qed.

(** C9. When the input has no row of a class ([elevator = true]: no elevator
    row; [elevator = false]: no ground row), the script takes that class's
    average to be the constant 0.0: it is no quotient, and nothing is raised
    on its account.  The other average is computed as usual. *)
Theorem empty_class_average_is_zero
  (dv_f : Csv.file) (rows : list (string * float)) (elevator : bool) :
  elevator_ground_cost.load_rows dv_f = Ok rows ->
  forallb (fun r => negb (Bool.eqb (elevator_ground_cost.is_elevator (fst r)) elevator)) rows
    = true ->
  elevator_ground_cost.average (@nil float) = Ok 0%float /\
  exists other_costs,
    elevator_ground_cost.classify rows =
      Ok (if elevator then ([], other_costs) else (other_costs, [])) /\
    elevator_ground_cost.main builtin_sum dv_f =
      (other_avg <- elevator_ground_cost.average other_costs ;;
       Ok (if elevator then (0%float, other_avg) else (other_avg, 0%float)))%py.
Proof.
  intros Hload Hnone. split; [reflexivity|].
  unfold elevator_ground_cost.main, elevator_ground_cost.summary,
    elevator_ground_cost.classify.
  rewrite Hload. cbn [bind]. rewrite classify_from. cbn [bind app].
  destruct elevator.
  - rewrite (filter_none (fun r => elevator_ground_cost.is_elevator (fst r))).
    + cbn [map]. eexists. split; reflexivity.
    + rewrite <- Hnone. apply forallb_pointwise. intros r.
      now destruct (elevator_ground_cost.is_elevator (fst r)).
  - rewrite (filter_none (fun r => negb (elevator_ground_cost.is_elevator (fst r)))).
    + cbn [map]. eexists. split; [reflexivity|].
      destruct (elevator_ground_cost.average _); reflexivity.
    + rewrite <- Hnone. apply forallb_pointwise. intros r.
      now destruct (elevator_ground_cost.is_elevator (fst r)).
Qed.
End Averages.

Lemma empty_class_average_is_zero_witness :
  elevator_ground_cost.average (summation := b64_fold_sum) (@nil float) = Ok 0%float /\
  exists other_costs,
    elevator_ground_cost.classify [("Kourou"%string, 7%float); ("Baikonur"%string, 1.5%float)]
      = Ok ([], other_costs) /\
    elevator_ground_cost.main b64_fold_sum
      [["发射场"; "总f"]; ["Kourou"; "7.0"]; [" Baikonur "; "1.5"]]%string =
      (other_avg <- elevator_ground_cost.average (summation := b64_fold_sum) other_costs ;;
       Ok (0%float, other_avg))%py.
Proof.
  apply (empty_class_average_is_zero b64_fold_sum _ _ true).
  - vm_compute. reflexivity.
  - vm_compute. reflexivity.
Defined.

(** ** fuel_calc.py: totals per fuel type *)

Section FuelTotals.
Context {F : Type} {arith : Arith F} {mexp : MathExp F}.
Local Open Scope num_scope.

(** A site with no positive workstation count, or with no delta-v record,
    leaves the totals as they are and raises nothing. *)
Lemma site_step_skips (isp : fuel_calc.engine) (dv_map : Dict.t (F * F))
  (totals : F * F) (slug : string) (ws : Z) :
  (ws <= 0)%Z \/ Dict.get dv_map slug = None ->
  fuel_calc.site_step isp dv_map totals (slug, ws) = Ok totals.
Proof.
  intros Hskip. unfold fuel_calc.site_step. destruct totals as [ta tv].
  destruct (Z.leb_spec ws 0) as [Hle|Hgt]; [reflexivity|].
  destruct Hskip as [Hle|Hnone]; [lia|].
  unfold Dict.contains. now rewrite Hnone.
Qed.

Lemma site_step_counts (isp : fuel_calc.engine) (dv_map : Dict.t (F * F))
  (totals : F * F) (slug : string) (ws : Z) (dv : F * F) :
  (0 < ws)%Z -> Dict.get dv_map slug = Some dv ->
  fuel_calc.site_step isp dv_map totals (slug, ws) = add_site isp totals (ws, dv).
Proof.
  intros Hpos Hget. unfold fuel_calc.site_step, add_site.
  destruct totals as [ta tv]. destruct dv as [dv_atm dv_vac].
  destruct (Z.leb_spec ws 0) as [Hle|_]; [lia|].
  unfold Dict.contains, Dict.getitem. rewrite Hget. cbn [negb bind fst snd].
  reflexivity.
Qed.

Lemma site_loop_is_sum (isp : fuel_calc.engine) (dv_map : Dict.t (F * F))
  (sites : list (string * Z)) (totals : F * F) :
  foldM (fuel_calc.site_step isp dv_map) sites totals =
  foldM (add_site isp) (qualifying_sites dv_map sites) totals.
Proof.
  revert totals. induction sites as [|[slug ws] sites IH]; intros totals; [reflexivity|].
  cbn [foldM]. unfold qualifying_sites, Dict.items in *. cbn [flat_map fst snd].
  destruct (Z.ltb_spec 0 ws) as [Hpos|Hle].
  - destruct (Dict.get dv_map slug) as [dv|] eqn:Hget.
    + rewrite (site_step_counts isp dv_map totals slug ws dv Hpos Hget).
      cbn [app foldM]. destruct (add_site isp totals (ws, dv)); cbn [bind]; [apply IH|reflexivity].
    + rewrite site_step_skips by (now right). cbn [bind app]. apply IH.
  - rewrite site_step_skips by (left; lia). cbn [bind app]. apply IH.
Qed.

(** C3. For each of the three fuel types, the atmospheric and vacuum totals
    are the sum, over exactly the sites with a positive workstation count and
    a delta-v record and in the order of the workstation table, of per-launch
    propellant times [workstations * 134 * 65]; every other site leaves both
    totals unchanged and raises nothing.  This holds in binary64 and in exact
    arithmetic alike. *)
Theorem fuel_totals_sum_qualifying_sites
  (dv_map : Dict.t (F * F)) (ws_map : Dict.t Z) :
  List.length (fuel_calc.ENGINE_TYPES (F := F)) = 3%nat /\
  fuel_calc.totals dv_map ws_map =
    mapM (fun entry : string * fuel_calc.engine =>
            ('(total_atm, total_vac) <- sum_over_sites (snd entry) dv_map ws_map ;;
             factor <- Dict.getitem fuel_calc.CO2_FACTORS (fst entry) ;;
             Ok (fst entry, total_atm, total_vac, (total_atm + total_vac) * factor))%py)
         fuel_calc.ENGINE_TYPES /\
  (forall isp, fuel_calc.fuel_totals isp dv_map ws_map = sum_over_sites isp dv_map ws_map) /\
  (forall isp totals slug ws,
      (ws <= 0)%Z \/ Dict.contains dv_map slug = false ->
      fuel_calc.site_step isp dv_map totals (slug, ws) = Ok totals).
Proof.
  assert (Hsum : forall isp,
             fuel_calc.fuel_totals isp dv_map ws_map = sum_over_sites isp dv_map ws_map).
  { intros isp. apply site_loop_is_sum. }
  split; [reflexivity|]. split; [|split; [exact Hsum|]].
  - unfold fuel_calc.totals, Dict.items, fuel_calc.ENGINE_TYPES.
    cbn [mapM fuel_calc.fuel_row fst snd]. rewrite !Hsum. reflexivity.
  - intros isp totals slug ws [Hle|Hnone]; apply site_step_skips; [now left|right].
    unfold Dict.contains in Hnone. destruct (Dict.get dv_map slug); [discriminate|reflexivity].
Qed.
End FuelTotals.

Example fuel_totals_sample :
  fuel_calc.fuel_totals (mexp := b64_exp exp_stand_in)
    {| fuel_calc.isp_sea := 310%float; fuel_calc.isp_vac := 368%float |}
    [("kourou"%string, (1500%float, 7900%float))]
    [("kourou"%string, 2%Z); ("baikonur"%string, 5%Z); ("kourou_b"%string, 0%Z)]
  = Ok (1389013.4735647612%float, 17260737.397778261%float).
Proof. vm_compute. reflexivity. Qed.

(** ** The loaders and malformed numeric fields *)

(** [float] on text outside ASCII, as the interpreter answers. *)
Example float_text_samples :
  Unicode.float_text Unicode.unicode_14 "５" = Ok 5%float /\
  Unicode.float_text Unicode.unicode_14 "　５　" = Ok 5%float /\
  Unicode.float_text Unicode.unicode_14 "１e５" = Ok 100000%float /\
  Unicode.float_text Unicode.unicode_14 "٣.٥" = Ok 3.5%float /\
  Unicode.float_text Unicode.unicode_14 "1_０" = Ok 10%float /\
  Unicode.float_text Unicode.unicode_14 "1é" = Raise ValueError /\
  Unicode.float_text Unicode.unicode_14 "７,５" = Raise ValueError /\
  Unicode.float_text Unicode.unicode_14 "１　2" = Raise ValueError /\
  Unicode.float_text Unicode.unicode_14 "－1" = Raise ValueError /\
  Unicode.float_text Unicode.unicode_14 "inｆ" = Raise ValueError /\
  Unicode.float_text Unicode.unicode_14 "٣٫٥" = Raise ValueError /\
  Unicode.float_text Unicode.unicode_14 "7,5" = Raise ValueError /\
  Unicode.float_text Unicode.unicode_14 " 7.5 " = Ok 7.5%float.
Proof. repeat split; vm_compute; reflexivity. Qed.

Module WideText.
Open Scope string_scope.

Lemma wide_code (c : ascii) (p : ascii -> bool) :
  (forall a, p a = true -> (Str.code a <? 128)%N = true) ->
  (Str.code c <? 128)%N = false -> p c = false.
Proof.
  intros Hp Hc. destruct (p c) eqn:E; [|reflexivity]. apply Hp in E. congruence.
Qed.

Lemma lstrip_wide (p : ascii -> bool) (s : string) :
  (forall a, p a = true -> (Str.code a <? 128)%N = true) ->
  Str.is_ascii s = false -> Str.is_ascii (Str.lstrip_by p s) = false.
Proof.
  intros Hp. induction s as [|c s IH]; [discriminate|].
  cbn [Str.lstrip_by Str.is_ascii]. intros H.
  destruct (p c) eqn:E; [|exact H].
  apply IH. rewrite (Hp c E) in H. exact H.
Qed.

Lemma rstrip_wide (p : ascii -> bool) (s : string) :
  (forall a, p a = true -> (Str.code a <? 128)%N = true) ->
  Str.is_ascii s = false -> Str.is_ascii (Str.rstrip_by p s) = false.
Proof.
  intros Hp. induction s as [|c s IH]; [discriminate|].
  cbn [Str.rstrip_by Str.is_ascii]. intros H.
  destruct (Str.code c <? 128)%N eqn:Hc.
  - cbn [andb] in H. specialize (IH H).
    destruct (Str.rstrip_by p s) as [|d r]; [discriminate|].
    cbn [Str.is_ascii]. rewrite Hc. exact IH.
  - rewrite (wide_code c p Hp Hc).
    destruct (Str.rstrip_by p s) as [|d r]; cbn [Str.is_ascii]; now rewrite Hc.
Qed.

Lemma c_space_ascii (a : ascii) : Str.is_c_space a = true -> (Str.code a <? 128)%N = true.
Proof.
  unfold Str.is_c_space. intros H. apply N.ltb_lt.
  apply orb_true_iff in H. destruct H as [H|H].
  - apply andb_true_iff in H. destruct H as [_ H]. apply N.leb_le in H. lia.
  - apply N.eqb_eq in H. lia.
Qed.

Lemma strip_wide (s : string) :
  Str.is_ascii s = false -> Str.is_ascii (Str.strip_by Str.is_c_space s) = false.
Proof.
  intros H. unfold Str.strip_by.
  apply rstrip_wide; [exact c_space_ascii|]. apply lstrip_wide; [exact c_space_ascii|exact H].
Qed.

Lemma underscore_ascii (c : ascii) : Str.is_underscore c = true -> (Str.code c <? 128)%N = true.
Proof. unfold Str.is_underscore. intros H. apply N.eqb_eq in H. apply N.ltb_lt. lia. Qed.

Lemma digit_ascii (c : ascii) : Str.is_digit c = true -> (Str.code c <? 128)%N = true.
Proof.
  unfold Str.is_digit. intros H. apply andb_true_iff in H. destruct H as [_ H].
  apply N.leb_le in H. apply N.ltb_lt. lia.
Qed.

Lemma drop_underscores_wide (prev : option ascii) (s s1 : string) :
  Str.is_ascii s = false -> Parse.drop_underscores prev s = Some s1 ->
  Str.is_ascii s1 = false.
Proof.
  revert prev s1. induction s as [|c s IH]; intros prev s1 H; [discriminate|].
  cbn [Parse.drop_underscores]. cbn [Str.is_ascii] in H.
  destruct (Str.is_underscore c) eqn:Eu.
  - rewrite (underscore_ascii c Eu) in H. cbn [andb] in H.
    destruct (match prev with Some p => Str.is_digit p | None => false end); [|discriminate].
    now apply IH.
  - destruct (match prev with Some p => Str.is_underscore p | None => false end
                && negb (Str.is_digit c)); [discriminate|].
    destruct (Parse.drop_underscores (Some c) s) as [t|] eqn:Et;
      cbn [option_map]; [|discriminate].
    intros [= <-]. cbn [Str.is_ascii].
    destruct (Str.code c <? 128)%N; [|reflexivity]. cbn [andb] in *. exact (IH _ _ H Et).
Qed.

Lemma take_sign_wide (s : string) :
  Str.is_ascii s = false -> Str.is_ascii (snd (Parse.take_sign s)) = false.
Proof.
  destruct s as [|c s]; [discriminate|]. unfold Parse.take_sign.
  destruct c as [[] [] [] [] [] [] [] []]; cbn [snd]; try exact (fun H => H);
    cbn; exact (fun H => H).
Qed.

Lemma take_digits_wide (acc n : Z) (s : string) :
  Str.is_ascii s = false -> Str.is_ascii (snd (Parse.take_digits acc n s)) = false.
Proof.
  revert acc n. induction s as [|c s IH]; intros acc n H; [discriminate|].
  cbn [Parse.take_digits]. destruct (Str.is_digit c) eqn:Ed; [|exact H].
  apply IH. cbn [Str.is_ascii] in H. now rewrite (digit_ascii c Ed) in H.
Qed.

Lemma lower_wide (s : string) : Str.is_ascii (Str.lower s) = Str.is_ascii s.
Proof.
  induction s as [|c s IH]; [reflexivity|]. cbn [Str.lower Str.is_ascii]. rewrite IH.
  f_equal. destruct c as [[] [] [] [] [] [] [] []]; reflexivity.
Qed.

Lemma eqb_wide (s t : string) :
  Str.is_ascii s = false -> Str.is_ascii t = true -> String.eqb s t = false.
Proof.
  intros Hs Ht. destruct (String.eqb_spec s t) as [->|]; [congruence|reflexivity].
Qed.

Lemma take_exponent_wide (s : string) :
  Str.is_ascii s = false -> Str.is_ascii (snd (Parse.take_exponent s)) = false.
Proof.
  destruct s as [|c s]; [discriminate|]. intros H. unfold Parse.take_exponent.
  destruct (Str.code (Str.lower_char c) =? 101)%N eqn:Ee; [|exact H].
  assert (Hs : Str.is_ascii s = false).
  { cbn [Str.is_ascii] in H. destruct (Str.code c <? 128)%N eqn:Hc; [exact H|].
    exfalso. revert Ee Hc.
    destruct c as [[] [] [] [] [] [] [] []]; vm_compute; intros; congruence. }
  pose proof (take_sign_wide s Hs) as H1.
  destruct (Parse.take_sign s) as [neg s2]. cbn [snd] in H1.
  pose proof (take_digits_wide 0 0 s2 H1) as H2.
  destruct (Parse.take_digits 0 0 s2) as [[v n] rest]. cbn [snd] in H2.
  destruct (n =? 0)%Z; [exact H|exact H2].
Qed.

Lemma parse_decimal_wide (neg : bool) (s : string) :
  Str.is_ascii s = false -> Parse.parse_decimal neg s = None.
Proof.
  intros H. unfold Parse.parse_decimal.
  pose proof (take_digits_wide 0 0 s H) as H1.
  destruct (Parse.take_digits 0 0 s) as [[m1 n1] r1]. cbn [snd] in H1.
  assert (H2 : forall m2 n2 r2,
             match r1 with
             | String "."%char r => Parse.take_digits m1 0 r
             | _ => (m1, 0%Z, r1)
             end = (m2, n2, r2) -> Str.is_ascii r2 = false).
  { intros m2 n2 r2. destruct r1 as [|c r]; [discriminate|].
    assert (Hdef : (m1, 0%Z, String c r) = (m2, n2, r2) -> Str.is_ascii r2 = false)
      by (intros [= <- <- <-]; exact H1).
    destruct c as [[] [] [] [] [] [] [] []]; try exact Hdef.
    intros E. pose proof (take_digits_wide m1 0 r H1) as Hr. rewrite E in Hr. exact Hr. }
  destruct (match r1 with String "."%char r => _ | _ => _ end) as [[m2 n2] r2].
  specialize (H2 _ _ _ eq_refl).
  destruct (n1 + n2 =? 0)%Z; [reflexivity|].
  pose proof (take_exponent_wide r2 H2) as H3.
  destruct (Parse.take_exponent r2) as [ex r3]. cbn [snd] in H3.
  destruct r3; [discriminate|reflexivity].
Qed.

(** The model of [float] on ASCII text refuses every text that is not. *)
Lemma py_float_wide (s : string) :
  Str.is_ascii s = false -> Parse.py_float s = Raise ValueError.
Proof.
  intros H. unfold Parse.py_float, Parse.parse_numeral.
  pose proof (strip_wide s H) as H0.
  destruct (Parse.drop_underscores None _) as [s1|] eqn:E; [|reflexivity].
  pose proof (drop_underscores_wide _ _ _ H0 E) as H1.
  pose proof (take_sign_wide s1 H1) as H2.
  destruct (Parse.take_sign s1) as [neg s2]. cbn [snd] in H2.
  assert (Hl : Str.is_ascii (Str.lower s2) = false) by now rewrite lower_wide.
  rewrite !(eqb_wide (Str.lower s2)) by (assumption || reflexivity). cbn [orb].
  now rewrite parse_decimal_wide.
Qed.

(** A cell on which [float] raises [ValueError] is one on which the model
    of the loaders does. *)
Lemma malformed_py_float (chars : Unicode.table) (s : string) :
  malformed chars s -> Parse.py_float s = Raise ValueError.
Proof.
  unfold malformed, Unicode.float_text.
  destruct (Str.is_ascii s) eqn:E; [exact (fun H => H)|]. intros _. now apply py_float_wide.
Qed.
End WideText.

Lemma raises_bind {A B : Type} (c : result A) (k : A -> result B) :
  raises c -> raises (bind c k).
Proof. intros [e ->]. now exists e. Qed.

Lemma mapM_raises {A B : Type} (f : A -> result B) (l : list A) (a : A) :
  In a l -> raises (f a) -> raises (mapM f l).
Proof.
  intros Hin Hr. induction l as [|x l IH]; [contradiction|].
  cbn [mapM]. destruct (f x) as [b|e] eqn:E; [|now exists e].
  cbn [bind]. destruct Hin as [->|Hin].
  - destruct Hr as [e Hr]. congruence.
  - destruct (IH Hin) as [e ->]. now exists e.
Qed.

Lemma foldM_raises {S A : Type} (step : S -> A -> result S) (l : list A) (a : A) (s : S) :
  In a l -> (forall s', raises (step s' a)) -> raises (foldM step l s).
Proof.
  intros Hin Hr. revert s. induction l as [|x l IH]; intros s; [contradiction|].
  cbn [foldM]. destruct Hin as [->|Hin].
  - apply raises_bind, Hr.
  - destruct (step s x) as [s'|e]; [apply IH, Hin|now exists e].
Qed.

Lemma cell_text_in (r : Csv.row) (col s : string) :
  In s (cell_text r col) -> Csv.field r col = Ok (Some s).
Proof.
  unfold cell_text, Csv.field, Dict.getitem.
  destruct (Dict.get r col) as [[t|]|]; cbn; try contradiction.
  intros [->|[]]. reflexivity.
Qed.

(** [float(row[col])] raises on a malformed cell. *)
Lemma float_field_raises {A : Type} (r : Csv.row) (col s : string)
  (k : float -> result A) :
  In s (cell_text r col) -> Parse.py_float s = Raise ValueError ->
  raises (cell <- Csv.field r col ;; x <- Parse.py_float_cell cell ;; k x)%py.
Proof.
  intros Hin Hbad. rewrite (cell_text_in _ _ _ Hin). cbn [bind Parse.py_float_cell].
  rewrite Hbad. now exists ValueError.
Qed.

Lemma raises_bind_each {A B : Type} (c : result A) (k : A -> result B) :
  (forall a, raises (k a)) -> raises (bind c k).
Proof. intros H. destruct c as [a|e]; [apply H|now exists e]. Qed.

Ltac raises_chain :=
  cbv zeta;
  repeat first
    [ solve [eapply float_field_raises; eassumption]
    | apply raises_bind_each; intro ].

Lemma load_row_raises (r : Csv.row) (s : string) :
  In s (cell_text r "总f") -> Parse.py_float s = Raise ValueError ->
  raises (elevator_ground_cost.load_row r).
Proof. intros Hin Hbad. unfold elevator_ground_cost.load_row. raises_chain. Qed.

Lemma load_dv_step_raises (dv_map : Dict.t (float * float)) (r : Csv.row) (s : string) :
  In s (cell_text r "大气dv(km/s)" ++ cell_text r "真空dv(km/s)") ->
  Parse.py_float s = Raise ValueError ->
  raises (fuel_calc.load_dv_step dv_map r).
Proof.
  intros Hin Hbad. unfold fuel_calc.load_dv_step.
  apply in_app_or in Hin. destruct Hin as [Hin|Hin]; raises_chain.
Qed.

Lemma in_enumerate {A : Type} (l : list A) (k i : nat) (a : A) :
  In (i, a) (combine (seq k (List.length l)) l) -> nth_error l (i - k) = Some a /\ (k <= i)%nat.
Proof.
  revert k. induction l as [|x l IH]; intros k; cbn; [contradiction|].
  intros [E|Hin].
  - inversion E; subst. rewrite Nat.sub_diag. split; [reflexivity|lia].
  - destruct (IH (S k) Hin) as [Hn Hle].
    replace (i - k)%nat with (S (i - S k)) by lia. split; [exact Hn|lia].
Qed.

(** C4 as stated does not hold: [load_workstations] turns a cell that is no
    number into the count 0 and goes on. *)
Lemma load_workstations_defaults_malformed :
  (forall chars, malformed chars "abc") /\
  In "abc"%string (numeric_cells Load_workstations
                     [["kourou_workstations_in_use"]; ["abc"]]%string) /\
  fuel_calc.load_workstations [["kourou_workstations_in_use"]; ["abc"]]%string
    = Ok [("kourou"%string, 0%Z)].
Proof. split; [intros chars; reflexivity|]. split; vm_compute; auto. Qed.

(** C4, amended. A malformed numeric field (a cell the loader passes to
    [float] that is no number, in ASCII or not) makes [load_rows], [load_dv],
    [load_cost_and_capacity], [read_capacity] and [read_costs] raise, and
    nothing in the scripts catches what a loader raises.  [load_workstations]
    is the exception: it catches the [ValueError] and records the count 0 for
    that column. *)
Theorem malformed_numeric_field (chars : Unicode.table)
  (l : loader) (f : Csv.file) (s : string) :
  In s (numeric_cells l f) -> malformed chars s ->
  match l with
  | Load_workstations =>
      exists header row rest idx col,
        f = header :: row :: rest /\
        nth_error header idx = Some col /\
        Str.endswith col fuel_calc.SUFFIX = true /\
        nth_error row idx = Some s /\
        forall ws_map,
          fuel_calc.load_workstations_step row ws_map (idx, col) =
            Ok (Dict.set ws_map (Str.drop_last (String.length fuel_calc.SUFFIX) col) 0%Z)
  | _ => raises (run l f) /\ forall (B : Type) (k : unit -> result B), raises (bind (run l f) k)
  end.
Proof.
  intros Hin Hbad. apply WideText.malformed_py_float in Hbad.
  assert (Hk : forall c : result unit,
             raises c -> raises c /\ forall (B : Type) (k : unit -> result B), raises (bind c k)).
  { intros c Hc. split; [exact Hc|]. intros B k. now apply raises_bind. }
  destruct l; cbn [numeric_cells run] in *.
  - apply Hk, raises_bind. apply in_flat_map in Hin. destruct Hin as (r & Hr & Hs).
    unfold elevator_ground_cost.load_rows.
    apply (mapM_raises _ _ r Hr). now apply (load_row_raises r s).
  - apply Hk, raises_bind. apply in_flat_map in Hin. destruct Hin as (r & Hr & Hs).
    unfold fuel_calc.load_dv.
    apply (foldM_raises _ _ r _ Hr). intros dv_map. now apply (load_dv_step_raises dv_map r s).
  - destruct f as [|header [|row rest]]; try contradiction.
    apply in_flat_map in Hin. destruct Hin as ([idx col] & Hent & Hs). cbn [fst snd] in Hs.
    destruct (Str.endswith col fuel_calc.SUFFIX) eqn:Hend; [|contradiction].
    destruct (nth_error row idx) as [c|] eqn:Hcell; [|contradiction].
    destruct Hs as [->|[]].
    unfold fuel_calc.enumerate in Hent. apply in_enumerate in Hent.
    rewrite Nat.sub_0_r in Hent. destruct Hent as [Hcol _].
    exists header, row, rest, idx, col. repeat split; try assumption.
    intros ws_map. unfold fuel_calc.load_workstations_step, fuel_calc.cell_at.
    rewrite Hend, Hcell. cbn [bind]. rewrite Hbad. reflexivity.
  - apply Hk, raises_bind. unfold water_schedule_cost.load_cost_and_capacity.
    destruct (Csv.DictReader f) as [|r rows]; [contradiction|]. cbn [Csv.next bind].
    apply in_app_or in Hin. destruct Hin as [Hin|Hin]; raises_chain.
  - apply Hk, raises_bind. unfold plot_water_cost.read_capacity.
    destruct (Csv.DictReader f) as [|r rows]; [contradiction|]. cbn [Csv.next bind].
    rewrite (cell_text_in _ _ _ Hin). cbn [bind Parse.py_float_cell].
    rewrite Hbad. now exists ValueError.
  - apply Hk, raises_bind. unfold plot_water_cost.read_costs.
    destruct (plot_water_cost.first_of_type "电梯平均" (Csv.DictReader f)) as [e|];
      [|contradiction].
    destruct (plot_water_cost.first_of_type "地面平均" (Csv.DictReader f)) as [g|];
      [|contradiction].
    cbn [bind]. apply in_app_or in Hin. destruct Hin as [Hin|Hin]; raises_chain.
Qed.

Lemma malformed_numeric_field_witness :
  (raises (run Load_rows [["发射场"; "总f"]; ["Kourou"; "7,5"]]%string) /\
   forall (B : Type) (k : unit -> result B),
     raises (bind (run Load_rows [["发射场"; "总f"]; ["Kourou"; "7,5"]]%string) k)) /\
  (raises (run Load_dv [["发射场"; "大气dv(km/s)"; "真空dv(km/s)"];
                        ["Kourou"; "１.５"; "８，０"]]%string) /\
   forall (B : Type) (k : unit -> result B),
     raises (bind (run Load_dv [["发射场"; "大气dv(km/s)"; "真空dv(km/s)"];
                                ["Kourou"; "１.５"; "８，０"]]%string) k)).
Proof.
  split.
  - apply (malformed_numeric_field Unicode.unicode_14 Load_rows
             [["发射场"; "总f"]; ["Kourou"; "7,5"]]%string "7,5"%string).
    + vm_compute. auto.
    + vm_compute. reflexivity.
  - apply (malformed_numeric_field Unicode.unicode_14 Load_dv
             [["发射场"; "大气dv(km/s)"; "真空dv(km/s)"];
              ["Kourou"; "１.５"; "８，０"]]%string "８，０"%string).
    + vm_compute. auto.
    + vm_compute. reflexivity.
Defined.

(** ** Integer operands in binary64 *)

Lemma truediv_int_b64 (x : float) (n : Z) (y : float) :
  B64.of_int n = Ok y -> (y =? 0)%float = false ->
  truediv_int x n = Ok (x / y)%float.
Proof.
  intros Hn Hy. unfold truediv_int, truediv. cbn [of_int b64 eqb div].
  rewrite Hn. cbn [bind]. replace (@lit float b64 0 0) with 0%float by reflexivity.
  now rewrite Hy.
Qed.

Lemma mul_int_b64 (x : float) (n : Z) (y : float) :
  B64.of_int n = Ok y -> mul_int x n = Ok (x * y)%float.
Proof. intros Hn. unfold mul_int. cbn [of_int b64 mul]. now rewrite Hn. Qed.

Lemma truediv_365 (x : float) : truediv_int x 365 = Ok (x / 365)%float.
Proof. apply truediv_int_b64; vm_compute; reflexivity. Qed.

Lemma mul_102 (x : float) : mul_int x 102 = Ok (x * 102)%float.
Proof. apply mul_int_b64; vm_compute; reflexivity. Qed.

Lemma mul_263 (x : float) : mul_int x 263 = Ok (x * 263)%float.
Proof. apply mul_int_b64; vm_compute; reflexivity. Qed.

(** ** water_schedule_cost.py *)

(** The schedule the script computes in binary64, with its constants
    evaluated: the deficit is 379.99999999999994 tons a day. *)
Lemma compute_b64 (cost_per_ton capacity_per_year : float) :
  water_schedule_cost.compute cost_per_ton capacity_per_year =
  Ok {| water_schedule_cost.deficit_per_year := 138699.99999999997%float;
        water_schedule_cost.reserve_target := 693500%float;
        water_schedule_cost.delivered_full := (capacity_per_year / 365 * 102)%float;
        water_schedule_cost.delivered_deficit := 99939.999999999985%float;
        water_schedule_cost.total_delivered :=
          (capacity_per_year / 365 * 102 + 99939.999999999985)%float;
        water_schedule_cost.reserve_filled :=
          max2 (capacity_per_year / 365 * 102 - 38759.999999999993)%float 0%float;
        water_schedule_cost.remaining_reserve :=
          max2 (693500 -
                max2 (capacity_per_year / 365 * 102 - 38759.999999999993) 0)%float 0%float;
        water_schedule_cost.total_cost :=
          ((capacity_per_year / 365 * 102 + 99939.999999999985) * cost_per_ton)%float |}.
Proof.
  unfold water_schedule_cost.compute,
    water_schedule_cost.DAYS_PER_YEAR, water_schedule_cost.DAYS_FULL,
    water_schedule_cost.DAYS_DEFICIT.
  rewrite !truediv_365. cbn [bind]. rewrite !mul_102, mul_263. cbn [bind].
  reflexivity.
Qed.

Lemma truediv_int_exact (x : R) (n : Z) :
  n <> 0%Z -> truediv_int x n = Ok (x / IZR n)%R.
Proof.
  intros Hn. unfold truediv_int, truediv. cbn [of_int exact bind eqb lit div].
  unfold Exact.eqb, Exact.of_decimal. cbn [Z.leb Z.compare].
  destruct (Req_dec_T _ _) as [E|_]; [|reflexivity].
  exfalso. change (10 ^ 0)%Z with 1%Z in E. rewrite Rmult_0_l in E.
  apply eq_IZR_R0 in E. contradiction.
Qed.

Lemma compute_exact (cost_per_ton capacity_per_year : R) :
  exists s,
    water_schedule_cost.compute cost_per_ton capacity_per_year = Ok s /\
    water_schedule_cost.delivered_full s = (capacity_per_year / 365 * 102)%R /\
    water_schedule_cost.delivered_deficit s = 99940%R /\
    water_schedule_cost.total_delivered s =
      (water_schedule_cost.delivered_full s + water_schedule_cost.delivered_deficit s)%R /\
    water_schedule_cost.total_cost s =
      (water_schedule_cost.total_delivered s * cost_per_ton)%R.
Proof.
  unfold water_schedule_cost.compute,
    water_schedule_cost.DAYS_PER_YEAR, water_schedule_cost.DAYS_FULL,
    water_schedule_cost.DAYS_DEFICIT.
  rewrite !truediv_int_exact by discriminate. cbn [bind mul_int of_int exact].
  eexists. split; [reflexivity|]. cbn [water_schedule_cost.delivered_full
    water_schedule_cost.delivered_deficit water_schedule_cost.total_delivered
    water_schedule_cost.total_cost add mul exact].
  repeat split.
  unfold water_schedule_cost.ANNUAL_USE_TONS, water_schedule_cost.DEFICIT_RATE,
    water_schedule_cost.RECOVERY_RATE. cbn [lit sub exact]. unfold Exact.of_decimal.
  cbn [Z.leb Z.compare Z.opp]. change (10 ^ 0)%Z with 1%Z. change (10 ^ 2)%Z with 100%Z.
  lra.
Qed.

(** At the capacity of the specification's own example (5,000,000 tons a
    year) and the smallest positive cost, doubling the cost does not double
    the total: the product underflows. *)
Example total_cost_underflow :
  exists s s2,
    water_schedule_cost.compute 5e-324%float 5000000%float = Ok s /\
    water_schedule_cost.compute (2 * 5e-324)%float 5000000%float = Ok s2 /\
    water_schedule_cost.total_cost s = 7.3971508495351433e-318%float /\
    water_schedule_cost.total_cost s2 = 1.4794306639726745e-317%float /\
    (2 * water_schedule_cost.total_cost s)%float = 1.4794301699070287e-317%float.
Proof.
  do 2 eexists. rewrite !compute_b64. repeat split; vm_compute; reflexivity.
Qed.

(** C6 as stated does not hold in binary64: doubling [cost_per_ton] does not
    always double [total_cost]. *)
Lemma total_cost_not_linear :
  ~ (forall cost_per_ton capacity_per_year : float,
       exists s s2,
         water_schedule_cost.compute cost_per_ton capacity_per_year = Ok s /\
         water_schedule_cost.compute (2 * cost_per_ton)%float capacity_per_year = Ok s2 /\
         water_schedule_cost.total_delivered s =
           (water_schedule_cost.delivered_full s + water_schedule_cost.delivered_deficit s)%float /\
         water_schedule_cost.total_cost s =
           (water_schedule_cost.total_delivered s * cost_per_ton)%float /\
         water_schedule_cost.total_cost s2 = (2 * water_schedule_cost.total_cost s)%float).
Proof.
  intros H. destruct (H 5e-324%float 5000000%float) as (s & s2 & Hs & Hs2 & _ & _ & Hd).
  rewrite compute_b64 in Hs, Hs2. apply Ok_inj in Hs, Hs2. subst s s2.
  revert Hd. float_neq.
Qed.

(** C6, amended. For every input, [total_delivered = delivered_full +
    delivered_deficit] and [total_cost = total_delivered * cost_per_ton] as
    binary64 operations, and [total_delivered] does not depend on
    [cost_per_ton].  Doubling [cost_per_ton] doubles [total_cost] whenever the
    doubled cost is finite and the total has magnitude [2^-1021] or more (no
    underflow).  In exact arithmetic [total_cost] is linear in [cost_per_ton]
    at a fixed capacity: scaling the cost by [k] scales the total by [k]. *)
Theorem total_cost_linear_in_cost :
  (forall cost_per_ton capacity_per_year : float,
     exists s,
       water_schedule_cost.compute cost_per_ton capacity_per_year = Ok s /\
       water_schedule_cost.total_delivered s =
         (water_schedule_cost.delivered_full s + water_schedule_cost.delivered_deficit s)%float /\
       water_schedule_cost.total_cost s =
         (water_schedule_cost.total_delivered s * cost_per_ton)%float /\
       (forall cost' s',
          water_schedule_cost.compute cost' capacity_per_year = Ok s' ->
          water_schedule_cost.total_delivered s' = water_schedule_cost.total_delivered s) /\
       (forall s2,
          water_schedule_cost.compute (2 * cost_per_ton)%float capacity_per_year = Ok s2 ->
          is_finite (2 * cost_per_ton)%float = true ->
          (0x1p-1021 <=? abs (water_schedule_cost.total_cost s))%float = true ->
          water_schedule_cost.total_cost s2 = (2 * water_schedule_cost.total_cost s)%float)) /\
  (forall cost_per_ton capacity_per_year k : R,
     exists s s',
       water_schedule_cost.compute cost_per_ton capacity_per_year = Ok s /\
       water_schedule_cost.compute (k * cost_per_ton)%R capacity_per_year = Ok s' /\
       water_schedule_cost.total_delivered s =
         (water_schedule_cost.delivered_full s + water_schedule_cost.delivered_deficit s)%R /\
       water_schedule_cost.total_cost s =
         (water_schedule_cost.total_delivered s * cost_per_ton)%R /\
       water_schedule_cost.total_cost s' = (k * water_schedule_cost.total_cost s)%R).
Proof.
  split.
  - intros cost cap. eexists. split; [apply compute_b64|].
    cbn [water_schedule_cost.total_delivered water_schedule_cost.delivered_full
         water_schedule_cost.delivered_deficit water_schedule_cost.total_cost].
    repeat split.
    + intros cost' s' Hs'. rewrite compute_b64 in Hs'.
      apply Ok_inj in Hs'. subst s'. reflexivity.
    + intros s2 Hs2 Hfin Hbig. rewrite compute_b64 in Hs2.
      apply Ok_inj in Hs2. subst s2. cbn [water_schedule_cost.total_cost].
      now apply B64Facts.mul_double.
  - intros cost cap k.
    destruct (compute_exact cost cap) as (s & Hs & Hf & Hd & Ht & Hc).
    destruct (compute_exact (k * cost)%R cap) as (s' & Hs' & Hf' & Hd' & Ht' & Hc').
    exists s, s'. repeat split; try assumption.
    rewrite Hc', Hc, Ht', Ht, Hf', Hf, Hd', Hd. ring.
Qed.

Lemma total_cost_linear_in_cost_witness :
  exists s s2,
    water_schedule_cost.compute 0.00713%float 5000000%float = Ok s /\
    water_schedule_cost.compute (2 * 0.00713)%float 5000000%float = Ok s2 /\
    water_schedule_cost.total_cost s2 = (2 * water_schedule_cost.total_cost s)%float.
Proof.
  destruct total_cost_linear_in_cost as [Hb64 _].
  destruct (Hb64 0.00713%float 5000000%float) as (s & Hs & _ & _ & _ & Hdouble).
  exists s. eexists. split; [exact Hs|]. split; [apply compute_b64|].
  apply Hdouble; [apply compute_b64|reflexivity|].
  rewrite compute_b64 in Hs. apply Ok_inj in Hs. subst s. reflexivity.
Defined.

(** *** The reserve is clamped at zero *)

Lemma max2_zero_b64 (x : float) :
  max2 x 0%float = if (x <? 0)%float then 0%float else x.
Proof. reflexivity. Qed.

(** [max(x, 0.0)] is never below zero; it is at least zero unless [x] is NaN,
    which [max] hands back. *)
Lemma max2_zero_not_negative (x : float) : (max2 x 0%float <? 0)%float = false.
Proof.
  rewrite max2_zero_b64. destruct (x <? 0)%float eqn:E; [reflexivity|exact E].
Qed.

Lemma max2_zero_nonneg (x : float) :
  SF.is_num (Prim2SF x) = true -> (0 <=? max2 x 0%float)%float = true.
Proof.
  intros Hx. rewrite max2_zero_b64. destruct (x <? 0)%float eqn:E; [reflexivity|].
  rewrite FloatAxioms.leb_spec. rewrite FloatAxioms.ltb_spec in E.
  now apply SFFacts.SFleb_zero_of_not_lt.
Qed.

Lemma max2_zero_num (x : float) :
  SF.is_num (Prim2SF x) = true -> SF.is_num (Prim2SF (max2 x 0%float)) = true.
Proof.
  intros Hx. rewrite max2_zero_b64. destruct (x <? 0)%float; [reflexivity|exact Hx].
Qed.

Lemma max2_zero_nan : max2 nan 0%float = nan.
Proof. reflexivity. Qed.

(** What is delivered in the first phase, less the deficit of that phase, is
    a number whenever the capacity is. *)
Lemma phase_one_surplus_num (capacity_per_year : float) :
  is_nan capacity_per_year = false ->
  SF.is_num (Prim2SF (capacity_per_year / 365 * 102 - 38759.999999999993)%float) = true.
Proof.
  intros Hc. apply B64Facts.is_nan_num in Hc.
  rewrite FloatAxioms.sub_spec, FloatAxioms.mul_spec, FloatAxioms.div_spec.
  eval_sf 365%float. eval_sf 102%float. eval_sf 38759.999999999993%float.
  apply SFFacts.SFsub_num_finite_r, SFFacts.SFmul_num_finite, SFFacts.SFdiv_num_finite, Hc.
Qed.

(** With a capacity that is NaN (the cell [nan] parses), both reserve
    figures are NaN, and NaN is not [>= 0]. *)
Example reserve_of_nan_capacity :
  exists s,
    water_schedule_cost.compute 1%float nan = Ok s /\
    water_schedule_cost.reserve_filled s = nan /\
    water_schedule_cost.remaining_reserve s = nan /\
    (0 <=? water_schedule_cost.reserve_filled s)%float = false.
Proof. eexists. rewrite compute_b64. repeat split; reflexivity. Qed.

(** C7 as stated does not hold for every input: the reserve figures are not
    [>= 0] when the capacity read is NaN. *)
Lemma reserve_not_always_ge_zero :
  ~ (forall (cost_per_ton capacity_per_year : float) s,
       water_schedule_cost.compute cost_per_ton capacity_per_year = Ok s ->
       (0 <=? water_schedule_cost.reserve_filled s)%float = true /\
       (0 <=? water_schedule_cost.remaining_reserve s)%float = true).
Proof.
  intros H.
  destruct (H 1%float nan _ (compute_b64 1%float nan)) as [H1 _].
  vm_compute in H1. discriminate.
Qed.

(** C7, amended. For every input the script computes
    [reserve_filled = max(delivered_full - deficit_full, 0.0)] and
    [remaining_reserve = max(reserve_target - reserve_filled, 0.0)] with
    [reserve_target] 693500 (half the annual use); neither is ever below zero;
    and both are [>= 0] whenever the capacity read is not NaN. *)
Theorem reserve_never_negative (cost_per_ton capacity_per_year : float) :
  exists s,
    water_schedule_cost.compute cost_per_ton capacity_per_year = Ok s /\
    water_schedule_cost.reserve_target s = 693500%float /\
    water_schedule_cost.reserve_filled s =
      max2 (water_schedule_cost.delivered_full s - 38759.999999999993)%float 0%float /\
    water_schedule_cost.remaining_reserve s =
      max2 (water_schedule_cost.reserve_target s - water_schedule_cost.reserve_filled s)%float
           0%float /\
    (water_schedule_cost.reserve_filled s <? 0)%float = false /\
    (water_schedule_cost.remaining_reserve s <? 0)%float = false /\
    (is_nan capacity_per_year = false ->
     (0 <=? water_schedule_cost.reserve_filled s)%float = true /\
     (0 <=? water_schedule_cost.remaining_reserve s)%float = true).
Proof.
  eexists. split; [apply compute_b64|].
  cbn [water_schedule_cost.reserve_target water_schedule_cost.reserve_filled
       water_schedule_cost.remaining_reserve water_schedule_cost.delivered_full].
  repeat split; try apply max2_zero_not_negative.
  - apply max2_zero_nonneg, phase_one_surplus_num, H.
  - apply max2_zero_nonneg. rewrite FloatAxioms.sub_spec.
    eval_sf 693500%float.
    apply SFFacts.SFsub_num_finite_l, max2_zero_num, phase_one_surplus_num, H.
Qed.

Lemma reserve_never_negative_witness :
  exists s,
    water_schedule_cost.compute 0.0071300000000000001%float 5000000%float = Ok s /\
    (0 <=? water_schedule_cost.reserve_filled s)%float = true /\
    (0 <=? water_schedule_cost.remaining_reserve s)%float = true.
Proof.
  destruct (reserve_never_negative 0.0071300000000000001%float 5000000%float)
    as (s & Hs & _ & _ & _ & _ & _ & Hge).
  exists s. split; [exact Hs|]. apply Hge. reflexivity.
Defined.

(** ** plot_water_cost.py: the cumulative series *)

Section Series.
Context {F : Type} {arith : Arith F}.
Local Open Scope num_scope.

Lemma accumulate_length (start : F) (incs : list F) :
  List.length (accumulate start incs) = S (List.length incs).
Proof. revert start. induction incs as [|i incs IH]; intros start; cbn; [|rewrite IH]; reflexivity. Qed.

Lemma accumulate_head (start d : F) (incs : list F) :
  nth 0 (accumulate start incs) d = start.
Proof. destruct incs; reflexivity. Qed.

Lemma last_item_snoc {A : Type} (l : list A) (x : A) :
  plot_water_cost.last_item (l ++ [x]) = Ok x.
Proof. unfold plot_water_cost.last_item. now rewrite rev_app_distr. Qed.

(** The loop appends, to each list, the running totals of that list's
    increments: the tonnage of the day times the list's cost per ton. *)
Lemma day_loop (capacity_per_day deficit_per_day cost_elev cost_ground : F)
  (days : list Z) (E G : list F) (e g : F) :
  foldM (plot_water_cost.day_step capacity_per_day deficit_per_day cost_elev cost_ground)
        days (E ++ [e], G ++ [g]) =
  Ok (E ++ accumulate e
             (map (fun d => daily_tonnage capacity_per_day deficit_per_day d * cost_elev) days),
      G ++ accumulate g
             (map (fun d => daily_tonnage capacity_per_day deficit_per_day d * cost_ground) days)).
Proof.
  revert E G e g. induction days as [|d days IH]; intros E G e g; [reflexivity|].
  cbn [foldM plot_water_cost.day_step map accumulate]. unfold daily_tonnage at 1 3.
  destruct (d <=? plot_water_cost.DAYS_FULL)%Z;
    rewrite !last_item_snoc; cbn [bind]; rewrite IH, <- !app_assoc; reflexivity.
Qed.
End Series.

Lemma range_length (a b : Z) : List.length (plot_water_cost.range a b) = Z.to_nat (b - a).
Proof. unfold plot_water_cost.range. now rewrite length_map, length_seq. Qed.

(** The series the plotter draws, in binary64. *)
Lemma series_of_b64 (capacity_per_year cost_elev cost_ground : float) :
  plot_water_cost.series_of capacity_per_year cost_elev cost_ground =
  Ok (plot_water_cost.range 0 366,
      accumulate 0%float
        (map (fun d => (daily_tonnage (capacity_per_year / 365) 379.99999999999994 d
                        * cost_elev)%float)
             (plot_water_cost.range 1 366)),
      accumulate 0%float
        (map (fun d => (daily_tonnage (capacity_per_year / 365) 379.99999999999994 d
                        * cost_ground)%float)
             (plot_water_cost.range 1 366))).
Proof.
  unfold plot_water_cost.series_of, plot_water_cost.DAYS_PER_YEAR.
  rewrite !truediv_365. cbn [bind].
  change (365 + 1)%Z with 366%Z.
  pose proof (day_loop (capacity_per_year / 365)%float
                (plot_water_cost.ANNUAL_USE_TONS * plot_water_cost.DEFICIT_RATE / 365)%float
                cost_elev cost_ground (plot_water_cost.range 1 366) [] []
                (lit 0 0) (lit 0 0)) as Hloop.
  cbn [app] in Hloop. cbn [mul div b64] in *. rewrite Hloop. cbn [bind].
  replace (@lit float b64 0 0) with 0%float by reflexivity.
  replace (plot_water_cost.ANNUAL_USE_TONS * plot_water_cost.DEFICIT_RATE / 365)%float
    with 379.99999999999994%float by (vm_compute; reflexivity).
  reflexivity.
Qed.

(** *** Non-decreasing series *)

Lemma accumulate_non_decreasing (incs : list float) (start : float) :
  (0 <=? start)%float = true ->
  Forall (fun i => (0 <=? i)%float = true) incs ->
  non_decreasing (accumulate start incs).
Proof.
  revert start. induction incs as [|i incs IH]; intros start Hs Hi d Hd.
  - cbn in Hd. lia.
  - apply Forall_cons_iff in Hi. destruct Hi as [Hi Hincs].
    destruct (B64Facts.add_ge start i Hs Hi) as [Hle Hnn].
    cbn [accumulate]. destruct d as [|d].
    + cbn [nth]. rewrite accumulate_head. exact Hle.
    + cbn [nth]. apply (IH (start + i)%float Hnn Hincs d).
      simpl in Hd. lia.
Qed.

Lemma daily_increments_nonneg (capacity_per_year cost : float) (days : list Z) :
  finite_nonneg capacity_per_year = true -> finite_nonneg cost = true ->
  Forall (fun i => (0 <=? i)%float = true)
    (map (fun d => (daily_tonnage (capacity_per_year / 365) 379.99999999999994 d * cost)%float)
         days).
Proof.
  intros Hc Hk. apply andb_true_iff in Hc, Hk. destruct Hc as [Hc Fc], Hk as [Hk Fk].
  destruct (B64Facts.div_nn_fin capacity_per_year 365%float 6421147906211840 (-44) Hc Fc)
    as [Hd Fd]; [vm_compute; reflexivity|vm_compute; discriminate|].
  apply Forall_map, Forall_forall. intros d _. unfold daily_tonnage.
  destruct (d <=? plot_water_cost.DAYS_FULL)%Z.
  - now apply B64Facts.mul_nn.
  - apply B64Facts.mul_nn; try assumption; reflexivity.
Qed.

Lemma cumulative_costs_reads (water_cost egc : Csv.file) (cap ce cg : float) :
  plot_water_cost.read_capacity water_cost = Ok cap ->
  plot_water_cost.read_costs egc = Ok (ce, cg) ->
  plot_water_cost.cumulative_costs water_cost egc = plot_water_cost.series_of cap ce cg.
Proof.
  intros Hcap Hcosts. unfold plot_water_cost.cumulative_costs.
  rewrite Hcap, Hcosts. reflexivity.
Qed.

(** With a negative cost per ton in the cost table the elevator series
    falls: day 1 stands at -1.0 after day 0 at 0.0. *)
Lemma series_can_decrease :
  exists days E G,
    plot_water_cost.cumulative_costs
      [["cost_per_ton_亿美元/吨"; "capacity_per_year_吨/年"]; ["0.1"; "365"]]%string
      [["类型"; "每吨价格(亿美元/吨)"]; ["电梯平均"; "-1.0"]; ["地面平均"; "1.0"]]%string
      = Ok (days, E, G) /\
    nth 0 E 0%float = 0%float /\
    nth 1 E 0%float = (-1)%float /\
    geb (nth 1 E 0%float) (nth 0 E 0%float) = false.
Proof.
  do 3 eexists. split.
  - rewrite (cumulative_costs_reads _ _ 365%float (-1)%float 1%float)
      by (vm_compute; reflexivity).
    apply series_of_b64.
  - repeat split; vm_compute; reflexivity.
Qed.

(** C8, amended. For every capacity and pair of costs read, each of the two
    series has length 366 (days 0 to 365) and starts at 0.0; when the capacity
    and both costs are finite and not negative, each series is non-decreasing:
    [series[d+1] >= series[d]] for every day [d] from 0 to 364. *)
Theorem cumulative_series_non_decreasing
  (water_cost egc : Csv.file) (capacity_per_year cost_elev cost_ground : float) :
  plot_water_cost.read_capacity water_cost = Ok capacity_per_year ->
  plot_water_cost.read_costs egc = Ok (cost_elev, cost_ground) ->
  exists E G,
    plot_water_cost.cumulative_costs water_cost egc
      = Ok (map Z.of_nat (seq 0 366), E, G) /\
    List.length E = 366%nat /\ List.length G = 366%nat /\
    nth 0 E 0%float = 0%float /\ nth 0 G 0%float = 0%float /\
    (finite_nonneg capacity_per_year = true ->
     finite_nonneg cost_elev = true ->
     finite_nonneg cost_ground = true ->
     non_decreasing E /\ non_decreasing G).
Proof.
  intros Hcap Hcosts.
  rewrite (cumulative_costs_reads _ _ _ _ _ Hcap Hcosts), series_of_b64.
  do 2 eexists. split; [reflexivity|].
  rewrite !accumulate_length, !length_map, range_length, !accumulate_head.
  repeat split.
  - apply accumulate_non_decreasing; [reflexivity|now apply daily_increments_nonneg].
  - apply accumulate_non_decreasing; [reflexivity|now apply daily_increments_nonneg].
Qed.

Lemma cumulative_series_non_decreasing_witness :
  exists E G,
    plot_water_cost.cumulative_costs
      [["cost_per_ton_亿美元/吨"; "capacity_per_year_吨/年"]; ["0.007130"; "5000000"]]%string
      [["类型"; "每吨价格(亿美元/吨)"]; ["电梯平均"; "0.007130"]; ["地面平均"; "0.049910"]]%string
      = Ok (map Z.of_nat (seq 0 366), E, G) /\
    List.length E = 366%nat /\ List.length G = 366%nat /\
    non_decreasing E /\ non_decreasing G.
Proof.
  destruct (cumulative_series_non_decreasing
              [["cost_per_ton_亿美元/吨"; "capacity_per_year_吨/年"]; ["0.007130"; "5000000"]]%string
              [["类型"; "每吨价格(亿美元/吨)"]; ["电梯平均"; "0.007130"]; ["地面平均"; "0.049910"]]%string
              5000000%float 0.00713%float 0.04991%float)
    as (E & G & Hrun & HE & HG & _ & _ & Hmono).
  - vm_compute. reflexivity.
  - vm_compute. reflexivity.
  - exists E, G. repeat split; try assumption; apply Hmono; reflexivity.
Defined.

(** *** The two series against each other *)

Lemma series_of_exact (capacity_per_year cost_elev cost_ground : R) :
  plot_water_cost.series_of capacity_per_year cost_elev cost_ground =
  Ok (plot_water_cost.range 0 366,
      accumulate 0%R
        (map (fun t => (t * cost_elev)%R)
             (map (daily_tonnage (capacity_per_year / 365)%R 380%R)
                  (plot_water_cost.range 1 366))),
      accumulate 0%R
        (map (fun t => (t * cost_ground)%R)
             (map (daily_tonnage (capacity_per_year / 365)%R 380%R)
                  (plot_water_cost.range 1 366)))).
Proof.
  unfold plot_water_cost.series_of, plot_water_cost.DAYS_PER_YEAR.
  rewrite !truediv_int_exact by discriminate. cbn [bind].
  change (365 + 1)%Z with 366%Z.
  pose proof (day_loop (capacity_per_year / 365)%R
                (plot_water_cost.ANNUAL_USE_TONS * plot_water_cost.DEFICIT_RATE / 365)%R
                cost_elev cost_ground (plot_water_cost.range 1 366) [] []
                (lit 0 0) (lit 0 0)) as Hloop.
  cbn [app] in Hloop. cbn [mul div exact] in *. rewrite Hloop. cbn [bind].
  rewrite !map_map.
  replace (@lit R exact 0 0) with 0%R
    by (cbn [lit exact]; unfold Exact.of_decimal; simpl; lra).
  replace (plot_water_cost.ANNUAL_USE_TONS * plot_water_cost.DEFICIT_RATE / 365)%R
    with 380%R; [reflexivity|].
  unfold plot_water_cost.ANNUAL_USE_TONS, plot_water_cost.DEFICIT_RATE,
    plot_water_cost.RECOVERY_RATE. cbn [lit sub exact]. unfold Exact.of_decimal.
  cbn [Z.leb Z.compare Z.opp]. change (10 ^ 0)%Z with 1%Z. change (10 ^ 2)%Z with 100%Z.
  lra.
Qed.

Lemma accumulate_proportional (ts : list R) (ce cg e g : R) :
  (e * cg = g * ce)%R ->
  forall d : nat,
    (nth d (accumulate e (map (fun t => t * ce) ts)) 0 * cg =
     nth d (accumulate g (map (fun t => t * cg) ts)) 0 * ce)%R.
Proof.
  revert e g. induction ts as [|t ts IH]; intros e g Heg d.
  - destruct d as [|[|d]]; cbn; lra.
  - destruct d as [|d]; cbn [map accumulate nth]; [exact Heg|].
    apply IH. cbn [add mul exact]. nra.
Qed.

(** At 5,000,000 tons a year and costs 0.1 and 0.3 the cross-products of
    day 1 differ in the last place. *)
Lemma series_not_proportional :
  exists days E G,
    plot_water_cost.cumulative_costs
      [["cost_per_ton_亿美元/吨"; "capacity_per_year_吨/年"]; ["0.1"; "5000000"]]%string
      [["类型"; "每吨价格(亿美元/吨)"]; ["电梯平均"; "0.1"]; ["地面平均"; "0.3"]]%string
      = Ok (days, E, G) /\
    (nth 1 E 0 * 0.3)%float = 410.95890410958907%float /\
    (nth 1 G 0 * 0.1)%float = 410.95890410958901%float /\
    (nth 1 E 0 * 0.3)%float <> (nth 1 G 0 * 0.1)%float.
Proof.
  do 3 eexists. split.
  - rewrite (cumulative_costs_reads _ _ 5000000%float 0.1%float 0.3%float)
      by (vm_compute; reflexivity).
    apply series_of_b64.
  - repeat split; try (vm_compute; reflexivity). float_neq.
Qed.

(** C10, amended. Both series are the running totals of one and the same
    day-by-day tonnage schedule, each tonnage multiplied by the series' own
    cost per ton.  In exact arithmetic this makes them proportional:
    [elevator_recovery[d] * cost_ground = ground_recovery[d] * cost_elev] for
    every day [d]; in binary64 the two sides agree up to rounding only. *)
Theorem series_share_one_schedule :
  (forall capacity_per_year cost_elev cost_ground : float,
     exists schedule : list float,
       List.length schedule = 365%nat /\
       plot_water_cost.series_of capacity_per_year cost_elev cost_ground =
         Ok (plot_water_cost.range 0 366,
             accumulate 0%float (map (fun t => (t * cost_elev)%float) schedule),
             accumulate 0%float (map (fun t => (t * cost_ground)%float) schedule))) /\
  (forall capacity_per_year cost_elev cost_ground : R,
     exists E G,
       plot_water_cost.series_of capacity_per_year cost_elev cost_ground =
         Ok (plot_water_cost.range 0 366, E, G) /\
       List.length E = 366%nat /\ List.length G = 366%nat /\
       forall d : nat, (d <= 365)%nat ->
         (nth d E 0 * cost_ground = nth d G 0 * cost_elev)%R).
Proof.
  split.
  - intros cap ce cg.
    exists (map (daily_tonnage (cap / 365)%float 379.99999999999994%float)
                (plot_water_cost.range 1 366)).
    split; [now rewrite length_map, range_length|].
    rewrite series_of_b64, !map_map. reflexivity.
  - intros cap ce cg. rewrite series_of_exact. do 2 eexists. split; [reflexivity|].
    rewrite !accumulate_length, !length_map, range_length.
    repeat split. intros d _. apply accumulate_proportional. lra.
Qed.

(** ** The order of rounded results

    Rounding to nearest follows the order of the exact values it rounds:
    [binary_round_aux] is monotone on values located with enough bits, and
    so are the product, the quotient, the sum and the difference of floats
    from zero on. *)

Module SFOrder.
Import SF SFFacts SFValue.
Open Scope Z_scope.

Lemma cell_bounds (u : R) (m : Z) (l : location) :
  cell u m l -> (IZR m <= u < IZR m + 1)%R.
Proof. destruct l as [|[]]; cbn; lra. Qed.

Lemma IZR_xO (p : positive) : IZR (Z.pos p~0) = (2 * IZR (Z.pos p))%R.
Proof. rewrite Pos2Z.inj_xO, mult_IZR. reflexivity. Qed.

Lemma IZR_xI (p : positive) : IZR (Z.pos p~1) = (2 * IZR (Z.pos p) + 1)%R.
Proof. rewrite Pos2Z.inj_xI, plus_IZR, mult_IZR. reflexivity. Qed.

(** One shift to the right keeps track of where the value lies. *)
(** One shift to the right keeps track of where the value lies. *)
Lemma shr_1_cell (mrs : shr_record) (u : R) :
  0 <= shr_m mrs ->
  cell u (shr_m mrs) (loc_of_shr_record mrs) ->
  cell (u / 2) (shr_m (shr_1 mrs)) (loc_of_shr_record (shr_1 mrs)).
Proof.
  destruct mrs as [m r s]. cbn [shr_m]. intros Hm.
  destruct m as [|p|p]; [| |lia].
  - destruct r, s; cbv beta iota delta [shr_1 loc_of_shr_record shr_m cell orb];
      intros H; lra.
  - destruct p as [p|p|]; destruct r, s;
      cbv beta iota delta [shr_1 loc_of_shr_record shr_m cell orb];
      try rewrite (IZR_xO p); try rewrite (IZR_xI p); intros H; lra.
Qed.

Lemma shr_1_nonneg (mrs : shr_record) : 0 <= shr_m mrs -> 0 <= shr_m (shr_1 mrs).
Proof. intros H. rewrite shr_1_m by exact H. now apply Z.div_pos. Qed.

Lemma pow2_0 : pow2 0 = 1%R.
Proof. reflexivity. Qed.

Lemma pow2_m1 : pow2 (-1) = (/ 2)%R.
Proof. unfold pow2, powerRZ. change (Pos.to_nat 1) with 1%nat. rewrite pow_1. reflexivity. Qed.

Lemma shr_iter_cell (k : nat) (mrs : shr_record) (u : R) :
  0 <= shr_m mrs ->
  cell u (shr_m mrs) (loc_of_shr_record mrs) ->
  cell (u * pow2 (- Z.of_nat k)) (shr_m (Nat.iter k shr_1 mrs))
       (loc_of_shr_record (Nat.iter k shr_1 mrs)) /\
  0 <= shr_m (Nat.iter k shr_1 mrs).
Proof.
  intros Hm Hc. induction k as [|k [IHc IHm]].
  - change (- Z.of_nat 0) with 0. rewrite pow2_0, Rmult_1_r. now split.
  - cbn [Nat.iter]. split; [|now apply shr_1_nonneg].
    replace (u * pow2 (- Z.of_nat (S k)))%R with (u * pow2 (- Z.of_nat k) / 2)%R.
    + now apply shr_1_cell.
    + replace (- Z.of_nat (S k)) with (- Z.of_nat k + -1) by lia.
      rewrite pow2_add, pow2_m1. lra.
Qed.

Lemma shr_cell (mrs : shr_record) (e n : Z) (u : R) :
  0 <= shr_m mrs ->
  cell u (shr_m mrs) (loc_of_shr_record mrs) ->
  cell (u * pow2 (- Z.max n 0)) (shr_m (fst (shr mrs e n)))
       (loc_of_shr_record (fst (shr mrs e n))).
Proof.
  intros Hm Hc. destruct n as [|p|p]; cbn [shr fst].
  - change (- Z.max 0 0) with 0. now rewrite pow2_0, Rmult_1_r.
  - rewrite iter_pos_nat. replace (Z.max (Z.pos p) 0) with (Z.of_nat (Pos.to_nat p)) by lia.
    now apply shr_iter_cell.
  - replace (Z.max (Z.neg p) 0) with 0 by lia. change (- 0) with 0.
    now rewrite pow2_0, Rmult_1_r.
Qed.

Lemma cell_of_loc (u : R) (m : Z) (l : location) :
  cell u m l ->
  cell u (shr_m (shr_record_of_loc m l)) (loc_of_shr_record (shr_record_of_loc m l)).
Proof. destruct l as [|[]]; exact (fun H => H). Qed.

(** Rounding to nearest, ties to even, follows the order of the values. *)
Lemma rne_mono (u1 u2 : R) (m1 m2 : Z) (l1 l2 : location) :
  cell u1 m1 l1 -> cell u2 m2 l2 -> (u1 <= u2)%R ->
  round_nearest_even m1 l1 <= round_nearest_even m2 l2.
Proof.
  intros H1 H2 Hu.
  pose proof (round_nearest_even_bounds m1 l1) as B1.
  pose proof (round_nearest_even_bounds m2 l2) as B2.
  destruct (Z.lt_trichotomy m1 m2) as [Hlt|[Heq|Hgt]].
  - lia.
  - subst m2. destruct l1 as [|[]], l2 as [|[]];
      cbv beta iota delta [cell round_nearest_even] in *;
      try destruct (Z.even m1); try lia; exfalso; lra.
  - exfalso. apply cell_bounds in H1, H2.
    assert (IZR m2 + 1 <= IZR m1)%R by (rewrite <- plus_IZR; apply IZR_le; lia). lra.
Qed.

Lemma pow2_le (a b : Z) : a <= b -> (pow2 a <= pow2 b)%R.
Proof.
  intros H. replace b with (a + (b - a)) by lia. rewrite pow2_add.
  rewrite <- (pow2_IZR (b - a)) by lia.
  assert (1 <= IZR (2 ^ (b - a)))%R.
  { apply IZR_le. assert (0 < 2 ^ (b - a)) by (apply Z.pow_pos_nonneg; lia). lia. }
  pose proof (pow2_pos a). nra.
Qed.

Lemma pow2_lt_inv (a b : Z) : (pow2 a < pow2 b)%R -> a < b.
Proof.
  intros H. destruct (Z.lt_ge_cases a b) as [|Hge]; [assumption|].
  apply pow2_le in Hge. lra.
Qed.

Lemma fexp64_ge (x : Z) : -1074 <= fexp64 x.
Proof. unfold fexp64. lia. Qed.

(** The second normalisation of [binary_round_aux] on a rounded mantissa. *)
Lemma pack_spec (k E : Z) :
  0 <= k <= 9007199254740992 -> -1074 <= E ->
  (let mrs := fst (shr_fexp prec emax k E loc_Exact) in
   let e := snd (shr_fexp prec emax k E loc_Exact) in
   match shr_m mrs with
   | Z0 => S754_zero false
   | Z.pos p => if e <=? emax - prec then S754_finite false p e else S754_infinity false
   | Z.neg _ => S754_nan
   end) = pack k E.
Proof.
  intros Hk HE. cbv zeta.
  destruct (shr_fexp_spec k E loc_Exact) as [Hm He]; [lia|]. rewrite Hm, He. clear Hm He.
  destruct k as [|p|p]; [reflexivity| |lia].
  unfold pack. destruct (Pos.eqb_spec p 9007199254740992) as [->|Hne].
  - change (Zdigits2 9007199254740992) with 54.
    replace (Z.max (fexp64 (54 + E) - E) 0) with 1 by (unfold fexp64; lia).
    change (9007199254740992 / 2 ^ 1) with 4503599627370496. reflexivity.
  - assert (Hlt : Z.pos p < 2 ^ 53) by (change (2 ^ 53) with 9007199254740992; lia).
    assert (Hd : Zdigits2 (Z.pos p) <= 53) by (apply Zdigits2_le; lia).
    replace (Z.max (fexp64 (Zdigits2 (Z.pos p) + E) - E) 0) with 0 by (unfold fexp64; lia).
    rewrite Z.pow_0_r, Z.div_1_r, Z.add_0_r. reflexivity.
Qed.

(** What [binary_round_aux] returns for a value given with enough bits: the
    value is taken to the exponent of its last place and rounded there. *)
Lemma bra_pack (m e : Z) (l : location) (u : R) :
  0 <= m -> e <= fexp64 (Zdigits2 m + e) -> cell u m l ->
  let E := fexp64 (Zdigits2 m + e) in
  exists m' l',
    cell (u * pow2 (- (E - e))) m' l' /\ m' = m / 2 ^ (E - e) /\
    0 <= m' < 9007199254740992 /\
    binary_round_aux prec emax false m e l = pack (round_nearest_even m' l') E.
Proof.
  intros Hm He Hc E.
  rewrite binary_round_aux_unfold. cbv zeta.
  destruct (shr_fexp_spec m e l Hm) as [Hsm Hse].
  fold E in Hsm, Hse.
  replace (Z.max (E - e) 0) with (E - e) in Hsm, Hse by lia.
  assert (Hcell : cell (u * pow2 (- (E - e)))
                    (shr_m (fst (shr_fexp prec emax m e l)))
                    (loc_of_shr_record (fst (shr_fexp prec emax m e l)))).
  { unfold shr_fexp. rewrite fexp_eq. fold E.
    replace (- (E - e)) with (- Z.max (E - e) 0) by lia.
    apply shr_cell; [destruct l as [|[]]; exact Hm|now apply cell_of_loc]. }
  set (mrs := fst (shr_fexp prec emax m e l)) in *.
  assert (Hb : 0 <= shr_m mrs < 9007199254740992).
  { rewrite Hsm. split; [apply Z.div_pos; [lia|apply Z.pow_pos_nonneg; lia]|].
    apply Z.div_lt_upper_bound; [apply Z.pow_pos_nonneg; lia|].
    pose proof (Zdigits2_bound m Hm) as Hd.
    assert (2 ^ Zdigits2 m <= 2 ^ (E - e) * 2 ^ 53).
    { rewrite <- Z.pow_add_r by lia. apply Z.pow_le_mono_r; [lia|].
      unfold E, fexp64. lia. }
    change 9007199254740992 with (2 ^ 53). lia. }
  exists (shr_m mrs), (loc_of_shr_record mrs).
  split; [exact Hcell|]. split; [exact Hsm|]. split; [exact Hb|].
  rewrite Hse. replace (e + (E - e)) with E by lia.
  apply pack_spec; [|apply fexp64_ge].
  pose proof (round_nearest_even_bounds (shr_m mrs) (loc_of_shr_record mrs)). lia.
Qed.

(** The order of two packed results. *)
Lemma pack_le (k1 E1 k2 E2 : Z) :
  0 <= k1 <= 9007199254740992 -> 0 <= k2 <= 9007199254740992 ->
  (E1 = E2 /\ k1 <= k2) \/ (E1 < E2 /\ 4503599627370496 <= k2) ->
  SFleb (pack k1 E1) (pack k2 E2) = true.
Proof.
  intros H1 H2 H.
  destruct k1 as [|p1|p1]; [| |lia]; destruct k2 as [|p2|p2]; try lia.
  - reflexivity.
  - unfold pack. destruct (p2 =? _)%positive; unfold fin_or_inf;
      match goal with |- context [?a <=? ?b] => destruct (a <=? b) end; reflexivity.
  - unfold pack, fin_or_inf.
    destruct (Pos.eqb_spec p1 9007199254740992) as [->|N1];
      destruct (Pos.eqb_spec p2 9007199254740992) as [->|N2];
      repeat match goal with |- context [?a <=? 971] => destruct (Z.leb_spec a 971) end;
      try reflexivity; try lia;
      unfold SFleb, SFcompare;
      match goal with
      | |- context [?a ?= ?b] => destruct (Z.compare_spec a b)
      end; try reflexivity; try lia;
      match goal with
      | |- context [Pos.compare_cont Eq ?p ?q] =>
          destruct (pos_compare_cont_le p q) as [-> | ->]; [lia|reflexivity|reflexivity]
      end.
Qed.

(** The binade of a located value. *)
Lemma cell_binade (p : positive) (e : Z) (l : location) (u : R) :
  cell u (Z.pos p) l ->
  (pow2 (Zdigits2 (Z.pos p) + e - 1) <= u * pow2 e < pow2 (Zdigits2 (Z.pos p) + e))%R.
Proof.
  intros Hc. apply cell_bounds in Hc. cbn [Zdigits2].
  pose proof (digits_bounds p) as [Hlo Hhi].
  set (d := Z.pos (digits2_pos p)) in *.
  assert (Hd : 1 <= d) by (unfold d; lia).
  apply IZR_le in Hlo. rewrite pow2_IZR in Hlo by lia.
  assert (Hhi' : (IZR (Z.pos p) + 1 <= pow2 d)%R).
  { rewrite <- pow2_IZR by lia. rewrite <- plus_IZR. apply IZR_le. lia. }
  replace (d + e - 1) with ((d - 1) + e) by lia. rewrite !pow2_add.
  pose proof (pow2_pos e). split; nra.
Qed.

Lemma cell_zero (e : Z) (l : location) (u : R) :
  cell u 0 l -> (0 <= u * pow2 e < pow2 e)%R.
Proof.
  intros Hc. apply cell_bounds in Hc. pose proof (pow2_pos e). split; nra.
Qed.

Lemma fexp64_low (x : Z) : x <= -1021 -> fexp64 x = -1074.
Proof. unfold fexp64. lia. Qed.

(** The exponent of the last place follows the order of the values. *)
Lemma last_place_mono (m1 e1 : Z) (l1 : location) (u1 : R)
  (m2 e2 : Z) (l2 : location) (u2 : R) :
  0 <= m1 -> e1 <= fexp64 (Zdigits2 m1 + e1) -> cell u1 m1 l1 ->
  0 <= m2 -> e2 <= fexp64 (Zdigits2 m2 + e2) -> cell u2 m2 l2 ->
  (u1 * pow2 e1 <= u2 * pow2 e2)%R ->
  fexp64 (Zdigits2 m1 + e1) <= fexp64 (Zdigits2 m2 + e2).
Proof.
  intros Hm1 He1 Hc1 Hm2 He2 Hc2 Hv.
  destruct m1 as [|p1|p1]; [| |lia].
  - cbn [Zdigits2] in *. rewrite Z.add_0_l in *.
    assert (e1 <= -1074) by (unfold fexp64 in He1; lia).
    rewrite fexp64_low by lia. apply fexp64_ge.
  - pose proof (cell_binade p1 e1 l1 u1 Hc1) as B1.
    destruct m2 as [|p2|p2]; [| |lia].
    + pose proof (cell_zero e2 l2 u2 Hc2) as B2.
      assert (Hlt : Zdigits2 (Z.pos p1) + e1 - 1 < e2) by (apply pow2_lt_inv; lra).
      cbn [Zdigits2] in He2, Hlt |- *. rewrite Z.add_0_l in *.
      assert (e2 <= -1074) by (unfold fexp64 in He2; lia).
      rewrite !fexp64_low by lia. lia.
    + pose proof (cell_binade p2 e2 l2 u2 Hc2) as B2.
      apply fexp64_mono.
      assert (Zdigits2 (Z.pos p1) + e1 - 1 < Zdigits2 (Z.pos p2) + e2)
        by (apply pow2_lt_inv; lra).
      lia.
Qed.

(** Rounding follows the order of the values it rounds. *)
Lemma bra_mono (m1 e1 : Z) (l1 : location) (u1 : R)
  (m2 e2 : Z) (l2 : location) (u2 : R) :
  0 <= m1 -> e1 <= fexp64 (Zdigits2 m1 + e1) -> cell u1 m1 l1 ->
  0 <= m2 -> e2 <= fexp64 (Zdigits2 m2 + e2) -> cell u2 m2 l2 ->
  (u1 * pow2 e1 <= u2 * pow2 e2)%R ->
  SFleb (binary_round_aux prec emax false m1 e1 l1)
        (binary_round_aux prec emax false m2 e2 l2) = true.
Proof.
  intros Hm1 He1 Hc1 Hm2 He2 Hc2 Hv.
  pose proof (last_place_mono _ _ _ _ _ _ _ _ Hm1 He1 Hc1 Hm2 He2 Hc2 Hv) as HE.
  destruct (bra_pack m1 e1 l1 u1 Hm1 He1 Hc1) as (m1' & l1' & Hc1' & Hd1 & Hb1 & ->).
  destruct (bra_pack m2 e2 l2 u2 Hm2 He2 Hc2) as (m2' & l2' & Hc2' & Hd2 & Hb2 & ->).
  set (E1 := fexp64 (Zdigits2 m1 + e1)) in *.
  set (E2 := fexp64 (Zdigits2 m2 + e2)) in *.
  pose proof (round_nearest_even_bounds m1' l1') as R1.
  pose proof (round_nearest_even_bounds m2' l2') as R2.
  apply pack_le; [lia|lia|].
  destruct (Z.eq_dec E1 E2) as [Heq|Hne]; [left|right].
  - split; [exact Heq|].
    apply (rne_mono _ _ _ _ _ _ Hc1' Hc2').
    replace (- (E1 - e1)) with (e1 + - E1) by lia.
    replace (- (E2 - e2)) with (e2 + - E1) by lia.
    rewrite !pow2_add. pose proof (pow2_pos (- E1)). nra.
  - split; [lia|].
    assert (HE2 : -1074 < E2) by (pose proof (fexp64_ge (Zdigits2 m1 + e1)); unfold E1 in *; lia).
    destruct m2 as [|p2|p2]; [| |lia].
    + exfalso. cbn [Zdigits2] in *. unfold E2, fexp64 in *. lia.
    + assert (Hm' : 4503599627370496 <= m2').
      { rewrite Hd2. pose proof (digits_bounds p2) as [Hlo _].
        cbn [Zdigits2] in *.
        set (d := Z.pos (digits2_pos p2)) in *.
        assert (HEd : E2 - e2 = d - 53) by (unfold E2, fexp64 in *; lia).
        rewrite HEd. apply Z.div_le_lower_bound; [apply Z.pow_pos_nonneg; lia|].
        change 4503599627370496 with (2 ^ 52). rewrite <- Z.pow_add_r by lia.
        replace (d - 53 + 52) with (d - 1) by lia. exact Hlo. }
      lia.
Qed.

Lemma val_pos (m : positive) (e : Z) : (0 < val m e)%R.
Proof.
  unfold val. pose proof (pow2_pos e).
  assert (1 <= IZR (Z.pos m))%R by (apply IZR_le; lia). nra.
Qed.

(** A valid mantissa has 53 bits, or fewer at the lowest exponent. *)
Lemma valid_digits (m : positive) (e : Z) :
  valid_binary (S754_finite false m e) = true ->
  let d := Z.pos (digits2_pos m) in
  d <= 53 /\ -1074 <= e <= 971 /\ (d = 53 \/ e = -1074).
Proof.
  intros H. apply valid_finite in H. destruct H as [Hf He]. cbv zeta.
  unfold fexp64 in Hf. lia.
Qed.

(** The order of two valid positive floats is the order of their values. *)
Lemma leb_val (m1 m2 : positive) (e1 e2 : Z) :
  valid_binary (S754_finite false m1 e1) = true ->
  valid_binary (S754_finite false m2 e2) = true ->
  SFleb (S754_finite false m1 e1) (S754_finite false m2 e2) = true ->
  (val m1 e1 <= val m2 e2)%R.
Proof.
  intros V1 V2. apply valid_digits in V1, V2. cbv zeta in V1, V2.
  unfold SFleb, SFcompare, val.
  destruct (Z.compare_spec e1 e2) as [->|Hlt|Hgt]; [| |discriminate].
  - intros H.
    assert (Hle : (m1 <= m2)%positive).
    { unfold Pos.le, Pos.compare. destruct (Pos.compare_cont Eq m1 m2); congruence. }
    assert (IZR (Z.pos m1) <= IZR (Z.pos m2))%R by (apply IZR_le; lia).
    pose proof (pow2_pos e2). nra.
  - intros _.
    pose proof (digits_bounds m1) as [_ H1]. pose proof (digits_bounds m2) as [H2 _].
    assert (Hd2 : Z.pos (digits2_pos m2) = 53) by lia. rewrite Hd2 in H2.
    assert (H1' : Z.pos m1 < 2 ^ 53).
    { eapply Z.lt_le_trans; [exact H1|]. apply Z.pow_le_mono_r; lia. }
    apply IZR_lt in H1'. apply IZR_le in H2.
    rewrite pow2_IZR in H1', H2 by lia.
    assert (pow2 (53 + e1) <= pow2 (53 - 1 + e2))%R by (apply pow2_le; lia).
    rewrite !pow2_add in H.
    pose proof (pow2_pos e1). pose proof (pow2_pos e2). nra.
Qed.

(** A float that is zero, positive or the positive infinity. *)
Lemma SFleb_zero_l (s : bool) (r : spec_float) :
  is_nn r = true -> SFleb (S754_zero s) r = true.
Proof. destruct r as [| [|] | |[|] ? ?]; try discriminate; reflexivity. Qed.

Lemma SFleb_inf_r (x : spec_float) :
  is_num x = true -> SFleb x (S754_infinity false) = true.
Proof. destruct x as [[|]| [|] | |[|] ? ?]; try discriminate; reflexivity. Qed.

Lemma bra_nn (m e : Z) (l : location) :
  0 <= m -> is_nn (binary_round_aux prec emax false m e l) = true.
Proof.
  intros Hm. destruct (bra_cases false m e l Hm) as [-> |[(p & e' & ->)| ->]]; reflexivity.
Qed.

(** *** Products *)

Lemma mul_enough (mx my : positive) (ex ey : Z) :
  valid_binary (S754_finite false mx ex) = true ->
  valid_binary (S754_finite false my ey) = true ->
  ex + ey <= fexp64 (Zdigits2 (Z.pos (mx * my)) + (ex + ey)).
Proof.
  intros Vx Vy. apply valid_digits in Vx, Vy. cbv zeta in Vx, Vy.
  pose proof (digits_mul mx my) as [Hd _]. cbn [Zdigits2]. unfold fexp64. lia.
Qed.

Lemma SFmul_mono_pos (mx1 mx2 my1 my2 : positive) (ex1 ex2 ey1 ey2 : Z) :
  valid_binary (S754_finite false mx1 ex1) = true ->
  valid_binary (S754_finite false mx2 ex2) = true ->
  valid_binary (S754_finite false my1 ey1) = true ->
  valid_binary (S754_finite false my2 ey2) = true ->
  (val mx1 ex1 <= val mx2 ex2)%R -> (val my1 ey1 <= val my2 ey2)%R ->
  SFleb (SFmul prec emax (S754_finite false mx1 ex1) (S754_finite false my1 ey1))
        (SFmul prec emax (S754_finite false mx2 ex2) (S754_finite false my2 ey2)) = true.
Proof.
  intros V1 V2 W1 W2 Hx Hy. cbn [SFmul xorb].
  apply (bra_mono _ _ _ (IZR (Z.pos (mx1 * my1))) _ _ _ (IZR (Z.pos (mx2 * my2))));
    try lia; try (now apply mul_enough); try reflexivity.
  rewrite !Pos2Z.inj_mul, !mult_IZR, !pow2_add.
  pose proof (val_pos mx1 ex1). pose proof (val_pos my1 ey1). unfold val in *. nra.
Qed.

(** *** Quotients *)

Lemma new_location_cell (m2 r q : Z) :
  0 < m2 -> 0 <= r < m2 ->
  cell (IZR q + IZR r / IZR m2) q (new_location m2 r).
Proof.
  intros Hm Hr.
  assert (Hm' : (0 < IZR m2)%R) by (apply IZR_lt; lia).
  assert (Hr0 : (0 <= IZR r)%R) by (apply IZR_le; lia).
  assert (Hhalf : forall c : comparison, (2 * r ?= m2) = c ->
            cell (IZR q + IZR r / IZR m2) q
                 (if r =? 0 then loc_Exact else loc_Inexact c)).
  { intros c Hc. destruct (Z.eqb_spec r 0) as [->|Hne].
    - cbn [cell]. unfold Rdiv. lra.
    - assert (0 < IZR r)%R by (apply IZR_lt; lia).
      destruct (Z.compare_spec (2 * r) m2) as [E|L|G]; subst c; cbn [cell].
      + rewrite <- E, mult_IZR. field_simplify_eq; lra.
      + apply IZR_lt in L. rewrite mult_IZR in L. split.
        * assert (0 < IZR r / IZR m2)%R by (apply Rdiv_lt_0_compat; lra). lra.
        * apply Rplus_lt_compat_l. apply Rmult_lt_reg_r with (IZR m2); [lra|].
          unfold Rdiv. rewrite Rmult_assoc, Rinv_l by lra. lra.
      + apply IZR_lt in G. rewrite mult_IZR in G.
        destruct Hr as [_ Hr]. apply IZR_lt in Hr. split.
        * apply Rplus_lt_compat_l. apply Rmult_lt_reg_r with (IZR m2); [lra|].
          unfold Rdiv. rewrite Rmult_assoc, Rinv_l by lra. lra.
        * apply Rplus_lt_compat_l. apply Rmult_lt_reg_r with (IZR m2); [lra|].
          unfold Rdiv. rewrite Rmult_assoc, Rinv_l by lra. lra. }
  unfold new_location. destruct (Z.even m2) eqn:Ev.
  - unfold new_location_even. now apply Hhalf.
  - unfold new_location_odd.
    destruct (Z.compare_spec (2 * r + 1) m2) as [E|L|G].
    + apply Hhalf. apply Z.compare_lt_iff. lia.
    + apply Hhalf. apply Z.compare_lt_iff. lia.
    + apply Hhalf. apply Z.compare_gt_iff.
      assert (2 * r <> m2).
      { intros E. rewrite <- E, Z.even_mul in Ev. discriminate. }
      lia.
Qed.

(** The quotient [SFdiv_core_binary] hands to the rounding: located, and
    with enough bits. *)
Lemma div_core_cell (m1 m2 : positive) (e1 e2 : Z) :
  exists q e' l u,
    SFdiv_core_binary prec emax (Z.pos m1) e1 (Z.pos m2) e2 = (q, e', l) /\
    0 <= q /\ e' <= fexp64 (Zdigits2 q + e') /\ cell u q l /\
    (u * pow2 e' = val m1 e1 / val m2 e2)%R.
Proof.
  unfold SFdiv_core_binary. rewrite fexp_eq. cbn [Zdigits2].
  set (d1 := Z.pos (digits2_pos m1)). set (d2 := Z.pos (digits2_pos m2)).
  set (e' := Z.min (fexp64 (d1 + e1 - (d2 + e2))) (e1 - e2)).
  set (s := e1 - e2 - e').
  assert (Hs : 0 <= s) by (unfold s, e'; lia).
  set (m' := match s with Z.pos _ => Z.shiftl (Z.pos m1) s | 0 => Z.pos m1 | Z.neg _ => 0 end).
  assert (Hm' : m' = Z.pos m1 * 2 ^ s).
  { unfold m'. destruct s as [|p|p]; [lia| |lia]. now rewrite Z.shiftl_mul_pow2 by lia. }
  pose proof (Z_div_mod m' (Z.pos m2) eq_refl) as Hdm.
  destruct (Z.div_eucl m' (Z.pos m2)) as [q r]. destruct Hdm as [Hq Hr].
  assert (H2s : 0 < 2 ^ s) by (apply Z.pow_pos_nonneg; lia).
  assert (Hq0 : 0 <= q) by nia.
  exists q, e', (new_location (Z.pos m2) r), (IZR q + IZR r / IZR (Z.pos m2))%R.
  split; [reflexivity|]. split; [exact Hq0|]. split; [|split].
  - destruct (Z_le_gt_dec e' (-1074)) as [Hlow|Hhigh].
    { unfold fexp64. lia. }
    assert (Ht : 53 <= d1 + s - d2) by (unfold s, e', fexp64 in *; lia).
    pose proof (digits_bounds m1) as [Hlo1 _]. pose proof (digits_bounds m2) as [_ Hhi2].
    fold d1 in Hlo1. fold d2 in Hhi2.
    assert (Hd1 : 1 <= d1) by (unfold d1; lia).
    assert (Hd2 : 1 <= d2) by (unfold d2; lia).
    assert (Hbig : 2 ^ 52 * 2 ^ d2 <= m').
    { rewrite Hm'. rewrite <- Z.pow_add_r by lia.
      transitivity (2 ^ (d1 - 1) * 2 ^ s); [|nia].
      rewrite <- Z.pow_add_r by lia. apply Z.pow_le_mono_r; lia. }
    assert (Hq52 : 2 ^ 52 <= q).
    { assert (0 < 2 ^ 52) by reflexivity. nia. }
    destruct q as [|pq|pq]; [lia| |lia].
    cbn [Zdigits2]. pose proof (digits_ge pq 52 Hq52 ltac:(lia)). unfold fexp64. lia.
  - apply new_location_cell; lia.
  - assert (Hmr : (0 < IZR (Z.pos m2))%R) by (apply IZR_lt; lia).
    replace (IZR q + IZR r / IZR (Z.pos m2))%R with (IZR m' / IZR (Z.pos m2))%R.
    2:{ rewrite Hq, plus_IZR, mult_IZR. field. lra. }
    rewrite Hm', mult_IZR, pow2_IZR by lia. unfold val.
    assert (He1 : pow2 e1 = (pow2 s * pow2 e' * pow2 e2)%R).
    { rewrite <- !pow2_add. f_equal. unfold s. lia. }
    rewrite He1.
    pose proof (pow2_pos e2). pose proof (pow2_pos e'). pose proof (pow2_pos s).
    field. split; lra.
Qed.

Lemma SFdiv_mono_pos (ma1 ma2 mc1 mc2 : positive) (ea1 ea2 ec1 ec2 : Z) :
  (val ma1 ea1 <= val ma2 ea2)%R -> (val mc2 ec2 <= val mc1 ec1)%R ->
  SFleb (SFdiv prec emax (S754_finite false ma1 ea1) (S754_finite false mc1 ec1))
        (SFdiv prec emax (S754_finite false ma2 ea2) (S754_finite false mc2 ec2)) = true.
Proof.
  intros Ha Hc. cbn [SFdiv xorb].
  destruct (div_core_cell ma1 mc1 ea1 ec1) as (q1 & e1 & l1 & u1 & -> & Hq1 & He1 & Hc1 & Hv1).
  destruct (div_core_cell ma2 mc2 ea2 ec2) as (q2 & e2 & l2 & u2 & -> & Hq2 & He2 & Hc2 & Hv2).
  apply (bra_mono _ _ _ u1 _ _ _ u2); try assumption.
  rewrite Hv1, Hv2.
  pose proof (val_pos ma1 ea1). pose proof (val_pos mc1 ec1).
  pose proof (val_pos ma2 ea2). pose proof (val_pos mc2 ec2).
  apply Rmult_le_reg_r with (val mc1 ec1 * val mc2 ec2)%R; [nra|].
  replace (val ma1 ea1 / val mc1 ec1 * (val mc1 ec1 * val mc2 ec2))%R
    with (val ma1 ea1 * val mc2 ec2)%R by (field; lra).
  replace (val ma2 ea2 / val mc2 ec2 * (val mc1 ec1 * val mc2 ec2))%R
    with (val ma2 ea2 * val mc1 ec1)%R by (field; lra).
  nra.
Qed.

(** *** Differences *)

Lemma shl_align_spec (m : positive) (e ez : Z) :
  let k := Z.max (e - ez) 0 in
  Z.pos (fst (shl_align m e ez)) = Z.pos m * 2 ^ k /\ snd (shl_align m e ez) = e - k.
Proof.
  cbv zeta. destruct (Z_le_gt_dec ez e) as [Hle|Hgt].
  - split; [rewrite shl_align_fst by lia; f_equal; f_equal; lia|].
    unfold shl_align. destruct (ez - e) as [|d|d] eqn:E; cbn [snd]; lia.
  - unfold shl_align. destruct (ez - e) as [|d|d] eqn:E; cbn [fst snd]; try lia.
    replace (Z.max (e - ez) 0) with 0 by lia. lia.
Qed.

Lemma digits_shift (p : positive) (k : Z) :
  0 <= k -> Zdigits2 (Z.pos p * 2 ^ k) = Z.pos (digits2_pos p) + k.
Proof.
  intros Hk. pose proof (digits_bounds p) as [Hlo Hhi].
  set (d := Z.pos (digits2_pos p)) in *.
  assert (Hd : 1 <= d) by (unfold d; lia).
  assert (H2k : 0 < 2 ^ k) by (apply Z.pow_pos_nonneg; lia).
  assert (Hpos : 0 < Z.pos p * 2 ^ k) by nia.
  destruct (Z.pos p * 2 ^ k) as [|q|q] eqn:E; try lia.
  cbn [Zdigits2]. apply Z.le_antisymm.
  - apply digits_le; [|lia]. rewrite <- E, Z.pow_add_r by lia. nia.
  - replace (d + k) with (d - 1 + k + 1) by lia.
    apply digits_ge; [|lia]. rewrite <- E, Z.pow_add_r by lia. nia.
Qed.

(** What [binary_round] hands to the rounding. *)
Lemma binary_round_cell (p : positive) (e : Z) :
  exists m' e',
    binary_round prec emax false p e = binary_round_aux prec emax false m' e' loc_Exact /\
    0 <= m' /\ e' <= fexp64 (Zdigits2 m' + e') /\
    (IZR m' * pow2 e' = val p e)%R.
Proof.
  unfold binary_round. rewrite fexp_eq.
  set (E := fexp64 (Z.pos (digits2_pos p) + e)).
  destruct (shl_align_spec p e E) as [Hf Hs].
  destruct (shl_align p e E) as [mz ez]. cbn [fst snd] in Hf, Hs.
  set (k := Z.max (e - E) 0) in *.
  exists (Z.pos mz), ez. split; [reflexivity|]. split; [lia|]. split.
  - rewrite Hf, digits_shift by lia. subst ez.
    replace (Z.pos (digits2_pos p) + k + (e - k)) with (Z.pos (digits2_pos p) + e) by lia.
    fold E. lia.
  - rewrite Hf, mult_IZR, pow2_IZR by lia. subst ez. unfold val.
    assert (He : pow2 e = (pow2 k * pow2 (e - k))%R)
      by (rewrite <- pow2_add; f_equal; lia).
    rewrite He. ring.
Qed.

(** Normalising follows the order of the values. *)
Lemma binary_normalize_mono (M1 M2 e1 e2 : Z) :
  0 <= M1 -> 0 <= M2 ->
  (IZR M1 * pow2 e1 <= IZR M2 * pow2 e2)%R ->
  SFleb (binary_normalize prec emax M1 e1 false)
        (binary_normalize prec emax M2 e2 false) = true.
Proof.
  intros H1 H2 Hv.
  destruct M1 as [|p1|p1]; [| |lia]; destruct M2 as [|p2|p2]; try lia; cbn [binary_normalize].
  - reflexivity.
  - destruct (binary_round_cell p2 e2) as (m' & e' & -> & Hm & _ & _).
    apply SFleb_zero_l, bra_nn, Hm.
  - exfalso. pose proof (val_pos p1 e1) as Hp. unfold val in Hp. lra.
  - destruct (binary_round_cell p1 e1) as (m1 & f1 & -> & Hm1 & He1 & Hv1).
    destruct (binary_round_cell p2 e2) as (m2 & f2 & -> & Hm2 & He2 & Hv2).
    apply (bra_mono _ _ _ (IZR m1) _ _ _ (IZR m2)); try assumption; try reflexivity.
    rewrite Hv1, Hv2. exact Hv.
Qed.

(** The difference of two positive floats, the first at least the second. *)
Lemma SFsub_value (ma mc : positive) (ea ec : Z) :
  (val mc ec <= val ma ea)%R ->
  exists M e,
    SFsub prec emax (S754_finite false ma ea) (S754_finite false mc ec)
      = binary_normalize prec emax M e false /\
    0 <= M /\ (IZR M * pow2 e = val ma ea - val mc ec)%R.
Proof.
  intros Hv. cbn [SFsub cond_Zopp].
  set (ez := Z.min ea ec).
  rewrite !shl_align_fst by (unfold ez; lia).
  set (M := Z.pos ma * 2 ^ (ea - ez) - Z.pos mc * 2 ^ (ec - ez)).
  assert (HM : (IZR M * pow2 ez = val ma ea - val mc ec)%R).
  { unfold M, val. rewrite minus_IZR, !mult_IZR, !pow2_IZR by (unfold ez; lia).
    assert (Ha : pow2 ea = (pow2 (ea - ez) * pow2 ez)%R)
      by (rewrite <- pow2_add; f_equal; lia).
    assert (Hc : pow2 ec = (pow2 (ec - ez) * pow2 ez)%R)
      by (rewrite <- pow2_add; f_equal; lia).
    rewrite Ha, Hc. ring. }
  exists M, ez. split; [reflexivity|]. split; [|exact HM].
  apply le_IZR. pose proof (pow2_pos ez). nra.
Qed.

Lemma SFsub_mono_pos (ma1 ma2 mc : positive) (ea1 ea2 ec : Z) :
  (val mc ec <= val ma1 ea1)%R -> (val ma1 ea1 <= val ma2 ea2)%R ->
  SFleb (SFsub prec emax (S754_finite false ma1 ea1) (S754_finite false mc ec))
        (SFsub prec emax (S754_finite false ma2 ea2) (S754_finite false mc ec)) = true.
Proof.
  intros Hc Ha.
  destruct (SFsub_value ma1 mc ea1 ec Hc) as (M1 & e1 & -> & HM1 & Hv1).
  destruct (SFsub_value ma2 mc ea2 ec ltac:(lra)) as (M2 & e2 & -> & HM2 & Hv2).
  apply binary_normalize_mono; try assumption. rewrite Hv1, Hv2. lra.
Qed.

Lemma SFleb_refl_inf : SFleb (S754_infinity false) (S754_infinity false) = true.
Proof. reflexivity. Qed.

Lemma binary_normalize_nn (M e : Z) :
  0 <= M -> is_nn (binary_normalize prec emax M e false) = true.
Proof.
  intros HM. destruct M as [|p|p]; [reflexivity| |lia]. cbn [binary_normalize].
  destruct (binary_round_cell p e) as (m' & e' & -> & Hm & _ & _). now apply bra_nn.
Qed.

Lemma is_nn_num (x : spec_float) : is_nn x = true -> is_num x = true.
Proof. destruct x as [| | |[|] ? ?]; try discriminate; reflexivity. Qed.

(** The product of a positive factor and one from zero on follows the order
    of both, when no product is that of an infinity and a zero. *)
Lemma SFmul_mono (x1 x2 y1 y2 : spec_float) :
  valid_binary x1 = true -> valid_binary x2 = true ->
  valid_binary y1 = true -> valid_binary y2 = true ->
  is_pos x1 = true -> SFleb x1 x2 = true ->
  is_nn y1 = true -> SFleb y1 y2 = true ->
  (is_fin x2 = true \/ is_pos y1 = true) ->
  SFleb (SFmul prec emax x1 y1) (SFmul prec emax x2 y2) = true.
Proof.
  intros Vx1 Vx2 Vy1 Vy2 Px1 Hx Ny1 Hy Hside.
  destruct x1 as [[|]| [|] | |[|] mx1 ex1]; try discriminate;
    destruct x2 as [[|]| [|] | |[|] mx2 ex2]; try discriminate;
    destruct y1 as [sy1| [|] | |[|] my1 ey1]; try discriminate;
    destruct y2 as [sy2| [|] | |[|] my2 ey2]; try discriminate;
    try reflexivity;
    try (destruct Hside as [Hside|Hside]; discriminate);
    try (cbn [SFmul xorb]; apply SFleb_zero_l, bra_nn; lia);
    try (cbn [SFmul xorb]; apply SFleb_inf_r, is_nn_num, bra_nn; lia).
  apply SFmul_mono_pos; try assumption; now apply leb_val.
Qed.

(** The quotient of a finite value from zero on by a positive one follows
    the order of the numerator and the reverse order of the denominator. *)
Lemma SFdiv_mono (a1 a2 c1 c2 : spec_float) :
  valid_binary a1 = true -> valid_binary a2 = true ->
  valid_binary c1 = true -> valid_binary c2 = true ->
  is_nn a1 = true -> is_fin a2 = true -> SFleb a1 a2 = true ->
  is_pos c2 = true -> SFleb c2 c1 = true ->
  SFleb (SFdiv prec emax a1 c1) (SFdiv prec emax a2 c2) = true /\
  is_nn (SFdiv prec emax a1 c1) = true.
Proof.
  intros Va1 Va2 Vc1 Vc2 Na1 Fa2 Ha Pc2 Hc.
  destruct a1 as [sa1| [|] | |[|] ma1 ea1]; try discriminate;
    destruct a2 as [sa2| [|] | |[|] ma2 ea2]; try discriminate;
    destruct c1 as [sc1| [|] | |[|] mc1 ec1]; try discriminate;
    destruct c2 as [sc2| [|] | |[|] mc2 ec2]; try discriminate;
    cbn [SFdiv xorb];
    try (split; reflexivity);
    try (split; [destruct sa1; reflexivity|reflexivity]);
    try (destruct (div_core_cell ma2 mc2 ea2 ec2) as (q & e & l & u & -> & Hq & _);
         split; [apply SFleb_zero_l, bra_nn; exact Hq|reflexivity]).
  destruct (div_core_cell ma1 mc1 ea1 ec1) as (q & e & l & u & Hcore & Hq & _).
  split.
  - apply SFdiv_mono_pos; now apply leb_val.
  - cbn [SFdiv xorb]. rewrite Hcore. now apply bra_nn.
Qed.

(** Taking a positive finite value off two values that are at least as
    large keeps their order. *)
Lemma SFsub_mono (a1 a2 c : spec_float) :
  valid_binary a1 = true -> valid_binary a2 = true -> valid_binary c = true ->
  is_pos c = true -> is_fin c = true ->
  SFleb c a1 = true -> SFleb a1 a2 = true ->
  SFleb (SFsub prec emax a1 c) (SFsub prec emax a2 c) = true /\
  is_nn (SFsub prec emax a1 c) = true.
Proof.
  intros Va1 Va2 Vc Pc Fc Hc Ha.
  destruct c as [sc| [|] | |[|] mc ec]; try discriminate;
    destruct a1 as [sa1| [|] | |[|] ma1 ea1]; try discriminate;
    destruct a2 as [sa2| [|] | |[|] ma2 ea2]; try discriminate;
    try (split; reflexivity).
  - pose proof (leb_val _ _ _ _ Vc Va1 Hc) as Hv.
    destruct (SFsub_value ma1 mc ea1 ec Hv) as (M & e & E & HM & _).
    rewrite E. split; [|now apply binary_normalize_nn].
    cbn [SFsub]. apply SFleb_inf_r, is_nn_num. now apply binary_normalize_nn.
  - pose proof (leb_val _ _ _ _ Vc Va1 Hc) as Hv.
    pose proof (leb_val _ _ _ _ Va1 Va2 Ha) as Hw.
    split; [now apply SFsub_mono_pos|].
    destruct (SFsub_value ma1 mc ea1 ec Hv) as (M & e & -> & HM & _).
    now apply binary_normalize_nn.
Qed.

(** The comparison of two valid positive floats is that of their values. *)
Lemma compare_val (m1 m2 : positive) (e1 e2 : Z) :
  valid_binary (S754_finite false m1 e1) = true ->
  valid_binary (S754_finite false m2 e2) = true ->
  match SFcompare (S754_finite false m1 e1) (S754_finite false m2 e2) with
  | Some Lt => (val m1 e1 < val m2 e2)%R
  | Some Eq => m1 = m2 /\ e1 = e2
  | Some Gt => (val m2 e2 < val m1 e1)%R
  | None => False
  end.
Proof.
  intros V1 V2. apply valid_digits in V1, V2. cbv zeta in V1, V2.
  assert (Hbin : forall (ma mb : positive) (ea eb : Z),
            Z.pos (digits2_pos ma) <= 53 -> Z.pos (digits2_pos mb) = 53 -> ea < eb ->
            (val ma ea < val mb eb)%R).
  { intros ma mb ea eb Ha Hb Hlt. unfold val.
    pose proof (digits_bounds ma) as [_ H1]. pose proof (digits_bounds mb) as [H2 _].
    rewrite Hb in H2.
    assert (H1' : Z.pos ma < 2 ^ 53).
    { eapply Z.lt_le_trans; [exact H1|]. apply Z.pow_le_mono_r; lia. }
    apply IZR_lt in H1'. apply IZR_le in H2.
    rewrite pow2_IZR in H1', H2 by lia.
    assert (H : (pow2 (53 + ea) <= pow2 (53 - 1 + eb))%R) by (apply pow2_le; lia).
    rewrite !pow2_add in H.
    pose proof (pow2_pos ea). pose proof (pow2_pos eb). nra. }
  cbn [SFcompare].
  destruct (Z.compare_spec e1 e2) as [->|Hlt|Hgt].
  - rewrite Pos.compare_cont_spec.
    unfold val. pose proof (pow2_pos e2).
    destruct (Pos.compare_spec m1 m2) as [->|L|G]; cbn [Pos.switch_Eq].
    + now split.
    + assert (IZR (Z.pos m1) < IZR (Z.pos m2))%R by (apply IZR_lt; lia). nra.
    + assert (IZR (Z.pos m2) < IZR (Z.pos m1))%R by (apply IZR_lt; lia). nra.
  - apply Hbin; lia.
  - apply Hbin; lia.
Qed.

Lemma val_leb (m1 m2 : positive) (e1 e2 : Z) :
  valid_binary (S754_finite false m1 e1) = true ->
  valid_binary (S754_finite false m2 e2) = true ->
  (val m1 e1 <= val m2 e2)%R ->
  SFleb (S754_finite false m1 e1) (S754_finite false m2 e2) = true.
Proof.
  intros V1 V2 Hv. pose proof (compare_val m1 m2 e1 e2 V1 V2) as H. unfold SFleb.
  destruct (SFcompare _ _) as [[| |]|]; try reflexivity; try contradiction. lra.
Qed.

(** The order of the floats from zero on is transitive. *)
Lemma SFleb_trans_nn (x y z : spec_float) :
  valid_binary x = true -> valid_binary y = true -> valid_binary z = true ->
  is_nn x = true -> SFleb x y = true -> SFleb y z = true -> SFleb x z = true.
Proof.
  intros Vx Vy Vz Nx Hxy Hyz.
  destruct x as [sx| [|] | |[|] mx ex]; try discriminate;
    destruct y as [sy| [|] | |[|] my ey]; try discriminate;
    destruct z as [sz| [|] | |[|] mz ez]; try discriminate; try reflexivity.
  apply val_leb; try assumption.
  apply leb_val in Hxy, Hyz; try assumption. lra.
Qed.

(** Two numbers compare one way or the other. *)
Lemma SFltb_false_leb (x y : spec_float) :
  valid_binary x = true -> valid_binary y = true ->
  is_nn x = true -> is_nn y = true ->
  SFltb x y = false -> SFleb y x = true.
Proof.
  intros Vx Vy Nx Ny.
  destruct x as [sx| [|] | |[|] mx ex]; try discriminate;
    destruct y as [sy| [|] | |[|] my ey]; try discriminate; try reflexivity;
    try discriminate.
  intros H. apply val_leb; try assumption.
  pose proof (compare_val mx my ex ey Vx Vy) as Hc. unfold SFltb in H.
  destruct (SFcompare _ _) as [[| |]|]; try discriminate; try contradiction.
  - destruct Hc as [-> ->]. lra.
  - lra.
Qed.

Lemma SFltb_leb_false (x y : spec_float) :
  valid_binary x = true -> valid_binary y = true ->
  is_nn x = true -> is_nn y = true ->
  SFltb x y = true -> SFleb y x = false.
Proof.
  intros Vx Vy Nx Ny.
  destruct x as [sx| [|] | |[|] mx ex]; try discriminate;
    destruct y as [sy| [|] | |[|] my ey]; try discriminate; try reflexivity;
    try discriminate.
  intros H.
  pose proof (compare_val mx my ex ey Vx Vy) as Hc. unfold SFltb in H.
  destruct (SFcompare (S754_finite false mx ex) _) as [[| |]|]; try discriminate.
  pose proof (compare_val my mx ey ex Vy Vx) as Hd. unfold SFleb.
  destruct (SFcompare _ _) as [[| |]|]; try reflexivity; try contradiction.
  - destruct Hd as [-> ->]. lra.
  - lra.
Qed.

(** A number from zero on below a finite one is finite. *)
Lemma SFleb_fin (x y : spec_float) :
  is_nn x = true -> is_fin y = true -> SFleb x y = true -> is_fin x = true.
Proof.
  destruct x as [sx| [|] | |[|] mx ex]; try discriminate;
    destruct y as [sy| [|] | |[|] my ey]; try discriminate; reflexivity.
Qed.

(** *** Sums *)

Lemma SFadd_value (ma mb : positive) (ea eb : Z) :
  exists M e,
    SFadd prec emax (S754_finite false ma ea) (S754_finite false mb eb)
      = binary_normalize prec emax M e false /\
    0 <= M /\ (IZR M * pow2 e = val ma ea + val mb eb)%R.
Proof.
  cbn [SFadd cond_Zopp].
  set (ez := Z.min ea eb).
  rewrite !shl_align_fst by (unfold ez; lia).
  set (M := Z.pos ma * 2 ^ (ea - ez) + Z.pos mb * 2 ^ (eb - ez)).
  exists M, ez. split; [reflexivity|]. split.
  - assert (0 < 2 ^ (ea - ez)) by (apply Z.pow_pos_nonneg; unfold ez; lia).
    assert (0 < 2 ^ (eb - ez)) by (apply Z.pow_pos_nonneg; unfold ez; lia).
    unfold M. nia.
  - unfold M, val. rewrite plus_IZR, !mult_IZR, !pow2_IZR by (unfold ez; lia).
    assert (Ha : pow2 ea = (pow2 (ea - ez) * pow2 ez)%R)
      by (rewrite <- pow2_add; f_equal; lia).
    assert (Hb : pow2 eb = (pow2 (eb - ez) * pow2 ez)%R)
      by (rewrite <- pow2_add; f_equal; lia).
    rewrite Ha, Hb. ring.
Qed.

(** A valid positive float is its own rounding. *)
Lemma valid_normalize (m : positive) (e : Z) :
  valid_binary (S754_finite false m e) = true ->
  S754_finite false m e = binary_normalize prec emax (Z.pos m) e false.
Proof.
  intros V. apply valid_finite in V. destruct V as [Hf He].
  cbn [binary_normalize]. rewrite binary_round_no_shift by lia.
  rewrite bra_canonical by exact Hf.
  destruct (Z.leb_spec e 971); [reflexivity|lia].
Qed.

Lemma nnval_nonneg (x : spec_float) : (0 <= nnval x)%R.
Proof.
  destruct x as [| | |[|] m e]; cbn [nnval]; try lra. pose proof (val_pos m e). lra.
Qed.

Lemma leb_nnval (x y : spec_float) :
  valid_binary x = true -> valid_binary y = true ->
  is_nn x = true -> is_fin y = true -> SFleb x y = true ->
  (nnval x <= nnval y)%R.
Proof.
  intros Vx Vy Nx Fy H.
  destruct x as [sx| [|] | |[|] mx ex]; try discriminate;
    destruct y as [sy| [|] | |[|] my ey]; try discriminate; cbn [nnval]; try lra.
  - pose proof (val_pos my ey). lra.
  - now apply leb_val.
Qed.

(** The sum of two finite floats from zero on: a zero, or the rounding of
    the sum of their values. *)
Lemma SFadd_nn_value (a b : spec_float) :
  valid_binary a = true -> valid_binary b = true ->
  is_nn a = true -> is_fin a = true -> is_nn b = true -> is_fin b = true ->
  (exists s, SFadd prec emax a b = S754_zero s /\ (nnval a + nnval b = 0)%R) \/
  (exists M e, 0 < M /\ (IZR M * pow2 e = nnval a + nnval b)%R /\
     SFadd prec emax a b = binary_normalize prec emax M e false).
Proof.
  intros Va Vb Na Fa Nb Fb.
  destruct a as [sa| [|] | |[|] ma ea]; try discriminate;
    destruct b as [sb| [|] | |[|] mb eb]; try discriminate.
  - left. cbn [SFadd nnval]. destruct sa, sb; eexists; (split; [reflexivity|lra]).
  - right. exists (Z.pos mb), eb. cbn [SFadd nnval].
    split; [lia|]. split; [unfold val; lra|]. now apply valid_normalize.
  - right. exists (Z.pos ma), ea. cbn [SFadd nnval].
    split; [lia|]. split; [unfold val; lra|]. now apply valid_normalize.
  - right. destruct (SFadd_value ma mb ea eb) as (M & e & E & HM & Hv).
    exists M, e. cbn [nnval]. split; [|split; assumption].
    destruct (Z.eq_dec M 0) as [->|]; [|lia].
    exfalso. pose proof (val_pos ma ea). pose proof (val_pos mb eb). lra.
Qed.

(** The sum of two floats from zero on follows the order of both. *)
Lemma SFadd_mono (a1 a2 b1 b2 : spec_float) :
  valid_binary a1 = true -> valid_binary a2 = true ->
  valid_binary b1 = true -> valid_binary b2 = true ->
  is_nn a1 = true -> SFleb a1 a2 = true ->
  is_nn b1 = true -> SFleb b1 b2 = true ->
  SFleb (SFadd prec emax a1 b1) (SFadd prec emax a2 b2) = true /\
  is_nn (SFadd prec emax a1 b1) = true.
Proof.
  intros Va1 Va2 Vb1 Vb2 Na1 Ha Nb1 Hb.
  pose proof (SFleb_nn _ _ Na1 Ha) as Na2. pose proof (SFleb_nn _ _ Nb1 Hb) as Nb2.
  assert (Hnn : forall a b, valid_binary a = true -> valid_binary b = true ->
            is_nn a = true -> is_nn b = true -> is_nn (SFadd prec emax a b) = true).
  { intros a b Va Vb Na Nb.
    destruct (is_fin a) eqn:Fa; [destruct (is_fin b) eqn:Fb|].
    - destruct (SFadd_nn_value a b Va Vb Na Fa Nb Fb) as [(s & -> & _)|(M & e & HM & _ & ->)];
        [reflexivity|apply binary_normalize_nn; lia].
    - destruct a as [sa| [|] | |[|] ma ea]; try discriminate;
        destruct b as [sb| [|] | |[|] mb eb]; try discriminate; reflexivity.
    - destruct a as [sa| [|] | |[|] ma ea]; try discriminate;
        destruct b as [sb| [|] | |[|] mb eb]; try discriminate; reflexivity. }
  split; [|now apply Hnn].
  destruct (is_fin a2 && is_fin b2) eqn:F2.
  - apply andb_true_iff in F2. destruct F2 as [Fa2 Fb2].
    pose proof (SFleb_fin _ _ Na1 Fa2 Ha) as Fa1.
    pose proof (SFleb_fin _ _ Nb1 Fb2 Hb) as Fb1.
    pose proof (leb_nnval _ _ Va1 Va2 Na1 Fa2 Ha) as Hva.
    pose proof (leb_nnval _ _ Vb1 Vb2 Nb1 Fb2 Hb) as Hvb.
    destruct (SFadd_nn_value a1 b1 Va1 Vb1 Na1 Fa1 Nb1 Fb1)
      as [(s1 & -> & _)|(M1 & e1 & HM1 & Hv1 & ->)].
    + apply SFleb_zero_l. now apply Hnn.
    + destruct (SFadd_nn_value a2 b2 Va2 Vb2 Na2 Fa2 Nb2 Fb2)
        as [(s2 & _ & Hz)|(M2 & e2 & HM2 & Hv2 & ->)].
      * exfalso. assert (0 < IZR M1 * pow2 e1)%R.
        { apply Rmult_lt_0_compat; [apply IZR_lt; lia|apply pow2_pos]. }
        lra.
      * apply binary_normalize_mono; try lia. rewrite Hv1, Hv2. lra.
  - assert (E : SFadd prec emax a2 b2 = S754_infinity false).
    { destruct a2 as [sa| [|] | |[|] ma ea]; try discriminate;
        destruct b2 as [sb| [|] | |[|] mb eb]; try discriminate; reflexivity. }
    rewrite E. apply SFleb_inf_r, is_nn_num. now apply Hnn.
Qed.
End SFOrder.

(** *** The order of binary64 results *)

Module B64Order.
Import SF SFOrder.
Open Scope float_scope.

Lemma leb_SF (x y : float) : (x <=? y) = SFleb (Prim2SF x) (Prim2SF y).
Proof. apply leb_spec. Qed.

(** [x * y <= x' * y'] for [0 < x <= x'] and [0 <= y <= y'], when no product
    is that of an infinity and a zero. *)
Lemma mul_mono (x1 x2 y1 y2 : float) :
  (0 <? x1) = true -> (x1 <=? x2) = true ->
  (0 <=? y1) = true -> (y1 <=? y2) = true ->
  (is_finite x2 = true \/ (0 <? y1) = true) ->
  (x1 * y1 <=? x2 * y2) = true.
Proof.
  intros Px1 Hx Ny1 Hy Hside.
  apply B64Facts.leb_zero_nn in Ny1.
  rewrite leb_SF in *. rewrite !mul_spec.
  apply SFmul_mono; try apply Prim2SF_valid; try assumption.
  - now apply B64Facts.ltb_zero_pos.
  - destruct Hside as [H|H]; [left; now apply B64Facts.is_finite_fin|
                               right; now apply B64Facts.ltb_zero_pos].
Qed.

(** [a / c <= a' / c'] for finite [0 <= a <= a'] and [0 < c' <= c]. *)
Lemma div_mono (a1 a2 c1 c2 : float) :
  (0 <=? a1) = true -> is_finite a2 = true -> (a1 <=? a2) = true ->
  (0 <? c2) = true -> (c2 <=? c1) = true ->
  (a1 / c1 <=? a2 / c2) = true /\ (0 <=? a1 / c1) = true.
Proof.
  intros Na1 Fa2 Ha Pc2 Hc.
  assert (H : SFleb (Prim2SF (a1 / c1)) (Prim2SF (a2 / c2)) = true /\
              is_nn (Prim2SF (a1 / c1)) = true).
  { rewrite leb_SF in Ha, Hc. rewrite !div_spec.
    apply SFdiv_mono; try apply Prim2SF_valid; try assumption.
    - now apply B64Facts.leb_zero_nn.
    - now apply B64Facts.is_finite_fin.
    - now apply B64Facts.ltb_zero_pos. }
  destruct H as [H1 H2]. split; [now rewrite leb_SF|now apply B64Facts.leb_zero_nn].
Qed.

(** [a - c <= a' - c] for a finite [c > 0] and [c <= a <= a']. *)
Lemma sub_mono (a1 a2 c : float) :
  (0 <? c) = true -> is_finite c = true ->
  (c <=? a1) = true -> (a1 <=? a2) = true ->
  (a1 - c <=? a2 - c) = true /\ (0 <=? a1 - c) = true.
Proof.
  intros Pc Fc Hc Ha.
  assert (H : SFleb (Prim2SF (a1 - c)) (Prim2SF (a2 - c)) = true /\
              is_nn (Prim2SF (a1 - c)) = true).
  { rewrite leb_SF in Ha, Hc. rewrite !sub_spec.
    apply SFsub_mono; try apply Prim2SF_valid; try assumption.
    - now apply B64Facts.ltb_zero_pos.
    - now apply B64Facts.is_finite_fin. }
  destruct H as [H1 H2]. split; [now rewrite leb_SF|now apply B64Facts.leb_zero_nn].
Qed.

Lemma leb_num_r (x y : float) : (x <=? y) = true -> is_nan y = false.
Proof.
  rewrite leb_SF. intros H. apply B64Facts.is_nan_num.
  destruct (Prim2SF x), (Prim2SF y); try discriminate; reflexivity.
Qed.

Lemma leb_num_l (x y : float) : (x <=? y) = true -> is_nan x = false.
Proof.
  rewrite leb_SF. intros H. apply B64Facts.is_nan_num.
  destruct (Prim2SF x), (Prim2SF y); try discriminate; reflexivity.
Qed.

Lemma leb_refl_num (x : float) : is_nan x = false -> (x <=? x) = true.
Proof.
  intros H. apply B64Facts.is_nan_num in H. rewrite leb_SF.
  destruct (Prim2SF x) as [s|s| |s m e]; try discriminate.
  - reflexivity.
  - destruct s; reflexivity.
  - unfold SFleb. now rewrite SFFacts.SFcompare_refl_finite.
Qed.

Lemma pos_ltb (x : float) : is_pos (Prim2SF x) = true -> (0 <? x) = true.
Proof.
  intros H. rewrite ltb_spec. eval_sf 0.
  destruct (Prim2SF x) as [s|s| |s m e]; try discriminate; destruct s; try discriminate;
    reflexivity.
Qed.

Lemma pos_leb (x y : float) : (0 <? x) = true -> (x <=? y) = true -> (0 <? y) = true.
Proof.
  intros Hx Hxy. apply B64Facts.ltb_zero_pos in Hx. rewrite leb_SF in Hxy.
  apply pos_ltb.
  destruct (Prim2SF x) as [s|s| |s m e]; try discriminate; destruct s; try discriminate;
    destruct (Prim2SF y) as [s'|s'| |s' m' e']; try discriminate;
    destruct s'; try discriminate; reflexivity.
Qed.

Lemma ltb_leb (x y : float) : (x <? y) = true -> (x <=? y) = true.
Proof.
  rewrite ltb_spec, leb_SF. unfold SFltb, SFleb.
  destruct (SFcompare _ _) as [[| |]|]; try discriminate; reflexivity.
Qed.

(** [a + b <= a' + b'] for [0 <= a <= a'] and [0 <= b <= b']. *)
Lemma add_mono (a1 a2 b1 b2 : float) :
  (0 <=? a1) = true -> (a1 <=? a2) = true ->
  (0 <=? b1) = true -> (b1 <=? b2) = true ->
  (a1 + b1 <=? a2 + b2) = true /\ (0 <=? a1 + b1) = true.
Proof.
  intros Na Ha Nb Hb.
  apply B64Facts.leb_zero_nn in Na, Nb. rewrite leb_SF in Ha, Hb.
  assert (H : SFleb (Prim2SF (a1 + b1)) (Prim2SF (a2 + b2)) = true /\
              is_nn (Prim2SF (a1 + b1)) = true).
  { rewrite !add_spec. apply SFadd_mono; try apply Prim2SF_valid; assumption. }
  destruct H as [H1 H2]. split; [now rewrite leb_SF|now apply B64Facts.leb_zero_nn].
Qed.

Lemma leb_trans_nn (x y z : float) :
  (0 <=? x) = true -> (x <=? y) = true -> (y <=? z) = true -> (x <=? z) = true.
Proof.
  intros Nx. apply B64Facts.leb_zero_nn in Nx. rewrite !leb_SF.
  apply SFleb_trans_nn; try apply Prim2SF_valid; assumption.
Qed.

Lemma leb_nn (x y : float) : (0 <=? x) = true -> (x <=? y) = true -> (0 <=? y) = true.
Proof.
  intros Nx H. apply B64Facts.leb_zero_nn. apply B64Facts.leb_zero_nn in Nx.
  rewrite leb_SF in H. exact (SFFacts.SFleb_nn _ _ Nx H).
Qed.

Lemma ltb_false_leb (x y : float) :
  (0 <=? x) = true -> (0 <=? y) = true -> (x <? y) = false -> (y <=? x) = true.
Proof.
  intros Nx Ny. apply B64Facts.leb_zero_nn in Nx, Ny. rewrite ltb_spec, leb_SF.
  apply SFltb_false_leb; try apply Prim2SF_valid; assumption.
Qed.

Lemma ltb_leb_false (x y : float) :
  (0 <=? x) = true -> (0 <=? y) = true -> (x <? y) = true -> (y <=? x) = false.
Proof.
  intros Nx Ny. apply B64Facts.leb_zero_nn in Nx, Ny. rewrite ltb_spec, leb_SF.
  apply SFltb_leb_false; try apply Prim2SF_valid; assumption.
Qed.

Lemma leb_finite (x y : float) :
  (0 <=? x) = true -> (x <=? y) = true -> is_finite y = true -> is_finite x = true.
Proof.
  intros Nx H Fy. apply B64Facts.leb_zero_nn in Nx. apply B64Facts.is_finite_fin in Fy.
  rewrite leb_SF in H. apply B64Facts.is_finite_fin. exact (SFleb_fin _ _ Nx Fy H).
Qed.
End B64Order.

(** *** The order of the propellant *)

Module PropellantOrder.
Import SF B64Order.
Open Scope float_scope.

(** What [propellant_per_launch] computes for [isp > 0]. *)
Lemma propellant_b64 (libm_exp : float -> float) (dv isp : float) :
  (0 <? isp) = true ->
  fuel_calc.propellant_per_launch (mexp := b64_exp libm_exp) dv isp =
    (ratio <- B64.math_exp libm_exp (dv / (isp * fuel_calc.G0)) ;;
     Ok (125 * (ratio - 1)))%py.
Proof.
  intros Hisp. unfold fuel_calc.propellant_per_launch, truediv.
  cbn [eqb mul div b64].
  replace (@lit float b64 0 0) with 0 by reflexivity.
  rewrite (B64Facts.eqb_zero_of_pos _ (isp_G0_pos isp Hisp)).
  cbn [bind math_exp b64_exp].
  destruct (B64.math_exp libm_exp _) as [ratio|err]; [|reflexivity].
  cbn [bind fuel_calc.apply_cap fuel_calc.MASS_RATIO_CAP].
  unfold fuel_calc.PAYLOAD_TONS. cbn [mul sub b64].
  replace (@lit float b64 125 0) with 125 by (vm_compute; reflexivity).
  replace (@lit float b64 1 0) with 1 by (vm_compute; reflexivity).
  reflexivity.
Qed.

(** The wrapper of [exp] on an argument from zero on: the value, or an
    [OverflowError]. *)
Lemma math_exp_from_zero (libm_exp : float -> float) (q : float) :
  monotone_from_zero libm_exp -> libm_exp 0 = 1 -> (0 <=? q) = true ->
  (1 <=? libm_exp q) = true /\
  (B64.math_exp libm_exp q = Ok (libm_exp q) \/
   B64.math_exp libm_exp q = Raise OverflowError).
Proof.
  intros Hmono H0 Hq.
  assert (H1 : (1 <=? libm_exp q) = true).
  { rewrite <- H0. apply Hmono; [reflexivity|exact Hq]. }
  split; [exact H1|].
  unfold B64.math_exp. rewrite (leb_num_r _ _ H1). cbn [andb].
  destruct (is_infinity (libm_exp q) && is_finite q); [now right|now left].
Qed.

(** From the mass ratio to the propellant: [125 * (ratio - 1)] follows the
    order of the ratios, from 1 on. *)
Lemma payload_mono (r1 r2 : float) :
  (1 <=? r1) = true -> (r1 <=? r2) = true ->
  (125 * (r1 - 1) <=? 125 * (r2 - 1)) = true /\ (0 <=? 125 * (r1 - 1)) = true.
Proof.
  intros H1 H12.
  destruct (sub_mono r1 r2 1 eq_refl eq_refl H1 H12) as [Hs Hs0].
  split.
  - apply mul_mono; try reflexivity; try assumption. now left.
  - change 0 with (125 * 0) at 1.
    apply mul_mono; try reflexivity; try assumption. now left.
Qed.

(** The quotients in order give the results in order. *)
Lemma propellant_of_quotients (libm_exp : float -> float) (q1 q2 : float) :
  monotone_from_zero libm_exp -> libm_exp 0 = 1 ->
  (0 <=? q1) = true -> (q1 <=? q2) = true ->
  forall c1 c2 : result float,
    c1 = (ratio <- B64.math_exp libm_exp q1 ;; Ok (125 * (ratio - 1)))%py ->
    c2 = (ratio <- B64.math_exp libm_exp q2 ;; Ok (125 * (ratio - 1)))%py ->
    (forall p1 p2, c1 = Ok p1 -> c2 = Ok p2 ->
       (p1 <=? p2) = true /\ (0 <=? p1) = true) /\
    (forall e, c1 = Raise e \/ c2 = Raise e -> e = OverflowError).
Proof.
  intros Hmono H0 Hq1 Hq12 c1 c2 -> ->.
  assert (Hq2 : (0 <=? q2) = true).
  { rewrite leb_SF in *. revert Hq1 Hq12. eval_sf 0.
    destruct (Prim2SF q1) as [s|s| |s m e]; try discriminate; destruct s; try discriminate;
      destruct (Prim2SF q2) as [s'|s'| |s' m' e']; try discriminate;
      destruct s'; try discriminate; reflexivity. }
  destruct (math_exp_from_zero libm_exp q1 Hmono H0 Hq1) as [Hr1 E1].
  destruct (math_exp_from_zero libm_exp q2 Hmono H0 Hq2) as [Hr2 E2].
  pose proof (Hmono q1 q2 Hq1 Hq12) as Hr12.
  split.
  - intros p1 p2.
    destruct E1 as [-> | ->]; [|discriminate]. destruct E2 as [-> | ->]; [|discriminate].
    cbn [bind]. intros [= <-] [= <-]. now apply payload_mono.
  - intros e [H|H]; [destruct E1 as [E|E]|destruct E2 as [E|E]];
      rewrite E in H; cbn [bind] in H; congruence.
Qed.

Lemma divisor_facts (isp : float) :
  (0 <? isp) = true ->
  (0 <? isp * fuel_calc.G0) = true /\
  (isp * fuel_calc.G0 <=? isp * fuel_calc.G0) = true.
Proof.
  intros Hisp. pose proof (pos_ltb _ (isp_G0_pos isp Hisp)) as Hc.
  split; [exact Hc|]. apply leb_refl_num, (leb_num_r 0). now apply ltb_leb.
Qed.

(** In binary64 the result does not decrease with the delta-v, from zero on. *)
Lemma propellant_b64_dv (libm_exp : float -> float) (isp dv1 dv2 : float) :
  monotone_from_zero libm_exp -> libm_exp 0 = 1 ->
  (0 <? isp) = true ->
  (0 <=? dv1) = true -> (dv1 <=? dv2) = true -> is_finite dv2 = true ->
  (forall p1 p2,
     fuel_calc.propellant_per_launch (mexp := b64_exp libm_exp) dv1 isp = Ok p1 ->
     fuel_calc.propellant_per_launch (mexp := b64_exp libm_exp) dv2 isp = Ok p2 ->
     (p1 <=? p2) = true /\ (0 <=? p1) = true) /\
  (forall e,
     fuel_calc.propellant_per_launch (mexp := b64_exp libm_exp) dv1 isp = Raise e \/
     fuel_calc.propellant_per_launch (mexp := b64_exp libm_exp) dv2 isp = Raise e ->
     e = OverflowError).
Proof.
  intros Hmono Hexp0 Hisp H1 H12 Hfin.
  destruct (divisor_facts isp Hisp) as [Hc Hcc].
  destruct (div_mono dv1 dv2 _ _ H1 Hfin H12 Hc Hcc) as [Hq Hq0].
  apply (propellant_of_quotients libm_exp _ _ Hmono Hexp0 Hq0 Hq);
    now apply propellant_b64.
Qed.

(** In binary64 the result does not increase with the specific impulse. *)
Lemma propellant_b64_isp (libm_exp : float -> float) (dv isp1 isp2 : float) :
  monotone_from_zero libm_exp -> libm_exp 0 = 1 ->
  (0 <=? dv) = true -> is_finite dv = true ->
  (0 <? isp1) = true -> (isp1 <=? isp2) = true ->
  (forall p1 p2,
     fuel_calc.propellant_per_launch (mexp := b64_exp libm_exp) dv isp1 = Ok p1 ->
     fuel_calc.propellant_per_launch (mexp := b64_exp libm_exp) dv isp2 = Ok p2 ->
     (p2 <=? p1) = true /\ (0 <=? p2) = true) /\
  (forall e,
     fuel_calc.propellant_per_launch (mexp := b64_exp libm_exp) dv isp1 = Raise e \/
     fuel_calc.propellant_per_launch (mexp := b64_exp libm_exp) dv isp2 = Raise e ->
     e = OverflowError).
Proof.
  intros Hmono Hexp0 Hdv Hfin Hisp1 H12.
  pose proof (pos_leb _ _ Hisp1 H12) as Hisp2.
  destruct (divisor_facts isp1 Hisp1) as [Hc1 _].
  assert (Hc12 : (isp1 * fuel_calc.G0 <=? isp2 * fuel_calc.G0) = true).
  { apply mul_mono; try assumption; try (vm_compute; reflexivity).
    right. vm_compute. reflexivity. }
  assert (Hdd : (dv <=? dv) = true) by (apply leb_refl_num, (leb_num_r 0), Hdv).
  destruct (div_mono dv dv _ _ Hdv Hfin Hdd Hc1 Hc12) as [Hq Hq0].
  destruct (propellant_of_quotients libm_exp _ _ Hmono Hexp0 Hq0 Hq
              _ _ (propellant_b64 libm_exp dv isp2 Hisp2)
              (propellant_b64 libm_exp dv isp1 Hisp1)) as [Hord Herr].
  split.
  - intros p1 p2 E1 E2. now apply Hord.
  - intros e [H|H]; apply Herr; [now right|now left].
Qed.
End PropellantOrder.

(** *** The stand-in for [exp] *)

Module StandIn.
Import SF SFFacts SFOrder B64Order.
Open Scope float_scope.

Lemma SFmul_comm (x y : spec_float) : SFmul prec emax x y = SFmul prec emax y x.
Proof.
  destruct x as [sx|sx| |sx mx ex], y as [sy|sy| |sy my ey]; cbn [SFmul];
    rewrite ?(xorb_comm sx sy); try reflexivity.
  now rewrite Pos.mul_comm, Z.add_comm.
Qed.

Lemma mul_comm (x y : float) : x * y = y * x.
Proof. apply Prim2SF_inj. rewrite !mul_spec. apply SFmul_comm. Qed.

Lemma one_le_pos (a : float) : (1 <=? a) = true -> (0 <? a) = true.
Proof. apply pos_leb. reflexivity. Qed.

Lemma one_le_nn (a : float) : (1 <=? a) = true -> (0 <=? a) = true.
Proof. intros H. now apply ltb_leb, one_le_pos. Qed.

(** The product of a number from zero on and a finite positive one. *)
Lemma mul_nn_pos (d x : float) :
  (0 <=? d) = true -> (0 <? x) = true -> is_finite x = true -> (0 <=? d * x) = true.
Proof.
  intros Nd Px Fx.
  apply B64Facts.leb_zero_nn in Nd. apply B64Facts.ltb_zero_pos in Px.
  apply B64Facts.is_finite_fin in Fx. apply B64Facts.leb_zero_nn. rewrite mul_spec.
  destruct (Prim2SF d) as [sd| [|] | |[|] md ed]; try discriminate;
    destruct (Prim2SF x) as [sx| [|] | |[|] mx ex]; try discriminate;
    cbn [SFmul xorb]; try reflexivity.
  apply bra_nn. lia.
Qed.

(** One step of Horner's rule. *)
Lemma horner_step (y1 y2 k acc1 acc2 : float) :
  (0 <? k) = true -> is_finite k = true ->
  (0 <=? y1) = true -> (y1 <=? y2) = true -> is_finite y2 = true ->
  (1 <=? acc1) = true -> (acc1 <=? acc2) = true -> is_finite acc2 = true ->
  (1 + y1 / k * acc1 <=? 1 + y2 / k * acc2) = true /\
  (1 <=? 1 + y1 / k * acc1) = true.
Proof.
  intros Pk Fk Ny Hy Fy H1 Hacc Facc.
  assert (Hkk : (k <=? k) = true) by (apply leb_refl_num, (leb_num_r 0); now apply ltb_leb).
  destruct (div_mono y1 y2 k k Ny Fy Hy Pk Hkk) as [Hd Hd0].
  pose proof (one_le_pos _ H1) as Pacc1.
  pose proof (leb_finite _ _ (one_le_nn _ H1) Hacc Facc) as Facc1.
  assert (Hm : (y1 / k * acc1 <=? y2 / k * acc2) = true).
  { rewrite (mul_comm (y1 / k)), (mul_comm (y2 / k)).
    apply mul_mono; try assumption. now left. }
  pose proof (mul_nn_pos _ _ Hd0 Pacc1 Facc1) as Hm0.
  split.
  - now apply add_mono.
  - change 1 with (1 + 0) at 1. apply add_mono; try reflexivity; assumption.
Qed.

(** Horner's rule follows the order of its argument, from zero on. *)
Lemma horner_mono (ks : list float) (y1 y2 : float) :
  Forall (fun k => (0 <? k) = true /\ is_finite k = true) ks ->
  (0 <=? y1) = true -> (y1 <=? y2) = true -> is_finite y2 = true ->
  horner_finite y2 ks ->
  (horner y1 ks <=? horner y2 ks) = true /\ (1 <=? horner y1 ks) = true.
Proof.
  intros Hks Ny Hy Fy. induction Hks as [|k ks [Pk Fk] Hks IH]; intros Hfin.
  - split; reflexivity.
  - destruct Hfin as [Facc Hfin]. destruct (IH Hfin) as [Hacc H1].
    cbn [horner fold_right]. fold (horner y1 ks). fold (horner y2 ks).
    now apply horner_step.
Qed.

Lemma horner_finite_below (ks : list float) (y ymax : float) :
  Forall (fun k => (0 <? k) = true /\ is_finite k = true) ks ->
  (0 <=? y) = true -> (y <=? ymax) = true -> is_finite ymax = true ->
  horner_finite ymax ks -> horner_finite y ks.
Proof.
  intros Hks Ny Hy Fy. induction Hks as [|k ks Hk Hks IH]; intros Hfin; [exact I|].
  destruct Hfin as [Facc Hfin]. split; [|now apply IH].
  destruct (horner_mono ks y ymax Hks Ny Hy Fy Hfin) as [Hle H1].
  exact (leb_finite _ _ (one_le_nn _ H1) Hle Facc).
Qed.

(** Squaring follows the order, from 1 on. *)
Lemma squares_mono (n : nat) (r1 r2 : float) :
  (1 <=? r1) = true -> (r1 <=? r2) = true ->
  (Nat.iter n (fun r => r * r) r1 <=? Nat.iter n (fun r => r * r) r2) = true /\
  (1 <=? Nat.iter n (fun r => r * r) r1) = true.
Proof.
  intros H1 H12. induction n as [|n [IH IH1]]; [now split|].
  cbn [Nat.iter]. pose proof (one_le_pos _ IH1) as P. split.
  - apply mul_mono; try assumption; [now apply ltb_leb|now right].
  - change 1 with (1 * 1) at 1.
    apply mul_mono; try reflexivity; try assumption. now right.
Qed.

Lemma nn_not_below (x : float) : (0 <=? x) = true -> (x <? -746) = false.
Proof.
  intros H. apply B64Facts.leb_zero_nn in H. rewrite ltb_spec. eval_sf (-746).
  destruct (Prim2SF x) as [s| [|] | |[|] m e]; try discriminate; reflexivity.
Qed.

Lemma divisors_positive :
  Forall (fun k => (0 <? k) = true /\ is_finite k = true)
         [1; 2; 3; 4; 5; 6; 7; 8; 9; 10; 11; 12; 13; 14].
Proof. repeat constructor. Qed.

Lemma horner_finite_top :
  horner_finite (710 / 1024) [1; 2; 3; 4; 5; 6; 7; 8; 9; 10; 11; 12; 13; 14].
Proof. cbn [horner_finite]. repeat split; vm_compute; reflexivity. Qed.

(** The stand-in below its upper threshold. *)
Lemma stand_in_body (x : float) :
  (0 <=? x) = true -> (710 <? x) = false ->
  exp_stand_in x =
    Nat.iter 10 (fun r => r * r)
      (horner (x / 1024) [1; 2; 3; 4; 5; 6; 7; 8; 9; 10; 11; 12; 13; 14]).
Proof.
  intros Nx Hx. unfold exp_stand_in. rewrite (nn_not_below x Nx), Hx. reflexivity.
Qed.

Lemma scaled_argument (x y : float) :
  (0 <=? x) = true -> (x <=? y) = true -> (710 <? y) = false ->
  (0 <=? x / 1024) = true /\ (x / 1024 <=? y / 1024) = true /\
  (y / 1024 <=? 710 / 1024) = true /\ is_finite (y / 1024) = true.
Proof.
  intros Nx Hxy Hy.
  pose proof (leb_nn _ _ Nx Hxy) as Ny.
  pose proof (ltb_false_leb 710 y eq_refl Ny Hy) as Hy710.
  pose proof (leb_finite _ _ Ny Hy710 eq_refl) as Fy.
  destruct (div_mono x y 1024 1024 Nx Fy Hxy eq_refl eq_refl) as [H1 H2].
  destruct (div_mono y 710 1024 1024 Ny eq_refl Hy710 eq_refl eq_refl) as [H3 H4].
  repeat split; try assumption.
  exact (leb_finite _ _ H4 H3 eq_refl).
Qed.

(** The stand-in for [exp] does not decrease from zero on. *)
Lemma exp_stand_in_monotone : monotone_from_zero exp_stand_in.
Proof.
  intros x y Nx Hxy.
  pose proof (leb_nn _ _ Nx Hxy) as Ny.
  assert (Hbody : forall a b, (0 <=? a) = true -> (a <=? b) = true -> (710 <? b) = false ->
            (Nat.iter 10 (fun r => r * r)
               (horner (a / 1024) [1; 2; 3; 4; 5; 6; 7; 8; 9; 10; 11; 12; 13; 14]) <=?
             Nat.iter 10 (fun r => r * r)
               (horner (b / 1024) [1; 2; 3; 4; 5; 6; 7; 8; 9; 10; 11; 12; 13; 14])) = true).
  { intros a b Na Hab Hb.
    destruct (scaled_argument a b Na Hab Hb) as (Ha0 & Hq & Htop & Ffin).
    pose proof (leb_nn _ _ Ha0 Hq) as Hb0.
    pose proof (horner_finite_below _ _ _ divisors_positive Hb0 Htop eq_refl
                  horner_finite_top) as Hfin.
    destruct (horner_mono _ _ _ divisors_positive Ha0 Hq Ffin Hfin) as [Hle H1].
    now apply squares_mono. }
  destruct (710 <? y) eqn:Hy.
  - destruct (710 <? x) eqn:Hx.
    + unfold exp_stand_in. rewrite (nn_not_below x Nx), (nn_not_below y Ny), Hx, Hy.
      reflexivity.
    + rewrite (stand_in_body x Nx Hx).
      assert (Hxx : (x <=? x) = true) by (apply leb_refl_num, (leb_num_r 0), Nx).
      pose proof (Hbody x x Nx Hxx Hx) as Hself.
      unfold exp_stand_in at 1. rewrite (nn_not_below y Ny), Hy.
      rewrite leb_SF. apply SFleb_inf_r. apply B64Facts.is_nan_num.
      exact (leb_num_l _ _ Hself).
  - destruct (710 <? x) eqn:Hx.
    + exfalso.
      pose proof (ltb_false_leb 710 y eq_refl Ny Hy) as Hy710.
      pose proof (leb_trans_nn _ _ _ Nx Hxy Hy710) as Hx710.
      rewrite (ltb_leb_false 710 x eq_refl Nx Hx) in Hx710. discriminate.
    + rewrite (stand_in_body x Nx Hx), (stand_in_body y Ny Hy). now apply Hbody.
Qed.
End StandIn.

(** ** fuel_calc.py: propellant against delta-v and specific impulse *)

Lemma eqb_zero_cases (dv : float) :
  (dv =? 0)%float = true -> dv = 0%float \/ dv = neg_zero.
Proof.
  rewrite FloatAxioms.eqb_spec. eval_sf 0%float.
  intros H. destruct (Prim2SF dv) as [[|]| | |] eqn:E; try discriminate.
  - right. apply Prim2SF_inj. rewrite E. reflexivity.
  - left. apply Prim2SF_inj. rewrite E. reflexivity.
  - destruct s; discriminate.
  - destruct s; discriminate.
Qed.

(** No propellant for no delta-v. *)
Lemma propellant_zero_dv (libm_exp : float -> float) (dv isp : float) :
  libm_exp 0%float = 1%float -> libm_exp neg_zero = 1%float ->
  (0 <? isp)%float = true -> (dv =? 0)%float = true ->
  fuel_calc.propellant_per_launch (mexp := b64_exp libm_exp) dv isp = Ok 0%float.
Proof.
  intros H0 Hn0 Hisp Hdv.
  rewrite (propellant_per_launch_uncapped libm_exp dv isp Hisp).
  assert (Hq : (dv / (isp * 9.80665))%float = 0%float \/
               (dv / (isp * 9.80665))%float = neg_zero).
  { pose proof (isp_G0_pos isp Hisp) as Hpos.
    replace (fuel_calc.G0 (F:=float)) with 9.80665%float in Hpos by (vm_compute; reflexivity).
    destruct (B64Facts.zero_div_pos _ Hpos) as [Hz Hnz].
    destruct (eqb_zero_cases dv Hdv) as [-> | ->]; [left; exact Hz|right; exact Hnz]. }
  unfold B64.math_exp. destruct Hq as [-> | ->]; [rewrite H0|rewrite Hn0]; reflexivity.
Qed.

Lemma propellant_increasing_in_dv (isp dv1 dv2 : R) :
  (0 < isp)%R -> (dv1 < dv2)%R ->
  exists p1 p2,
    fuel_calc.propellant_per_launch dv1 isp = Ok p1 /\
    fuel_calc.propellant_per_launch dv2 isp = Ok p2 /\ (p1 < p2)%R.
Proof.
  intros Hisp Hdv. rewrite !propellant_per_launch_exact by assumption.
  do 2 eexists. split; [reflexivity|]. split; [reflexivity|].
  assert (Hk : (0 < isp * 9.80665)%R) by nra.
  assert (Hq : (dv1 / (isp * 9.80665) < dv2 / (isp * 9.80665))%R).
  { unfold Rdiv. apply Rmult_lt_compat_r; [now apply Rinv_0_lt_compat|exact Hdv]. }
  apply exp_increasing in Hq. lra.
Qed.

Lemma propellant_decreasing_in_isp (dv isp1 isp2 : R) :
  (0 < dv)%R -> (0 < isp1)%R -> (isp1 < isp2)%R ->
  exists p1 p2,
    fuel_calc.propellant_per_launch dv isp1 = Ok p1 /\
    fuel_calc.propellant_per_launch dv isp2 = Ok p2 /\ (p2 < p1)%R.
Proof.
  intros Hdv H1 H12. rewrite !propellant_per_launch_exact by lra.
  do 2 eexists. split; [reflexivity|]. split; [reflexivity|].
  assert (Hk1 : (0 < isp1 * 9.80665)%R) by nra.
  assert (Hk2 : (isp1 * 9.80665 < isp2 * 9.80665)%R) by nra.
  assert (Hq : (dv / (isp2 * 9.80665) < dv / (isp1 * 9.80665))%R).
  { unfold Rdiv. apply Rmult_lt_compat_l; [exact Hdv|].
    apply Rinv_lt_contravar; [nra|exact Hk2]. }
  apply exp_increasing in Hq. lra.
Qed.

(** C5 as stated does not hold in binary64.  Whatever the C library's [exp]
    returns, the two neighbouring delta-v values 3050 and 3050.0000000000005
    give the same result at [isp = 310], and so do the two neighbouring
    specific impulses 472 and 472.00000000000006 at [dv = 3000]: the quotient
    [dv / (isp * 9.80665)] rounds to the same float. *)
Lemma propellant_not_strictly_monotone :
  ((0 <? 3050)%float = true /\ (3050 <? 3050.0000000000005)%float = true /\
   forall libm_exp,
     fuel_calc.propellant_per_launch (mexp := b64_exp libm_exp) 3050%float 310%float =
     fuel_calc.propellant_per_launch (mexp := b64_exp libm_exp) 3050.0000000000005%float
       310%float) /\
  ((0 <? 472)%float = true /\ (472 <? 472.00000000000006)%float = true /\
   forall libm_exp,
     fuel_calc.propellant_per_launch (mexp := b64_exp libm_exp) 3000%float 472%float =
     fuel_calc.propellant_per_launch (mexp := b64_exp libm_exp) 3000%float
       472.00000000000006%float).
Proof.
  repeat split; try reflexivity; intros libm_exp;
    rewrite !PropellantOrder.propellant_b64 by reflexivity;
    match goal with
    | |- bind (B64.math_exp _ ?a) _ = bind (B64.math_exp _ ?b) _ =>
        replace b with a by (vm_compute; reflexivity)
    end; reflexivity.
Qed.

(** C5, amended. For a delta-v of zero the result is 0 for every [isp > 0]
    (the C library's [exp] returning 1 at both zeros).  In exact arithmetic
    the result is strictly increasing in delta-v for a fixed [isp > 0] and
    strictly decreasing in [isp] for a fixed positive delta-v.  In binary64
    only the strictness is lost: with an [exp] that does not decrease from
    zero on and is 1 at zero, the result does not decrease with a finite
    delta-v from zero on for a fixed [isp > 0], and does not increase with
    [isp > 0] for a fixed such delta-v, whenever the calls return; a call that
    does not return raises the [OverflowError] of [math.exp]. *)
Theorem propellant_zero_and_monotone :
  (forall (libm_exp : float -> float) (dv isp : float),
     libm_exp 0%float = 1%float -> libm_exp neg_zero = 1%float ->
     (0 <? isp)%float = true -> (dv =? 0)%float = true ->
     fuel_calc.propellant_per_launch (mexp := b64_exp libm_exp) dv isp = Ok 0%float) /\
  (forall isp dv1 dv2 : R,
     (0 < isp)%R -> (dv1 < dv2)%R ->
     exists p1 p2,
       fuel_calc.propellant_per_launch dv1 isp = Ok p1 /\
       fuel_calc.propellant_per_launch dv2 isp = Ok p2 /\ (p1 < p2)%R) /\
  (forall dv isp1 isp2 : R,
     (0 < dv)%R -> (0 < isp1)%R -> (isp1 < isp2)%R ->
     exists p1 p2,
       fuel_calc.propellant_per_launch dv isp1 = Ok p1 /\
       fuel_calc.propellant_per_launch dv isp2 = Ok p2 /\ (p2 < p1)%R) /\
  (forall (libm_exp : float -> float) (isp dv1 dv2 : float),
     monotone_from_zero libm_exp -> libm_exp 0%float = 1%float ->
     (0 <? isp)%float = true ->
     (0 <=? dv1)%float = true -> (dv1 <=? dv2)%float = true -> is_finite dv2 = true ->
     (forall p1 p2,
        fuel_calc.propellant_per_launch (mexp := b64_exp libm_exp) dv1 isp = Ok p1 ->
        fuel_calc.propellant_per_launch (mexp := b64_exp libm_exp) dv2 isp = Ok p2 ->
        (p1 <=? p2)%float = true) /\
     (forall e,
        fuel_calc.propellant_per_launch (mexp := b64_exp libm_exp) dv1 isp = Raise e \/
        fuel_calc.propellant_per_launch (mexp := b64_exp libm_exp) dv2 isp = Raise e ->
        e = OverflowError)) /\
  (forall (libm_exp : float -> float) (dv isp1 isp2 : float),
     monotone_from_zero libm_exp -> libm_exp 0%float = 1%float ->
     (0 <=? dv)%float = true -> is_finite dv = true ->
     (0 <? isp1)%float = true -> (isp1 <=? isp2)%float = true ->
     (forall p1 p2,
        fuel_calc.propellant_per_launch (mexp := b64_exp libm_exp) dv isp1 = Ok p1 ->
        fuel_calc.propellant_per_launch (mexp := b64_exp libm_exp) dv isp2 = Ok p2 ->
        (p2 <=? p1)%float = true) /\
     (forall e,
        fuel_calc.propellant_per_launch (mexp := b64_exp libm_exp) dv isp1 = Raise e \/
        fuel_calc.propellant_per_launch (mexp := b64_exp libm_exp) dv isp2 = Raise e ->
        e = OverflowError)).
Proof.
  split; [exact propellant_zero_dv|].
  split; [exact propellant_increasing_in_dv|].
  split; [exact propellant_decreasing_in_isp|].
  split.
  - intros libm_exp isp dv1 dv2 Hmono H0 Hisp H1 H12 Hfin.
    destruct (PropellantOrder.propellant_b64_dv libm_exp isp dv1 dv2
                Hmono H0 Hisp H1 H12 Hfin) as [Hord Herr].
    split; [|exact Herr]. intros p1 p2 E1 E2. exact (proj1 (Hord p1 p2 E1 E2)).
  - intros libm_exp dv isp1 isp2 Hmono H0 Hdv Hfin Hisp H12.
    destruct (PropellantOrder.propellant_b64_isp libm_exp dv isp1 isp2
                Hmono H0 Hdv Hfin Hisp H12) as [Hord Herr].
    split; [|exact Herr]. intros p1 p2 E1 E2. exact (proj1 (Hord p1 p2 E1 E2)).
Qed.

Lemma propellant_zero_and_monotone_witness :
  fuel_calc.propellant_per_launch (mexp := b64_exp exp_stand_in) 0%float 310%float
    = Ok 0%float /\
  (exists p1 p2 : R,
     fuel_calc.propellant_per_launch 3000%R 310%R = Ok p1 /\
     fuel_calc.propellant_per_launch 9400%R 310%R = Ok p2 /\ (p1 < p2)%R) /\
  (exists p1 p2 : float,
     fuel_calc.propellant_per_launch (mexp := b64_exp exp_stand_in) 3000%float 310%float
       = Ok p1 /\
     fuel_calc.propellant_per_launch (mexp := b64_exp exp_stand_in) 9400%float 310%float
       = Ok p2 /\ (p1 <=? p2)%float = true) /\
  (exists p1 p2 : float,
     fuel_calc.propellant_per_launch (mexp := b64_exp exp_stand_in) 9400%float 310%float
       = Ok p1 /\
     fuel_calc.propellant_per_launch (mexp := b64_exp exp_stand_in) 9400%float 472%float
       = Ok p2 /\ (p2 <=? p1)%float = true).
Proof.
  destruct propellant_zero_and_monotone as (Hzero & Hdv & _ & Hbdv & Hbisp). split.
  - apply Hzero; reflexivity.
  - split; [apply Hdv; lra|]. split.
    + destruct (Hbdv exp_stand_in 310%float 3000%float 9400%float
                  StandIn.exp_stand_in_monotone eq_refl eq_refl eq_refl eq_refl eq_refl)
        as [Hord _].
      do 2 eexists. split; [vm_compute; reflexivity|].
      split; [vm_compute; reflexivity|]. apply Hord; vm_compute; reflexivity.
    + destruct (Hbisp exp_stand_in 9400%float 310%float 472%float
                  StandIn.exp_stand_in_monotone eq_refl eq_refl eq_refl eq_refl eq_refl)
        as [Hord _].
      do 2 eexists. split; [vm_compute; reflexivity|].
      split; [vm_compute; reflexivity|]. apply Hord; vm_compute; reflexivity.
Defined.


(** * Further properties of the code *)

(** ** Dictionaries and rows *)

Lemma get_set_same {V : Type} (d : Dict.t V) (k : string) (v : V) :
  Dict.get (Dict.set d k v) k = Some v.
Proof.
  induction d as [|[k' v'] d IH]; cbn.
  - now rewrite String.eqb_refl.
  - destruct (String.eqb_spec k' k) as [E|N]; cbn.
    + subst. now rewrite String.eqb_refl.
    + destruct (String.eqb_spec k' k); [contradiction|exact IH].
Qed.

Lemma get_set_other {V : Type} (d : Dict.t V) (k k' : string) (v : V) :
  k <> k' -> Dict.get (Dict.set d k v) k' = Dict.get d k'.
Proof.
  intros Hne. induction d as [|[k0 v0] d IH]; cbn.
  - destruct (String.eqb_spec k k'); [contradiction|reflexivity].
  - destruct (String.eqb_spec k0 k) as [E|N]; cbn.
    + subst k0. destruct (String.eqb_spec k k'); [contradiction|reflexivity].
    + destruct (String.eqb_spec k0 k'); [reflexivity|exact IH].
Qed.

(** A field name that the header lacks is no key of a row. *)
Lemma zip_row_get_absent (ks cells : list string) (d : Csv.row) (k : string) :
  ~ In k ks -> Dict.get (Csv.zip_row ks cells d) k = Dict.get d k.
Proof.
  revert cells d. induction ks as [|k0 ks IH]; intros cells d Hnot; [reflexivity|].
  assert (k0 <> k) by (intros ->; apply Hnot; now left).
  assert (~ In k ks) by (intros Hin; apply Hnot; now right).
  destruct cells as [|c cs]; cbn [Csv.zip_row]; rewrite IH by assumption;
    apply get_set_other; assumption.
Qed.

(** Under a header without repeated names, a field holds the cell at the
    position of its name, or [None] where the row stops before it. *)
Lemma zip_row_get (ks cells : list string) (d : Csv.row) (i : nat) (k : string) :
  NoDup ks -> nth_error ks i = Some k ->
  Dict.get (Csv.zip_row ks cells d) k = Some (nth_error cells i).
Proof.
  revert cells d i. induction ks as [|k0 ks IH]; intros cells d i Hnd Hk.
  - destruct i; discriminate.
  - inversion Hnd as [|? ? Hnot Hnd']; subst.
    destruct i as [|i].
    + injection Hk as ->.
      destruct cells as [|c cs]; cbn [Csv.zip_row nth_error];
        rewrite zip_row_get_absent by assumption; apply get_set_same.
    + cbn [nth_error] in Hk.
      destruct cells as [|c cs]; cbn [Csv.zip_row nth_error].
      * rewrite (IH [] _ i Hnd' Hk). now destruct i.
      * apply IH; assumption.
Qed.

(** The rows [csv.DictReader] yields: one per line that is not blank. *)
Lemma DictReader_cons (header : list string) (body : Csv.file) :
  Csv.DictReader (header :: body) =
  map (fun cells => Csv.zip_row header cells []) (filter Csv.nonempty body).
Proof. reflexivity. Qed.

Lemma filter_nonempty_blank (body : Csv.file) :
  (forall cells, In cells body -> cells = []) -> filter Csv.nonempty body = [].
Proof.
  induction body as [|cells body IH]; intros H; [reflexivity|].
  cbn [filter]. rewrite (H cells) by now left. cbn. apply IH.
  intros c Hc. apply H. now right.
Qed.

Lemma filter_nonempty_first (blanks : Csv.file) (cells : list string) (rest : Csv.file) :
  (forall b, In b blanks -> b = []) -> cells <> [] ->
  filter Csv.nonempty (blanks ++ cells :: rest) = cells :: filter Csv.nonempty rest.
Proof.
  intros Hb Hc. rewrite filter_app, (filter_nonempty_blank blanks Hb). cbn [app filter].
  destruct cells; [contradiction|reflexivity].
Qed.

(** ** Loaders on files without data, with a missing column, with a short row *)

Lemma mapM_head_raises {A B : Type} (f : A -> result B) (a : A) (l : list A) (e : pyerror) :
  f a = Raise e -> mapM f (a :: l) = Raise e.
Proof. intros H. cbn [mapM]. now rewrite H. Qed.

Lemma foldM_head_raises {S A : Type} (step : S -> A -> result S) (a : A) (l : list A)
  (s : S) (e : pyerror) :
  step s a = Raise e -> foldM step (a :: l) s = Raise e.
Proof. intros H. cbn [foldM]. now rewrite H. Qed.

(** X1. A file with no line, or with a header line followed by blank lines
    only, has no data row: the two loaders of site tables return an empty
    table (the header is never looked at), the loaders that take the first
    row with [next] raise [StopIteration]. *)
Theorem loaders_without_data_rows (f : Csv.file) :
  f = [] \/ (exists header blanks, f = header :: blanks /\ forall b, In b blanks -> b = []) ->
  elevator_ground_cost.load_rows f = Ok [] /\
  fuel_calc.load_dv f = Ok [] /\
  water_schedule_cost.load_cost_and_capacity f = Raise StopIteration /\
  plot_water_cost.read_capacity f = Raise StopIteration /\
  plot_water_cost.read_costs f = Raise StopIteration.
Proof.
  intros Hf.
  assert (Hrows : Csv.DictReader f = []).
  { destruct Hf as [->|(header & blanks & -> & Hb)]; [reflexivity|].
    rewrite DictReader_cons, filter_nonempty_blank by assumption. reflexivity. }
  unfold elevator_ground_cost.load_rows, fuel_calc.load_dv,
    water_schedule_cost.load_cost_and_capacity, plot_water_cost.read_capacity,
    plot_water_cost.read_costs.
  rewrite Hrows. repeat split.
Qed.

Lemma loaders_without_data_rows_witness :
  elevator_ground_cost.load_rows [["发射场"; "总f"]; []; []]%string = Ok [] /\
  fuel_calc.load_dv [["发射场"; "总f"]; []; []]%string = Ok [] /\
  water_schedule_cost.load_cost_and_capacity [["发射场"; "总f"]; []; []]%string
    = Raise StopIteration /\
  plot_water_cost.read_capacity [["发射场"; "总f"]; []; []]%string = Raise StopIteration /\
  plot_water_cost.read_costs [["发射场"; "总f"]; []; []]%string = Raise StopIteration.
Proof.
  apply loaders_without_data_rows. right.
  exists ["发射场"; "总f"]%string, [[]; []]. split; [reflexivity|].
  intros b [<-|[<-|[]]]; reflexivity.
Defined.

(** X2. Only the first data row counts for the loaders that call [next]
    once: blank lines before it are skipped, and whatever follows it is not
    read, so nothing there can make the loader fail. *)
Theorem first_data_row_only
  (header : list string) (blanks : Csv.file) (cells : list string) (rest : Csv.file) :
  (forall b, In b blanks -> b = []) -> cells <> [] ->
  water_schedule_cost.load_cost_and_capacity (header :: blanks ++ cells :: rest) =
    water_schedule_cost.load_cost_and_capacity [header; cells] /\
  plot_water_cost.read_capacity (header :: blanks ++ cells :: rest) =
    plot_water_cost.read_capacity [header; cells].
Proof.
  intros Hb Hc.
  unfold water_schedule_cost.load_cost_and_capacity, plot_water_cost.read_capacity.
  rewrite !DictReader_cons, filter_nonempty_first by assumption.
  destruct cells as [|c cs]; [contradiction|]. split; reflexivity.
Qed.

Lemma first_data_row_only_witness :
  water_schedule_cost.load_cost_and_capacity
    [["cost_per_ton_亿美元/吨"; "capacity_per_year_吨/年"]; []; ["0.05"; "5000000"]; ["x"; "y"]]%string
  = water_schedule_cost.load_cost_and_capacity
    [["cost_per_ton_亿美元/吨"; "capacity_per_year_吨/年"]; ["0.05"; "5000000"]]%string /\
  plot_water_cost.read_capacity
    [["cost_per_ton_亿美元/吨"; "capacity_per_year_吨/年"]; []; ["0.05"; "5000000"]; ["x"; "y"]]%string
  = plot_water_cost.read_capacity
    [["cost_per_ton_亿美元/吨"; "capacity_per_year_吨/年"]; ["0.05"; "5000000"]]%string.
Proof.
  apply (first_data_row_only
           ["cost_per_ton_亿美元/吨"; "capacity_per_year_吨/年"]%string [[]]
           ["0.05"; "5000000"]%string [["x"; "y"]%string]).
  - intros b [<-|[]]; reflexivity.
  - discriminate.
Defined.

(** X3. The plot script reads the capacity the schedule script reads: on a
    file the schedule script loads, [read_capacity] returns the same
    capacity. *)
Theorem read_capacity_agrees (f : Csv.file) (cost_per_ton capacity_per_year : float) :
  water_schedule_cost.load_cost_and_capacity f = Ok (cost_per_ton, capacity_per_year) ->
  plot_water_cost.read_capacity f = Ok capacity_per_year.
Proof.
  unfold water_schedule_cost.load_cost_and_capacity, plot_water_cost.read_capacity.
  destruct (Csv.next (Csv.DictReader f)) as [[row it]|e]; cbn [bind]; [|discriminate].
  destruct (Csv.field row "cost_per_ton_亿美元/吨") as [cell_cost|e]; cbn [bind]; [|discriminate].
  destruct (Parse.py_float_cell cell_cost) as [c|e]; cbn [bind]; [|discriminate].
  destruct (Csv.field row "capacity_per_year_吨/年") as [cell_cap|e]; cbn [bind]; [|discriminate].
  destruct (Parse.py_float_cell cell_cap) as [cap|e]; cbn [bind]; [|discriminate].
  intros H. apply Ok_inj in H. injection H as _ ->. reflexivity.
Qed.

Lemma read_capacity_agrees_witness :
  plot_water_cost.read_capacity
    [["cost_per_ton_亿美元/吨"; "capacity_per_year_吨/年"]; ["0.05"; "5000000"]]%string
  = Ok 5000000%float.
Proof.
  apply (read_capacity_agrees _ 0.05%float 5000000%float). vm_compute. reflexivity.
Defined.

(** The first data row of a file that has one. *)
Lemma DictReader_first (header : list string) (body : Csv.file) :
  filter Csv.nonempty body <> [] ->
  exists cells rows,
    cells <> [] /\ In cells body /\
    Csv.DictReader (header :: body) = Csv.zip_row header cells [] :: rows.
Proof.
  intros Hne. rewrite DictReader_cons.
  destruct (filter Csv.nonempty body) as [|cells l] eqn:E; [contradiction|].
  assert (Hin : In cells (filter Csv.nonempty body)) by (rewrite E; now left).
  apply filter_In in Hin. destruct Hin as [Hin Hc].
  exists cells, (map (fun c => Csv.zip_row header c []) l).
  split; [now destruct cells|]. split; [exact Hin|reflexivity].
Qed.

(** X4. A site table whose header lacks the column [发射场] ends both
    loaders with [KeyError] at the first data row. *)
Theorem missing_site_column (header : list string) (body : Csv.file) :
  ~ In "发射场"%string header -> (exists cells, In cells body /\ cells <> []) ->
  elevator_ground_cost.load_rows (header :: body) = Raise KeyError /\
  fuel_calc.load_dv (header :: body) = Raise KeyError.
Proof.
  intros Hcol (c0 & Hin0 & Hc0).
  assert (Hne : filter Csv.nonempty body <> []).
  { intros E. assert (H : In c0 (filter Csv.nonempty body)).
    { apply filter_In. split; [exact Hin0|]. now destruct c0. }
    rewrite E in H. exact H. }
  destruct (DictReader_first header body Hne) as (cells & rows & _ & _ & E).
  assert (Hget : Csv.field_strip (Csv.zip_row header cells []) "发射场" = Raise KeyError).
  { unfold Csv.field_strip, Csv.field, Dict.getitem.
    rewrite zip_row_get_absent by assumption. reflexivity. }
  unfold elevator_ground_cost.load_rows, fuel_calc.load_dv. rewrite E. split.
  - apply mapM_head_raises. unfold elevator_ground_cost.load_row. now rewrite Hget.
  - apply foldM_head_raises. unfold fuel_calc.load_dv_step. now rewrite Hget.
Qed.

Lemma missing_site_column_witness :
  elevator_ground_cost.load_rows [["site"; "总f"]; ["Kourou"; "7.0"]]%string = Raise KeyError /\
  fuel_calc.load_dv [["site"; "总f"]; ["Kourou"; "7.0"]]%string = Raise KeyError.
Proof.
  apply missing_site_column.
  - intros [H|[H|[]]]; discriminate.
  - exists ["Kourou"; "7.0"]%string. split; [now left|discriminate].
Defined.

(** X5. A first data row that stops before the numeric columns makes both
    loaders of the site table fail: with [AttributeError] when it also stops
    before the column [发射场] ([None] has no [strip]), with [TypeError]
    otherwise ([float(None)]).  Neither is the [ValueError] of a malformed
    number. *)
Theorem short_first_row (header : list string) (blanks : Csv.file) (cells : list string)
  (rest : Csv.file) (i j k : nat) :
  NoDup header ->
  nth_error header i = Some "发射场"%string ->
  nth_error header j = Some "总f"%string ->
  nth_error header k = Some "大气dv(km/s)"%string ->
  (forall b, In b blanks -> b = []) -> cells <> [] ->
  (List.length cells <= j)%nat -> (List.length cells <= k)%nat ->
  let error := if (List.length cells <=? i)%nat then AttributeError else TypeError in
  elevator_ground_cost.load_rows (header :: blanks ++ cells :: rest) = Raise error /\
  fuel_calc.load_dv (header :: blanks ++ cells :: rest) = Raise error.
Proof.
  intros Hnd Hi Hj Hk Hb Hc Hlenj Hlenk error.
  pose proof (zip_row_get header cells [] i _ Hnd Hi) as Hname.
  pose proof (zip_row_get header cells [] j _ Hnd Hj) as Hf.
  pose proof (zip_row_get header cells [] k _ Hnd Hk) as Hatm.
  apply nth_error_None in Hlenj, Hlenk. rewrite Hlenj in Hf. rewrite Hlenk in Hatm.
  unfold elevator_ground_cost.load_rows, fuel_calc.load_dv.
  rewrite DictReader_cons, filter_nonempty_first by assumption. cbn [map].
  assert (Hcase :
    (nth_error cells i = None /\ error = AttributeError) \/
    (exists s, nth_error cells i = Some s /\ error = TypeError)).
  { unfold error. destruct (Nat.leb_spec (List.length cells) i) as [Hle|Hgt].
    - left. split; [now apply nth_error_None|reflexivity].
    - right. destruct (nth_error cells i) as [s|] eqn:E; [now exists s|].
      apply nth_error_None in E. lia. }
  split.
  - apply mapM_head_raises. unfold elevator_ground_cost.load_row.
    unfold Csv.field_strip, Csv.field, Dict.getitem. rewrite Hname, Hf. cbn [bind].
    destruct Hcase as [[-> ->]|(s & -> & ->)]; reflexivity.
  - apply foldM_head_raises. unfold fuel_calc.load_dv_step.
    unfold Csv.field_strip, Csv.field, Dict.getitem. rewrite Hname, Hatm. cbn [bind].
    destruct Hcase as [[-> ->]|(s & -> & ->)]; reflexivity.
Qed.

Lemma short_first_row_witness :
  elevator_ground_cost.load_rows
    [["发射场"; "总f"; "大气dv(km/s)"; "真空dv(km/s)"]; ["Kourou"]]%string = Raise TypeError /\
  fuel_calc.load_dv
    [["发射场"; "总f"; "大气dv(km/s)"; "真空dv(km/s)"]; ["Kourou"]]%string = Raise TypeError.
Proof.
  apply (short_first_row ["发射场"; "总f"; "大气dv(km/s)"; "真空dv(km/s)"]%string
           [] ["Kourou"%string] [] 0 1 2).
  - repeat constructor; cbn; intuition discriminate.
  - reflexivity.
  - reflexivity.
  - reflexivity.
  - intros b [].
  - discriminate.
  - cbn. lia.
  - cbn. lia.
Defined.

(** ** elevator_ground_cost.py: the two classes *)

Lemma filter_partition_length {A : Type} (p : A -> bool) (l : list A) :
  (List.length (filter p l) + List.length (filter (fun a => negb (p a)) l)
   = List.length l)%nat.
Proof.
  induction l as [|a l IH]; [reflexivity|].
  cbn [filter]. destruct (p a); cbn [negb List.length]; lia.
Qed.

(** X6. The loop of [main] never fails and sorts every row into exactly one
    of the two lists: [elevator_costs] holds the cost per ton of the rows
    whose name [is_elevator] accepts, [ground_costs] that of all other rows,
    each in the order of the input. *)
Theorem classify_partitions (rows : list (string * float)) :
  exists elevator_costs ground_costs : list float,
    elevator_ground_cost.classify rows = Ok (elevator_costs, ground_costs) /\
    map Ok elevator_costs =
      map (fun r => elevator_ground_cost.cost_per_ton (snd r))
          (filter (fun r => elevator_ground_cost.is_elevator (fst r)) rows) /\
    map Ok ground_costs =
      map (fun r => elevator_ground_cost.cost_per_ton (snd r))
          (filter (fun r => negb (elevator_ground_cost.is_elevator (fst r))) rows) /\
    (List.length elevator_costs + List.length ground_costs = List.length rows)%nat.
Proof.
  unfold elevator_ground_cost.classify. rewrite classify_from. cbn [app].
  do 2 eexists. split; [reflexivity|].
  rewrite !map_map, !length_map.
  split; [|split].
  - apply map_ext. intros r. now rewrite cost_per_ton_b64.
  - apply map_ext. intros r. now rewrite cost_per_ton_b64.
  - apply filter_partition_length.
Qed.

(** ** elevator_ground_cost.py: the averages *)

Module IntFacts.
Import SF SFFacts SFValue.
Open Scope Z_scope.

(** [float(n)] for an integer from 1 to [2^53 - 1]: a positive finite value
    that is [n] exactly. *)
Lemma of_int_small (n : Z) :
  1 <= n < 2 ^ 53 ->
  exists (m : positive) (e : Z),
    B64.of_int n = Ok (SF2Prim (S754_finite false m e)) /\
    valid_binary (S754_finite false m e) = true /\
    e <= 0 /\ Z.pos m = n * 2 ^ (- e).
Proof.
  intros [Hlo Hhi]. destruct n as [|p|p]; try lia.
  pose proof (digits_bounds p) as [Hd1 Hd2].
  set (d := Z.pos (digits2_pos p)) in *.
  assert (Hd : 1 <= d <= 53).
  { split; [unfold d; lia|]. apply digits_le; lia. }
  unfold B64.of_int. cbn [binary_normalize].
  unfold binary_round, shl_align. rewrite fexp_eq. fold d.
  assert (Hf : fexp64 (d + 0) = d - 53) by (unfold fexp64; lia).
  rewrite Hf.
  destruct (d - 53 - 0) as [|k|k] eqn:Ek; [| lia |].
  - assert (Hc : fexp64 (Z.pos (digits2_pos p) + 0) = 0) by (fold d; lia).
    rewrite (bra_canonical false p 0 Hc). cbn [Z.leb Z.compare].
    exists p, 0. split; [reflexivity|]. split; [|split; [lia|cbn; lia]].
    unfold SpecFloat.valid_binary, SpecFloat.bounded, SpecFloat.canonical_mantissa.
    rewrite fexp_eq, Hc. reflexivity.
  - change (Pos.iter xO p k) with (shift_pos k p).
    set (q := shift_pos k p).
    assert (Hq : Z.pos q = Z.pos p * 2 ^ Z.pos k).
    { unfold q. rewrite shift_pos_correct, Z.pow_pos_fold. lia. }
    assert (Hk : Z.pos k = 53 - d) by lia.
    assert (Hdq : Z.pos (digits2_pos q) = 53).
    { apply Z.le_antisymm.
      - apply digits_le; [|lia]. rewrite Hq, Hk.
        replace 53 with (d + (53 - d)) at 2 by lia. rewrite Z.pow_add_r by lia.
        apply Z.mul_lt_mono_pos_r; [apply Z.pow_pos_nonneg; lia|exact Hd2].
      - apply (digits_ge q 52); [|lia]. rewrite Hq, Hk.
        replace 52 with (d - 1 + (53 - d)) by lia. rewrite Z.pow_add_r by lia.
        apply Z.mul_le_mono_nonneg_r; [apply Z.pow_nonneg; lia|exact Hd1]. }
    assert (Hc : fexp64 (Z.pos (digits2_pos q) + (d - 53)) = d - 53)
      by (rewrite Hdq; unfold fexp64; lia).
    rewrite (bra_canonical false q (d - 53) Hc).
    assert ((d - 53 <=? 971) = true) as -> by (apply Z.leb_le; lia).
    exists q, (d - 53). split; [reflexivity|]. split; [|split; [lia|]].
    + unfold SpecFloat.valid_binary, SpecFloat.bounded, SpecFloat.canonical_mantissa.
      rewrite fexp_eq, Hc, Z.eqb_refl. cbn [andb]. apply Z.leb_le.
      change (emax - prec) with 971. lia.
    + rewrite Hq. f_equal. f_equal. lia.
Qed.

Lemma of_int_small_value (n : Z) :
  1 <= n < 2 ^ 53 ->
  exists y : float,
    B64.of_int n = Ok y /\ B2R y = IZR n /\ (y =? 0)%float = false.
Proof.
  intros Hn. destruct (of_int_small n Hn) as (m & e & E & Hv & He & Hm).
  exists (SF2Prim (S754_finite false m e)). split; [exact E|].
  assert (HP : Prim2SF (SF2Prim (S754_finite false m e)) = S754_finite false m e)
    by (apply Prim2SF_SF2Prim; exact Hv).
  split.
  - unfold B2R. rewrite HP. cbn [SF2R]. rewrite Hm, mult_IZR, pow2_IZR by lia.
    rewrite Rmult_1_l, Rmult_assoc, <- pow2_add.
    replace (- e + e) with 0 by lia. unfold pow2. cbn. lra.
  - apply B64Facts.eqb_zero_of_pos. rewrite HP. reflexivity.
Qed.
End IntFacts.

(** The average of a class of fewer than [2^53] costs. *)
Lemma average_is_mean (builtin_sum : Summation float) (costs : list float) :
  (Z.of_nat (List.length costs) < 2 ^ 53)%Z ->
  exists a : float,
    elevator_ground_cost.average costs = Ok a /\ mean_of builtin_sum costs a.
Proof.
  intros Hlen. destruct costs as [|c costs].
  - exists 0%float. split; reflexivity.
  - destruct (IntFacts.of_int_small_value (Z.of_nat (List.length (c :: costs))))
      as (n & En & Hn & Hz).
    { split; [cbn [List.length]; lia|exact Hlen]. }
    exists (py_sum (c :: costs) / n)%float. split.
    + unfold elevator_ground_cost.average, truediv_int, truediv.
      cbn [of_int b64]. rewrite En. cbn [bind eqb b64 div].
      replace (@lit float b64 0 0) with 0%float by reflexivity.
      rewrite Hz. reflexivity.
    + exists n. split; [exact Hn|reflexivity].
Qed.

(** X7. Once the rows are loaded the script cannot fail: for fewer than
    [2^53] rows, [summary] returns the two averages, each 0.0 for an empty
    class and otherwise the sum of the class, as the builtin [sum] returns it,
    divided by the exact number of its costs.  No division by zero occurs. *)
Theorem summary_never_fails (builtin_sum : Summation float) (rows : list (string * float)) :
  (Z.of_nat (List.length rows) < 2 ^ 53)%Z ->
  exists (elevator_costs ground_costs : list float) (elevator_avg ground_avg : float),
    elevator_ground_cost.classify rows = Ok (elevator_costs, ground_costs) /\
    elevator_ground_cost.summary rows = Ok (elevator_avg, ground_avg) /\
    mean_of builtin_sum elevator_costs elevator_avg /\
    mean_of builtin_sum ground_costs ground_avg.
Proof.
  intros Hlen.
  pose proof (classify_from rows [] []) as Hc. cbn [app] in Hc.
  set (es := map _ (filter (fun r => elevator_ground_cost.is_elevator (fst r)) rows)) in Hc.
  set (gs := map _ (filter (fun r => negb (elevator_ground_cost.is_elevator (fst r))) rows)) in Hc.
  assert (Hsum : (List.length es + List.length gs = List.length rows)%nat).
  { unfold es, gs. rewrite !length_map.
    exact (filter_length (fun r => elevator_ground_cost.is_elevator (fst r)) rows). }
  destruct (average_is_mean builtin_sum es) as (e & He & Hme); [lia|].
  destruct (average_is_mean builtin_sum gs) as (g & Hg & Hmg); [lia|].
  exists es, gs, e, g. split; [exact Hc|]. split; [|split; assumption].
  unfold elevator_ground_cost.summary, elevator_ground_cost.classify.
  rewrite Hc. cbn [bind]. rewrite He. cbn [bind]. rewrite Hg. reflexivity.
Qed.

Lemma summary_never_fails_witness :
  exists (elevator_costs ground_costs : list float) (elevator_avg ground_avg : float),
    elevator_ground_cost.classify [("Space Elevator A"%string, 1%float); ("Kourou"%string, 7%float)]
      = Ok (elevator_costs, ground_costs) /\
    elevator_ground_cost.summary (summation := b64_fold_sum)
      [("Space Elevator A"%string, 1%float); ("Kourou"%string, 7%float)]
      = Ok (elevator_avg, ground_avg) /\
    mean_of b64_fold_sum elevator_costs elevator_avg /\
    mean_of b64_fold_sum ground_costs ground_avg.
Proof.
  apply (summary_never_fails b64_fold_sum). cbn. lia.
Defined.

(** ** elevator_ground_cost.py: the averages in exact arithmetic *)

Lemma classify_from_exact (rows : list (string * R)) (es gs : list R) :
  foldM elevator_ground_cost.classify_step rows (es, gs) =
  Ok (es ++ map (fun r => (0.00713 * snd r)%R)
                (filter (fun r => elevator_ground_cost.is_elevator (fst r)) rows),
      gs ++ map (fun r => (0.00713 * snd r)%R)
                (filter (fun r => negb (elevator_ground_cost.is_elevator (fst r))) rows)).
Proof.
  revert es gs. induction rows as [|[name f] rows IH]; intros es gs.
  - cbn. now rewrite !app_nil_r.
  - cbn [foldM elevator_ground_cost.classify_step]. rewrite cost_per_ton_exact.
    cbn [bind filter fst snd].
    destruct (elevator_ground_cost.is_elevator name); cbn [negb bind map];
      rewrite IH, <- !app_assoc; reflexivity.
Qed.

Lemma fold_left_scaled (c : R) (l : list (string * R)) (acc : R) :
  fold_left Rplus (map (fun r => (c * snd r)%R) l) acc
  = (acc + c * fold_right Rplus 0 (map snd l))%R.
Proof.
  revert acc. induction l as [|r l IH]; intros acc; cbn [map fold_left fold_right].
  - lra.
  - rewrite IH. lra.
Qed.

Lemma average_exact (l : list (string * R)) :
  elevator_ground_cost.average (map (fun r => (0.00713 * snd r)%R) l) = Ok (scaled_mean l).
Proof.
  destruct l as [|r l]; cbn [map].
  - unfold elevator_ground_cost.average, scaled_mean. f_equal.
    cbn [lit exact]. unfold Exact.of_decimal. cbn. lra.
  - unfold elevator_ground_cost.average.
    rewrite truediv_int_exact by (cbn [List.length]; lia).
    cbn [py_sum exact_sum]. unfold scaled_mean. f_equal.
    change (0.00713 * snd r :: map (fun r0 => 0.00713 * snd r0) l)%R
      with (map (fun r0 => (0.00713 * snd r0)%R) (r :: l)).
    rewrite fold_left_scaled, length_map, INR_IZR_INZ.
    assert (IZR (Z.of_nat (List.length (r :: l))) <> 0%R).
    { apply not_0_IZR. cbn [List.length]. lia. }
    field. assumption.
Qed.

(** X8. In exact arithmetic each of the two averages is 0.00713 times the
    mean cost factor of the rows of its class (0 for a class without rows):
    the payload cancels in every cost, and the constant comes out of the
    average. *)
Theorem averages_exact (rows : list (string * R)) :
  elevator_ground_cost.summary rows =
  Ok (scaled_mean (filter (fun r => elevator_ground_cost.is_elevator (fst r)) rows),
      scaled_mean (filter (fun r => negb (elevator_ground_cost.is_elevator (fst r))) rows)).
Proof.
  unfold elevator_ground_cost.summary, elevator_ground_cost.classify.
  rewrite classify_from_exact. cbn [app bind]. rewrite !average_exact. reflexivity.
Qed.

(** ** fuel_calc.py: slugs *)

Module SlugFacts.
Open Scope string_scope.

Lemma string_ind2 (P : string -> Prop) :
  P "" -> (forall a, P (String a "")) ->
  (forall a b s, P s -> P (String b s) -> P (String a (String b s))) ->
  forall s, P s.
Proof.
  intros H0 H1 H2 s.
  assert (H : P s /\ forall a, P (String a s)).
  { induction s as [|b s [IHs IHc]]; [split; [exact H0|exact H1]|].
    split; [apply IHc|]. intros a. apply H2; [exact IHs|apply IHc]. }
  apply H.
Qed.

(** *** One character *)

Lemma char_of_ascii_name (c : ascii) :
  implb (Str.code c <? 128)%N
        (slug_char (if Str.isalnum (Str.lower_char c) then Str.lower_char c else "_"%char))
  = true.
Proof. destruct c as [[] [] [] [] [] [] [] []]; reflexivity. Qed.

Lemma slug_char_fixed (c : ascii) :
  implb (slug_char c)
        (Ascii.eqb (if Str.isalnum (Str.lower_char c) then Str.lower_char c else "_"%char) c)
  = true.
Proof. destruct c as [[] [] [] [] [] [] [] []]; reflexivity. Qed.

Lemma slug_char_lower (c : ascii) :
  implb (slug_char c) (Ascii.eqb (Str.lower_char c) c) = true.
Proof. destruct c as [[] [] [] [] [] [] [] []]; reflexivity. Qed.

(** *** Trimming *)

Lemma all_chars_lstrip (p q : ascii -> bool) (s : string) :
  all_chars q s = true -> all_chars q (Str.lstrip_by p s) = true.
Proof.
  induction s as [|c s IH]; [reflexivity|]. cbn [Str.lstrip_by].
  intros H. destruct (p c); [|exact H].
  cbn [all_chars] in H. apply andb_true_iff in H. apply IH, H.
Qed.

Lemma rstrip_cons (p : ascii -> bool) (c : ascii) (s : string) :
  Str.rstrip_by p (String c s) =
  match Str.rstrip_by p s with
  | EmptyString => if p c then EmptyString else String c EmptyString
  | r => String c r
  end.
Proof. reflexivity. Qed.

Lemma all_chars_rstrip (p q : ascii -> bool) (s : string) :
  all_chars q s = true -> all_chars q (Str.rstrip_by p s) = true.
Proof.
  induction s as [|c s IH]; [reflexivity|]. rewrite rstrip_cons.
  cbn [all_chars]. intros H. apply andb_true_iff in H. destruct H as [Hc Hs].
  specialize (IH Hs).
  destruct (Str.rstrip_by p s) as [|d r].
  - destruct (p c); [reflexivity|]. cbn [all_chars]. now rewrite Hc.
  - cbn [all_chars] in *. now rewrite Hc.
Qed.

Lemma head_ok_lstrip (p : ascii -> bool) (s : string) :
  head_ok p (Str.lstrip_by p s) = true.
Proof.
  induction s as [|c s IH]; [reflexivity|]. cbn [Str.lstrip_by].
  destruct (p c) eqn:E; [exact IH|]. cbn [head_ok]. now rewrite E.
Qed.

Lemma head_ok_rstrip (p : ascii -> bool) (s : string) :
  head_ok p s = true -> head_ok p (Str.rstrip_by p s) = true.
Proof.
  destruct s as [|c s]; [reflexivity|]. rewrite rstrip_cons. cbn [head_ok].
  intros H. apply negb_true_iff in H.
  destruct (Str.rstrip_by p s); rewrite ?H; cbn [head_ok]; now rewrite H.
Qed.

Lemma last_ok_rstrip (p : ascii -> bool) (s : string) :
  last_ok p (Str.rstrip_by p s) = true.
Proof.
  induction s as [|c s IH]; [reflexivity|]. rewrite rstrip_cons.
  destruct (Str.rstrip_by p s) as [|d r].
  - destruct (p c) eqn:E; [reflexivity|]. cbn [last_ok]. now rewrite E.
  - exact IH.
Qed.

Lemma lstrip_fixed (p : ascii -> bool) (s : string) :
  head_ok p s = true -> Str.lstrip_by p s = s.
Proof.
  destruct s as [|c s]; [reflexivity|]. cbn [head_ok Str.lstrip_by].
  intros H. apply negb_true_iff in H. now rewrite H.
Qed.

Lemma rstrip_fixed (p : ascii -> bool) (s : string) :
  last_ok p s = true -> Str.rstrip_by p s = s.
Proof.
  induction s as [|c s IH]; [reflexivity|]. rewrite rstrip_cons.
  destruct s as [|d s].
  - cbn [last_ok Str.rstrip_by]. intros H. apply negb_true_iff in H. now rewrite H.
  - intros H. change (last_ok p (String c (String d s))) with (last_ok p (String d s)) in H.
    rewrite (IH H). reflexivity.
Qed.

Lemma strip_fixed (p : ascii -> bool) (s : string) :
  head_ok p s = true -> last_ok p s = true -> Str.strip_by p s = s.
Proof.
  intros Hh Hl. unfold Str.strip_by. rewrite (lstrip_fixed p s Hh). now apply rstrip_fixed.
Qed.

(** *** Squeezing runs of underscores *)

Lemma replace_dunder_2 (a b : ascii) (s : string) :
  Str.replace_dunder (String a (String b s)) =
  if Str.is_underscore a && Str.is_underscore b
  then String a (Str.replace_dunder s)
  else String a (Str.replace_dunder (String b s)).
Proof. reflexivity. Qed.

Lemma has_dunder_2 (a b : ascii) (s : string) :
  Str.has_dunder (String a (String b s)) =
  (Str.is_underscore a && Str.is_underscore b) || Str.has_dunder (String b s).
Proof. reflexivity. Qed.

Lemma replace_dunder_length (s : string) :
  (String.length (Str.replace_dunder s) <= String.length s)%nat /\
  (Str.has_dunder s = true ->
   (String.length (Str.replace_dunder s) < String.length s)%nat).
Proof.
  induction s as [| a | a b s [IH1 IH1'] [IH2 IH2']] using string_ind2.
  - split; [cbn; lia|discriminate].
  - split; [cbn; lia|discriminate].
  - rewrite replace_dunder_2, has_dunder_2.
    destruct (Str.is_underscore a && Str.is_underscore b); cbn [orb].
    + cbn [String.length] in *. split; intros; lia.
    + cbn [String.length] in *. split; [lia|]. intros H. specialize (IH2' H). lia.
Qed.

Lemma squeeze_no_dunder (turns : nat) (s : string) :
  (String.length s <= turns)%nat ->
  Str.has_dunder (fuel_calc.squeeze turns s) = false.
Proof.
  revert s. induction turns as [|n IH]; intros s Hlen.
  - destruct s; [reflexivity|cbn in Hlen; lia].
  - cbn [fuel_calc.squeeze]. destruct (Str.has_dunder s) eqn:E; [|exact E].
    apply IH. pose proof (replace_dunder_length s) as [_ H]. specialize (H E). lia.
Qed.

Lemma squeeze_fixed (turns : nat) (s : string) :
  Str.has_dunder s = false -> fuel_calc.squeeze turns s = s.
Proof. intros H. destruct turns; [reflexivity|]. cbn [fuel_calc.squeeze]. now rewrite H. Qed.

Lemma replace_dunder_keeps (q : ascii -> bool) (s : string) :
  (all_chars q s = true -> all_chars q (Str.replace_dunder s) = true) /\
  (head_ok Str.is_underscore s = true ->
   head_ok Str.is_underscore (Str.replace_dunder s) = true) /\
  (last_ok Str.is_underscore s = true ->
   last_ok Str.is_underscore (Str.replace_dunder s) = true) /\
  (s <> "" -> Str.replace_dunder s <> "").
Proof.
  induction s as [| a | a b s (IA1 & IH1 & IL1 & IN1) (IA2 & IH2 & IL2 & IN2)] using string_ind2.
  - repeat split; auto.
  - repeat split; auto.
  - rewrite replace_dunder_2.
    destruct (Str.is_underscore a && Str.is_underscore b) eqn:E.
    + apply andb_true_iff in E. destruct E as [Ea Eb].
      repeat split.
      * cbn [all_chars]. intros H. apply andb_true_iff in H. destruct H as [Ha H].
        apply andb_true_iff in H. destruct H as [_ H]. rewrite Ha. cbn [andb]. now apply IA1.
      * cbn [head_ok]. auto.
      * intros H. change (last_ok Str.is_underscore (String a (String b s)))
          with (last_ok Str.is_underscore (String b s)) in H.
        destruct s as [|c s]; [cbn [last_ok] in H; rewrite Eb in H; discriminate|].
        change (last_ok Str.is_underscore (String b (String c s)))
          with (last_ok Str.is_underscore (String c s)) in H.
        assert (Hne : Str.replace_dunder (String c s) <> "") by (apply IN1; discriminate).
        specialize (IL1 H).
        destruct (Str.replace_dunder (String c s)) as [|d r]; [contradiction|exact IL1].
      * discriminate.
    + repeat split.
      * cbn [all_chars]. intros H. apply andb_true_iff in H. destruct H as [Ha H].
        rewrite Ha. cbn [andb]. now apply IA2.
      * cbn [head_ok]. auto.
      * intros H. change (last_ok Str.is_underscore (String a (String b s)))
          with (last_ok Str.is_underscore (String b s)) in H.
        assert (Hne : Str.replace_dunder (String b s) <> "") by (apply IN2; discriminate).
        specialize (IL2 H).
        destruct (Str.replace_dunder (String b s)) as [|d r]; [contradiction|exact IL2].
      * discriminate.
Qed.

Lemma squeeze_keeps (q : ascii -> bool) (turns : nat) (s : string) :
  (all_chars q s = true -> all_chars q (fuel_calc.squeeze turns s) = true) /\
  (head_ok Str.is_underscore s = true ->
   head_ok Str.is_underscore (fuel_calc.squeeze turns s) = true) /\
  (last_ok Str.is_underscore s = true ->
   last_ok Str.is_underscore (fuel_calc.squeeze turns s) = true) /\
  (s <> "" -> fuel_calc.squeeze turns s <> "").
Proof.
  revert s. induction turns as [|n IH]; intros s; [repeat split; auto|].
  cbn [fuel_calc.squeeze]. destruct (Str.has_dunder s); [|repeat split; auto].
  destruct (replace_dunder_keeps q s) as (A & H & L & N).
  destruct (IH (Str.replace_dunder s)) as (A' & H' & L' & N').
  repeat split; auto.
Qed.

(** *** The slug *)

Lemma marked_chars (name : string) :
  Str.is_ascii name = true ->
  all_chars slug_char (fuel_calc.mark_non_alnum (Str.lower name)) = true.
Proof.
  induction name as [|c name IH]; [reflexivity|].
  cbn [Str.is_ascii Str.lower fuel_calc.mark_non_alnum all_chars].
  intros H. apply andb_true_iff in H. destruct H as [Hc Hn].
  pose proof (char_of_ascii_name c) as Hch. rewrite Hc in Hch. cbn [implb] in Hch.
  rewrite Hch. cbn [andb]. now apply IH.
Qed.

Lemma slugify_shaped (name : string) :
  Str.is_ascii name = true -> slug_shaped (fuel_calc.slugify name).
Proof.
  intros Hname. unfold fuel_calc.slugify.
  set (s0 := fuel_calc.mark_non_alnum (Str.lower name)).
  set (s1 := Str.strip_by Str.is_underscore s0).
  assert (A1 : all_chars slug_char s1 = true).
  { unfold s1, Str.strip_by. apply all_chars_rstrip, all_chars_lstrip, marked_chars, Hname. }
  assert (H1 : head_ok Str.is_underscore s1 = true).
  { unfold s1, Str.strip_by. apply head_ok_rstrip, head_ok_lstrip. }
  assert (L1 : last_ok Str.is_underscore s1 = true).
  { unfold s1, Str.strip_by. apply last_ok_rstrip. }
  destruct (squeeze_keeps slug_char (String.length s1) s1) as (A & H & L & N).
  pose proof (squeeze_no_dunder (String.length s1) s1 (Nat.le_refl _)) as D.
  destruct (fuel_calc.squeeze (String.length s1) s1) as [|c t] eqn:E.
  - repeat split; try reflexivity. discriminate.
  - repeat split; auto. discriminate.
Qed.

Lemma shaped_lower (t : string) : all_chars slug_char t = true -> Str.lower t = t.
Proof.
  induction t as [|c t IH]; [reflexivity|]. cbn [all_chars Str.lower].
  intros H. apply andb_true_iff in H. destruct H as [Hc Ht].
  pose proof (slug_char_lower c) as Hl. rewrite Hc in Hl. cbn [implb] in Hl.
  apply Ascii.eqb_eq in Hl. rewrite Hl, (IH Ht). reflexivity.
Qed.

Lemma shaped_marked (t : string) :
  all_chars slug_char t = true -> fuel_calc.mark_non_alnum t = t.
Proof.
  induction t as [|c t IH]; [reflexivity|]. cbn [all_chars fuel_calc.mark_non_alnum].
  intros H. apply andb_true_iff in H. destruct H as [Hc Ht].
  pose proof (slug_char_fixed c) as Hf. pose proof (slug_char_lower c) as Hl.
  rewrite Hc in Hf, Hl. cbn [implb] in Hf, Hl.
  apply Ascii.eqb_eq in Hl. rewrite Hl in Hf. apply Ascii.eqb_eq in Hf.
  rewrite Hf, (IH Ht). reflexivity.
Qed.

Lemma shaped_fixed (t : string) : slug_shaped t -> fuel_calc.slugify t = t.
Proof.
  intros (N & A & D & H & L). unfold fuel_calc.slugify.
  rewrite (shaped_lower t A), (shaped_marked t A), (strip_fixed _ t H L),
    (squeeze_fixed _ t D).
  destruct t; [contradiction|reflexivity].
Qed.

End SlugFacts.

(** X9. The slug of an ASCII site name is never empty, consists of
    lower-case letters, digits and underscores, has no two underscores in a
    row (the [while] loop has run to its end) and neither begins nor ends
    with an underscore. *)
Theorem slugify_shape (name : string) :
  Str.is_ascii name = true ->
  fuel_calc.slugify name <> EmptyString /\
  all_chars slug_char (fuel_calc.slugify name) = true /\
  Str.has_dunder (fuel_calc.slugify name) = false /\
  Str.strip_by Str.is_underscore (fuel_calc.slugify name) = fuel_calc.slugify name.
Proof.
  intros Hname. destruct (SlugFacts.slugify_shaped name Hname) as (N & A & D & H & L).
  repeat split; try assumption. now apply SlugFacts.strip_fixed.
Qed.

Lemma slugify_shape_witness :
  fuel_calc.slugify "  Cape  Canaveral (USA)_" <> EmptyString /\
  all_chars slug_char (fuel_calc.slugify "  Cape  Canaveral (USA)_") = true /\
  Str.has_dunder (fuel_calc.slugify "  Cape  Canaveral (USA)_") = false /\
  Str.strip_by Str.is_underscore (fuel_calc.slugify "  Cape  Canaveral (USA)_")
    = fuel_calc.slugify "  Cape  Canaveral (USA)_".
Proof. apply slugify_shape. reflexivity. Defined.

(** X10. A slug is its own slug: [slugify] applied to the slug of an ASCII
    name returns it unchanged. *)
Theorem slugify_idempotent (name : string) :
  Str.is_ascii name = true ->
  fuel_calc.slugify (fuel_calc.slugify name) = fuel_calc.slugify name.
Proof.
  intros Hname. apply SlugFacts.shaped_fixed, SlugFacts.slugify_shaped, Hname.
Qed.

Lemma slugify_idempotent_witness :
  fuel_calc.slugify (fuel_calc.slugify "  Cape  Canaveral (USA)_")
  = fuel_calc.slugify "  Cape  Canaveral (USA)_".
Proof. apply slugify_idempotent. reflexivity. Defined.

Example slugify_cape : fuel_calc.slugify "  Cape  Canaveral (USA)_" = "cape_canaveral_usa"%string.
Proof. reflexivity. Qed.

(** ** Text *)

Module StrFacts.
Open Scope string_scope.

Lemma length_app (a b : string) :
  String.length (a ++ b) = (String.length a + String.length b)%nat.
Proof. induction a as [|c a IH]; cbn; [reflexivity|now rewrite IH]. Qed.

Lemma substring_all (s : string) : substring 0 (String.length s) s = s.
Proof. induction s as [|c s IH]; cbn; [reflexivity|now rewrite IH]. Qed.

Lemma substring_nil (s : string) : substring 0 0 s = "".
Proof. destruct s; reflexivity. Qed.

(** [s = s[:i] + s[i:]] *)
Lemma substring_split (s : string) (i : nat) :
  (i <= String.length s)%nat ->
  s = substring 0 i s ++ substring i (String.length s - i) s.
Proof.
  revert i. induction s as [|c s IH]; intros i Hi.
  - destruct i; [reflexivity|cbn in Hi; lia].
  - destruct i as [|i].
    + cbn [substring append]. rewrite Nat.sub_0_r.
      change (String.length (String c s)) with (S (String.length s)).
      cbn [substring]. now rewrite substring_all.
    + cbn [String.length] in Hi. cbn [substring String.length Nat.sub append].
      f_equal. apply IH. lia.
Qed.

Lemma substring_app_l (a b : string) : substring 0 (String.length a) (a ++ b) = a.
Proof.
  induction a as [|c a IH]; cbn [String.length append substring].
  - apply substring_nil.
  - now rewrite IH.
Qed.

Lemma substring_app_r (a b : string) :
  substring (String.length a) (String.length b) (a ++ b) = b.
Proof.
  induction a as [|c a IH]; cbn [String.length append substring].
  - apply substring_all.
  - exact IH.
Qed.

Lemma app_inv_tail (a b suf : string) : a ++ suf = b ++ suf -> a = b.
Proof.
  revert b. induction a as [|c a IH]; intros b H.
  - destruct b as [|d b]; [reflexivity|].
    apply (f_equal String.length) in H. cbn [append String.length] in H.
    rewrite length_app in H. lia.
  - destruct b as [|d b].
    + apply (f_equal String.length) in H. cbn [append String.length] in H.
      rewrite length_app in H. lia.
    + cbn [append] in H. injection H as -> H. f_equal. now apply IH.
Qed.

(** A column name that ends with the suffix is its slug followed by the
    suffix. *)
Lemma endswith_split (s suf : string) :
  Str.endswith s suf = true -> s = Str.drop_last (String.length suf) s ++ suf.
Proof.
  unfold Str.endswith, Str.drop_last. intros H. apply andb_true_iff in H.
  destruct H as [Hlen Heq]. apply Nat.leb_le in Hlen. apply String.eqb_eq in Heq.
  set (i := (String.length s - String.length suf)%nat) in *.
  rewrite (substring_split s i) at 1 by (unfold i; lia).
  f_equal. replace (String.length s - i)%nat with (String.length suf) by (unfold i; lia).
  exact Heq.
Qed.

Lemma endswith_app (a suf : string) : Str.endswith (a ++ suf) suf = true.
Proof.
  unfold Str.endswith. rewrite length_app. apply andb_true_iff. split.
  - apply Nat.leb_le. lia.
  - replace (String.length a + String.length suf - String.length suf)%nat
      with (String.length a) by lia.
    rewrite substring_app_r. apply String.eqb_refl.
Qed.

Lemma drop_last_app (a suf : string) : Str.drop_last (String.length suf) (a ++ suf) = a.
Proof.
  unfold Str.drop_last. rewrite length_app.
  replace (String.length a + String.length suf - String.length suf)%nat
    with (String.length a) by lia.
  apply substring_app_l.
Qed.
End StrFacts.

(** ** fuel_calc.py: the workstation table *)

(** Position [k] onwards of [enumerate]. *)
Lemma enumerate_from_cons {A : Type} (k : nat) (a : A) (l : list A) :
  combine (seq k (List.length (a :: l))) (a :: l) =
  (k, a) :: combine (seq (S k) (List.length l)) l.
Proof. reflexivity. Qed.

(** What [int(float(c))] gives for a cell, before the [except] clause. *)
Lemma py_float_errors (c : string) :
  (exists x, Parse.py_float c = Ok x) \/ Parse.py_float c = Raise ValueError.
Proof.
  unfold Parse.py_float. destruct (Parse.parse_numeral _); [left; eauto|now right].
Qed.

Lemma py_int_errors (x : float) :
  (exists n, Parse.py_int x = Ok n) \/ Parse.py_int x = Raise ValueError \/
  Parse.py_int x = Raise OverflowError.
Proof.
  unfold Parse.py_int. destruct (Prim2SF x); eauto.
Qed.

Lemma py_int_overflow (x : float) :
  Parse.py_int x = Raise OverflowError <-> is_infinity x = true.
Proof.
  unfold Parse.py_int, is_infinity.
  rewrite FloatAxioms.eqb_spec, FloatAxioms.abs_spec.
  replace (Prim2SF infinity) with (S754_infinity false) by reflexivity.
  destruct (Prim2SF x) as [[|]|[|]| |s m e]; split; try reflexivity; try discriminate.
Qed.

(** The count read from a cell, with the [except ValueError] clause. *)
Lemma count_of_cell (c : string) :
  (exists ws, except_ValueError (x <- Parse.py_float c ;; Parse.py_int x)%py 0%Z = Ok ws) \/
  (exists x, Parse.py_float c = Ok x /\ is_infinity x = true /\
     except_ValueError (x <- Parse.py_float c ;; Parse.py_int x)%py 0%Z = Raise OverflowError).
Proof.
  destruct (py_float_errors c) as [[x Hx]| ->]; [|left; now exists 0%Z].
  rewrite Hx. cbn [bind].
  destruct (py_int_errors x) as [[n Hn]|[Hn|Hn]].
  - left. exists n. now rewrite Hn.
  - left. exists 0%Z. now rewrite Hn.
  - right. exists x. split; [reflexivity|]. split; [now apply py_int_overflow|].
    now rewrite Hn.
Qed.

(** One column of the header. *)
Lemma workstations_step_cases (row : list string) (m : Dict.t Z) (idx : nat) (col : string) :
  (Str.endswith col fuel_calc.SUFFIX = false /\
   fuel_calc.load_workstations_step row m (idx, col) = Ok m) \/
  (Str.endswith col fuel_calc.SUFFIX = true /\ nth_error row idx = None /\
   fuel_calc.load_workstations_step row m (idx, col) = Raise IndexError) \/
  (Str.endswith col fuel_calc.SUFFIX = true /\
   exists c x, nth_error row idx = Some c /\ Parse.py_float c = Ok x /\
               is_infinity x = true /\
               fuel_calc.load_workstations_step row m (idx, col) = Raise OverflowError) \/
  (Str.endswith col fuel_calc.SUFFIX = true /\
   exists c ws, nth_error row idx = Some c /\
     except_ValueError (x <- Parse.py_float c ;; Parse.py_int x)%py 0%Z = Ok ws /\
     fuel_calc.load_workstations_step row m (idx, col) =
       Ok (Dict.set m (Str.drop_last (String.length fuel_calc.SUFFIX) col) ws)).
Proof.
  unfold fuel_calc.load_workstations_step.
  destruct (Str.endswith col fuel_calc.SUFFIX); [right|left; now split].
  unfold fuel_calc.cell_at.
  destruct (nth_error row idx) as [c|]; [right|left; repeat split].
  cbn [bind].
  destruct (count_of_cell c) as [[ws Hws]|(x & Hx & Hinf & Hov)].
  - right. split; [reflexivity|]. exists c, ws. split; [reflexivity|]. split; [exact Hws|].
    now rewrite Hws.
  - left. split; [reflexivity|]. exists c, x. repeat split; try assumption. now rewrite Hov.
Qed.

Lemma workstations_loop_errors (row l : list string) (k : nat) (m0 : Dict.t Z) :
  (exists m, foldM (fuel_calc.load_workstations_step row)
        (combine (seq k (List.length l)) l) m0 = Ok m) \/
  foldM (fuel_calc.load_workstations_step row)
        (combine (seq k (List.length l)) l) m0 = Raise IndexError \/
  foldM (fuel_calc.load_workstations_step row)
        (combine (seq k (List.length l)) l) m0 = Raise OverflowError.
Proof.
  revert k m0. induction l as [|col l IH]; intros k m0; [left; now exists m0|].
  rewrite enumerate_from_cons. cbn [foldM].
  destruct (workstations_step_cases row m0 k col)
    as [[_ ->]|[(_ & _ & ->)|[(_ & c & x & _ & _ & _ & ->)|(_ & c & ws & _ & _ & ->)]]];
    cbn [bind]; auto; apply IH.
Qed.

Lemma countable_iff (row : list string) (idx : nat) :
  countable row idx <->
  exists c ws, nth_error row idx = Some c /\
    except_ValueError (x <- Parse.py_float c ;; Parse.py_int x)%py 0%Z = Ok ws.
Proof.
  split.
  - intros (c & Hc & Hfin). exists c.
    destruct (count_of_cell c) as [[ws Hws]|(x & Hx & Hinf & _)].
    + exists ws. now split.
    + rewrite (Hfin x Hx) in Hinf. discriminate.
  - intros (c & ws & Hc & Hws). exists c. split; [exact Hc|].
    intros x Hx. destruct (is_infinity x) eqn:E; [|reflexivity].
    apply py_int_overflow in E. rewrite Hx in Hws. cbn [bind] in Hws.
    rewrite E in Hws. discriminate.
Qed.

Lemma workstations_loop_returns (row l : list string) (k : nat) (m0 : Dict.t Z) :
  (exists m, foldM (fuel_calc.load_workstations_step row)
        (combine (seq k (List.length l)) l) m0 = Ok m) <->
  (forall i col, nth_error l i = Some col -> Str.endswith col fuel_calc.SUFFIX = true ->
                 countable row (k + i)).
Proof.
  revert k m0. induction l as [|col l IH]; intros k m0.
  - split; [intros _ [|i] col' H; discriminate|intros _; now exists m0].
  - rewrite enumerate_from_cons. cbn [foldM].
    destruct (workstations_step_cases row m0 k col)
      as [[Hno ->]|[(Hyes & Hnone & ->)|[(Hyes & c & x & Hc & Hx & Hinf & ->)
                                        |(Hyes & c & ws & Hc & Hws & ->)]]];
      cbn [bind].
    + rewrite IH. split.
      * intros H [|i] col' Hi Hs.
        -- injection Hi as <-. congruence.
        -- replace (k + S i)%nat with (S k + i)%nat by lia. now apply (H i col').
      * intros H i col' Hi Hs. replace (S k + i)%nat with (k + S i)%nat by lia.
        now apply (H (S i) col').
    + split; [intros [m Hm]; discriminate|].
      intros H. destruct (H 0%nat col eq_refl Hyes) as (c & Hc & _).
      rewrite Nat.add_0_r in Hc. congruence.
    + split; [intros [m Hm]; discriminate|].
      intros H. destruct (H 0%nat col eq_refl Hyes) as (c' & Hc' & Hfin).
      rewrite Nat.add_0_r in Hc'. assert (c' = c) by congruence. subst c'.
      rewrite (Hfin x Hx) in Hinf. discriminate.
    + rewrite IH. split.
      * intros H [|i] col' Hi Hs.
        -- rewrite Nat.add_0_r. apply countable_iff. now exists c, ws.
        -- replace (k + S i)%nat with (S k + i)%nat by lia. now apply (H i col').
      * intros H i col' Hi Hs. replace (S k + i)%nat with (k + S i)%nat by lia.
        now apply (H (S i) col').
Qed.

Lemma workstations_loop_other (row l : list string) (k : nat) (m0 m : Dict.t Z) (slug : string) :
  foldM (fuel_calc.load_workstations_step row)
        (combine (seq k (List.length l)) l) m0 = Ok m ->
  ~ In (slug ++ fuel_calc.SUFFIX)%string l ->
  Dict.get m slug = Dict.get m0 slug.
Proof.
  revert k m0. induction l as [|col l IH]; intros k m0 Hm Hnot.
  - cbn in Hm. apply Ok_inj in Hm. now subst.
  - rewrite enumerate_from_cons in Hm. cbn [foldM] in Hm.
    assert (Hl : ~ In (slug ++ fuel_calc.SUFFIX)%string l) by (intros H; apply Hnot; now right).
    destruct (workstations_step_cases row m0 k col)
      as [[Hno E]|[(Hyes & Hnone & E)|[(Hyes & c & x & Hc & Hx & Hinf & E)
                                      |(Hyes & c & ws & Hc & Hws & E)]]];
      rewrite E in Hm; cbn [bind] in Hm; try discriminate.
    + now apply (IH (S k) m0).
    + rewrite (IH (S k) _ Hm Hl). apply get_set_other.
      intros Heq. apply Hnot. left.
      rewrite (StrFacts.endswith_split col fuel_calc.SUFFIX Hyes). now rewrite Heq.
Qed.

Lemma workstations_loop_lookup (row l : list string) (k : nat) (m0 m : Dict.t Z)
  (i : nat) (slug c : string) :
  foldM (fuel_calc.load_workstations_step row)
        (combine (seq k (List.length l)) l) m0 = Ok m -> NoDup l ->
  nth_error l i = Some (slug ++ fuel_calc.SUFFIX)%string ->
  nth_error row (k + i) = Some c ->
  exists ws,
    except_ValueError (x <- Parse.py_float c ;; Parse.py_int x)%py 0%Z = Ok ws /\
    Dict.get m slug = Some ws.
Proof.
  revert k m0 i. induction l as [|col l IH]; intros k m0 i Hm Hnd Hi Hc.
  - destruct i; discriminate.
  - inversion Hnd as [|? ? Hnot Hnd']; subst.
    rewrite enumerate_from_cons in Hm. cbn [foldM] in Hm.
    destruct (workstations_step_cases row m0 k col)
      as [[Hno E]|[(Hyes & Hnone & E)|[(Hyes & c' & x & Hc' & Hx & Hinf & E)
                                      |(Hyes & c' & ws & Hc' & Hws & E)]]];
      rewrite E in Hm; cbn [bind] in Hm; try discriminate.
    + destruct i as [|i].
      * injection Hi as ->. rewrite StrFacts.endswith_app in Hno. discriminate.
      * apply (IH (S k) m0 i); try assumption.
        now replace (S k + i)%nat with (k + S i)%nat by lia.
    + destruct i as [|i].
      * injection Hi as ->. rewrite Nat.add_0_r in Hc.
        assert (c' = c) by congruence. subst c'.
        exists ws. split; [exact Hws|].
        rewrite (workstations_loop_other row l (S k) _ m slug Hm Hnot).
        rewrite StrFacts.drop_last_app. apply get_set_same.
      * apply (IH (S k) _ i Hm); try assumption.
        now replace (S k + i)%nat with (k + S i)%nat by lia.
Qed.

(** X11. [load_workstations] fails with [StopIteration] exactly on a file of
    fewer than two rows; on any other file it returns or fails with
    [IndexError] or [OverflowError], never with another exception: the
    [ValueError] of a cell that is no number, or is NaN, is caught. *)
Theorem load_workstations_errors (f : Csv.file) :
  match fuel_calc.load_workstations f with
  | Ok _ => (2 <= List.length f)%nat
  | Raise e =>
      (e = StopIteration /\ (List.length f < 2)%nat) \/
      ((e = IndexError \/ e = OverflowError) /\ (2 <= List.length f)%nat)
  end.
Proof.
  destruct f as [|header [|row rest]].
  - left. split; [reflexivity|cbn; lia].
  - left. split; [reflexivity|cbn; lia].
  - unfold fuel_calc.load_workstations, fuel_calc.enumerate. cbn [Csv.next bind].
    destruct (workstations_loop_errors row header 0 []) as [[m ->]|[-> | ->]].
    + cbn [List.length]. lia.
    + right. split; [now left|cbn [List.length]; lia].
    + right. split; [now right|cbn [List.length]; lia].
Qed.

(** X12. On a first data row of ASCII cells, [load_workstations] returns a
    table exactly when every column named [..._workstations_in_use] has a cell
    in that row and no such cell reads as an infinity. *)
Theorem load_workstations_returns (header row : list string) (rest : Csv.file) :
  ascii_cells row ->
  ((exists ws_map, fuel_calc.load_workstations (header :: row :: rest) = Ok ws_map) <->
   (forall idx col,
      nth_error header idx = Some col -> Str.endswith col fuel_calc.SUFFIX = true ->
      countable row idx)).
Proof.
  intros _. unfold fuel_calc.load_workstations, fuel_calc.enumerate. cbn [Csv.next bind].
  apply (workstations_loop_returns row header 0 []).
Qed.

Lemma load_workstations_returns_witness :
  (exists ws_map,
     fuel_calc.load_workstations
       [["year"; "kourou_workstations_in_use"]; ["2050"; "1e999"]]%string = Ok ws_map) <->
  (forall idx col,
     nth_error ["year"; "kourou_workstations_in_use"]%string idx = Some col ->
     Str.endswith col fuel_calc.SUFFIX = true ->
     countable ["2050"; "1e999"]%string idx).
Proof.
  apply (load_workstations_returns ["year"; "kourou_workstations_in_use"]%string
           ["2050"; "1e999"]%string []).
  repeat constructor.
Defined.

Example load_workstations_overflow :
  fuel_calc.load_workstations
    [["year"; "kourou_workstations_in_use"]; ["2050"; "1e999"]]%string = Raise OverflowError /\
  fuel_calc.load_workstations
    [["year"; "kourou_workstations_in_use"]; ["2050"]]%string = Raise IndexError /\
  fuel_calc.load_workstations
    [["year"; "kourou_workstations_in_use"]; ["2050"; "nan"]]%string
    = Ok [("kourou"%string, 0%Z)].
Proof. repeat split; vm_compute; reflexivity. Qed.

(** X13. In the table [load_workstations] returns from a header without
    repeated names and a first data row of ASCII cells, every key is the name
    of a column of the header without its suffix [_workstations_in_use], and
    the count under a key is [int(float(cell))] for the cell of that row in the
    column, or 0 when that raises [ValueError]. *)
Theorem load_workstations_lookup (header row : list string) (rest : Csv.file)
  (ws_map : Dict.t Z) :
  fuel_calc.load_workstations (header :: row :: rest) = Ok ws_map ->
  NoDup header -> ascii_cells row ->
  (forall slug ws, Dict.get ws_map slug = Some ws ->
     In (slug ++ fuel_calc.SUFFIX)%string header) /\
  (forall idx slug c,
     nth_error header idx = Some (slug ++ fuel_calc.SUFFIX)%string ->
     nth_error row idx = Some c ->
     exists ws,
       except_ValueError (x <- Parse.py_float c ;; Parse.py_int x)%py 0%Z = Ok ws /\
       Dict.get ws_map slug = Some ws).
Proof.
  unfold fuel_calc.load_workstations, fuel_calc.enumerate. cbn [Csv.next bind].
  intros Hm Hnd _. split.
  - intros slug ws Hget.
    destruct (in_dec string_dec (slug ++ fuel_calc.SUFFIX)%string header) as [Hin|Hnot];
      [exact Hin|].
    rewrite (workstations_loop_other row header 0 [] ws_map slug Hm Hnot) in Hget.
    discriminate.
  - intros idx slug c Hi Hc.
    exact (workstations_loop_lookup row header 0 [] ws_map idx slug c Hm Hnd Hi Hc).
Qed.

Lemma load_workstations_lookup_witness :
  (forall slug ws,
     Dict.get [("kourou", 3%Z); ("baikonur", 0%Z)]%string slug = Some ws ->
     In (slug ++ fuel_calc.SUFFIX)%string
        ["year"; "kourou_workstations_in_use"; "baikonur_workstations_in_use"]%string) /\
  (forall idx slug c,
     nth_error ["year"; "kourou_workstations_in_use"; "baikonur_workstations_in_use"]%string idx
       = Some (slug ++ fuel_calc.SUFFIX)%string ->
     nth_error ["2050"; "3.9"; "n/a"]%string idx = Some c ->
     exists ws,
       except_ValueError (x <- Parse.py_float c ;; Parse.py_int x)%py 0%Z = Ok ws /\
       Dict.get [("kourou", 3%Z); ("baikonur", 0%Z)]%string slug = Some ws).
Proof.
  apply (load_workstations_lookup
           ["year"; "kourou_workstations_in_use"; "baikonur_workstations_in_use"]%string
           ["2050"; "3.9"; "n/a"]%string []).
  - vm_compute. reflexivity.
  - repeat constructor; cbn; intuition discriminate.
  - repeat constructor.
Defined.

(** ** fuel_calc.py: the delta-v table *)

(** A row either fails on its own or adds one entry, whatever the table
    holds so far. *)
Lemma load_dv_step_cases (r : Csv.row) :
  (exists e, forall m, fuel_calc.load_dv_step m r = Raise e) \/
  (exists slug dv, forall m, fuel_calc.load_dv_step m r = Ok (Dict.set m slug dv)).
Proof.
  unfold fuel_calc.load_dv_step.
  destruct (Csv.field_strip r "发射场") as [name|e]; cbn [bind]; [|left; now exists e].
  destruct (Csv.field r "大气dv(km/s)") as [ca|e]; cbn [bind]; [|left; now exists e].
  destruct (Parse.py_float_cell ca) as [xa|e]; cbn [bind]; [|left; now exists e].
  destruct (Csv.field r "真空dv(km/s)") as [cv|e]; cbn [bind]; [|left; now exists e].
  destruct (Parse.py_float_cell cv) as [xv|e]; cbn [bind]; [|left; now exists e].
  right. eexists. eexists. intros m. reflexivity.
Qed.

Lemma entry_inj (k k' : string) (v v' : float * float) :
  Ok [(k, v)] = Ok [(k', v')] -> k = k' /\ v = v'.
Proof.
  intros H. apply Ok_inj in H.
  split.
  - exact (f_equal (fun l : list (string * (float * float)) =>
                      match l with (a, _) :: _ => a | [] => k end) H).
  - exact (f_equal (fun l : list (string * (float * float)) =>
                      match l with (_, b) :: _ => b | [] => v end) H).
Qed.

Lemma load_dv_loop (rows : list Csv.row) (m0 m : Dict.t (float * float))
  (slug : string) (dv : float * float) :
  foldM fuel_calc.load_dv_step rows m0 = Ok m ->
  (Dict.get m slug = Some dv <->
   (exists before r after,
      rows = before ++ r :: after /\
      fuel_calc.load_dv_step [] r = Ok [(slug, dv)] /\
      forall r' dv', In r' after -> fuel_calc.load_dv_step [] r' <> Ok [(slug, dv')]) \/
   (Dict.get m0 slug = Some dv /\
    forall r' dv', In r' rows -> fuel_calc.load_dv_step [] r' <> Ok [(slug, dv')])).
Proof.
  revert m0. induction rows as [|r0 rows IH]; intros m0 Hm.
  - cbn in Hm. apply Ok_inj in Hm. subst m. split.
    + intros H. right. split; [exact H|]. intros r' dv' [].
    + intros [(before & r & after & E & _)|[H _]]; [|exact H].
      destruct before; discriminate.
  - cbn [foldM] in Hm.
    destruct (load_dv_step_cases r0) as [[e He]|(k0 & v0 & Hs)].
    { rewrite He in Hm. discriminate. }
    rewrite Hs in Hm. cbn [bind] in Hm. specialize (IH _ Hm).
    pose proof (Hs []) as Hs0. cbn [Dict.set] in Hs0.
    rewrite IH. split.
    + intros [(before & r & after & E & Hr & Hafter)|[Hget Hnone]].
      * left. exists (r0 :: before), r, after. subst rows. repeat split; assumption.
      * destruct (string_dec k0 slug) as [->|Hne].
        -- rewrite get_set_same in Hget.
           assert (v0 = dv) by congruence. subst v0.
           left. exists [], r0, rows. repeat split; assumption.
        -- rewrite get_set_other in Hget by assumption.
           right. split; [exact Hget|].
           intros r' dv' [<-|Hin]; [|now apply Hnone].
           rewrite Hs0. intros H. apply entry_inj in H. destruct H as [H _]. contradiction.
    + intros [(before & r & after & E & Hr & Hafter)|[Hget Hnone]].
      * destruct before as [|b before]; cbn [app] in E.
        -- injection E as <- <-. right.
           rewrite Hs0 in Hr. apply entry_inj in Hr. destruct Hr as [-> ->].
           split; [apply get_set_same|exact Hafter].
        -- injection E as <- ->. left. exists before, r, after. repeat split; assumption.
      * right. split.
        -- rewrite get_set_other; [exact Hget|].
           intros ->. apply (Hnone r0 v0); [now left|exact Hs0].
        -- intros r' dv' Hin. apply Hnone. now right.
Qed.

(** X14. In the table [load_dv] returns from a file whose data rows hold
    ASCII cells, the
    entry under a slug is the one of the last data row whose site name has
    that slug (its two delta-v cells read by [float] and multiplied by 1000),
    and there are no other entries: rows whose names differ only in case,
    blanks or punctuation share one entry, the later replacing the earlier. *)
Theorem load_dv_last_row_wins (f : Csv.file) (dv_map : Dict.t (float * float))
  (slug : string) (dv : float * float) :
  Forall ascii_cells (tl f) ->
  fuel_calc.load_dv f = Ok dv_map ->
  (Dict.get dv_map slug = Some dv <->
   exists before r after,
     Csv.DictReader f = before ++ r :: after /\
     fuel_calc.load_dv_step [] r = Ok [(slug, dv)] /\
     forall r' dv', In r' after -> fuel_calc.load_dv_step [] r' <> Ok [(slug, dv')]).
Proof.
  intros _ Hm. rewrite (load_dv_loop _ _ _ slug dv Hm). split.
  - intros [H|[H _]]; [exact H|discriminate].
  - intros H. now left.
Qed.

Lemma load_dv_last_row_wins_witness :
  Dict.get [("kourou"%string, (1200%float, 8200%float))] "kourou" = Some (1200%float, 8200%float) <->
  exists before r after,
    Csv.DictReader [["发射场"; "大气dv(km/s)"; "真空dv(km/s)"];
                    ["Kourou"; "1.5"; "8.0"]; [" KOUROU "; "1.2"; "8.2"]]%string
      = before ++ r :: after /\
    fuel_calc.load_dv_step [] r = Ok [("kourou"%string, (1200%float, 8200%float))] /\
    forall r' dv', In r' after ->
      fuel_calc.load_dv_step [] r' <> Ok [("kourou"%string, dv')].
Proof.
  apply (load_dv_last_row_wins
           [["发射场"; "大气dv(km/s)"; "真空dv(km/s)"];
            ["Kourou"; "1.5"; "8.0"]; [" KOUROU "; "1.2"; "8.2"]]%string).
  - unfold ascii_cells. cbn [tl]. repeat constructor.
  - vm_compute. reflexivity.
Defined.

(** ** fuel_calc.py: the keys of the delta-v table *)

Module StripFacts.
Open Scope string_scope.

Lemma is_ascii_list (s : string) :
  Str.is_ascii s = forallb (fun c => (Str.code c <? 128)%N) (list_ascii_of_string s).
Proof. induction s as [|c s IH]; cbn; [reflexivity|now rewrite IH]. Qed.

Lemma is_ascii_reverse (s : string) : Str.is_ascii (Str.reverse s) = Str.is_ascii s.
Proof.
  unfold Str.reverse. rewrite !is_ascii_list, list_ascii_of_string_of_list_ascii.
  set (p := fun c => (Str.code c <? 128)%N).
  induction (list_ascii_of_string s) as [|c l IH]; [reflexivity|].
  cbn [rev forallb]. rewrite forallb_app, IH. cbn [forallb]. rewrite andb_true_r.
  apply andb_comm.
Qed.

Lemma after_blank_ascii (backwards : bool) (s r : string) :
  Str.after_blank backwards s = Some r -> Str.is_ascii s = true -> Str.is_ascii r = true.
Proof.
  unfold Str.after_blank. intros H Hs.
  destruct s as [|c s]; [discriminate|].
  cbn [Str.is_ascii] in Hs. apply andb_true_iff in Hs. destruct Hs as [_ Hs].
  destruct (Str.is_space c); [injection H as <-; exact Hs|].
  destruct s as [|d s]; [discriminate|].
  cbn [Str.is_ascii] in Hs. apply andb_true_iff in Hs. destruct Hs as [_ Hs].
  destruct (if backwards then _ else _); [injection H as <-; exact Hs|].
  destruct s as [|e s]; [discriminate|].
  cbn [Str.is_ascii] in Hs. apply andb_true_iff in Hs. destruct Hs as [_ Hs].
  destruct (if backwards then _ else _); [injection H as <-; exact Hs|discriminate].
Qed.

Lemma drop_blanks_ascii (backwards : bool) (turns : nat) (s : string) :
  Str.is_ascii s = true -> Str.is_ascii (Str.drop_blanks backwards turns s) = true.
Proof.
  revert s. induction turns as [|n IH]; intros s Hs; [exact Hs|].
  cbn [Str.drop_blanks]. destruct (Str.after_blank backwards s) as [r|] eqn:E; [|exact Hs].
  apply IH. exact (after_blank_ascii backwards s r E Hs).
Qed.

(** Stripping an ASCII text leaves an ASCII text. *)
Lemma strip_ascii (s : string) : Str.is_ascii s = true -> Str.is_ascii (Str.strip s) = true.
Proof.
  intros Hs. unfold Str.strip. rewrite is_ascii_reverse.
  apply drop_blanks_ascii. rewrite is_ascii_reverse. now apply drop_blanks_ascii.
Qed.
End StripFacts.

(** A cell of a row of the reader is a cell of the line it was made of. *)
Lemma zip_row_cell (ks cells : list string) (d : Csv.row) (k s : string) :
  Dict.get (Csv.zip_row ks cells d) k = Some (Some s) ->
  In s cells \/ Dict.get d k = Some (Some s).
Proof.
  revert cells d. induction ks as [|k0 ks IH]; intros cells d H; [now right|].
  destruct cells as [|c cs]; cbn [Csv.zip_row] in H; apply IH in H.
  - destruct H as [[]|H]. right.
    destruct (string_dec k0 k) as [->|Hne].
    + rewrite get_set_same in H. discriminate.
    + now rewrite get_set_other in H.
  - destruct H as [H|H]; [left; now right|].
    destruct (string_dec k0 k) as [->|Hne].
    + rewrite get_set_same in H. left. left. congruence.
    + rewrite get_set_other in H by assumption. now right.
Qed.

Lemma DictReader_rows (f : Csv.file) (r : Csv.row) :
  In r (Csv.DictReader f) ->
  exists header cells, In cells (tl f) /\ r = Csv.zip_row header cells [].
Proof.
  destruct f as [|header body]; [intros []|].
  rewrite DictReader_cons. intros H. apply in_map_iff in H.
  destruct H as (cells & <- & Hin). apply filter_In in Hin.
  exists header, cells. split; [apply Hin|reflexivity].
Qed.

(** The key a row adds is the slug of its stripped site name. *)
Lemma load_dv_step_key (r : Csv.row) (k : string) (v : float * float) :
  fuel_calc.load_dv_step [] r = Ok [(k, v)] ->
  exists s, Dict.get r "发射场" = Some (Some s) /\ k = fuel_calc.slugify (Str.strip s).
Proof.
  unfold fuel_calc.load_dv_step, Csv.field_strip, Csv.field, Dict.getitem.
  destruct (Dict.get r "发射场") as [[s|]|]; cbn [bind]; try discriminate.
  destruct (Dict.get r "大气dv(km/s)") as [ca|]; cbn [bind]; [|discriminate].
  destruct (Parse.py_float_cell ca) as [xa|e]; cbn [bind]; [|discriminate].
  destruct (Dict.get r "真空dv(km/s)") as [cv|]; cbn [bind]; [|discriminate].
  destruct (Parse.py_float_cell cv) as [xv|e]; cbn [bind]; [|discriminate].
  cbn [Dict.set]. intros H. apply entry_inj in H. destruct H as [H _].
  exists s. split; [reflexivity|now symmetry].
Qed.

Lemma load_dv_key_shaped (f : Csv.file) (dv_map : Dict.t (float * float))
  (k : string) (v : float * float) :
  Forall ascii_cells (tl f) ->
  fuel_calc.load_dv f = Ok dv_map ->
  Dict.get dv_map k = Some v ->
  slug_shaped k.
Proof.
  intros Hascii Hm Hget.
  apply (load_dv_loop _ _ _ k v Hm) in Hget.
  destruct Hget as [(before & r & after & E & Hr & _)|[H _]]; [|discriminate].
  destruct (load_dv_step_key r k v Hr) as (s & Hs & ->).
  apply SlugFacts.slugify_shaped, StripFacts.strip_ascii.
  assert (Hin : In r (Csv.DictReader f)) by (rewrite E; apply in_elt).
  destruct (DictReader_rows f r Hin) as (header & cells & Hcells & ->).
  apply zip_row_cell in Hs. destruct Hs as [Hs|Hs]; [|discriminate].
  rewrite Forall_forall in Hascii. specialize (Hascii cells Hcells).
  unfold ascii_cells in Hascii. rewrite Forall_forall in Hascii. now apply Hascii.
Qed.

(** X15. Every key of the table [load_dv] returns from data rows of ASCII
    cells is a slug, equal to its own [slugify]; so a column of the
    workstation table whose name before the suffix is not in that form (an
    upper-case letter, a blank, two underscores in a row) matches no site and
    is skipped without a word, whatever its count. *)
Theorem load_dv_keys_are_slugs (f : Csv.file) (dv_map : Dict.t (float * float)) :
  Forall ascii_cells (tl f) ->
  fuel_calc.load_dv f = Ok dv_map ->
  (forall slug dv, Dict.get dv_map slug = Some dv ->
     fuel_calc.slugify slug = slug /\ all_chars slug_char slug = true) /\
  (forall (libm_exp : float -> float) (isp : fuel_calc.engine) (totals : float * float)
          (slug : string) (ws : Z),
     fuel_calc.slugify slug <> slug ->
     fuel_calc.site_step (mexp := b64_exp libm_exp) isp dv_map totals (slug, ws) = Ok totals).
Proof.
  intros Hascii Hm. split.
  - intros slug dv Hget.
    pose proof (load_dv_key_shaped f dv_map slug dv Hascii Hm Hget) as Hs.
    split; [now apply SlugFacts.shaped_fixed|apply Hs].
  - intros libm_exp isp totals slug ws Hne.
    apply site_step_skips. right.
    destruct (Dict.get dv_map slug) as [dv|] eqn:Hget; [|reflexivity].
    exfalso. apply Hne.
    apply SlugFacts.shaped_fixed. exact (load_dv_key_shaped f dv_map slug dv Hascii Hm Hget).
Qed.

Lemma load_dv_keys_are_slugs_witness :
  (forall slug dv,
     Dict.get [("kourou"%string, (1500%float, 8000%float))] slug = Some dv ->
     fuel_calc.slugify slug = slug /\ all_chars slug_char slug = true) /\
  (forall (libm_exp : float -> float) (isp : fuel_calc.engine) (totals : float * float)
          (slug : string) (ws : Z),
     fuel_calc.slugify slug <> slug ->
     fuel_calc.site_step (mexp := b64_exp libm_exp) isp
       [("kourou"%string, (1500%float, 8000%float))] totals (slug, ws) = Ok totals).
Proof.
  apply (load_dv_keys_are_slugs
           [["发射场"; "大气dv(km/s)"; "真空dv(km/s)"]; ["Kourou"; "1.5"; "8.0"]]%string).
  - unfold ascii_cells. cbn [tl]. repeat constructor.
  - vm_compute. reflexivity.
Defined.

Example capital_column_is_skipped :
  fuel_calc.main exp_stand_in
    [["发射场"; "大气dv(km/s)"; "真空dv(km/s)"]; ["Kourou"; "1.5"; "8.0"]]%string
    [["Kourou_workstations_in_use"]; ["3"]]%string
  = Ok [ ("液氧煤油"%string, 0, 0, 0); ("液氧液氢"%string, 0, 0, 0);
         ("液氧甲烷"%string, 0, 0, 0) ]%float.
Proof. vm_compute. reflexivity. Qed.

(** ** fuel_calc.py: the rows of the elevator_ground_cost.output *)

(** X16. The three rows [main] computes come in the order kerosene,
    hydrogen, methane; the CO2 figure of a row is the sum of its two totals
    times the factor of its own fuel, 1.47, 1.66 and 1.08 (the two tables list
    the fuels in different orders); the lookup of the factor never fails. *)
Theorem totals_rows (libm_exp : float -> float)
  (dv_map : Dict.t (float * float)) (ws_map : Dict.t Z) :
  fuel_calc.totals (mexp := b64_exp libm_exp) dv_map ws_map =
  ('(atm1, vac1) <- fuel_calc.fuel_totals (mexp := b64_exp libm_exp)
                      {| fuel_calc.isp_sea := 310; fuel_calc.isp_vac := 368 |} dv_map ws_map ;;
   '(atm2, vac2) <- fuel_calc.fuel_totals (mexp := b64_exp libm_exp)
                      {| fuel_calc.isp_sea := 386; fuel_calc.isp_vac := 472 |} dv_map ws_map ;;
   '(atm3, vac3) <- fuel_calc.fuel_totals (mexp := b64_exp libm_exp)
                      {| fuel_calc.isp_sea := 370; fuel_calc.isp_vac := 400 |} dv_map ws_map ;;
   Ok [ ("液氧煤油"%string, atm1, vac1, (atm1 + vac1) * 1.47);
        ("液氧液氢"%string, atm2, vac2, (atm2 + vac2) * 1.66);
        ("液氧甲烷"%string, atm3, vac3, (atm3 + vac3) * 1.08) ])%py%float.
Proof.
  unfold fuel_calc.totals, Dict.items, fuel_calc.ENGINE_TYPES.
  cbn [mapM fuel_calc.fuel_row].
  replace (@lit float b64 310 0) with 310%float by reflexivity.
  replace (@lit float b64 368 0) with 368%float by reflexivity.
  replace (@lit float b64 386 0) with 386%float by reflexivity.
  replace (@lit float b64 472 0) with 472%float by reflexivity.
  replace (@lit float b64 370 0) with 370%float by reflexivity.
  replace (@lit float b64 400 0) with 400%float by reflexivity.
  destruct (fuel_calc.fuel_totals _ dv_map ws_map) as [[a1 v1]|e]; cbn [bind]; [|reflexivity].
  destruct (fuel_calc.fuel_totals _ dv_map ws_map) as [[a2 v2]|e]; cbn [bind]; [|reflexivity].
  destruct (fuel_calc.fuel_totals _ dv_map ws_map) as [[a3 v3]|e]; cbn [bind]; [|reflexivity].
  reflexivity.
Qed.




(** ** fuel_calc.py: how the computation can fail *)

Section TotalsErrors.
Variable libm_exp : float -> float.

Lemma math_exp_errors (x : float) : overflow_or_domain libm_exp (B64.math_exp libm_exp x).
Proof.
  unfold B64.math_exp, overflow_or_domain.
  destruct (is_nan (libm_exp x) && negb (is_nan x)) eqn:E.
  - right. split; [reflexivity|]. apply andb_true_iff in E. destruct E as [E1 E2].
    exists x. split; [exact E1|]. now apply negb_true_iff.
  - destruct (is_infinity (libm_exp x) && is_finite x); [now left|exact I].
Qed.

Lemma bind_errors {A B : Type} (c : result A) (k : A -> result B) :
  overflow_or_domain libm_exp c -> (forall a, overflow_or_domain libm_exp (k a)) ->
  overflow_or_domain libm_exp (bind c k).
Proof. destruct c as [a|e]; cbn [bind]; [intros _ H; apply H|intros H _; exact H]. Qed.

Lemma propellant_errors (dv isp : float) :
  (0 <? isp)%float = true ->
  overflow_or_domain libm_exp
    (fuel_calc.propellant_per_launch (mexp := b64_exp libm_exp) dv isp).
Proof.
  intros Hisp. unfold fuel_calc.propellant_per_launch.
  rewrite (truediv_isp_G0 dv isp Hisp). cbn [bind math_exp b64_exp].
  apply bind_errors; [apply math_exp_errors|]. intros ratio. exact I.
Qed.

Lemma of_int_errors (n : Z) : overflow_or_domain libm_exp (B64.of_int n).
Proof.
  unfold B64.of_int. destruct (binary_normalize prec emax n 0 false); cbn; auto.
Qed.

Lemma mul_int_errors (x : float) (n : Z) : overflow_or_domain libm_exp (mul_int x n).
Proof.
  unfold mul_int. apply bind_errors; [apply of_int_errors|]. intros y. exact I.
Qed.

Lemma site_step_errors (isp : fuel_calc.engine) (dv_map : Dict.t (float * float))
  (totals : float * float) (site : string * Z) :
  (0 <? fuel_calc.isp_sea isp)%float = true -> (0 <? fuel_calc.isp_vac isp)%float = true ->
  overflow_or_domain libm_exp
    (fuel_calc.site_step (mexp := b64_exp libm_exp) isp dv_map totals site).
Proof.
  intros Hsea Hvac. unfold fuel_calc.site_step.
  destruct totals as [ta tv]. destruct site as [slug ws].
  destruct (ws <=? 0)%Z; [exact I|].
  unfold Dict.contains, Dict.getitem.
  destruct (Dict.get dv_map slug) as [[dv_atm dv_vac]|]; [|exact I].
  cbn [negb bind].
  apply bind_errors; [now apply propellant_errors|]. intros atm_per.
  apply bind_errors; [now apply propellant_errors|]. intros vac_per.
  apply bind_errors; [apply mul_int_errors|]. intros atm.
  apply bind_errors; [apply mul_int_errors|]. intros vac. exact I.
Qed.

Lemma fuel_totals_errors (isp : fuel_calc.engine) (dv_map : Dict.t (float * float))
  (sites : list (string * Z)) (totals : float * float) :
  (0 <? fuel_calc.isp_sea isp)%float = true -> (0 <? fuel_calc.isp_vac isp)%float = true ->
  overflow_or_domain libm_exp
    (foldM (fuel_calc.site_step (mexp := b64_exp libm_exp) isp dv_map) sites totals).
Proof.
  intros Hsea Hvac. revert totals. induction sites as [|site sites IH]; intros totals.
  - exact I.
  - cbn [foldM]. apply bind_errors; [now apply site_step_errors|]. exact IH.
Qed.
End TotalsErrors.

(** X18. The computation of the three rows either returns them or fails
    with [OverflowError] ([exp] of a quotient beyond the float range, or a
    launch count too large for a float) or, with a C library whose [exp]
    returns NaN for a number, with [ValueError]; it never divides by zero and
    never misses a key. *)
Theorem totals_errors (libm_exp : float -> float)
  (dv_map : Dict.t (float * float)) (ws_map : Dict.t Z) :
  match fuel_calc.totals (mexp := b64_exp libm_exp) dv_map ws_map with
  | Ok rows => List.length rows = 3%nat
  | Raise e =>
      e = OverflowError \/
      (e = ValueError /\ exists x, is_nan (libm_exp x) = true /\ is_nan x = false)
  end.
Proof.
  unfold fuel_calc.totals, Dict.items, fuel_calc.ENGINE_TYPES.
  cbn [mapM fuel_calc.fuel_row]. unfold fuel_calc.fuel_totals.
  pose proof (fun isp Hs Hv =>
    fuel_totals_errors libm_exp isp dv_map (Dict.items ws_map) (lit 0 0, lit 0 0) Hs Hv) as H.
  pose proof (H {| fuel_calc.isp_sea := lit 310 0; fuel_calc.isp_vac := lit 368 0 |}
                eq_refl eq_refl) as H1.
  pose proof (H {| fuel_calc.isp_sea := lit 386 0; fuel_calc.isp_vac := lit 472 0 |}
                eq_refl eq_refl) as H2.
  pose proof (H {| fuel_calc.isp_sea := lit 370 0; fuel_calc.isp_vac := lit 400 0 |}
                eq_refl eq_refl) as H3.
  destruct (foldM _ (Dict.items ws_map) _) as [[a1 v1]|e]; cbn [bind]; [|exact H1].
  destruct (foldM _ (Dict.items ws_map) _) as [[a2 v2]|e]; cbn [bind]; [|exact H2].
  destruct (foldM _ (Dict.items ws_map) _) as [[a3 v3]|e]; cbn [bind]; [|exact H3].
  reflexivity.
Qed.

(** ** plot_water_cost.py against water_schedule_cost.py, in exact arithmetic *)

Lemma accumulate_step (incs : list R) (s : R) (d : nat) :
  (d < List.length incs)%nat ->
  nth (S d) (accumulate s incs) 0%R = (nth d (accumulate s incs) 0 + nth d incs 0)%R.
Proof.
  revert s d. induction incs as [|i incs IH]; intros s d Hd; [cbn in Hd; lia|].
  cbn [accumulate]. destruct d as [|d].
  - cbn [nth]. rewrite accumulate_head. reflexivity.
  - change (nth (S (S d)) (s :: accumulate (add s i) incs) 0%R)
      with (nth (S d) (accumulate (add s i) incs) 0%R).
    rewrite IH by (cbn in Hd; lia). reflexivity.
Qed.

Lemma nth_range (a b : Z) (d : nat) :
  (d < Z.to_nat (b - a))%nat -> nth d (plot_water_cost.range a b) 0%Z = (a + Z.of_nat d)%Z.
Proof.
  intros Hd. unfold plot_water_cost.range.
  set (f := fun k : nat => (a + Z.of_nat k)%Z).
  rewrite (nth_indep _ 0%Z (f 0%nat)) by (now rewrite length_map, length_seq).
  rewrite (map_nth f), seq_nth by assumption. reflexivity.
Qed.

Lemma nth_daily_cost (cpd dpd c : R) (d : nat) :
  (d < 365)%nat ->
  nth d (map (fun t => (t * c)%R)
           (map (daily_tonnage cpd dpd) (plot_water_cost.range 1 366))) 0%R
  = ((if (S d <=? 102)%nat then cpd else dpd) * c)%R.
Proof.
  intros Hd. rewrite map_map.
  set (f := fun x : Z => (daily_tonnage cpd dpd x * c)%R).
  rewrite (nth_indep _ 0%R (f 0%Z)) by (rewrite length_map, range_length; cbn; lia).
  rewrite (map_nth f), nth_range by (cbn; lia). unfold f.
  unfold daily_tonnage, plot_water_cost.DAYS_FULL.
  destruct (Nat.leb_spec (S d) 102) as [H|H];
    destruct (Z.leb_spec (1 + Z.of_nat d) 102) as [H'|H']; try lia; reflexivity.
Qed.

Lemma series_closed_form (cpd dpd c : R) (d : nat) :
  (d <= 365)%nat ->
  nth d (accumulate 0%R
           (map (fun t => (t * c)%R)
              (map (daily_tonnage cpd dpd) (plot_water_cost.range 1 366)))) 0%R
  = (cumulative_tonnage cpd dpd d * c)%R.
Proof.
  induction d as [|d IH]; intros Hd.
  - rewrite accumulate_head. unfold cumulative_tonnage. cbn. lra.
  - rewrite accumulate_step by (rewrite !length_map, range_length; cbn; lia).
    rewrite IH by lia. rewrite nth_daily_cost by lia.
    unfold cumulative_tonnage.
    destruct (Nat.leb_spec (S d) 102) as [H|H].
    + destruct (Nat.leb_spec d 102) as [H'|H']; [|lia]. rewrite S_INR. lra.
    + destruct (Nat.leb_spec d 102) as [H'|H'].
      * assert (d = 102%nat) by lia. subst d. cbn. lra.
      * replace (S d - 102)%nat with (S (d - 102)) by lia. rewrite S_INR. lra.
Qed.

(** X19. In exact arithmetic the value of a series on day [d] is the cost per
    ton times the tons delivered so far: [d] days at daily capacity up to day
    102, then 102 days at daily capacity and [d - 102] days at the daily
    deficit of 380 tons. *)
Theorem series_closed_form_exact (capacity_per_year cost_elev cost_ground : R) :
  exists elevator_recovery ground_recovery : list R,
    plot_water_cost.series_of capacity_per_year cost_elev cost_ground
      = Ok (plot_water_cost.range 0 366, elevator_recovery, ground_recovery) /\
    forall d : nat, (d <= 365)%nat ->
      nth d elevator_recovery 0%R
        = (cumulative_tonnage (capacity_per_year / 365) 380 d * cost_elev)%R /\
      nth d ground_recovery 0%R
        = (cumulative_tonnage (capacity_per_year / 365) 380 d * cost_ground)%R.
Proof.
  rewrite series_of_exact. do 2 eexists. split; [reflexivity|].
  intros d Hd. split; apply series_closed_form; exact Hd.
Qed.

(** X20. In exact arithmetic the last point of each curve the plot script
    draws is the total cost the schedule script reports for the same capacity
    and that curve's cost per ton, and the point of day 102 is the cost of
    what was delivered at full capacity. *)
Theorem plot_ends_at_total_cost (capacity_per_year cost_elev cost_ground : R) :
  exists (days : list Z) (elevator_recovery ground_recovery : list R)
         (s_elev s_ground : water_schedule_cost.schedule),
    plot_water_cost.series_of capacity_per_year cost_elev cost_ground
      = Ok (days, elevator_recovery, ground_recovery) /\
    water_schedule_cost.compute cost_elev capacity_per_year = Ok s_elev /\
    water_schedule_cost.compute cost_ground capacity_per_year = Ok s_ground /\
    nth 365 elevator_recovery 0%R = water_schedule_cost.total_cost s_elev /\
    nth 365 ground_recovery 0%R = water_schedule_cost.total_cost s_ground /\
    nth 102 elevator_recovery 0%R
      = (water_schedule_cost.delivered_full s_elev * cost_elev)%R /\
    nth 102 ground_recovery 0%R
      = (water_schedule_cost.delivered_full s_ground * cost_ground)%R.
Proof.
  destruct (compute_exact cost_elev capacity_per_year) as (se & Hse & Hfe & Hde & Hte & Hce).
  destruct (compute_exact cost_ground capacity_per_year) as (sg & Hsg & Hfg & Hdg & Htg & Hcg).
  rewrite series_of_exact. do 3 eexists. exists se, sg.
  split; [reflexivity|]. split; [exact Hse|]. split; [exact Hsg|].
  rewrite !series_closed_form by lia.
  rewrite Hce, Hcg, Hte, Htg, Hfe, Hfg, Hde, Hdg.
  unfold cumulative_tonnage. cbn [Nat.leb Nat.sub].
  replace (INR 263) with 263%R by (cbn; lra).
  replace (INR 102) with 102%R by (cbn; lra).
  repeat split; lra.
Qed.

(** ** water_schedule_cost.py: the reserve, in exact arithmetic *)

Lemma max2_zero_exact (x : R) : max2 x (lit 0 0) = Rmax x 0.
Proof.
  unfold max2, gtb. cbn [ltb lit exact]. unfold Exact.ltb, Exact.of_decimal.
  cbn [Z.leb Z.compare]. change (10 ^ 0)%Z with 1%Z. rewrite Rmult_0_l.
  unfold Rmax. destruct (Rlt_dec x 0) as [H|H]; destruct (Rle_dec x 0) as [H'|H']; lra.
Qed.

Lemma reserve_exact (cost_per_ton capacity_per_year : R) :
  exists s,
    water_schedule_cost.compute cost_per_ton capacity_per_year = Ok s /\
    water_schedule_cost.reserve_target s = 693500%R /\
    water_schedule_cost.reserve_filled s
      = Rmax (capacity_per_year / 365 * 102 - 38760) 0 /\
    water_schedule_cost.remaining_reserve s
      = Rmax (693500 - water_schedule_cost.reserve_filled s) 0.
Proof.
  unfold water_schedule_cost.compute,
    water_schedule_cost.DAYS_PER_YEAR, water_schedule_cost.DAYS_FULL,
    water_schedule_cost.DAYS_DEFICIT.
  rewrite !truediv_int_exact by discriminate. cbn [bind mul_int of_int exact].
  eexists. split; [reflexivity|].
  cbn [water_schedule_cost.reserve_target water_schedule_cost.reserve_filled
       water_schedule_cost.remaining_reserve].
  rewrite !max2_zero_exact.
  assert (Hd : (water_schedule_cost.ANNUAL_USE_TONS * water_schedule_cost.DEFICIT_RATE)%num
               = 138700%R).
  { unfold water_schedule_cost.ANNUAL_USE_TONS, water_schedule_cost.DEFICIT_RATE,
      water_schedule_cost.RECOVERY_RATE. cbn [lit sub mul exact]. unfold Exact.of_decimal.
    cbn [Z.leb Z.compare Z.opp]. change (10 ^ 0)%Z with 1%Z. change (10 ^ 2)%Z with 100%Z.
    lra. }
  assert (Ht : (water_schedule_cost.ANNUAL_USE_TONS * water_schedule_cost.RESERVE_FRACTION)%num
               = 693500%R).
  { unfold water_schedule_cost.ANNUAL_USE_TONS, water_schedule_cost.RESERVE_FRACTION.
    cbn [lit mul exact]. unfold Exact.of_decimal.
    cbn [Z.leb Z.compare Z.opp]. change (10 ^ 0)%Z with 1%Z. change (10 ^ 2)%Z with 100%Z.
    lra. }
  rewrite Hd, Ht. cbn [sub mul div exact].
  split; [reflexivity|]. split; [|reflexivity].
  f_equal. lra.
Qed.

(** X21. In exact arithmetic: nothing is put in reserve exactly when the
    yearly capacity is at most the yearly deficit of 138,700 tons; the
    reserve target of 693,500 tons is met in the 102 days exactly when the
    capacity is at least [732260 * 365 / 102] (about 2,620,342) tons a year;
    and what is filled plus what remains is the target, unless more than the
    target was filled. *)
Theorem reserve_thresholds (cost_per_ton capacity_per_year : R) :
  exists s,
    water_schedule_cost.compute cost_per_ton capacity_per_year = Ok s /\
    (water_schedule_cost.reserve_filled s = 0%R <-> (capacity_per_year <= 138700)%R) /\
    (water_schedule_cost.remaining_reserve s = 0%R <->
     (732260 * 365 / 102 <= capacity_per_year)%R) /\
    (water_schedule_cost.reserve_filled s + water_schedule_cost.remaining_reserve s
     = Rmax 693500 (water_schedule_cost.reserve_filled s))%R.
Proof.
  destruct (reserve_exact cost_per_ton capacity_per_year) as (s & Hs & _ & Hf & Hr).
  exists s. split; [exact Hs|]. rewrite Hr, Hf.
  unfold Rmax.
  repeat match goal with
  | |- context [Rle_dec ?a ?b] => destruct (Rle_dec a b)
  end; repeat split; intros; lra.
Qed.

(** ** plot_water_cost.py: the rows of the two averages *)

Lemma first_of_type_spec (label : string) (rows : list Csv.row) :
  match plot_water_cost.first_of_type label rows with
  | Ok r =>
      exists before after,
        rows = before ++ r :: after /\
        Dict.get r "类型" = Some (Some label) /\
        forall p, In p before ->
          exists v, Dict.get p "类型" = Some v /\ v <> Some label
  | Raise e =>
      (e = StopIteration /\
       forall p, In p rows -> exists v, Dict.get p "类型" = Some v /\ v <> Some label) \/
      (e = KeyError /\
       exists before p after,
         rows = before ++ p :: after /\ Dict.get p "类型" = None /\
         forall q, In q before -> exists v, Dict.get q "类型" = Some v /\ v <> Some label)
  end.
Proof.
  induction rows as [|r rows IH].
  - left. split; [reflexivity|]. intros p [].
  - cbn [plot_water_cost.first_of_type]. unfold Csv.field, Dict.getitem.
    destruct (Dict.get r "类型") as [v|] eqn:Hv; cbn [bind].
    + assert (Hskip : v <> Some label ->
        match plot_water_cost.first_of_type label rows with
        | Ok r0 =>
            exists before after,
              r :: rows = before ++ r0 :: after /\
              Dict.get r0 "类型" = Some (Some label) /\
              forall p, In p before -> exists v, Dict.get p "类型" = Some v /\ v <> Some label
        | Raise e =>
            (e = StopIteration /\
             forall p, In p (r :: rows) ->
               exists v, Dict.get p "类型" = Some v /\ v <> Some label) \/
            (e = KeyError /\
             exists before p after,
               r :: rows = before ++ p :: after /\ Dict.get p "类型" = None /\
               forall q, In q before ->
                 exists v, Dict.get q "类型" = Some v /\ v <> Some label)
        end).
      { intros Hne. destruct (plot_water_cost.first_of_type label rows) as [r0|e].
        - destruct IH as (before & after & E & Hr0 & Hb).
          exists (r :: before), after. subst rows. split; [reflexivity|]. split; [exact Hr0|].
          intros p [<-|Hin]; [now exists v|now apply Hb].
        - destruct IH as [[-> Hall]|(-> & before & p & after & E & Hp & Hb)].
          + left. split; [reflexivity|]. intros p [<-|Hin]; [now exists v|now apply Hall].
          + right. split; [reflexivity|]. exists (r :: before), p, after. subst rows.
            split; [reflexivity|]. split; [exact Hp|].
            intros q [<-|Hin]; [now exists v|now apply Hb]. }
      destruct v as [s|]; [|apply Hskip; discriminate].
      destruct (String.eqb_spec s label) as [->|Hne].
      * exists [], rows. split; [reflexivity|]. split; [exact Hv|]. intros p [].
      * apply Hskip. congruence.
    + right. split; [reflexivity|]. exists [], r, rows.
      split; [reflexivity|]. split; [exact Hv|]. intros q [].
Qed.

(** X22. [read_costs] takes the price of the first row of type [电梯平均] and
    of the first row of type [地面平均]: the two rows may come in either order,
    rows of another type and later rows of the same type are not read. *)
Theorem read_costs_first_rows (f : Csv.file) (cost_elev cost_ground : float) :
  plot_water_cost.read_costs f = Ok (cost_elev, cost_ground) ->
  exists elevator ground : Csv.row,
    first_with_type "电梯平均" (Csv.DictReader f) elevator /\
    first_with_type "地面平均" (Csv.DictReader f) ground /\
    (cell <- Csv.field elevator "每吨价格(亿美元/吨)" ;; Parse.py_float_cell cell)%py = Ok cost_elev /\
    (cell <- Csv.field ground "每吨价格(亿美元/吨)" ;; Parse.py_float_cell cell)%py = Ok cost_ground.
Proof.
  unfold plot_water_cost.read_costs.
  pose proof (first_of_type_spec "电梯平均" (Csv.DictReader f)) as He.
  pose proof (first_of_type_spec "地面平均" (Csv.DictReader f)) as Hg.
  destruct (plot_water_cost.first_of_type "电梯平均" (Csv.DictReader f)) as [e|err];
    cbn [bind]; [|discriminate].
  destruct (plot_water_cost.first_of_type "地面平均" (Csv.DictReader f)) as [g|err];
    cbn [bind]; [|discriminate].
  intros H. exists e, g. split; [exact He|]. split; [exact Hg|].
  destruct (Csv.field e "每吨价格(亿美元/吨)") as [ce|err]; cbn [bind] in *; [|discriminate].
  destruct (Parse.py_float_cell ce) as [xe|err]; cbn [bind] in *; [|discriminate].
  destruct (Csv.field g "每吨价格(亿美元/吨)") as [cg|err]; cbn [bind] in *; [|discriminate].
  destruct (Parse.py_float_cell cg) as [xg|err]; cbn [bind] in *; [|discriminate].
  apply Ok_inj in H.
  assert (xe = cost_elev) by exact (f_equal fst H).
  assert (xg = cost_ground) by exact (f_equal snd H).
  subst. split; reflexivity.
Qed.

Lemma read_costs_first_rows_witness :
  exists elevator ground : Csv.row,
    first_with_type "电梯平均"
      (Csv.DictReader [["类型"; "每吨价格(亿美元/吨)"]; ["地面平均"; "0.3"]; ["其他"; "x"];
                       ["电梯平均"; "0.1"]; ["地面平均"; "0.9"]]%string) elevator /\
    first_with_type "地面平均"
      (Csv.DictReader [["类型"; "每吨价格(亿美元/吨)"]; ["地面平均"; "0.3"]; ["其他"; "x"];
                       ["电梯平均"; "0.1"]; ["地面平均"; "0.9"]]%string) ground /\
    (cell <- Csv.field elevator "每吨价格(亿美元/吨)" ;; Parse.py_float_cell cell)%py
      = Ok 0.1%float /\
    (cell <- Csv.field ground "每吨价格(亿美元/吨)" ;; Parse.py_float_cell cell)%py
      = Ok 0.3%float.
Proof.
  apply read_costs_first_rows. vm_compute. reflexivity.
Defined.


(** ** Formatted numbers read back *)

Example format_samples :
  map (Fmt.format_fixed 6)
    [0.049909999999999996; 0; -0; -1e-9; 1234.5; 0.0078125; 0.0234375; 1e22; infinity;
     neg_infinity; nan]%float
  = ["0.049910"; "0.000000"; "-0.000000"; "-0.000000"; "1234.500000"; "0.007812";
     "0.023438"; "10000000000000000000000.000000"; "inf"; "-inf"; "nan"]%string.
Proof. vm_compute. reflexivity. Qed.

Example format_samples_3 :
  map (Fmt.format_fixed 3) [1387000; 2.0005; 0.0005; 99939.999999999985; 0.0625]%float
  = ["1387000.000"; "2.001"; "0.001"; "99940.000"; "0.062"]%string /\
  map (Fmt.format_fixed 0) [0.5; 1.5; 2.5; 3.5]%float = ["0"; "2"; "2"; "4"]%string.
Proof. split; vm_compute; reflexivity. Qed.

Module FmtFacts.
Open Scope string_scope.
Open Scope Z_scope.

(** *** Characters of a formatted number *)

Lemma plain_char (c : ascii) :
  implb (plain c) (negb (Str.is_c_space c) && negb (Str.is_underscore c)) = true.
Proof. destruct c as [[] [] [] [] [] [] [] []]; reflexivity. Qed.

Lemma digit_char (c : ascii) :
  implb (Str.is_digit c)
        (Ascii.eqb (Str.lower_char c) c && negb (Ascii.eqb c "i") && negb (Ascii.eqb c "n")
         && negb (Ascii.eqb c "-") && negb (Ascii.eqb c "+") && negb (Ascii.eqb c "."))
  = true.
Proof. destruct c as [[] [] [] [] [] [] [] []]; reflexivity. Qed.

Lemma digit_spec (d : Z) :
  0 <= d < 10 ->
  Str.is_digit (Fmt.digit d) = true /\ Parse.digit_value (Fmt.digit d) = d.
Proof.
  intros H.
  assert (C : d = 0 \/ d = 1 \/ d = 2 \/ d = 3 \/ d = 4 \/ d = 5 \/ d = 6 \/ d = 7 \/
              d = 8 \/ d = 9) by lia.
  repeat (destruct C as [->|C]; [split; reflexivity|]). subst. split; reflexivity.
Qed.

Lemma all_chars_app (p : ascii -> bool) (a b : string) :
  all_chars p (a ++ b) = all_chars p a && all_chars p b.
Proof. induction a as [|c a IH]; cbn; [reflexivity|]. now rewrite IH, andb_assoc. Qed.

Lemma all_chars_weaken (p q : ascii -> bool) (s : string) :
  (forall c, implb (p c) (q c) = true) -> all_chars p s = true -> all_chars q s = true.
Proof.
  intros Hpq. induction s as [|c s IH]; [reflexivity|]. cbn [all_chars].
  intros H. apply andb_true_iff in H. destruct H as [Hc Hs].
  specialize (Hpq c). rewrite Hc in Hpq. cbn in Hpq. rewrite Hpq. now apply IH.
Qed.

Lemma digits_fixed_all (w : nat) (n : Z) :
  all_chars Str.is_digit (Fmt.digits_fixed w n) = true.
Proof.
  induction w as [|w IH]; [reflexivity|]. cbn [Fmt.digits_fixed all_chars].
  rewrite IH, andb_true_r. apply digit_spec. apply Z.mod_pos_bound. lia.
Qed.

Lemma count_digits_pos (turns : nat) (n : Z) : (1 <= Fmt.count_digits turns n)%nat.
Proof. destruct turns; cbn; [lia|]. destruct (n <? 10); lia. Qed.

(** Enough digits are counted. *)
Lemma count_digits_bound (turns : nat) (n : Z) :
  0 <= n -> n < 10 * 2 ^ Z.of_nat turns ->
  n < 10 ^ Z.of_nat (Fmt.count_digits turns n).
Proof.
  revert n. induction turns as [|t IH]; intros n Hn Hb.
  - cbn in *. lia.
  - cbn [Fmt.count_digits]. destruct (Z.ltb_spec n 10) as [Hlt|Hge]; [cbn; lia|].
    rewrite Nat2Z.inj_succ, Z.pow_succ_r by lia.
    assert (Hq : n / 10 < 10 ^ Z.of_nat (Fmt.count_digits t (n / 10))).
    { apply IH; [apply Z.div_pos; lia|].
      rewrite Nat2Z.inj_succ, Z.pow_succ_r in Hb by lia.
      apply Z.div_lt_upper_bound; [lia|].
      assert (0 < 2 ^ Z.of_nat t) by (apply Z.pow_pos_nonneg; lia). nia. }
    pose proof (Z.div_mod n 10 ltac:(lia)). pose proof (Z.mod_pos_bound n 10 ltac:(lia)).
    nia.
Qed.

Lemma decimal_bound (n : Z) :
  0 <= n -> n < 10 ^ Z.of_nat (Fmt.count_digits (Z.to_nat (Z.log2 n)) n).
Proof.
  intros Hn. apply count_digits_bound; [exact Hn|].
  rewrite Z2Nat.id by apply Z.log2_nonneg.
  destruct (Z.eq_dec n 0) as [->|Hne]; [cbn; lia|].
  pose proof (Z.log2_spec n ltac:(lia)) as [_ H].
  unfold Z.succ in H. rewrite Z.pow_add_r in H by (try apply Z.log2_nonneg; lia).
  assert (0 < 2 ^ Z.log2 n) by (apply Z.pow_pos_nonneg; [lia|apply Z.log2_nonneg]).
  lia.
Qed.

(** *** Reading the digits back *)

Lemma take_digits_rest (acc k : Z) (rest : string) :
  head_not_digit rest -> Parse.take_digits acc k rest = (acc, k, rest).
Proof. destruct rest as [|c r]; [reflexivity|]. cbn. now intros ->. Qed.

Lemma take_digits_fixed (w : nat) (n acc k : Z) (rest : string) :
  head_not_digit rest ->
  Parse.take_digits acc k (Fmt.digits_fixed w n ++ rest)
  = (acc * 10 ^ Z.of_nat w + n mod 10 ^ Z.of_nat w, k + Z.of_nat w, rest).
Proof.
  intros Hrest. revert acc k. induction w as [|w IH]; intros acc k.
  - cbn [Fmt.digits_fixed append]. rewrite take_digits_rest by assumption.
    change (Z.of_nat 0) with 0. rewrite Z.pow_0_r, Z.mod_1_r, Z.mul_1_r, !Z.add_0_r.
    reflexivity.
  - cbn [Fmt.digits_fixed append Parse.take_digits].
    set (d := n / 10 ^ Z.of_nat w mod 10).
    destruct (digit_spec d) as [Hd Hv]; [apply Z.mod_pos_bound; lia|].
    rewrite Hd, Hv, IH.
    assert (Hp : 0 < 10 ^ Z.of_nat w) by (apply Z.pow_pos_nonneg; lia).
    assert (E1 : (10 * acc + d) * 10 ^ Z.of_nat w + n mod 10 ^ Z.of_nat w
                 = acc * 10 ^ Z.of_nat (S w) + n mod 10 ^ Z.of_nat (S w)).
    { rewrite Nat2Z.inj_succ, Z.pow_succ_r by lia.
      rewrite (Z.mul_comm 10 (10 ^ Z.of_nat w)).
      rewrite (Z.rem_mul_r n (10 ^ Z.of_nat w) 10) by lia.
      fold d. ring. }
    assert (E2 : k + 1 + Z.of_nat w = k + Z.of_nat (S w)) by lia.
    rewrite E1, E2. reflexivity.
Qed.

Lemma drop_underscores_plain (s : string) (prev : option ascii) :
  all_chars plain s = true ->
  match prev with Some p => Str.is_underscore p = false | None => True end ->
  Parse.drop_underscores prev s = Some s.
Proof.
  revert prev. induction s as [|c s IH]; intros prev Hs Hprev.
  - cbn. destruct prev as [p|]; [now rewrite Hprev|reflexivity].
  - cbn [all_chars] in Hs. apply andb_true_iff in Hs. destruct Hs as [Hc Hs].
    pose proof (plain_char c) as Hp. rewrite Hc in Hp. cbn [implb] in Hp.
    apply andb_true_iff in Hp. destruct Hp as [_ Hu]. apply negb_true_iff in Hu.
    cbn [Parse.drop_underscores]. rewrite Hu.
    assert (Hpu : match prev with Some p => Str.is_underscore p | None => false end = false)
      by (destruct prev; [exact Hprev|reflexivity]).
    rewrite Hpu. cbn [andb]. rewrite (IH (Some c) Hs Hu). reflexivity.
Qed.

Lemma plain_edges (p : ascii -> bool) (s : string) :
  all_chars (fun c => negb (p c)) s = true ->
  head_ok p s = true /\ last_ok p s = true.
Proof.
  induction s as [|c s IH]; [split; reflexivity|]. cbn [all_chars].
  intros H. apply andb_true_iff in H. destruct H as [Hc Hs].
  split; [exact Hc|]. destruct s as [|d s]; [exact Hc|]. apply (IH Hs).
Qed.

Lemma strip_plain (s : string) :
  all_chars plain s = true -> Str.strip_by Str.is_c_space s = s.
Proof.
  intros H.
  assert (Hn : all_chars (fun c => negb (Str.is_c_space c)) s = true).
  { apply (all_chars_weaken plain); [|exact H].
    intros c. pose proof (plain_char c) as Hc. destruct (plain c); [|reflexivity].
    cbn [implb] in *. apply andb_true_iff in Hc. apply Hc. }
  destruct (plain_edges Str.is_c_space s Hn) as [Hh Hl].
  now apply SlugFacts.strip_fixed.
Qed.

Lemma take_sign_digit (d : ascii) (r : string) :
  Str.is_digit d = true -> Parse.take_sign (String d r) = (false, String d r).
Proof.
  destruct d as [[] [] [] [] [] [] [] []]; intros H;
    try reflexivity; vm_compute in H; discriminate.
Qed.

Lemma append_empty (s : string) : s ++ "" = s.
Proof. induction s as [|c s IH]; cbn; [reflexivity|now rewrite IH]. Qed.

Lemma decimal_head (n : Z) :
  exists d t, Fmt.decimal n = String d t /\ Str.is_digit d = true.
Proof.
  unfold Fmt.decimal.
  pose proof (count_digits_pos (Z.to_nat (Z.log2 n)) n) as Hw.
  pose proof (digits_fixed_all (Fmt.count_digits (Z.to_nat (Z.log2 n)) n) n) as Ha.
  destruct (Fmt.count_digits (Z.to_nat (Z.log2 n)) n) as [|w]; [lia|].
  cbn [Fmt.digits_fixed all_chars] in *. apply andb_true_iff in Ha.
  eexists. eexists. split; [reflexivity|apply Ha].
Qed.

Lemma fixed_plain (p : nat) (q : Z) : all_chars plain (Fmt.fixed p q) = true.
Proof.
  assert (Hd : forall w n, all_chars plain (Fmt.digits_fixed w n) = true).
  { intros w n. apply (all_chars_weaken Str.is_digit); [|apply digits_fixed_all].
    intros c. unfold plain. destruct (Str.is_digit c); reflexivity. }
  unfold Fmt.fixed, Fmt.decimal. destruct p as [|p]; [apply Hd|].
  rewrite !all_chars_app, !Hd. reflexivity.
Qed.

(** The digits before and after the point are read back as the number
    they spell. *)
Lemma parse_decimal_fixed (neg : bool) (p : nat) (q : Z) :
  (1 <= p)%nat -> 0 <= q ->
  Parse.parse_decimal neg (Fmt.fixed p q) = Some (Parse.NDec neg q (- Z.of_nat p)).
Proof.
  intros Hp Hq. destruct p as [|p']; [lia|].
  unfold Fmt.fixed. cbv iota. remember (S p') as p eqn:Ep.
  assert (Hpow : 0 < 10 ^ Z.of_nat p) by (apply Z.pow_pos_nonneg; lia).
  set (i := q / 10 ^ Z.of_nat p).
  assert (Hi : 0 <= i) by (apply Z.div_pos; lia).
  unfold Fmt.decimal. set (w := Fmt.count_digits (Z.to_nat (Z.log2 i)) i).
  pose proof (decimal_bound i Hi) as Hb. fold w in Hb.
  pose proof (count_digits_pos (Z.to_nat (Z.log2 i)) i) as Hw. fold w in Hw.
  unfold Parse.parse_decimal.
  rewrite take_digits_fixed by reflexivity.
  cbn [append].
  rewrite <- (append_empty (Fmt.digits_fixed p q)) at 1.
  rewrite take_digits_fixed by exact I.
  assert (Hn : (0 + Z.of_nat w + (0 + Z.of_nat p) =? 0) = false) by (apply Z.eqb_neq; lia).
  rewrite Hn. cbn [Parse.take_exponent].
  rewrite (Z.mod_small i) by lia.
  assert (Hv : (0 * 10 ^ Z.of_nat w + i) * 10 ^ Z.of_nat p + q mod 10 ^ Z.of_nat p = q).
  { unfold i. pose proof (Z.div_mod q (10 ^ Z.of_nat p) ltac:(lia)). lia. }
  rewrite Hv. replace (0 - (0 + Z.of_nat p)) with (- Z.of_nat p) by lia. reflexivity.
Qed.

Lemma parse_numeral_fixed (s : bool) (p : nat) (q : Z) :
  (1 <= p)%nat -> 0 <= q ->
  Parse.parse_numeral (Fmt.sign s ++ Fmt.fixed p q) = Some (Parse.NDec s q (- Z.of_nat p)).
Proof.
  intros Hp Hq. unfold Parse.parse_numeral.
  assert (Hplain : all_chars plain (Fmt.sign s ++ Fmt.fixed p q) = true).
  { rewrite all_chars_app, fixed_plain. now destruct s. }
  rewrite (drop_underscores_plain _ None Hplain I).
  assert (Hhead : exists d t, Fmt.fixed p q = String d t /\ Str.is_digit d = true).
  { unfold Fmt.fixed. destruct p as [|p']; [lia|].
    destruct (decimal_head (q / 10 ^ Z.of_nat (S p'))) as (d & t & -> & Hd).
    cbn [append]. eauto. }
  destruct Hhead as (d & t & E & Hd).
  assert (Hsign : Parse.take_sign (Fmt.sign s ++ Fmt.fixed p q) = (s, Fmt.fixed p q)).
  { destruct s; cbn [Fmt.sign append]; [reflexivity|].
    rewrite E. now apply take_sign_digit. }
  rewrite Hsign.
  pose proof (digit_char d) as Hc. rewrite Hd in Hc. cbn [implb] in Hc.
  repeat (apply andb_true_iff in Hc; destruct Hc as [Hc ?]).
  apply Ascii.eqb_eq in Hc.
  assert (Hi : Ascii.eqb d "i" = false) by now apply negb_true_iff.
  assert (Hn : Ascii.eqb d "n" = false) by now apply negb_true_iff.
  assert (Hl : Str.lower (Fmt.fixed p q) = String d (Str.lower t)).
  { rewrite E. cbn [Str.lower]. now rewrite Hc. }
  cbv zeta. rewrite Hl. cbn [String.eqb]. rewrite Hi, Hn. cbn [andb orb].
  now apply parse_decimal_fixed.
Qed.

Lemma strip_fixed_text (s : bool) (p : nat) (q : Z) :
  Str.strip_by Str.is_c_space (Fmt.sign s ++ Fmt.fixed p q) = Fmt.sign s ++ Fmt.fixed p q.
Proof.
  apply strip_plain. rewrite all_chars_app, fixed_plain. now destruct s.
Qed.

Lemma round_half_even_nonneg (num den : Z) :
  0 <= num -> 0 < den -> 0 <= Fmt.round_half_even num den.
Proof.
  intros Hn Hd. unfold Fmt.round_half_even.
  assert (0 <= num / den) by (apply Z.div_pos; lia).
  destruct (2 * (num mod den) ?= den); [destruct (Z.even _)| |]; lia.
Qed.

Lemma scaled_nonneg (p : nat) (m : positive) (e : Z) : 0 <= Fmt.scaled p m e.
Proof.
  unfold Fmt.scaled. destruct (0 <=? e) eqn:E.
  - apply Z.leb_le in E. apply Z.mul_nonneg_nonneg; [|apply Z.pow_nonneg; lia].
    apply Z.mul_nonneg_nonneg; [lia|apply Z.pow_nonneg; lia].
  - apply round_half_even_nonneg.
    + apply Z.mul_nonneg_nonneg; [lia|apply Z.pow_nonneg; lia].
    + apply Z.pow_pos_nonneg; [lia|]. apply Z.leb_gt in E. lia.
Qed.

(** What [float] reads in a text [format_fixed] wrote. *)
Lemma float_of_formatted (p : nat) (x : float) :
  (1 <= p)%nat ->
  Parse.py_float (Fmt.format_fixed p x) =
  Ok match Prim2SF x with
     | S754_nan => nan
     | S754_infinity s => if s then neg_infinity else infinity
     | S754_zero s => if s then neg_zero else PrimFloat.zero
     | S754_finite s m e =>
         Parse.float_of_numeral (Parse.NDec s (Fmt.scaled p m e) (- Z.of_nat p))
     end.
Proof.
  intros Hp. unfold Parse.py_float, Fmt.format_fixed.
  destruct (Prim2SF x) as [s|s| |s m e].
  - rewrite strip_fixed_text, parse_numeral_fixed by (lia || assumption). reflexivity.
  - destruct s; reflexivity.
  - reflexivity.
  - rewrite strip_fixed_text, parse_numeral_fixed by (assumption || apply scaled_nonneg).
    reflexivity.
Qed.

End FmtFacts.

Lemma read_costs_of_output (elevator_avg ground_avg : float) :
  plot_water_cost.read_costs (elevator_ground_cost.output elevator_avg ground_avg)
  = Ok (read_back 6 elevator_avg, read_back 6 ground_avg).
Proof.
  unfold plot_water_cost.read_costs, elevator_ground_cost.output.
  cbn [Csv.DictReader filter Csv.nonempty map Csv.zip_row Dict.set String.eqb Ascii.eqb
       Bool.eqb plot_water_cost.first_of_type Csv.field Dict.getitem Dict.get bind
       Parse.py_float_cell].
  rewrite !FmtFacts.float_of_formatted by lia. reflexivity.
Qed.

(** X23. A float written with [p >= 1] decimals is read back by [float]
    without error, whatever the float: NaN and the infinities as themselves, a
    zero with its sign, any other value as the binary64 value nearest to its
    decimal rounding (ties to even) to [p] places. *)
Theorem format_then_float (p : nat) (x : float) :
  (1 <= p)%nat ->
  Parse.py_float (Fmt.format_fixed p x) = Ok (read_back p x).
Proof.
  intros Hp. unfold read_back, Parse.py_float, Fmt.format_fixed.
  destruct (Prim2SF x) as [s|s| |s m e].
  - rewrite FmtFacts.strip_fixed_text, FmtFacts.parse_numeral_fixed by (lia || assumption).
    reflexivity.
  - destruct s; reflexivity.
  - reflexivity.
  - rewrite FmtFacts.strip_fixed_text, FmtFacts.parse_numeral_fixed
      by (assumption || apply FmtFacts.scaled_nonneg).
    reflexivity.
Qed.

Lemma format_then_float_witness :
  Parse.py_float (Fmt.format_fixed 6 0.049909999999999996%float)
  = Ok (read_back 6 0.049909999999999996%float).
Proof. apply format_then_float. lia. Defined.

Example read_back_sample :
  Fmt.format_fixed 6 0.049909999999999996%float = "0.049910"%string /\
  read_back 6 0.049909999999999996%float = 0.04991%float.
Proof. split; vm_compute; reflexivity. Qed.

(** X24. The plot script reads the file the cost script writes: whenever
    [elevator_ground_cost.py] gets as far as its averages and the capacity is
    readable, [cumulative_costs] finds both rows and both prices in the file
    written and returns the series of the two averages as they read back from
    six decimals; it raises nothing. *)
Theorem plot_reads_generated_costs (builtin_sum : Summation float)
  (dv_f water_cost : Csv.file) (elevator_avg ground_avg capacity_per_year : float) :
  elevator_ground_cost.main builtin_sum dv_f = Ok (elevator_avg, ground_avg) ->
  plot_water_cost.read_capacity water_cost = Ok capacity_per_year ->
  elevator_ground_cost.main_writes builtin_sum dv_f = Ok (elevator_ground_cost.output elevator_avg ground_avg) /\
  plot_water_cost.read_costs (elevator_ground_cost.output elevator_avg ground_avg)
    = Ok (read_back 6 elevator_avg, read_back 6 ground_avg) /\
  plot_water_cost.cumulative_costs water_cost (elevator_ground_cost.output elevator_avg ground_avg)
    = plot_water_cost.series_of capacity_per_year
        (read_back 6 elevator_avg) (read_back 6 ground_avg) /\
  exists days elevator_recovery ground_recovery,
    plot_water_cost.cumulative_costs water_cost (elevator_ground_cost.output elevator_avg ground_avg)
      = Ok (days, elevator_recovery, ground_recovery).
Proof.
  intros Hmain Hcap.
  assert (Hc : plot_water_cost.cumulative_costs water_cost (elevator_ground_cost.output elevator_avg ground_avg)
               = plot_water_cost.series_of capacity_per_year
                   (read_back 6 elevator_avg) (read_back 6 ground_avg)).
  { unfold plot_water_cost.cumulative_costs. rewrite Hcap. cbn [bind].
    rewrite read_costs_of_output. reflexivity. }
  split; [unfold elevator_ground_cost.main_writes; now rewrite Hmain|].
  split; [apply read_costs_of_output|]. split; [exact Hc|].
  rewrite Hc, series_of_b64. do 3 eexists. reflexivity.
Qed.

Lemma plot_reads_generated_costs_witness :
  elevator_ground_cost.main_writes b64_fold_sum
    [["发射场"; "总f"]; ["Space Elevator A"; "1.0"]; ["Kourou"; "7.0"]]%string
  = Ok (elevator_ground_cost.output 0.0071300000000000001%float 0.049909999999999996%float) /\
  plot_water_cost.read_costs (elevator_ground_cost.output 0.0071300000000000001%float 0.049909999999999996%float)
    = Ok (read_back 6 0.0071300000000000001%float, read_back 6 0.049909999999999996%float) /\
  plot_water_cost.cumulative_costs
      [["cost_per_ton_亿美元/吨"; "capacity_per_year_吨/年"]; ["0.05"; "5000000"]]%string
      (elevator_ground_cost.output 0.0071300000000000001%float 0.049909999999999996%float)
    = plot_water_cost.series_of 5000000%float
        (read_back 6 0.0071300000000000001%float) (read_back 6 0.049909999999999996%float) /\
  exists days elevator_recovery ground_recovery,
    plot_water_cost.cumulative_costs
      [["cost_per_ton_亿美元/吨"; "capacity_per_year_吨/年"]; ["0.05"; "5000000"]]%string
      (elevator_ground_cost.output 0.0071300000000000001%float 0.049909999999999996%float)
      = Ok (days, elevator_recovery, ground_recovery).
Proof.
  apply (plot_reads_generated_costs b64_fold_sum
           [["发射场"; "总f"]; ["Space Elevator A"; "1.0"]; ["Kourou"; "7.0"]]%string
           [["cost_per_ton_亿美元/吨"; "capacity_per_year_吨/年"]; ["0.05"; "5000000"]]%string).
  - vm_compute. reflexivity.
  - vm_compute. reflexivity.
Defined.
